(** * PContext core: a shallow embedding of the orchestrator and its properties

    The development follows the Python sources module by module:
    - [PyStr]      the Python string operations the core relies on;
    - [Resources]  core/resources.py  (ResourcePool, ResourceGuard);
    - [Sha1]       hashlib.sha1, as an executable function;
    - [Envs]       core/envs.py       (dependency hash, creation lock);
    - [Ipc]        core/ipc.py        (ServiceSession);
    - [Services]   core/services.py   (ServiceManager);
    - [Runner]     core/runner.py     (run_one_shot);
    - [ResourcesOps], [EnvsOps], [IpcOps], [ServicesOps], [RunnerOps]
                   the rest of these files: construction and policy of a
                   pool, the creation lock between processes, readiness
                   and shutdown of a session, stopping and pruning
                   services, result lines;
    - [ServiceWorker]  workers/service_worker.py (the command loop).
    The definitions come first; the properties follow, one section per
    module.

    Python [str] values are modelled by [string]; a character is read as a
    code point below 256.  Python [int] values are [Z].  Wall-clock and
    monotonic time are integers (ticks or milliseconds): every clock
    reading is supplied by an oracle of the model.  What the operating
    system, a worker process or a library outside the repository does
    ([json.loads], [str], [mkdir], process exit codes) is an input of the
    model.  A call that blocks is cut where it blocks: a wait returns what
    it returns in the state it is evaluated in, and a wait that nothing can
    end is the result [Hang]. *)

From Stdlib Require Import ZArith List String Ascii Bool Lia.
From Stdlib Require Import Sorting.Sorted.
From Stdlib Require OrderedTypeEx.
From stdpp Require Import gmap strings list sorting.

Local Open Scope Z_scope.
Set Warnings "-register-all".

(* ===================================================================== *)
(** ** Python string operations *)
(* ===================================================================== *)

Module PyStr.

(** [str.isspace] on one character (code points below 256). *)
Definition is_space (c : ascii) : bool :=
  let n := N_of_ascii c in
  ((9 <=? n)%N && (n <=? 13)%N) || ((28 <=? n)%N && (n <=? 32)%N)
  || (n =? 133)%N || (n =? 160)%N.

Fixpoint lstrip (s : string) : string :=
  match s with
  | EmptyString => EmptyString
  | String c s' => if is_space c then lstrip s' else s
  end.

Fixpoint rstrip (s : string) : string :=
  match s with
  | EmptyString => EmptyString
  | String c s' =>
      match rstrip s' with
      | EmptyString => if is_space c then EmptyString else String c EmptyString
      | r => String c r
      end
  end.

(** [s.strip()] *)
Definition strip (s : string) : string := rstrip (lstrip s).

(** truthiness of a string: [if s] *)
Definition nonempty (s : string) : bool :=
  match s with EmptyString => false | _ => true end.

(** [str.lower] on one character (code points below 256). *)
Definition lower_char (c : ascii) : ascii :=
  let n := N_of_ascii c in
  if ((65 <=? n)%N && (n <=? 90)%N)
     || ((192 <=? n)%N && (n <=? 222)%N && negb (n =? 215)%N)
  then ascii_of_N (n + 32) else c.

Fixpoint lower (s : string) : string :=
  match s with
  | EmptyString => EmptyString
  | String c s' => String (lower_char c) (lower s')
  end.

(** [s.startswith(p)] *)
Fixpoint startswith (p s : string) : bool :=
  match p, s with
  | EmptyString, _ => true
  | String a p', String b s' => if Ascii.eqb a b then startswith p' s' else false
  | String _ _, EmptyString => false
  end.

(** [s[n:]] *)
Fixpoint drop (n : nat) (s : string) : string :=
  match n, s with
  | O, _ => s
  | S n', String _ s' => drop n' s'
  | S _, EmptyString => EmptyString
  end.

(** [sep.join(l)] *)
Fixpoint join (sep : string) (l : list string) : string :=
  match l with
  | [] => EmptyString
  | [x] => x
  | x :: l' => x +:+ sep +:+ join sep l'
  end.

(** The order of [sorted] on strings: lexicographic on code points. *)
Definition str_lt (a b : string) : Prop := String.compare a b = Lt.

(** Insertion into a strictly increasing list, dropping a duplicate. *)
Fixpoint insert_uniq (x : string) (l : list string) : list string :=
  match l with
  | [] => [x]
  | y :: l' =>
      match String.compare x y with
      | Lt => x :: l
      | Eq => l
      | Gt => y :: insert_uniq x l'
      end
  end.

(** [sorted(set(l))]: the strictly increasing list of the distinct
    elements of [l]. *)
Definition sorted_set (l : list string) : list string :=
  foldr insert_uniq [] l.

End PyStr.

(* ===================================================================== *)
(** ** core/resources.py *)
(* ===================================================================== *)

(** The pool is modelled for one caller at a time: each bucket operation
    is atomic (it runs under the mutex of its bucket) and no other thread
    takes or gives back a permit while the call runs.  A semaphore without
    permit is therefore never entered: the wait is refused when its timeout
    is above [threading.TIMEOUT_MAX], it ends with the timeout, or it never
    ends. *)

Module Resources.
Import PyStr.

Inductive exn :=
| ValueError
| ResourceError (lock : string)
| ResourceTimeout (names : string)
| OverflowError.

(** What a call does: it returns, raises, or never returns (an untimed
    wait on a semaphore nobody releases). *)
Inductive outcome (A : Type) :=
| Return (a : A)
| Raise (e : exn)
| Hang.
Arguments Return {A} a.
Arguments Raise {A} e.
Arguments Hang {A}.

(** [_LockBucket]: [sem] is the value of the [threading.Semaphore]. *)
Record _LockBucket := {
  capacity : Z;
  sem : Z;
  in_use : Z
}.

(** Ghost events recording the order of bucket operations. *)
Inductive event :=
| EvAcquire (name : string)
| EvRelease (name : string).

(** [ResourcePool], with the clock-reading counter and the event log. *)
Record ResourcePool := {
  _default_capacity : Z;
  _buckets : gmap string _LockBucket;
  ticks : nat;
  trace : list event
}.

Record ResourceGuard := {
  locks : list string;
  _released : bool
}.

Definition set_buckets (p : ResourcePool) (bs : gmap string _LockBucket) :=
  {| _default_capacity := _default_capacity p; _buckets := bs;
     ticks := ticks p; trace := trace p |}.

Definition log (p : ResourcePool) (e : event) :=
  {| _default_capacity := _default_capacity p; _buckets := _buckets p;
     ticks := ticks p; trace := trace p ++ [e] |}.

(** [_LockBucket.__init__] *)
Definition new_bucket (cap : Z) : outcome _LockBucket :=
  if cap <? 1 then Raise ValueError
  else Return {| capacity := cap; sem := cap; in_use := 0 |}.

(** [_LockBucket.acquire]: the semaphore is entered at once when it has a
    permit.  Otherwise [Semaphore.acquire] waits on its condition, that is
    on a lock taken with the timeout: a positive timeout above
    [threading.TIMEOUT_MAX] makes that call raise [OverflowError]; with
    another timeout the wait lasts the whole timeout and fails; without
    timeout it never ends. *)
Definition bucket_acquire (timeout_max : Z) (b : _LockBucket)
           (timeout : option Z)
  : outcome (bool * _LockBucket) :=
  if 0 <? sem b then
    Return (true, {| capacity := capacity b; sem := sem b - 1;
                     in_use := in_use b + 1 |})
  else match timeout with
       | Some r => if (0 <? r) && (timeout_max <? r) then Raise OverflowError
                   else Return (false, b)
       | None => Hang
       end.

(** [_LockBucket.release] *)
Definition bucket_release (name : string) (b : _LockBucket) : outcome _LockBucket :=
  if in_use b <=? 0 then Raise (ResourceError name)
  else Return {| capacity := capacity b; sem := sem b + 1;
                 in_use := in_use b - 1 |}.

(** [ResourcePool._ensure_bucket(name, None)] *)
Definition _ensure_bucket (p : ResourcePool) (name : string)
  : ResourcePool * outcome _LockBucket :=
  match _buckets p !! name with
  | Some b => (p, Return b)
  | None =>
      match new_bucket (_default_capacity p) with
      | Return b => (set_buckets p (<[name := b]> (_buckets p)), Return b)
      | Raise e => (p, Raise e)
      | Hang => (p, Hang)
      end
  end.

(** The loop of [ResourcePool._release_many] over [reversed(list(locks))]. *)
Fixpoint release_loop (p : ResourcePool) (rev_locks : list string)
  : ResourcePool * outcome unit :=
  match rev_locks with
  | [] => (p, Return tt)
  | name :: rest =>
      match _buckets p !! name with
      | None => release_loop p rest
      | Some b =>
          match bucket_release name b with
          | Return b' =>
              release_loop
                (log (set_buckets p (<[name := b']> (_buckets p))) (EvRelease name))
                rest
          | Raise e => (p, Raise e)
          | Hang => (p, Hang)
          end
      end
  end.

Definition _release_many (p : ResourcePool) (locks : list string)
  : ResourcePool * outcome unit :=
  release_loop p (rev locks).

(** [ResourceGuard.release] *)
Definition guard_release (p : ResourcePool) (g : ResourceGuard)
  : ResourcePool * outcome ResourceGuard :=
  if _released g then (p, Return g)
  else match _release_many p (locks g) with
       | (p', Return _) => (p', Return {| locks := locks g; _released := true |})
       | (p', Raise e) => (p', Raise e)
       | (p', Hang) => (p', Hang)
       end.

Section WithClock.
(** [time.monotonic()]: the n-th reading of the clock. *)
Variable monotonic : nat -> Z.
(** [threading.TIMEOUT_MAX], in the unit of the clock. *)
Variable TIMEOUT_MAX : Z.

Definition read_clock (p : ResourcePool) : ResourcePool * Z :=
  ({| _default_capacity := _default_capacity p; _buckets := _buckets p;
      ticks := S (ticks p); trace := trace p |}, monotonic (ticks p)).

(** The names of [try_acquire]:
    [sorted({str(x).strip() for x in locks if str(x).strip()})]. *)
Definition lock_names (locks : list string) : list string :=
  sorted_set (List.filter nonempty (List.map strip locks)).

(** The [for name in names] loop of [try_acquire]; [None] is the
    [return None] of the source. *)
Fixpoint acquire_loop (p : ResourcePool) (deadline : option Z)
         (names acquired : list string)
  : ResourcePool * outcome (option ResourceGuard) :=
  match names with
  | [] => (p, Return (Some {| locks := acquired; _released := false |}))
  | name :: rest =>
      let '(p1, remaining) :=
        match deadline with
        | None => (p, None)
        | Some d => let '(p1, now) := read_clock p in
                    (p1, Some (Z.max 0 (d - now)))
        end in
      let rollback (q : ResourcePool) :=
        match _release_many q acquired with
        | (q', Return _) => (q', Return None)
        | (q', Raise e) => (q', Raise e)
        | (q', Hang) => (q', Hang)
        end in
      if match remaining with Some r => r =? 0 | None => false end
      then rollback p1
      else
        match _ensure_bucket p1 name with
        | (p2, Return b) =>
            match bucket_acquire TIMEOUT_MAX b remaining with
            | Return (true, b') =>
                acquire_loop
                  (log (set_buckets p2 (<[name := b']> (_buckets p2)))
                       (EvAcquire name))
                  deadline rest (acquired ++ [name])
            | Return (false, _) => rollback p2
            | Raise e => (p2, Raise e)
            | Hang => (p2, Hang)
            end
        | (p2, Raise e) => (p2, Raise e)
        | (p2, Hang) => (p2, Hang)
        end
  end.

(** [ResourcePool.try_acquire] *)
Definition try_acquire (p : ResourcePool) (locks : list string)
           (timeout : option Z)
  : ResourcePool * outcome (option ResourceGuard) :=
  match locks with
  | [] => (p, Return (Some {| locks := []; _released := false |}))
  | _ =>
      let names := lock_names locks in
      let '(p1, deadline) :=
        match timeout with
        | None => (p, None)
        | Some t => let '(p1, now) := read_clock p in
                    (p1, Some (now + Z.max 0 t))
        end in
      acquire_loop p1 deadline names []
  end.

(** [ResourcePool.acquire]: an exception of [try_acquire] passes
    through. *)
Definition acquire (p : ResourcePool) (locks : list string)
           (timeout : option Z)
  : ResourcePool * outcome ResourceGuard :=
  match try_acquire p locks timeout with
  | (p', Return (Some g)) => (p', Return g)
  | (p', Return None) =>
      (p', Raise (ResourceTimeout (join ", " (sorted_set locks))))
  | (p', Raise e) => (p', Raise e)
  | (p', Hang) => (p', Hang)
  end.

End WithClock.

(** [ResourcePool.__init__] without a policy. *)
Definition new_pool (default_capacity : Z) : outcome ResourcePool :=
  if default_capacity <? 1 then Raise ValueError
  else Return {| _default_capacity := default_capacity; _buckets := ∅;
                 ticks := 0; trace := [] |}.

(** [ResourcePool.update_policy] for one entry [(name, cap)]. *)
Definition update_policy1 (p : ResourcePool) (name : string) (cap : Z)
  : ResourcePool :=
  let cap := if 0 <? cap then cap else 1 in
  match _buckets p !! name with
  | None => set_buckets p (<[name := {| capacity := cap; sem := cap; in_use := 0 |}]>
                             (_buckets p))
  | Some b =>
      if capacity b <? cap then
        set_buckets p (<[name := {| capacity := cap;
                                    sem := sem b + (cap - capacity b);
                                    in_use := in_use b |}]> (_buckets p))
      else p
  end.

(** [bucket.in_use], zero for a name without bucket. *)
Definition in_use_of (p : ResourcePool) (name : string) : Z :=
  match _buckets p !! name with Some b => in_use b | None => 0 end.

(** Permits left in a bucket; an absent bucket would be created full. *)
Definition permits_of (p : ResourcePool) (name : string) : Z :=
  match _buckets p !! name with Some b => sem b | None => _default_capacity p end.

(** Pools as the constructor and the operations leave them. *)
Definition pool_wf (p : ResourcePool) : Prop :=
  1 <= _default_capacity p /\
  forall name b, _buckets p !! name = Some b -> 0 <= in_use b /\ 0 <= sem b.

(** One when [n] is among the names [l], zero otherwise. *)

Definition held (l : list string) (n : string) : Z :=
  if decide (n ∈ l) then 1 else 0.

(** What the loop of [try_acquire] leaves behind, by its four results. *)
Definition loop_post (monotonic : nat -> Z) (timeout_max : Z)
           (p p' : ResourcePool) (deadline : option Z)
           (names acquired done : list string)
           (r : outcome (option ResourceGuard)) : Prop :=
  match r with
  | Return (Some g) =>
      done = names /\
      g = {| locks := acquired ++ names; _released := false |} /\
      trace p' = trace p ++ List.map EvAcquire names /\
      (forall n, in_use_of p' n = in_use_of p n + held names n) /\
      (forall n, permits_of p' n = permits_of p n - held names n) /\
      (forall n, n ∈ names -> 1 <= permits_of p n)
  | Return None =>
      deadline <> None /\ done <> names /\
      trace p' = trace p ++ List.map EvAcquire done
                         ++ List.map EvRelease (rev (acquired ++ done)) /\
      (forall n, in_use_of p' n = in_use_of p n - held acquired n) /\
      (forall n, permits_of p' n = permits_of p n + held acquired n)
  | Raise e =>
      e = OverflowError /\ done <> names /\
      trace p' = trace p ++ List.map EvAcquire done /\
      (forall n, in_use_of p' n = in_use_of p n + held done n) /\
      (forall n, permits_of p' n = permits_of p n - held done n) /\
      exists d k, deadline = Some d /\ (ticks p <= k)%nat /\
                  0 < d - monotonic k /\ timeout_max < d - monotonic k
  | Hang =>
      deadline = None /\ done <> names /\
      trace p' = trace p ++ List.map EvAcquire done
  end.

End Resources.

(* ===================================================================== *)
(** ** hashlib.sha1 and str.encode("utf-8") *)
(* ===================================================================== *)

Module Sha1.

Definition w32 (x : Z) : Z := x mod 4294967296.

Definition rotl (n x : Z) : Z :=
  w32 (Z.lor (Z.shiftl x n) (Z.shiftr x (32 - n))).

(** [s.encode("utf-8")] for code points below 256. *)
Fixpoint utf8 (s : string) : list Z :=
  match s with
  | EmptyString => []
  | String c s' =>
      let n := Z.of_N (N_of_ascii c) in
      if n <? 128 then n :: utf8 s'
      else (192 + n / 64) :: (128 + n mod 64) :: utf8 s'
  end.

(** Big-endian bytes of [x], [n] of them. *)
Fixpoint be_bytes (n : nat) (x : Z) : list Z :=
  match n with
  | O => []
  | S n' => be_bytes n' (x / 256) ++ [x mod 256]
  end.

(** The message, the bit [1], zeros up to 56 modulo 64, and the length in
    bits on eight bytes. *)
Definition pad (msg : list Z) : list Z :=
  let len := Z.of_nat (length msg) in
  let zeros := Z.to_nat ((55 - len) mod 64) in
  msg ++ [128] ++ repeat 0 zeros ++ be_bytes 8 (8 * len).

Fixpoint words (n : nat) (bytes : list Z) : list Z :=
  match n with
  | O => []
  | S n' =>
      match bytes with
      | a :: b :: c :: d :: rest =>
          (((a * 256 + b) * 256 + c) * 256 + d) :: words n' rest
      | _ => []
      end
  end.

Definition nthw (i : nat) (ws : list Z) : Z := nth i ws 0.

(** The eighty rounds on one block; [ws] is the window of the sixteen
    message words from round [i] on. *)
Fixpoint rounds (n : nat) (i : Z) (ws : list Z) (a b c d e : Z)
  : Z * Z * Z * Z * Z :=
  match n with
  | O => (a, b, c, d, e)
  | S n' =>
      let w := nthw 0 ws in
      let f :=
        if i <? 20 then Z.lor (Z.land b c) (Z.land (Z.lxor b 4294967295) d)
        else if i <? 40 then Z.lxor (Z.lxor b c) d
        else if i <? 60 then
          Z.lor (Z.lor (Z.land b c) (Z.land b d)) (Z.land c d)
        else Z.lxor (Z.lxor b c) d in
      let k :=
        if i <? 20 then 1518500249
        else if i <? 40 then 1859775393
        else if i <? 60 then 2400959708
        else 3395469782 in
      let temp := w32 (rotl 5 a + f + e + k + w) in
      let nw := rotl 1 (Z.lxor (Z.lxor (nthw 13 ws) (nthw 8 ws))
                               (Z.lxor (nthw 2 ws) (nthw 0 ws))) in
      rounds n' (i + 1) (tl ws ++ [nw]) temp a (rotl 30 b) c d
  end.

Fixpoint blocks (n : nat) (bytes : list Z) (h : Z * Z * Z * Z * Z)
  : Z * Z * Z * Z * Z :=
  match n with
  | O => h
  | S n' =>
      let '(h0, h1, h2, h3, h4) := h in
      let '(a, b, c, d, e) := rounds 80 0 (words 16 bytes) h0 h1 h2 h3 h4 in
      blocks n' (skipn 64 bytes)
             (w32 (h0 + a), w32 (h1 + b), w32 (h2 + c), w32 (h3 + d), w32 (h4 + e))
  end.

Definition hex_digit (x : Z) : ascii :=
  if x <? 10 then ascii_of_N (Z.to_N (48 + x)) else ascii_of_N (Z.to_N (87 + x)).

Fixpoint hex (n : nat) (x : Z) : string :=
  match n with
  | O => EmptyString
  | S n' => hex n' (x / 16) +:+ String (hex_digit (x mod 16)) EmptyString
  end.

(** [hashlib.sha1(data).hexdigest()] *)
Definition hexdigest (data : list Z) : string :=
  let bytes := pad data in
  let '(h0, h1, h2, h3, h4) :=
    blocks (length bytes / 64) bytes
           (1732584193, 4023233417, 2562383102, 271733878, 3285377520) in
  hex 8 h0 +:+ hex 8 h1 +:+ hex 8 h2 +:+ hex 8 h3 +:+ hex 8 h4.

End Sha1.

(* ===================================================================== *)
(** ** core/envs.py *)
(* ===================================================================== *)

Module Envs.
Import PyStr.

Definition nl : string := String (ascii_of_N 10) EmptyString.

(** [s[:n]] *)
Fixpoint take (n : nat) (s : string) : string :=
  match n, s with
  | S n', String c s' => String c (take n' s')
  | _, _ => EmptyString
  end.

(** [str.isalnum] on one character (code points below 256). *)
Definition is_alnum (c : ascii) : bool :=
  let n := N_of_ascii c in
  let between (a b : N) := ((a <=? n)%N && (n <=? b)%N) in
  (between 48 57 || between 65 90 || between 97 122
   || (n =? 170) || between 178 179 || (n =? 181) || between 185 186
   || between 188 190 || between 192 214 || between 216 246
   || between 248 255)%N.

Fixpoint sanitize_chars (s : string) : string :=
  match s with
  | EmptyString => EmptyString
  | String ch s' =>
      let keep := is_alnum ch
                  || Ascii.eqb ch "-" || Ascii.eqb ch "_"
                  || Ascii.eqb ch "." || Ascii.eqb ch "+" in
      String (if keep then ch else "_"%char) (sanitize_chars s')
  end.

(** [_sanitize_id] *)
Definition _sanitize_id (s : string) : string :=
  let out := sanitize_chars (strip s) in
  if nonempty out then out else "script"%string.

(** The loop of [_normalize_packages]: [seen] holds the lower-cased keys,
    [items] the entries as they were written. *)
Fixpoint normalize_loop (packages : list string) (seen : gset string)
         (items : list string) : list string :=
  match packages with
  | [] => items
  | p :: rest =>
      let s := strip p in
      if negb (nonempty s) then normalize_loop rest seen items
      else
        let key := lower s in
        if decide (key ∈ seen) then normalize_loop rest seen items
        else normalize_loop rest ({[ key ]} ∪ seen) (items ++ [s])
  end.

(** [list.sort(key=...)]: a stable sort on the keys. *)
Fixpoint insert_by_key (key : string -> string) (x : string) (l : list string)
  : list string :=
  match l with
  | [] => [x]
  | y :: l' =>
      if String.leb (key x) (key y) then x :: l
      else y :: insert_by_key key x l'
  end.

Definition sort_by_key (key : string -> string) (l : list string) : list string :=
  foldr (insert_by_key key) [] l.

(** [_normalize_packages] *)
Definition _normalize_packages (packages : list string) : list string :=
  sort_by_key lower (normalize_loop packages ∅ []).

(** The entries [_normalize_packages] looks at: trimmed, blank ones
    dropped. *)
Definition entries (packages : list string) : list string :=
  List.filter nonempty (List.map strip packages).

(** The order of [items.sort(key=...)] when no two keys are equal. *)
Definition key_lt (key : string -> string) (a b : string) : Prop :=
  str_lt (key a) (key b).

(** [compute_deps_hash] *)
Definition compute_deps_hash (packages : list string) (python_id : string)
  : string :=
  let pkgs := _normalize_packages packages in
  let data := Sha1.utf8 (python_id +:+ nl +:+ join nl pkgs) in
  let h := take 12 (Sha1.hexdigest data) in
  python_id +:+ "-" +:+ h.

Inductive exn :=
| TimeoutError (msg : string)
| EnvironmentSetupError (msg : string)
| DependencyError (msg : string).

Inductive outcome (A : Type) :=
| Return (a : A)
| Raise (e : exn).
Arguments Return {A} a.
Arguments Raise {A} e.

Definition bind {A B} (m : outcome A) (k : A -> outcome B) : outcome B :=
  match m with
  | Return a => k a
  | Raise e => Raise e
  end.

Inductive mkdir_result :=
| MkdirOk
| FileExistsError
| MkdirFailed.

(** What one call of the provisioner observes of the machine.  Times are in
    milliseconds; paths are joined with a slash. *)
Record world := {
  mkdir_at : nat -> mkdir_result;  (* the n-th [lock_dir.mkdir] *)
  time_at : nat -> Z;              (* the n-th [time.time()] *)
  sys_executable : string;
  python_version_id : string -> string;  (* [_python_version_id] *)
  venvs_root : string;
  os_nt : bool;
  ready_fast : bool;    (* interpreter and ready marker exist, before the lock *)
  ready_locked : bool;  (* the same check under the lock *)
  venv_present : bool;  (* [vpy.exists()] in [_ensure_venv] *)
  venv_rc : Z;
  pip_present : bool;   (* [pip_version(venv_python)] is not empty *)
  ensurepip_rc : Z;
  base_tools_rc : Z;
  pip_install_rc : Z
}.

(** [a / b] of [pathlib], for paths written with single slashes: an
    absolute [b] replaces [a], an empty [b] and the component [.] add
    nothing. *)
Definition path_join (a b : string) : string :=
  if startswith "/" b then b
  else if negb (nonempty b) || String.eqb b "." then a
  else a +:+ "/" +:+ b.

(** The last component of a path and what precedes it: [Path.name],
    [Path.parent]. *)
Fixpoint split_last (s : string) (dir cur : string) : string * string :=
  match s with
  | EmptyString => (dir, cur)
  | String c s' =>
      if Ascii.eqb c "/" then split_last s' (dir +:+ cur +:+ "/") EmptyString
      else split_last s' dir (cur +:+ String c EmptyString)
  end.

(** [_lock_path_for_env] *)
Definition _lock_path_for_env (env_path : string) : string :=
  let '(root, name) := split_last env_path EmptyString EmptyString in
  root +:+ ".lock-" +:+ name.

(** [_venv_python_path] *)
Definition _venv_python_path (w : world) (venv_path : string) : string :=
  if os_nt w then path_join (path_join venv_path "Scripts") "python.exe"
  else path_join (path_join venv_path "bin") "python".

Record _CreationLock := {
  lock_dir : string;
  timeout : Z;
  poll : Z;
  acquired : bool
}.

(** [_CreationLock.__init__] with its defaults: ten minutes, a fifth of a
    second. *)
Definition new_lock (dir : string) : _CreationLock :=
  {| lock_dir := dir; timeout := 600000; poll := 200; acquired := false |}.

(** How many [mkdir] attempts and clock readings the call has made. *)
Record counters := {
  attempts : nat;
  readings : nat
}.

(** The [while True] loop of [_CreationLock.acquire]; [None] when [fuel]
    iterations were not enough to leave it. *)
Fixpoint acquire_poll (fuel : nat) (w : world) (lk : _CreationLock)
         (start : Z) (c : counters)
  : option (bool * _CreationLock * counters) :=
  match fuel with
  | O => None
  | S fuel' =>
      match mkdir_at w (attempts c) with
      | MkdirOk =>
          Some (true,
                {| lock_dir := lock_dir lk; timeout := timeout lk;
                   poll := poll lk; acquired := true |},
                {| attempts := S (attempts c); readings := readings c |})
      | _ =>
          let now := time_at w (readings c) in
          let c' := {| attempts := S (attempts c); readings := S (readings c) |} in
          if timeout lk <? now - start then Some (false, lk, c')
          else acquire_poll fuel' w lk start c'
      end
  end.

(** [_CreationLock.acquire] *)
Definition lock_acquire (fuel : nat) (w : world) (lk : _CreationLock)
           (c : counters) : option (bool * _CreationLock * counters) :=
  if acquired lk then Some (true, lk, c)
  else
    let start := time_at w (readings c) in
    acquire_poll fuel w lk start
                 {| attempts := attempts c; readings := S (readings c) |}.

(** [_CreationLock.__enter__] *)
Definition lock_enter (fuel : nat) (w : world) (lk : _CreationLock)
           (c : counters) : option (outcome _CreationLock) :=
  match lock_acquire fuel w lk c with
  | None => None
  | Some (true, lk', _) => Some (Return lk')
  | Some (false, lk', _) => Some (Raise (TimeoutError (lock_dir lk')))
  end.

(** [_ensure_venv].  [subprocess.run] is taken to start the interpreter:
    what is modelled is its return code. *)
Definition _ensure_venv (w : world) (env_path : string) : outcome unit :=
  if venv_present w then Return tt
  else if negb (venv_rc w =? 0) then Raise (EnvironmentSetupError env_path)
  else Return tt.

(** [_ensure_pip_present] *)
Definition _ensure_pip_present (w : world) : outcome unit :=
  if pip_present w then Return tt
  else if negb (ensurepip_rc w =? 0)
       then Raise (EnvironmentSetupError "ensurepip")
       else Return tt.

(** [deps.ensure_base_tools] *)
Definition ensure_base_tools (w : world) : outcome unit :=
  if negb (base_tools_rc w =? 0) then Raise (DependencyError "base tools")
  else Return tt.

(** [deps.pip_install] *)
Definition pip_install (w : world) (packages : list string) : outcome unit :=
  match List.filter (fun p => nonempty (strip p)) packages with
  | [] => Return tt
  | _ => if negb (pip_install_rc w =? 0)
         then Raise (DependencyError "pip install")
         else Return tt
  end.

Record ScriptMeta := {
  stable_id : string;
  python_interpreter : option string;
  depends_pip : list string
}.

Inductive EnvMode := CACHED | PER_SCRIPT.

Record EnvHandle := {
  path : string;
  python : string;
  kind : string;
  key : string;
  created : bool
}.

(** [ensure_environment]; [None] when the wait for the creation lock
    outlasts [fuel] polls.  The calls modelled are those in which
    [_pip_options_from_config] returns and every interpreter that is run
    can be started: a [ConfigError] of the first, raised before the lock is
    taken, and an [OSError] of [subprocess] are not outcomes of the
    model. *)
Definition ensure_environment (fuel : nat) (w : world) (meta : ScriptMeta)
           (env_mode : EnvMode) : option (outcome EnvHandle) :=
  let creator_python :=
    match python_interpreter meta with
    | Some p => if nonempty p then p else sys_executable w
    | None => sys_executable w
    end in
  let py_id := python_version_id w creator_python in
  let pkgs_norm := _normalize_packages (depends_pip meta) in
  let '(key, env_path, kind) :=
    match env_mode with
    | CACHED =>
        let key := compute_deps_hash pkgs_norm py_id in
        (key, path_join (venvs_root w) key, "cached"%string)
    | PER_SCRIPT =>
        let key := stable_id meta in
        (key, path_join (path_join (venvs_root w) "scripts") (_sanitize_id key),
         "per-script"%string)
    end in
  let vpy := _venv_python_path w env_path in
  let handle (c : bool) :=
    {| path := env_path; python := vpy; kind := kind; key := key; created := c |} in
  if ready_fast w then Some (Return (handle false))
  else
    let lock := new_lock (_lock_path_for_env env_path) in
    match lock_enter fuel w lock {| attempts := 0; readings := 0 |} with
    | None => None
    | Some (Raise e) => Some (Raise e)
    | Some (Return _) =>
        if ready_locked w then Some (Return (handle false))
        else
          Some (bind (_ensure_venv w env_path) (fun _ =>
                bind (_ensure_pip_present w) (fun _ =>
                bind (ensure_base_tools w) (fun _ =>
                bind (match pkgs_norm with
                      | [] => Return tt
                      | _ => pip_install w pkgs_norm
                      end) (fun _ =>
                Return (handle true))))))
    end.

End Envs.

(* ===================================================================== *)
(** ** core/ipc.py *)
(* ===================================================================== *)

Module Ipc.
Import PyStr.

(** The values [json.loads] returns.  A float is [m] times ten to the [e];
    an object lists its members, each key once. *)
Inductive json :=
| JNull
| JBool (b : bool)
| JInt (z : Z)
| JFloat (m e : Z)
| JStr (s : string)
| JArr (items : list json)
| JObj (fields : list (string * json)).

Fixpoint obj_get (fields : list (string * json)) (k : string) : option json :=
  match fields with
  | [] => None
  | (k', v) :: rest => if String.eqb k' k then Some v else obj_get rest k
  end.

(** [bool(v)] *)
Definition truthy (v : json) : bool :=
  match v with
  | JNull => false
  | JBool b => b
  | JInt z => negb (z =? 0)
  | JFloat m _ => negb (m =? 0)
  | JStr s => nonempty s
  | JArr [] => false
  | JArr _ => true
  | JObj [] => false
  | JObj _ => true
  end.

(** Lists and dicts cannot be dictionary keys. *)
Definition hashable (v : json) : bool :=
  match v with
  | JArr _ | JObj _ => false
  | _ => true
  end.

Inductive exn :=
| IPCError (msg : string)
| AttributeError
| TypeError.

Inductive outcome (A : Type) :=
| Return (a : A)
| Raise (e : exn)
| Hang.
Arguments Return {A} a.
Arguments Raise {A} e.
Arguments Hang {A}.

(** [payload.get(k, default)]: only a dict has [get]. *)
Definition payload_get (payload : json) (k : string) (default : json)
  : exn + json :=
  match payload with
  | JObj fields =>
      inr (match obj_get fields k with Some v => v | None => default end)
  | _ => inl AttributeError
  end.

(** [a or b] *)
Definition py_or (a b : json) : json := if truthy a then a else b.

Inductive tag := READY | RESP | EXC | BYE.

Definition READY_PREFIX : string := "PCTX:READY ".
Definition RESP_PREFIX : string := "PCTX:RESP ".
Definition EXC_PREFIX : string := "PCTX:EXC ".
Definition BYE_PREFIX : string := "PCTX:BYE ".

(** [raw.rstrip("\r\n")] *)
Fixpoint rstrip_crlf (s : string) : string :=
  match s with
  | EmptyString => EmptyString
  | String c s' =>
      match rstrip_crlf s' with
      | EmptyString =>
          if (N_of_ascii c =? 13)%N || (N_of_ascii c =? 10)%N
          then EmptyString else String c EmptyString
      | r => String c r
      end
  end.

Record ServiceResponse := {
  ok : bool;
  req_id : json;
  result : json;
  error_type : option string;
  error_message : option string;
  traceback : option string
}.

Record ReadyInfo := {
  ready_ok : bool;
  entry : json;
  ready_data : json
}.

Record ByeInfo := {
  bye_ok : bool;
  reason : json;
  bye_data : json
}.

(** A slot [{"evt": Event, "resp": ..., "req_id": ...}]; [evt] tells whether
    the event is set. *)
Record Slot := {
  evt : bool;
  resp : option ServiceResponse;
  slot_req_id : string
}.

(** The test ["resp" not in slot] of the reader: [request] and [ping] build
    every slot with the key ["resp"], bound to [None], and no code removes
    a key. *)
Definition resp_key_absent (sl : Slot) : bool := false.

(** [ServiceSession].  [slots] holds the slot objects by identity (each has
    its own request identifier); [_pending] is the table, whose entry for an
    identifier is the slot object of that identifier.  A waiter keeps its
    slot object after the entry is popped. *)
Record ServiceSession := {
  slots : gmap string Slot;
  _pending : gset string;
  _ready_evt : bool;
  _ready_info : option ReadyInfo;
  _bye_evt : bool;
  _bye_info : option ByeInfo
}.

Definition new_session : ServiceSession :=
  {| slots := ∅; _pending := ∅; _ready_evt := false; _ready_info := None;
     _bye_evt := false; _bye_info := None |}.

Definition with_slots (s : ServiceSession) (sl : gmap string Slot) :=
  {| slots := sl; _pending := _pending s; _ready_evt := _ready_evt s;
     _ready_info := _ready_info s; _bye_evt := _bye_evt s;
     _bye_info := _bye_info s |}.

Definition with_pending (s : ServiceSession) (pd : gset string) :=
  {| slots := slots s; _pending := pd; _ready_evt := _ready_evt s;
     _ready_info := _ready_info s; _bye_evt := _bye_evt s;
     _bye_info := _bye_info s |}.

Definition set_ready (s : ServiceSession) (info : option ReadyInfo) :=
  {| slots := slots s; _pending := _pending s; _ready_evt := true;
     _ready_info := info; _bye_evt := _bye_evt s; _bye_info := _bye_info s |}.

Definition set_bye (s : ServiceSession) (info : option ByeInfo) :=
  {| slots := slots s; _pending := _pending s; _ready_evt := _ready_evt s;
     _ready_info := _ready_info s; _bye_evt := true; _bye_info := info |}.

(** [self._pending.get(req_id)]: [TypeError] on an unhashable key; the keys
    of the table are strings. *)
Definition pending_get (s : ServiceSession) (req_id : json)
  : exn + option (string * Slot) :=
  if negb (hashable req_id) then inl TypeError
  else match req_id with
       | JStr k =>
           if decide (k ∈ _pending s) then
             inr (match slots s !! k with
                  | Some sl => Some (k, sl)
                  | None => None
                  end)
           else inr None
       | _ => inr None
       end.

(** [slot["resp"] = r; slot["evt"].set()] *)
Definition deliver (s : ServiceSession) (k : string) (sl : Slot)
           (r : ServiceResponse) : ServiceSession :=
  with_slots s (<[k := {| evt := true; resp := Some r;
                          slot_req_id := slot_req_id sl |}]> (slots s)).

Section WithJson.
(** [json.loads], [None] when it raises; [str] of a decoded value. *)
Variable json_loads : string -> option json.
Variable py_str : json -> string.

(** [json.loads(raw) if raw else {}], and [{}] when that raises. *)
Definition load_payload (raw : string) : json :=
  if nonempty raw then
    match json_loads raw with
    | Some v => v
    | None => JObj []
    end
  else JObj [].

(** [parse_service_line] *)
Definition parse_service_line (line : string) : option (tag * json) :=
  if negb (startswith "PCTX:" line) then None
  else if startswith READY_PREFIX line
       then Some (READY, load_payload (drop (String.length READY_PREFIX) line))
  else if startswith RESP_PREFIX line
       then Some (RESP, load_payload (drop (String.length RESP_PREFIX) line))
  else if startswith EXC_PREFIX line
       then Some (EXC, load_payload (drop (String.length EXC_PREFIX) line))
  else if startswith BYE_PREFIX line
       then Some (BYE, load_payload (drop (String.length BYE_PREFIX) line))
  else None.

(** The body of the reader's [for] loop on one parsed line; [Some e] when
    the handling raises. *)
Definition dispatch (s : ServiceSession) (t : tag) (payload : json)
  : ServiceSession * option exn :=
  match t with
  | READY =>
      match payload_get payload "ok" (JBool true) with
      | inr okv =>
          match payload_get payload "entry" JNull with
          | inr en =>
              (set_ready s (Some {| ready_ok := truthy okv; entry := en;
                                    ready_data := py_or payload (JObj []) |}),
               None)
          | inl e => (s, Some e)
          end
      | inl e => (s, Some e)
      end
  | RESP =>
      match payload_get payload "req_id" JNull with
      | inr rid =>
          match pending_get s rid with
          | inr None => (s, None)
          | inr (Some (k, sl)) =>
              match payload_get payload "result" JNull with
              | inr res =>
                  (deliver s k sl
                     {| ok := true; req_id := rid; result := res;
                        error_type := None; error_message := None;
                        traceback := None |}, None)
              | inl e => (s, Some e)
              end
          | inl e => (s, Some e)
          end
      | inl e => (s, Some e)
      end
  | EXC =>
      match payload_get payload "req_id" JNull with
      | inr rid =>
          let field k d :=
            match payload with
            | JObj fields =>
                py_str (py_or (match obj_get fields k with
                               | Some v => v
                               | None => JNull
                               end) (JStr d))
            | _ => d
            end in
          let r := {| ok := false; req_id := rid; result := JNull;
                      error_type := Some (field "error_type" "Error");
                      error_message := Some (field "error_message" "");
                      traceback := Some (field "traceback" "") |}%string in
          if truthy rid then
            match pending_get s rid with
            | inr None => (s, None)
            | inr (Some (k, sl)) => (deliver s k sl r, None)
            | inl e => (s, Some e)
            end
          else if negb (_ready_evt s) then
            (set_ready s (Some {| ready_ok := false; entry := JNull;
                                  ready_data :=
                                    JObj [("error"%string,
                                           JStr (field "error_message" ""%string))] |}),
             None)
          else (s, None)
      | inl e => (s, Some e)
      end
  | BYE =>
      match payload_get payload "ok" (JBool true) with
      | inr okv =>
          match payload_get payload "reason" JNull with
          | inr rs =>
              (set_bye s (Some {| bye_ok := truthy okv; reason := rs;
                                  bye_data := py_or payload (JObj []) |}),
               None)
          | inl e => (s, Some e)
          end
      | inl e => (s, Some e)
      end
  end.

(** One iteration of the reader on a raw line. *)
Definition reader_step (s : ServiceSession) (raw : string)
  : ServiceSession * option exn :=
  match parse_service_line (rstrip_crlf raw) with
  | None => (s, None)
  | Some (t, payload) => dispatch s t payload
  end.

(** The [for raw in self._stdout] loop, until a line's handling raises. *)
Fixpoint reader_lines (s : ServiceSession) (lines : list string)
  : ServiceSession * option exn :=
  match lines with
  | [] => (s, None)
  | raw :: rest =>
      match reader_step s raw with
      | (s', None) => reader_lines s' rest
      | (s', Some e) => (s', Some e)
      end
  end.

(** How the loop ends when no handling raised: the stream is exhausted,
    reading raises, or the stop event is seen. *)
Inductive stream_end := Eof | ReadError | Stopped.

(** The [except Exception] block. *)
Definition on_exception (s : ServiceSession) : ServiceSession :=
  let s1 := {| slots := slots s; _pending := _pending s; _ready_evt := true;
               _ready_info := _ready_info s; _bye_evt := true;
               _bye_info := _bye_info s |} in
  with_slots s1
    (map_imap (fun k sl =>
       Some (if bool_decide (k ∈ _pending s) && resp_key_absent sl then
               {| evt := true;
                  resp := Some {| ok := false; req_id := JStr (slot_req_id sl);
                                  result := JNull;
                                  error_type := Some "IPCError"%string;
                                  error_message := Some "connection lost"%string;
                                  traceback := None |};
                  slot_req_id := slot_req_id sl |}
             else sl)) (slots s)).

(** The [finally] block. *)
Definition on_finally (s : ServiceSession) : ServiceSession :=
  let s1 := {| slots := slots s; _pending := _pending s; _ready_evt := true;
               _ready_info := _ready_info s; _bye_evt := true;
               _bye_info := _bye_info s |} in
  with_slots s1
    (map_imap (fun k sl =>
       Some (if decide (k ∈ _pending s) then
               {| evt := true; resp := resp sl; slot_req_id := slot_req_id sl |}
             else sl)) (slots s)).

(** [_reader_loop]: the lines read, then how the stream ended. *)
Definition _reader_loop (s : ServiceSession) (lines : list string)
           (e : stream_end) : ServiceSession :=
  match reader_lines s lines with
  | (s1, Some _) => on_finally (on_exception s1)
  | (s1, None) =>
      match e with
      | ReadError => on_finally (on_exception s1)
      | Eof | Stopped => on_finally s1
      end
  end.

End WithJson.

(** [request] and [ping] up to their wait: the slot is registered under a
    fresh identifier and the operation is written; [send_ok] tells whether
    the write succeeds. *)
Definition register (s : ServiceSession) (rid : string) : ServiceSession :=
  {| slots := <[rid := {| evt := false; resp := None; slot_req_id := rid |}]> (slots s);
     _pending := {[ rid ]} ∪ _pending s; _ready_evt := _ready_evt s;
     _ready_info := _ready_info s; _bye_evt := _bye_evt s;
     _bye_info := _bye_info s |}.

Definition pop (s : ServiceSession) (rid : string) : ServiceSession :=
  with_pending s (_pending s ∖ {[ rid ]}).

Definition request_begin (s : ServiceSession) (rid : string) (send_ok : bool)
  : ServiceSession * outcome unit :=
  let s1 := register s rid in
  if send_ok then (s1, Return tt)
  else (pop s1 rid, Raise (IPCError "stdin")).

Definition ping_begin (s : ServiceSession) (rid : string) (send_ok : bool)
  : ServiceSession * outcome (option bool) :=
  let s1 := register s rid in
  if send_ok then (s1, Return None)
  else (pop s1 rid, Return (Some false)).

(** [slot["evt"].wait(timeout)] when the session no longer changes: [true]
    at once if the event is set, [false] once the timeout is over, and no
    return without a timeout. *)
Definition wait (sl : Slot) (timeout : option Z) : outcome bool :=
  if evt sl then Return true
  else match timeout with
       | Some _ => Return false
       | None => Hang
       end.

(** The rest of [request], from the wait on.  The identifier is one that
    [request_begin] registered, so its slot exists. *)
Definition request_end (s : ServiceSession) (rid : string) (timeout : option Z)
  : ServiceSession * outcome ServiceResponse :=
  match slots s !! rid with
  | None => (s, Hang)
  | Some sl =>
      match wait sl timeout with
      | Return okw =>
          let s' := pop s rid in
          match okw, resp sl with
          | true, Some r => (s', Return r)
          | _, _ => (s', Raise (IPCError "timeout"))
          end
      | Raise e => (s, Raise e)
      | Hang => (s, Hang)
      end
  end.

(** The rest of [ping], from the wait on. *)
Definition ping_end (s : ServiceSession) (rid : string) (timeout : option Z)
  : ServiceSession * outcome bool :=
  match slots s !! rid with
  | None => (s, Hang)
  | Some sl =>
      match wait sl timeout with
      | Return false => (pop s rid, Return false)
      | Return true =>
          match resp sl with
          | Some r => (s, Return (ok r))
          | None => (s, Raise AttributeError)
          end
      | Raise e => (s, Raise e)
      | Hang => (s, Hang)
      end
  end.

(** A waiter is woken when the event of its slot is set. *)
Definition woken (s : ServiceSession) (rid : string) : Prop :=
  exists sl, slots s !! rid = Some sl /\ evt sl = true.

End Ipc.

(* ===================================================================== *)
(** ** core/services.py *)
(* ===================================================================== *)

Module Services.

Inductive exn :=
| IPCError (msg : string)
| ServiceError (msg : string)
| EnvironmentSetupError (msg : string).

Inductive outcome (A : Type) :=
| Return (a : A)
| Raise (e : exn).
Arguments Return {A} a.
Arguments Raise {A} e.

(** What [handle.session.request] gives: a response of the worker (its
    result, or its exception as data), or [IPCError]. *)
Inductive answer :=
| Answered (ok : bool) (body : string)
| Broken (msg : string).

(** How the worker of one start attempt behaves: whether the environment
    can be provisioned, whether the readiness handshake succeeds, and what
    its n-th request gives. *)
Record behaviour := {
  b_env_ok : bool;
  b_ready : bool;
  b_answer : nat -> answer
}.

(** A worker process: the descriptor it serves, whether it runs
    ([poll() is None]), and how many requests it was sent. *)
Record Proc := {
  p_sid : string;
  p_alive : bool;
  p_served : nat
}.

(** [ServiceHandle]; [process] names the worker. *)
Record ServiceHandle := {
  id : string;
  process : nat;
  shutting_down : bool;
  last_used_ts : Z
}.

Inductive action :=
| ActSpawn (pid : nat) (sid : string)
| ActKill (pid : nat)
| ActRegister (sid : string) (pid : nat)
| ActRequest (pid : nat)
| ActStop (pid : nat).

(** [ServiceManager] with the processes it spawned.  A start attempt and
    the process and handle it creates share one number.  [_services] is the
    table; [handles] holds the handle objects, which stay reachable from
    their callers after they leave the table. *)
Record ServiceManager := {
  _services : gmap string nat;
  handles : gmap nat ServiceHandle;
  procs : gmap nat Proc;
  next_id : nat;
  plan : nat -> behaviour;
  now : Z;
  log : list action
}.

Definition new_manager (plan : nat -> behaviour) : ServiceManager :=
  {| _services := ∅; handles := ∅; procs := ∅; next_id := 0;
     plan := plan; now := 0; log := [] |}.

Definition upd (m : ServiceManager) (sv : gmap string nat)
           (hs : gmap nat ServiceHandle) (ps : gmap nat Proc) (n : nat)
           (acts : list action) : ServiceManager :=
  {| _services := sv; handles := hs; procs := ps; next_id := n;
     plan := plan m; now := now m; log := log m ++ acts |}.

(** [handle.is_alive()] *)
Definition is_alive (m : ServiceManager) (h : nat) : bool :=
  match procs m !! h with
  | Some p => p_alive p
  | None => false
  end.

Definition kill (pid : nat) (ps : gmap nat Proc) : gmap nat Proc :=
  match ps !! pid with
  | Some p => <[pid := {| p_sid := p_sid p; p_alive := false;
                          p_served := p_served p |}]> ps
  | None => ps
  end.

(** The locked lookup of [get_or_start]:
    [handle = self._services.get(sid); if handle and handle.is_alive()]. *)
Definition lookup_live (m : ServiceManager) (sid : string) : option nat :=
  match _services m !! sid with
  | Some h => if is_alive m h then Some h else None
  | None => None
  end.

(** [_start_service] up to [subprocess.Popen]: the environment is
    provisioned, then the worker is spawned. *)
Definition spawn (m : ServiceManager) (sid : string)
  : ServiceManager * outcome nat :=
  let n := next_id m in
  if b_env_ok (plan m n) then
    (upd m (_services m) (handles m)
         (<[n := {| p_sid := sid; p_alive := true; p_served := 0 |}]> (procs m))
         (S n) [ActSpawn n sid],
     Return n)
  else
    (upd m (_services m) (handles m) (procs m) (S n) [],
     Raise (EnvironmentSetupError sid)).

(** [_start_service] from [sess.wait_ready] to the check of its result: a
    worker that is not ready is terminated and [ServiceError] is raised. *)
Definition handshake (m : ServiceManager) (sid : string) (pid : nat)
  : ServiceManager * outcome unit :=
  if b_ready (plan m pid) then (m, Return tt)
  else (upd m (_services m) (handles m) (kill pid (procs m)) (next_id m)
            [ActKill pid],
        Raise (ServiceError sid)).

(** [_start_service], the end: the handle is built and stored in the table
    under the lock. *)
Definition register (m : ServiceManager) (sid : string) (pid : nat)
  : ServiceManager :=
  upd m (<[sid := pid]> (_services m))
      (<[pid := {| id := sid; process := pid; shutting_down := false;
                   last_used_ts := now m |}]> (handles m))
      (procs m) (next_id m) [ActRegister sid pid].

(** [ServiceManager._start_service] *)
Definition _start_service (m : ServiceManager) (sid : string)
  : ServiceManager * outcome nat :=
  match spawn m sid with
  | (m1, Raise e) => (m1, Raise e)
  | (m1, Return pid) =>
      match handshake m1 sid pid with
      | (m2, Raise e) => (m2, Raise e)
      | (m2, Return _) => (register m2 sid pid, Return pid)
      end
  end.

(** [ServiceManager.get_or_start] *)
Definition get_or_start (m : ServiceManager) (sid : string)
  : ServiceManager * outcome nat :=
  match lookup_live m sid with
  | Some h => (m, Return h)
  | None => _start_service m sid
  end.

(** [ServiceManager._stop_handle]: the shutdown handshake, then the
    process is waited for and terminated if it still runs; the entry under
    the identity of the handle is popped in the [finally] block. *)
Definition _stop_handle (m : ServiceManager) (h : nat)
  : ServiceManager * bool :=
  match handles m !! h with
  | None => (m, true)
  | Some hd =>
      if shutting_down hd then (m, true)
      else
        (upd m (delete (id hd) (_services m))
             (<[h := {| id := id hd; process := process hd;
                        shutting_down := true;
                        last_used_ts := last_used_ts hd |}]> (handles m))
             (kill (process hd) (procs m)) (next_id m) [ActStop h],
         true)
  end.

(** [handle.session.request(...)]: a worker that does not run cannot
    answer. *)
Definition session_request (m : ServiceManager) (h : nat)
  : ServiceManager * outcome answer :=
  match procs m !! h with
  | None => (upd m (_services m) (handles m) (procs m) (next_id m) [ActRequest h],
             Raise (IPCError "no process"))
  | Some p =>
      let m' := upd m (_services m) (handles m)
                    (<[h := {| p_sid := p_sid p; p_alive := p_alive p;
                               p_served := S (p_served p) |}]> (procs m))
                    (next_id m) [ActRequest h] in
      if p_alive p then
        match b_answer (plan m h) (p_served p) with
        | Broken msg => (m', Raise (IPCError msg))
        | a => (m', Return a)
        end
      else (m', Raise (IPCError "connection lost"))
  end.

(** [handle.last_used_ts = time.time()] *)
Definition touch (m : ServiceManager) (h : nat) : ServiceManager :=
  match handles m !! h with
  | Some hd =>
      upd m (_services m)
          (<[h := {| id := id hd; process := process hd;
                     shutting_down := shutting_down hd;
                     last_used_ts := now m |}]> (handles m))
          (procs m) (next_id m) []
  | None => m
  end.

(** [ServiceManager.ensure_dependencies]: [deps] are the identities of the
    dependencies that the resolver finds and that are services. *)
Fixpoint ensure_dependencies (m : ServiceManager) (deps : list string)
  : ServiceManager * outcome unit :=
  match deps with
  | [] => (m, Return tt)
  | sid :: rest =>
      match get_or_start m sid with
      | (m1, Raise e) => (m1, Raise e)
      | (m1, Return _) => ensure_dependencies m1 rest
      end
  end.

(** [ServiceManager.request] *)
Definition request (m : ServiceManager) (sid : string) (deps : list string)
  : ServiceManager * outcome answer :=
  match ensure_dependencies m deps with
  | (m0, Raise e) => (m0, Raise e)
  | (m0, Return _) =>
      match get_or_start m0 sid with
      | (m1, Raise e) => (m1, Raise e)
      | (m1, Return handle) =>
          match session_request m1 handle with
          | (m2, Return resp) => (touch m2 handle, Return resp)
          | (m2, Raise (IPCError _)) =>
              let m3 := fst (_stop_handle m2 handle) in
              match _start_service m3 sid with
              | (m4, Raise e) => (m4, Raise e)
              | (m4, Return handle') =>
                  match session_request m4 handle' with
                  | (m5, Return resp) => (touch m5 handle', Return resp)
                  | (m5, Raise e) => (m5, Raise e)
                  end
              end
          | (m2, Raise e) => (m2, Raise e)
          end
      end
  end.

(** *** Concurrent callers of [get_or_start]

    A thread runs [get_or_start] in four atomic steps, the two locked
    sections being one step each. *)
Inductive pc :=
| AtCheck (sid : string)
| AtSpawn (sid : string)
| AtReady (sid : string) (pid : nat)
| AtRegister (sid : string) (pid : nat)
| Done (r : outcome nat).

Definition thread_step (m : ServiceManager) (c : pc) : ServiceManager * pc :=
  match c with
  | AtCheck sid =>
      match lookup_live m sid with
      | Some h => (m, Done (Return h))
      | None => (m, AtSpawn sid)
      end
  | AtSpawn sid =>
      match spawn m sid with
      | (m1, Return pid) => (m1, AtReady sid pid)
      | (m1, Raise e) => (m1, Done (Raise e))
      end
  | AtReady sid pid =>
      match handshake m sid pid with
      | (m1, Return _) => (m1, AtRegister sid pid)
      | (m1, Raise e) => (m1, Done (Raise e))
      end
  | AtRegister sid pid => (register m sid pid, Done (Return pid))
  | Done r => (m, Done r)
  end.

(** A schedule picks, at each step, the thread that moves, or lets a
    worker process die. *)
Inductive sched :=
| Run (i : nat)
| Crash (pid : nat).

Definition sched_step (st : ServiceManager * list pc) (e : sched)
  : ServiceManager * list pc :=
  let '(m, ts) := st in
  match e with
  | Run i =>
      match ts !! i with
      | Some c => let '(m', c') := thread_step m c in (m', <[i := c']> ts)
      | None => st
      end
  | Crash pid =>
      (upd m (_services m) (handles m) (kill pid (procs m)) (next_id m) [], ts)
  end.

Definition run (st : ServiceManager * list pc) (es : list sched)
  : ServiceManager * list pc :=
  fold_left sched_step es st.

(** The running workers of a descriptor. *)
Definition live_workers (m : ServiceManager) (sid : string) : list nat :=
  List.filter (fun pid =>
                 match procs m !! pid with
                 | Some p => p_alive p && String.eqb (p_sid p) sid
                 | None => false
                 end)
              (seq 0 (next_id m)).

Definition is_spawn (a : action) : bool :=
  match a with ActSpawn _ _ => true | _ => false end.
Definition is_request (a : action) : bool :=
  match a with ActRequest _ => true | _ => false end.
Definition is_stop (a : action) : bool :=
  match a with ActStop _ => true | _ => false end.

(** How many actions of a kind a log holds. *)
Definition count (f : action -> bool) (l : list action) : nat :=
  length (List.filter f l).

(** The worker [pid] was spawned for the descriptor [sid]. *)
Definition proc_for (m : ServiceManager) (pid : nat) (sid : string) : Prop :=
  exists p, procs m !! pid = Some p /\ p_sid p = sid.

(** Every entry of the table is a handle of that identity, on a worker
    spawned for that identity. *)
Definition table_ok (m : ServiceManager) : Prop :=
  forall sid h, _services m !! sid = Some h ->
    (exists hd, handles m !! h = Some hd /\ id hd = sid /\ process hd = h) /\
    proc_for m h sid.

Definition bounded (m : ServiceManager) : Prop :=
  forall pid, is_Some (procs m !! pid) -> (pid < next_id m)%nat.

Definition pc_ok (m : ServiceManager) (c : pc) : Prop :=
  match c with
  | AtReady sid pid | AtRegister sid pid => proc_for m pid sid
  | _ => True
  end.

Definition inv (st : ServiceManager * list pc) : Prop :=
  table_ok (fst st) /\ bounded (fst st) /\ Forall (pc_ok (fst st)) (snd st).

End Services.

(* ===================================================================== *)
(** ** core/runner.py *)
(* ===================================================================== *)

Module Runner.
Import PyStr.
Import Ipc (json, JNull, JBool, JInt, JFloat, JStr, JArr, JObj,
            obj_get, truthy, py_or, rstrip_crlf).

Inductive RunStatus := OK | ERROR | TIMEOUT | CANCELLED.

Record OneShotRunResult := {
  status : RunStatus;
  result : json;
  error_type : option string;
  error_message : option string;
  traceback : option string
}.

(** [line.split(" ", 1)]: the text before the first space, and the text
    after it when there is one. *)
Fixpoint split_space (s : string) : string * option string :=
  match s with
  | EmptyString => (EmptyString, None)
  | String c s' =>
      if Ascii.eqb c " " then (EmptyString, Some s')
      else let '(a, b) := split_space s' in (String c a, b)
  end.

(** [_parse_prefixed] *)
Definition _parse_prefixed (line : string) : option (string * string) :=
  if negb (startswith "PCTX:" line) then None
  else
    let '(head, rest) := split_space line in
    Some (strip (drop 5 head),
          match rest with Some r => r | None => EmptyString end).

(** The variables [on_line] assigns: [result_obj], [err_type], [err_msg],
    [err_tb]. *)
Record capture := {
  result_obj : json;
  err_type : option string;
  err_msg : option string;
  err_tb : option string
}.

Definition no_capture : capture :=
  {| result_obj := JNull; err_type := None; err_msg := None; err_tb := None |}.

(** [if err_type] *)
Definition truthy_opt (o : option string) : bool :=
  match o with
  | Some s => nonempty s
  | None => false
  end.

(** One observation of the poll loop: what [proc.wait(timeout=0.15)] gave,
    the time since the start in milliseconds, and whether the cancel flag
    file exists. *)
Record tick := {
  t_rc : option Z;
  t_elapsed : Z;
  t_cancel : bool
}.

Inductive poll_result :=
| Exited (rc : Z)
| TimedOut
| Cancelled
| Running.

(** The [while True] loop of [run_one_shot]; [Running] when the worker is
    still running after the last observation. *)
Fixpoint poll (timeout : option Z) (ticks : list tick) : poll_result :=
  match ticks with
  | [] => Running
  | t :: rest =>
      if match timeout with
         | Some limit => limit <? t_elapsed t
         | None => false
         end
      then TimedOut
      else if t_cancel t then Cancelled
      else match t_rc t with
           | Some rc => Exited rc
           | None => poll timeout rest
           end
  end.

(** An observation made within the time budget. *)
Definition in_budget (timeout : option Z) (t : tick) : bool :=
  match timeout with
  | Some limit => negb (limit <? t_elapsed t)
  | None => true
  end.

(** An observation after which the loop goes on: within the budget, no
    cancel flag, the worker still running. *)
Definition quiet (timeout : option Z) (t : tick) : bool :=
  in_budget timeout t && negb (t_cancel t) &&
  match t_rc t with Some _ => false | None => true end.

(** [str(e)] for the [TypeError] of [reader.join]. *)
Definition not_callable : string := "'Event' object is not callable".

(** [opts.timeout_seconds if opts.timeout_seconds is not None
     else (meta.timeout.one_shot_seconds or None)] *)
Definition effective_timeout (opt : option Z) (one_shot : Z) : option Z :=
  match opt with
  | Some t => Some t
  | None => if one_shot =? 0 then None else Some one_shot
  end.

Definition quote : string := String (ascii_of_N 34) EmptyString.

(** The line [PCTX:RESULT {"ok":true,"result":"hello"}] and its body. *)
Definition hello_body : string :=
  "{" +:+ quote +:+ "ok" +:+ quote +:+ ":true," +:+ quote +:+ "result"
      +:+ quote +:+ ":" +:+ quote +:+ "hello" +:+ quote +:+ "}".

Definition hello_line : string := "PCTX:RESULT " +:+ hello_body.

Section WithJson.
Variable json_loads : string -> option json.
Variable py_str : json -> string.

Definition field_str (fields : list (string * json)) (k d : string) : string :=
  py_str (py_or (match obj_get fields k with Some v => v | None => JNull end)
                (JStr d)).

(** [on_line], as far as it assigns the captured variables; the log and
    the progress, notice and warning callbacks are left out. *)
Definition on_line (st : capture) (line : string) : capture :=
  match _parse_prefixed line with
  | None => st
  | Some (tag, payload) =>
      if String.eqb tag "RESULT" then
        match json_loads payload with
        | Some (JObj fields) =>
            match obj_get fields "ok" with
            | Some (JBool true) =>
                {| result_obj := match obj_get fields "result" with
                                 | Some v => v
                                 | None => JNull
                                 end;
                   err_type := err_type st; err_msg := err_msg st;
                   err_tb := err_tb st |}
            | _ => st
            end
        | _ => st
        end
      else if String.eqb tag "EXC" then
        match json_loads payload with
        | Some (JObj fields) =>
            match obj_get fields "ok" with
            | Some (JBool false) =>
                {| result_obj := result_obj st;
                   err_type := Some (field_str fields "error_type" "Error");
                   err_msg := Some (field_str fields "error_message" "");
                   err_tb := Some (field_str fields "traceback" "") |}
            | _ => st
            end
        | _ => st
        end
      else st
  end.

(** The reader thread on the lines it hands to [on_line]. *)
Definition read_lines (lines : list string) : capture :=
  fold_left (fun st raw => on_line st (rstrip_crlf raw)) lines no_capture.

(** [run_one_shot] from [subprocess.Popen] on.  [popen_error] names the
    exception of a failed spawn; [ticks] are the observations of the poll
    loop; [lines] are the output lines the reader thread handed to
    [on_line] before it was joined.  [None] when the worker outlives the
    observations.

    [join_raises]: [reader.join(timeout=1.0)] raises [TypeError].
    [_ReaderThread.__init__] binds [self._stop] to an [Event], in the place
    of the method [Thread._stop]; [Thread.join] of CPython up to 3.12 calls
    [self._stop()] when it finds the thread ended.  The join raises there
    when the reader has ended (its pipe is at the end of the file) within
    the second the join waits; it does not raise when the join times out,
    nor on an interpreter whose [join] does not call [_stop].  The
    exception reaches the [except BaseException] handler of
    [run_one_shot]. *)
Definition run_one_shot (opt_timeout : option Z) (one_shot : Z)
           (popen_error : option string) (join_raises : bool)
           (ticks : list tick)
           (lines : list string) : option OneShotRunResult :=
  let timeout := effective_timeout opt_timeout one_shot in
  match popen_error with
  | Some name =>
      Some {| status := ERROR; result := JNull; error_type := Some name;
              error_message := Some name; traceback := None |}
  | None =>
      match poll timeout ticks with
      | Running => None
      | TimedOut =>
          Some {| status := TIMEOUT; result := JNull;
                  error_type := Some "TimeoutExceeded"%string;
                  error_message := Some "timeout"%string; traceback := None |}
      | Cancelled =>
          Some {| status := CANCELLED; result := JNull;
                  error_type := Some "Cancelled"%string;
                  error_message := Some "cancelled"%string; traceback := None |}
      | Exited rc =>
          if join_raises then
            Some {| status := ERROR; result := JNull;
                    error_type := Some "TypeError"%string;
                    error_message := Some not_callable; traceback := None |}
          else
            let c := read_lines lines in
            let st :=
              if truthy_opt (err_type c) then ERROR
              else if negb (rc =? 0) then ERROR
              else OK in
            Some {| status := st; result := result_obj c;
                    error_type := err_type c; error_message := err_msg c;
                    traceback := err_tb c |}
      end
  end.

(** A line is an exception payload: tag [EXC], a JSON object, ["ok"] is
    [False]. *)
Definition is_exc_payload (raw : string) : bool :=
  match _parse_prefixed (rstrip_crlf raw) with
  | Some (tag, payload) =>
      String.eqb tag "EXC" &&
      match json_loads payload with
      | Some (JObj fields) =>
          match obj_get fields "ok" with
          | Some (JBool false) => true
          | _ => false
          end
      | _ => false
      end
  | None => false
  end.

(** An exception payload was captured from the lines. *)
Definition exc_captured (lines : list string) : bool :=
  existsb is_exc_payload lines.

End WithJson.

End Runner.

(* ===================================================================== *)
(** ** core/resources.py: construction, policy, diagnostics *)
(* ===================================================================== *)

Module ResourcesOps.
Import PyStr Resources.

(** [cap if cap and cap > 0 else d] *)
Definition cap_or (cap : Z) (d : Z) : Z := if 0 <? cap then cap else d.

(** [ResourcePool._ensure_bucket(name, cap)] with a capacity. *)
Definition ensure_bucket_cap (p : ResourcePool) (name : string) (cap : Z)
  : ResourcePool * outcome _LockBucket :=
  match _buckets p !! name with
  | Some b => (p, Return b)
  | None =>
      match new_bucket (cap_or cap (_default_capacity p)) with
      | Return b => (set_buckets p (<[name := b]> (_buckets p)), Return b)
      | Raise e => (p, Raise e)
      | Hang => (p, Hang)
      end
  end.

(** The loop of [ResourcePool.__init__] over the policy. *)
Fixpoint init_loop (p : ResourcePool) (policy : list (string * Z))
  : outcome ResourcePool :=
  match policy with
  | [] => Return p
  | (name, cap) :: rest =>
      match ensure_bucket_cap p name (cap_or cap 1) with
      | (p', Return _) => init_loop p' rest
      | (_, Raise e) => Raise e
      | (_, Hang) => Hang
      end
  end.

(** [ResourcePool.__init__(policy, default_capacity)] *)
Definition init_pool (policy : list (string * Z)) (default_capacity : Z)
  : outcome ResourcePool :=
  match new_pool default_capacity with
  | Return p => init_loop p policy
  | Raise e => Raise e
  | Hang => Hang
  end.

(** [ResourcePool.update_policy] *)
Definition update_policy (p : ResourcePool) (policy : list (string * Z))
  : ResourcePool :=
  fold_left (fun q '(name, cap) => update_policy1 q name cap) policy p.

(** [_LockBucket.available] *)
Definition available (b : _LockBucket) : Z := Z.max 0 (capacity b - in_use b).

(** One row of [ResourcePool.info]. *)
Record info_row := {
  i_name : string;
  i_capacity : Z;
  i_in_use : Z;
  i_available : Z
}.

(** [ResourcePool.info]: the buckets in the order of their names. *)
Definition info (p : ResourcePool) : list info_row :=
  List.map (fun name =>
              match _buckets p !! name with
              | Some b => {| i_name := name; i_capacity := capacity b;
                             i_in_use := in_use b; i_available := available b |}
              | None => {| i_name := name; i_capacity := 0; i_in_use := 0;
                           i_available := 0 |}
              end)
           (sorted_set (elements (dom (_buckets p)))).

(** The calls a user makes on a pool. *)
Inductive op :=
| OpTryAcquire (locks : list string) (timeout : option Z)
| OpRelease (locks : list string)
| OpPolicy (policy : list (string * Z)).

Definition run_op (monotonic : nat -> Z) (timeout_max : Z)
           (p : ResourcePool) (o : op)
  : ResourcePool :=
  match o with
  | OpTryAcquire locks timeout =>
      fst (try_acquire monotonic timeout_max p locks timeout)
  | OpRelease locks => fst (_release_many p locks)
  | OpPolicy policy => update_policy p policy
  end.

Definition run_ops (monotonic : nat -> Z) (timeout_max : Z)
           (p : ResourcePool) (ops : list op)
  : ResourcePool :=
  fold_left (run_op monotonic timeout_max) ops p.

(** A bucket balances: what is in use and what the semaphore still gives
    add up to the capacity. *)
Definition bucket_ok (b : _LockBucket) : Prop :=
  sem b + in_use b = capacity b /\ 0 <= in_use b /\ 0 <= sem b.

Definition pool_ok (p : ResourcePool) : Prop :=
  1 <= _default_capacity p /\
  forall name b, _buckets p !! name = Some b -> bucket_ok b.

Definition capacity_of (p : ResourcePool) (name : string) : Z :=
  match _buckets p !! name with Some b => capacity b | None => 0 end.

End ResourcesOps.

(* ===================================================================== *)
(** ** core/envs.py: the creation lock on a shared directory tree *)
(* ===================================================================== *)

Module EnvsOps.
Import PyStr Envs.

(** Where a process is with its [_CreationLock] object: [acquired] is
    [False] ([Idle]); [acquire] has made the directory and [release] has
    not reached its [rmdir] ([Held]: the body of the [with] block runs
    here); [release] is past its [rmdir] and [acquired] is still [True],
    until the [finally] block clears it ([Releasing]). *)
Inductive phase := Idle | Held | Releasing.

(** The field [acquired]. *)
Definition acquired_flag (p : phase) : bool :=
  match p with
  | Idle => false
  | Held | Releasing => true
  end.

(** Several processes, each with its own [_CreationLock] object on the
    same directory.  [dir_exists] tells whether the lock directory exists;
    [owners] tells where each process is. *)
Record lock_state := {
  dir_exists : bool;
  owners : list phase
}.

(** What a process does next: one round of the loop of [acquire] (a
    [mkdir] that may fail for a reason of its own); the [rmdir] of
    [release], which may fail; the [finally] of [release]. *)
Inductive lock_event :=
| Attempt (i : nat) (mkdir_fails : bool)
| Rmdir (i : nat) (rmdir_fails : bool)
| Clear (i : nat).

Definition lock_step (st : lock_state) (e : lock_event) : lock_state :=
  match e with
  | Attempt i mkdir_fails =>
      match owners st !! i with
      | Some Idle =>
          if dir_exists st || mkdir_fails then st
          else {| dir_exists := true; owners := <[i := Held]> (owners st) |}
      | _ => st
      end
  | Rmdir i rmdir_fails =>
      match owners st !! i with
      | Some Held =>
          {| dir_exists := dir_exists st && rmdir_fails;
             owners := <[i := Releasing]> (owners st) |}
      | _ => st
      end
  | Clear i =>
      match owners st !! i with
      | Some Releasing =>
          {| dir_exists := dir_exists st; owners := <[i := Idle]> (owners st) |}
      | _ => st
      end
  end.

Definition lock_run (st : lock_state) (es : list lock_event) : lock_state :=
  fold_left lock_step es st.

(** At most one process holds the lock, and then the directory exists. *)
Definition lock_inv (st : lock_state) : Prop :=
  (forall i j, owners st !! i = Some Held -> owners st !! j = Some Held -> i = j) /\
  (forall i, owners st !! i = Some Held -> dir_exists st = true).

(** The characters of a string. *)
Fixpoint chars (s : string) : list ascii :=
  match s with
  | EmptyString => []
  | String c s' => c :: chars s'
  end.

(** What [_sanitize_id] lets through. *)
Definition id_char (c : ascii) : bool :=
  is_alnum c || Ascii.eqb c "-" || Ascii.eqb c "_"
  || Ascii.eqb c "." || Ascii.eqb c "+".

Definition is_hex (c : ascii) : bool :=
  let n := N_of_ascii c in
  ((48 <=? n)%N && (n <=? 57)%N) || ((97 <=? n)%N && (n <=? 102)%N).

(** The string has no path separator. *)
Fixpoint no_slash (s : string) : bool :=
  match s with
  | EmptyString => true
  | String c s' => negb (Ascii.eqb c "/") && no_slash s'
  end.

(** The string is a path component that [Path] keeps as it is: no
    separator, not empty, not a lone dot. *)
Definition component (s : string) : bool :=
  no_slash s && nonempty s && negb (String.eqb s ".").

End EnvsOps.

(* ===================================================================== *)
(** ** pcontext/core/ipc.py: readiness, shutdown, and what a line carries *)
(* ===================================================================== *)

Module IpcOps.
Import PyStr Ipc.

Definition prefix_of (t : tag) : string :=
  match t with
  | READY => READY_PREFIX
  | RESP => RESP_PREFIX
  | EXC => EXC_PREFIX
  | BYE => BYE_PREFIX
  end.

(** [Event.wait(timeout)] when nothing sets the event any more: [true] at
    once if it is set, [false] once the timeout is over, and no return
    without a timeout. *)
Definition event_wait (is_set : bool) (timeout : option Z) : outcome bool :=
  if is_set then Return true
  else match timeout with
       | Some _ => Return false
       | None => Hang
       end.

(** [ServiceSession.wait_ready] *)
Definition wait_ready (s : ServiceSession) (timeout : option Z)
  : outcome (option ReadyInfo) :=
  match event_wait (_ready_evt s) timeout with
  | Return true => Return (_ready_info s)
  | Return false => Return None
  | Raise e => Raise e
  | Hang => Hang
  end.

(** [ServiceSession.shutdown]; [send_ok] tells whether the write succeeds.
    Times are in milliseconds. *)
Definition shutdown (s : ServiceSession) (send_ok : bool) (timeout : option Z)
  : outcome bool :=
  if send_ok then
    event_wait (_bye_evt s)
               (Some (match timeout with Some t => t | None => 3000 end))
  else Return false.

Section WithJson.
Variable json_loads : string -> option json.

(** The raw line is a response or an exception whose body is an object
    with the identifier [k]. *)
Definition carries (k : string) (raw : string) : bool :=
  match parse_service_line json_loads (rstrip_crlf raw) with
  | Some (RESP, JObj fields) | Some (EXC, JObj fields) =>
      match obj_get fields "req_id" with
      | Some (JStr k') => String.eqb k' k
      | _ => false
      end
  | _ => false
  end.

(** The raw line is a readiness line or an exception line. *)
Definition announces (raw : string) : bool :=
  match parse_service_line json_loads (rstrip_crlf raw) with
  | Some (READY, _) | Some (EXC, _) => true
  | _ => false
  end.

End WithJson.

End IpcOps.

(* ===================================================================== *)
(** ** core/services.py: stopping services, one caller at a time *)
(* ===================================================================== *)

Module ServicesOps.
Import Services.

(** [ServiceManager.shutdown] *)
Definition shutdown (m : ServiceManager) (sid : string)
  : ServiceManager * bool :=
  match _services m !! sid with
  | Some h => _stop_handle m h
  | None => (m, true)
  end.

(** [hs] is [list(self._services.values())]: the handles of the table, in
    the order the dictionary gives them. *)
Definition values_of (m : ServiceManager) (hs : list nat) : Prop :=
  hs ≡ₚ (map_to_list (_services m)).*2.

(** [ServiceManager.shutdown_all] on the snapshot [hs]. *)
Definition shutdown_all (m : ServiceManager) (hs : list nat) : ServiceManager :=
  fold_left (fun m h => fst (_stop_handle m h)) hs m.

(** The loop of [prune_idle] at the time [t]; [ttl] gives
    [h.meta.timeout.service_idle_seconds] of a handle. *)
Fixpoint prune_loop (ttl : nat -> option Z) (t : Z) (m : ServiceManager)
         (hs : list nat) : ServiceManager * list string :=
  match hs with
  | [] => (m, [])
  | h :: rest =>
      match handles m !! h, ttl h with
      | Some hd, Some limit =>
          if limit <=? 0 then prune_loop ttl t m rest
          else if limit <? t - last_used_ts hd then
            let '(m', stopped) := prune_loop ttl t (fst (_stop_handle m h)) rest in
            (m', id hd :: stopped)
          else prune_loop ttl t m rest
      | _, _ => prune_loop ttl t m rest
      end
  end.

(** [ServiceManager.prune_idle] on the snapshot [hs]. *)
Definition prune_idle (ttl : nat -> option Z) (m : ServiceManager)
           (hs : list nat) : ServiceManager * list string :=
  prune_loop ttl (now m) m hs.

(** Time passes. *)
Definition advance (m : ServiceManager) (dt : Z) : ServiceManager :=
  {| _services := _services m; handles := handles m; procs := procs m;
     next_id := next_id m; plan := plan m; now := now m + dt; log := log m |}.

(** A worker process dies. *)
Definition crash (m : ServiceManager) (pid : nat) : ServiceManager :=
  upd m (_services m) (handles m) (kill pid (procs m)) (next_id m) [].

(** The states a manager goes through when its methods are called one
    after the other, no call starting while another is between two of its
    steps, while workers may die and time passes.  A sweep of the idle
    thread is a call of [prune_idle]. *)
Inductive reach : ServiceManager -> Prop :=
| reach_new pl : reach (new_manager pl)
| reach_get_or_start m sid : reach m -> reach (fst (get_or_start m sid))
| reach_request m sid deps : reach m -> reach (fst (request m sid deps))
| reach_shutdown m sid : reach m -> reach (fst (shutdown m sid))
| reach_shutdown_all m hs :
    reach m -> values_of m hs -> reach (shutdown_all m hs)
| reach_prune_idle m ttl hs :
    reach m -> values_of m hs -> reach (fst (prune_idle ttl m hs))
| reach_crash m pid : reach m -> reach (crash m pid)
| reach_advance m dt : reach m -> reach (advance m dt).

(** Every entry of the table is a handle of that identity that is not
    shutting down, on a worker spawned for that identity; the workers are
    numbered below [next_id]; and every running worker is the one the
    table names for its descriptor. *)
Definition tidy (m : ServiceManager) : Prop :=
  (forall sid h, _services m !! sid = Some h ->
     exists hd p, handles m !! h = Some hd /\ id hd = sid /\ process hd = h /\
                  shutting_down hd = false /\
                  procs m !! h = Some p /\ p_sid p = sid) /\
  (forall pid, is_Some (procs m !! pid) -> (pid < next_id m)%nat) /\
  (forall pid p, procs m !! pid = Some p -> p_alive p = true ->
     _services m !! p_sid p = Some pid).

End ServicesOps.

(* ===================================================================== *)
(** ** core/runner.py: what a line of the worker gives *)
(* ===================================================================== *)

Module RunnerOps.
Import PyStr Runner.
Import Ipc (json, JNull, JBool, JInt, JFloat, JStr, JArr, JObj,
            obj_get, truthy, py_or, rstrip_crlf).

(** The string has no space character. *)
Fixpoint no_space (s : string) : bool :=
  match s with
  | EmptyString => true
  | String c s' => negb (Ascii.eqb c " ") && no_space s'
  end.

Section WithJson.
Variable json_loads : string -> option json.

(** The value a raw line carries when it is a result payload: tag
    [RESULT], a JSON object, ["ok"] is [True]. *)
Definition result_payload (raw : string) : option json :=
  match _parse_prefixed (rstrip_crlf raw) with
  | Some (tag, payload) =>
      if String.eqb tag "RESULT" then
        match json_loads payload with
        | Some (JObj fields) =>
            match obj_get fields "ok" with
            | Some (JBool true) =>
                Some (match obj_get fields "result" with
                      | Some v => v
                      | None => JNull
                      end)
            | _ => None
            end
        | _ => None
        end
      else None
  | None => None
  end.

End WithJson.

End RunnerOps.

(* ===================================================================== *)
(** ** pcontext/workers/service_worker.py: the command loop *)
(* ===================================================================== *)

Module ServiceWorker.
Import PyStr Ipc.

(** An exception: its class name, [str] of it, and the traceback text. *)
Inductive raised := Raised (etype emsg tb : string).

(** What a call of a function of the user module gives: the value
    [_jsonify_result] makes of what it returns, or the exception raised. *)
Inductive call_result :=
| Returned (v : json)
| Failed (e : raised).

(** The user module, as the worker uses it: whether a name is a callable
    attribute; the [n]-th call the worker makes, of the function named, on
    the inputs, the parameters and the context; and [shutdown_func(ctx)],
    which may raise. *)
Record UserModule := {
  is_callable : string -> bool;
  call : nat -> string -> json -> json -> json -> call_result;
  call_shutdown : nat -> option raised
}.

(** The dictionaries of [_print_resp], [_print_exc] and [_print_bye]. *)
Definition resp_payload (req_id result : json) : json :=
  JObj [("ok", JBool true); ("req_id", req_id); ("result", result)]%string.

Definition exc_payload (req_id : json) (e : raised) : json :=
  let '(Raised etype emsg tb) := e in
  JObj [("ok", JBool false); ("req_id", req_id); ("error_type", JStr etype);
        ("error_message", JStr emsg); ("traceback", JStr tb)]%string.

Definition bye_payload (reason : string) : json :=
  JObj [("ok", JBool true); ("reason", JStr reason)]%string.

(** [cmd.get(k)] *)
Definition get (fields : list (string * json)) (k : string) : json :=
  match obj_get fields k with
  | Some v => v
  | None => JNull
  end.

(** The dictionary [ServiceSession.request] writes, and the one
    [ServiceSession.ping] writes. *)
Definition request_command (req_id : string) (inputs params ctx : json)
           (entry : option string) : list (string * json) :=
  [("op", JStr "request"); ("req_id", JStr req_id); ("inputs", inputs);
   ("params", params); ("ctx", ctx)]%string
  ++ match entry with
     | Some e => if nonempty e then [("entry"%string, JStr e)] else []
     | None => []
     end.

Definition ping_command (req_id : string) : list (string * json) :=
  [("op", JStr "ping"); ("req_id", JStr req_id)]%string.

(** [req_ctx if req_ctx is not None else ctx] *)
Definition or_ctx (req_ctx ctx : json) : json :=
  match req_ctx with
  | JNull => ctx
  | c => c
  end.

(** One round of the loop: the lines printed, as tag and dictionary, and
    either the number of calls made so far or the exit code. *)
Inductive step :=
| Next (outs : list (tag * json)) (calls : nat)
| Exit (outs : list (tag * json)) (code : Z).

Section WithOracles.
(** [json.loads], [None] when it raises, and the exception it raises;
    [str] of a decoded value; the message and the traceback text of an
    exception the worker builds itself, from its class name and the text
    it is about. *)
Variable json_loads : string -> option json.
Variable decode_error : string -> raised.
Variable py_str : json -> string.
Variable describe : string -> string -> string * string.
(** The user module, the name of the default request function, whether
    the module has a callable shutdown function, and the context of the
    payload file. *)
Variable md : UserModule.
Variable default_entry : string.
Variable shutdown_callable : bool.
Variable ctx : json.

Definition own_error (cls about : string) : raised :=
  let '(msg, tb) := describe cls about in Raised cls msg tb.

(** [shutdown_func(ctx)] when there is one: what is printed if it raises. *)
Definition run_shutdown (n : nat) (req_id : json) : list (tag * json) :=
  if shutdown_callable then
    match call_shutdown md n with
    | Some e => [(EXC, exc_payload req_id e)]
    | None => []
    end
  else [].

(** The body of the loop on a command that is a dictionary. *)
Definition handle_command (n : nat) (fields : list (string * json)) : step :=
  let op := py_str (py_or (get fields "op") (JStr "")) in
  let req_id := get fields "req_id" in
  if String.eqb op "request" then
    let inputs := py_or (match obj_get fields "inputs" with
                         | Some v => v
                         | None => JArr []
                         end) (JArr []) in
    let params := py_or (match obj_get fields "params" with
                         | Some v => v
                         | None => JObj []
                         end) (JObj []) in
    let req_ctx := or_ctx (get fields "ctx") ctx in
    let run entry :=
      match call md n entry inputs params req_ctx with
      | Returned v => Next [(RESP, resp_payload req_id v)] (S n)
      | Failed e => Next [(EXC, exc_payload req_id e)] (S n)
      end in
    match get fields "entry" with
    | JStr e =>
        if nonempty e then
          if is_callable md e then run e
          else Next [(EXC, exc_payload req_id (own_error "AttributeError" e))] n
        else run default_entry
    | _ => run default_entry
    end
  else if String.eqb op "ping" then
    Next [(RESP, resp_payload req_id (JStr "pong"))] n
  else if String.eqb op "shutdown" then
    Exit (run_shutdown n req_id ++ [(BYE, bye_payload "shutdown")]) 0
  else Next [(EXC, exc_payload req_id (own_error "ValueError" op))] n.

(** The body of the loop on a line read from the standard input. *)
Definition handle_line (n : nat) (raw : string) : step :=
  let line := strip (rstrip_crlf raw) in
  if negb (nonempty line) then Next [] n
  else
    match json_loads line with
    | None => Next [(EXC, exc_payload JNull (decode_error line))] n
    | Some (JObj fields) => handle_command n fields
    | Some _ => Next [(EXC, exc_payload JNull (own_error "ValueError" ""))] n
    end.

(** The [while True] loop of [main] and what follows it, on the lines
    read before the end of the input: what is printed, and the exit
    code. *)
Fixpoint main_loop (n : nat) (lines : list string)
  : list (tag * json) * Z :=
  match lines with
  | [] => (run_shutdown n JNull ++ [(BYE, bye_payload "eof")], 0)
  | raw :: rest =>
      match handle_line n raw with
      | Next outs n' =>
          let '(more, code) := main_loop n' rest in (outs ++ more, code)
      | Exit outs code => (outs, code)
      end
  end.

(** The identifier a command line carries can be a dictionary key. *)
Definition plain_id (raw : string) : bool :=
  match json_loads (strip (rstrip_crlf raw)) with
  | Some (JObj fields) => hashable (get fields "req_id")
  | _ => true
  end.

(** The reader of a session handles the printed line without failing,
    whatever the session. *)
Definition harmless (o : tag * json) : Prop :=
  forall s, snd (dispatch py_str s (fst o) (snd o)) = None.

(** The printed line is a response or an exception line. *)
Definition is_answer (o : tag * json) : Prop := fst o = RESP \/ fst o = EXC.

End WithOracles.

End ServiceWorker.

(* ===================================================================== *)
(** ** Facts about the string operations *)
(* ===================================================================== *)

Section PyStrFacts.
Import PyStr.

Lemma str_lt_trans a b c : str_lt a b -> str_lt b c -> str_lt a c.
Proof.
  unfold str_lt. intros H1 H2.
  apply OrderedTypeEx.String_as_OT.cmp_lt in H1, H2.
  apply OrderedTypeEx.String_as_OT.cmp_lt.
  eapply OrderedTypeEx.String_as_OT.lt_trans; eassumption.
Qed.

Lemma str_lt_irrefl a : ~ str_lt a a.
Proof.
  unfold str_lt. intros H.
  assert (String.compare a a = Eq) as E
    by (apply OrderedTypeEx.String_as_OT.cmp_eq; reflexivity).
  congruence.
Qed.

Lemma str_gt_lt a b : String.compare a b = Gt -> str_lt b a.
Proof.
  unfold str_lt. intros H. rewrite String.compare_antisym, H. reflexivity.
Qed.

Lemma insert_uniq_elem x y l : y ∈ insert_uniq x l <-> y = x \/ y ∈ l.
Proof.
  induction l as [|z l IH]; simpl.
  - rewrite elem_of_cons. reflexivity.
  - destruct (String.compare x z) eqn:E.
    + apply String.compare_eq_iff in E. subst z.
      rewrite elem_of_cons. intuition.
    + rewrite !elem_of_cons. reflexivity.
    + rewrite !elem_of_cons, IH. intuition.
Qed.

Lemma insert_uniq_sorted x l :
  StronglySorted str_lt l -> StronglySorted str_lt (insert_uniq x l).
Proof.
  induction 1 as [|z l Hs IH Hall]; simpl.
  - constructor; constructor.
  - destruct (String.compare x z) eqn:E.
    + constructor; assumption.
    + constructor; [constructor; assumption |].
      constructor; [exact E |].
      eapply Forall_impl; [exact Hall |]. intros w Hw.
      eapply str_lt_trans; [exact E | exact Hw].
    + constructor; [exact IH |].
      apply Forall_forall. intros w Hw. apply insert_uniq_elem in Hw.
      destruct Hw as [-> | Hw].
      * apply str_gt_lt, E.
      * rewrite Forall_forall in Hall. apply Hall, Hw.
Qed.

Lemma sorted_set_sorted l : StronglySorted str_lt (sorted_set l).
Proof.
  induction l as [|x l IH]; simpl.
  - constructor.
  - apply insert_uniq_sorted, IH.
Qed.

Lemma sorted_set_elem x l : x ∈ sorted_set l <-> x ∈ l.
Proof.
  induction l as [|y l IH]; simpl.
  - reflexivity.
  - rewrite insert_uniq_elem, IH, elem_of_cons. reflexivity.
Qed.

Lemma strictly_sorted_NoDup l : StronglySorted str_lt l -> NoDup l.
Proof.
  induction 1 as [|z l Hs IH Hall].
  - constructor.
  - constructor; [| exact IH].
    intros Hin. rewrite Forall_forall in Hall.
    exact (str_lt_irrefl z (Hall z Hin)).
Qed.

Lemma sorted_set_NoDup l : NoDup (sorted_set l).
Proof. apply strictly_sorted_NoDup, sorted_set_sorted. Qed.

End PyStrFacts.

(* ===================================================================== *)
(** ** ResourcePool: rollback, order and name set *)
(* ===================================================================== *)

Section ResourcesFacts.
Import PyStr Resources.

Lemma held_nil n : held [] n = 0.
Proof. unfold held. case_decide as H; [inversion H | reflexivity]. Qed.

Lemma held_cons_eq a l : a ∉ l -> held (a :: l) a = 1 /\ held l a = 0.
Proof.
  intros H. unfold held. split; case_decide as H1; try reflexivity.
  - exfalso. apply H1. left.
  - contradiction.
Qed.

Lemma held_cons_ne a l n : n <> a -> held (a :: l) n = held l n.
Proof.
  intros H. unfold held.
  repeat case_decide; try reflexivity.
  - rewrite elem_of_cons in *. intuition.
  - exfalso. rewrite elem_of_cons in *. intuition.
Qed.

Lemma held_snoc_eq a l : a ∉ l -> held (l ++ [a]) a = 1 /\ held l a = 0.
Proof.
  intros H. unfold held. split; case_decide as H1; try reflexivity.
  - exfalso. apply H1. rewrite elem_of_app, list_elem_of_singleton. auto.
  - contradiction.
Qed.

Lemma held_snoc_ne a l n : n <> a -> held (l ++ [a]) n = held l n.
Proof.
  intros H. unfold held.
  repeat case_decide; try reflexivity.
  - rewrite elem_of_app, list_elem_of_singleton in *. intuition.
  - exfalso. rewrite elem_of_app, list_elem_of_singleton in *. intuition.
Qed.

Lemma in_use_of_update p a b e n :
  in_use_of (log (set_buckets p (<[a := b]> (_buckets p))) e) n =
  if decide (a = n) then in_use b else in_use_of p n.
Proof.
  unfold in_use_of, log, set_buckets; simpl.
  rewrite lookup_insert. case_decide; reflexivity.
Qed.

Lemma permits_of_update p a b e n :
  permits_of (log (set_buckets p (<[a := b]> (_buckets p))) e) n =
  if decide (a = n) then sem b else permits_of p n.
Proof.
  unfold permits_of, log, set_buckets; simpl.
  rewrite lookup_insert. case_decide; reflexivity.
Qed.

Lemma pool_wf_update p a b e :
  pool_wf p -> 0 <= in_use b -> 0 <= sem b ->
  pool_wf (log (set_buckets p (<[a := b]> (_buckets p))) e).
Proof.
  intros [Hd Hb] Hi Hs. split; [exact Hd |].
  intros n b0. unfold log, set_buckets; simpl.
  rewrite lookup_insert. case_decide.
  - intros [= <-]. auto.
  - apply Hb.
Qed.

(** Releasing names that are held, each once: every release succeeds, in
    the order of the list, and gives the permit back. *)
Lemma release_loop_ok l : forall p,
  NoDup l -> pool_wf p -> (forall n, n ∈ l -> 1 <= in_use_of p n) ->
  exists p',
    release_loop p l = (p', Return tt) /\
    pool_wf p' /\
    trace p' = trace p ++ List.map EvRelease l /\
    ticks p' = ticks p /\
    _default_capacity p' = _default_capacity p /\
    (forall n, in_use_of p' n = in_use_of p n - held l n) /\
    (forall n, permits_of p' n = permits_of p n + held l n).
Proof.
  induction l as [|a l IH]; intros p Hnd Hwf Hheld.
  - exists p. simpl. rewrite app_nil_r.
    split; [reflexivity |]. split; [exact Hwf |].
    do 3 (split; [reflexivity |]).
    split; intros n; rewrite held_nil; lia.
  - apply NoDup_cons in Hnd as [Ha Hnd].
    pose proof (Hheld a (list_elem_of_here _ _)) as Hin.
    simpl. unfold in_use_of in Hin.
    destruct (_buckets p !! a) as [b|] eqn:Hb; [| lia].
    unfold bucket_release. destruct (in_use b <=? 0) eqn:Hle; [lia |].
    apply Z.leb_gt in Hle.
    set (b' := {| capacity := capacity b; sem := sem b + 1; in_use := in_use b - 1 |}).
    set (p1 := log (set_buckets p (<[a := b']> (_buckets p))) (EvRelease a)).
    destruct Hwf as [Hd Hbs]. pose proof (Hbs a b Hb) as [Hib Hsb].
    destruct (IH p1) as (p' & Hrun & Hwf' & Htr & Htk & Hdc & Hiu & Hpm).
    + exact Hnd.
    + apply pool_wf_update; [split; assumption | simpl; lia | simpl; lia].
    + intros n Hn. unfold p1. rewrite in_use_of_update.
      case_decide as Hc; [subst n; contradiction |].
      apply Hheld. right. exact Hn.
    + exists p'. rewrite Hrun.
      split; [reflexivity |]. split; [exact Hwf' |].
      split; [| split; [exact Htk | split; [exact Hdc | split]]].
      * rewrite Htr. unfold p1, log; simpl. rewrite <- app_assoc. reflexivity.
      * intros n. rewrite Hiu. unfold p1. rewrite in_use_of_update.
        case_decide as Hc.
        -- subst n. destruct (held_cons_eq a l Ha) as [-> ->].
           unfold in_use_of. rewrite Hb. simpl. lia.
        -- rewrite (held_cons_ne a l n) by congruence. reflexivity.
      * intros n. rewrite Hpm. unfold p1. rewrite permits_of_update.
        case_decide as Hc.
        -- subst n. destruct (held_cons_eq a l Ha) as [-> ->].
           unfold permits_of. rewrite Hb. simpl. lia.
        -- rewrite (held_cons_ne a l n) by congruence. reflexivity.
Qed.

Lemma held_rev l n : held (rev l) n = held l n.
Proof.
  unfold held. repeat case_decide; try reflexivity; exfalso.
  - rewrite list_elem_of_In, <- in_rev, <- list_elem_of_In in *. contradiction.
  - rewrite list_elem_of_In, <- in_rev, <- list_elem_of_In in *. contradiction.
Qed.

(** The rollback of [try_acquire]: [_release_many] on the names acquired
    so far. *)
Lemma release_many_ok l p :
  NoDup l -> pool_wf p -> (forall n, n ∈ l -> 1 <= in_use_of p n) ->
  exists p',
    _release_many p l = (p', Return tt) /\
    pool_wf p' /\
    trace p' = trace p ++ List.map EvRelease (rev l) /\
    ticks p' = ticks p /\
    _default_capacity p' = _default_capacity p /\
    (forall n, in_use_of p' n = in_use_of p n - held l n) /\
    (forall n, permits_of p' n = permits_of p n + held l n).
Proof.
  intros Hnd Hwf Hheld. unfold _release_many.
  destruct (release_loop_ok (rev l) p) as (p' & H1 & H2 & H3 & H4 & H5 & H6 & H7).
  - apply NoDup_ListNoDup, List.NoDup_rev, NoDup_ListNoDup, Hnd.
  - exact Hwf.
  - intros n Hn. apply Hheld.
    rewrite list_elem_of_In, <- in_rev, <- list_elem_of_In in Hn. exact Hn.
  - exists p'. split; [exact H1 |]. split; [exact H2 |].
    split; [exact H3 |]. split; [exact H4 |]. split; [exact H5 |].
    split; intros n; rewrite <- (held_rev l n); auto.
Qed.

Lemma ensure_bucket_ok p name :
  pool_wf p ->
  exists p2 b,
    _ensure_bucket p name = (p2, Return b) /\
    _buckets p2 !! name = Some b /\
    pool_wf p2 /\
    trace p2 = trace p /\
    _default_capacity p2 = _default_capacity p /\
    (forall n, in_use_of p2 n = in_use_of p n) /\
    (forall n, permits_of p2 n = permits_of p n).
Proof.
  intros Hwf. unfold _ensure_bucket.
  destruct (_buckets p !! name) as [b|] eqn:Hb.
  - exists p, b. repeat (split; [first [reflexivity | assumption] |]).
    split; reflexivity.
  - destruct Hwf as [Hd Hbs]. unfold new_bucket.
    destruct (_default_capacity p <? 1) eqn:Hc; [apply Z.ltb_lt in Hc; lia |].
    eexists _, _. split; [reflexivity |].
    unfold set_buckets; simpl.
    split; [apply lookup_insert_eq |].
    split.
    { split; [exact Hd |]. simpl. intros n b0.
      rewrite lookup_insert. case_decide.
      - intros [= <-]. simpl. lia.
      - apply Hbs. }
    do 2 (split; [reflexivity |]).
    split; intros n; unfold in_use_of, permits_of; simpl;
      rewrite lookup_insert; case_decide; subst; rewrite ?Hb; reflexivity.
Qed.

Lemma ensure_bucket_ticks p name : ticks (fst (_ensure_bucket p name)) = ticks p.
Proof.
  unfold _ensure_bucket. destruct (_buckets p !! name); [reflexivity |].
  destruct (new_bucket (_default_capacity p)); reflexivity.
Qed.

Lemma acquire_loop_spec monotonic tmax names : forall p deadline acquired,
  pool_wf p -> NoDup (acquired ++ names) ->
  (forall n, n ∈ acquired -> 1 <= in_use_of p n) ->
  exists p' r done,
    acquire_loop monotonic tmax p deadline names acquired = (p', r) /\
    pool_wf p' /\
    done `prefix_of` names /\
    _default_capacity p' = _default_capacity p /\
    loop_post monotonic tmax p p' deadline names acquired done r.
Proof.
  induction names as [|name rest IH]; intros p deadline acquired Hwf Hnd Hheld.
  - exists p, (Return (Some {| locks := acquired; _released := false |})), [].
    simpl. rewrite !app_nil_r.
    split; [reflexivity |]. split; [exact Hwf |]. split; [reflexivity |].
    split; [reflexivity |].
    repeat (split; [reflexivity |]).
    split; [intros n; rewrite held_nil; lia |].
    split; [intros n; rewrite held_nil; lia |].
    intros n Hn. inversion Hn.
  - assert (NoDup acquired /\ (name ∉ acquired) /\ (name ∉ rest) /\
            NoDup ((acquired ++ [name]) ++ rest)) as (Hnda & Hna & Hnr & Hnd').
    { rewrite <- app_assoc. simpl. split_and!; [| | | exact Hnd].
      - apply NoDup_app in Hnd. apply Hnd.
      - apply NoDup_app in Hnd as (_ & Hd & _). intros Hin.
        apply (Hd name Hin). left.
      - apply NoDup_app in Hnd as (_ & _ & Hd).
        apply NoDup_cons in Hd. apply Hd. }
    cbn [acquire_loop].
    set (st := match deadline with
               | Some d => let '(p1, now) := read_clock monotonic p in
                           (p1, Some (Z.max 0 (d - now)))
               | None => (p, None)
               end).
    assert (exists p1 remaining, st = (p1, remaining) /\
              pool_wf p1 /\ trace p1 = trace p /\
              _default_capacity p1 = _default_capacity p /\
              _buckets p1 = _buckets p /\
              (remaining = None <-> deadline = None) /\
              (ticks p <= ticks p1)%nat /\
              (forall r, remaining = Some r ->
                 exists d, deadline = Some d /\
                           r = Z.max 0 (d - monotonic (ticks p))))
      as (p1 & remaining & -> & Hwf1 & Htr1 & Hdc1 & Hbk1 & Hrem & Htk1 & Hrd).
    { subst st. destruct deadline as [d|].
      - eexists _, _. split; [reflexivity |].
        split; [exact Hwf |]. do 3 (split; [reflexivity |]).
        split; [split; intros; discriminate |].
        split; [simpl; lia |].
        intros r [= <-]. exists d. split; reflexivity.
      - exists p, None. split; [reflexivity |].
        split; [exact Hwf |]. do 3 (split; [reflexivity |]).
        split; [split; reflexivity |].
        split; [lia | intros r [=]]. }
    assert (forall n, in_use_of p1 n = in_use_of p n) as Hiu1
      by (intros n; unfold in_use_of; rewrite Hbk1; reflexivity).
    assert (forall n, permits_of p1 n = permits_of p n) as Hpm1
      by (intros n; unfold permits_of; rewrite Hbk1, Hdc1; reflexivity).
    destruct (match remaining with Some r => r =? 0 | None => false end) eqn:Hz.
    + (* the time is up before this bucket is tried *)
      destruct (release_many_ok acquired p1) as (p' & Hrun & Hwf' & Htr & _ & Hdc & Hiu & Hpm).
      * exact Hnda.
      * exact Hwf1.
      * intros n Hn. rewrite Hiu1. apply Hheld, Hn.
      * exists p', (Return None), []. rewrite Hrun.
        split; [reflexivity |]. split; [exact Hwf' |].
        split; [apply prefix_nil |]. split; [congruence |].
        simpl. rewrite app_nil_r.
        split; [destruct remaining; [intros E; apply Hrem in E; discriminate | discriminate] |].
        split; [discriminate |].
        split; [rewrite Htr, Htr1; reflexivity |].
        split; intros n; [rewrite Hiu, Hiu1 | rewrite Hpm, Hpm1]; reflexivity.
    + destruct (ensure_bucket_ok p1 name Hwf1)
        as (p2 & b & Hens & Hb2 & Hwf2 & Htr2 & Hdc2 & Hiu2 & Hpm2).
      pose proof (ensure_bucket_ticks p1 name) as Htk2.
      rewrite Hens in Htk2. simpl in Htk2.
      rewrite Hens. unfold bucket_acquire.
      assert (sem b = permits_of p name) as Hsem
        by (rewrite <- Hpm1, <- Hpm2; unfold permits_of; rewrite Hb2; reflexivity).
      assert (in_use b = in_use_of p name) as Hinu
        by (rewrite <- Hiu1, <- Hiu2; unfold in_use_of; rewrite Hb2; reflexivity).
      pose proof (proj2 Hwf2 name b Hb2) as [Hib Hsb].
      destruct (0 <? sem b) eqn:Hpos.
      * (* the bucket is entered *)
        apply Z.ltb_lt in Hpos.
        set (b' := {| capacity := capacity b; sem := sem b - 1; in_use := in_use b + 1 |}).
        set (p3 := log (set_buckets p2 (<[name := b']> (_buckets p2))) (EvAcquire name)).
        destruct (IH p3 deadline (acquired ++ [name]))
          as (p' & r & done & Hrun & Hwf' & Hpre & Hdc & Hpost).
        { apply pool_wf_update; [exact Hwf2 | simpl; lia | simpl; lia]. }
        { exact Hnd'. }
        { intros n Hn. unfold p3. rewrite in_use_of_update.
          case_decide as Hc; [simpl; lia |].
          rewrite Hiu2, Hiu1. apply Hheld.
          apply elem_of_app in Hn as [Hn | Hn]; [exact Hn |].
          apply list_elem_of_singleton in Hn. congruence. }
        exists p', r, (name :: done). rewrite Hrun.
        split; [reflexivity |]. split; [exact Hwf' |].
        split; [apply prefix_cons, Hpre |].
        split; [rewrite Hdc; unfold p3; simpl; congruence |].
        assert (trace p3 = trace p ++ [EvAcquire name]) as Htr3
          by (unfold p3; simpl; congruence).
        assert (ticks p <= ticks p3)%nat as Htk3
          by (unfold p3; simpl; lia).
        assert (forall n, in_use_of p3 n =
                          if decide (name = n) then in_use_of p name + 1
                          else in_use_of p n) as Hiu3.
        { intros n. unfold p3. rewrite in_use_of_update.
          case_decide; [simpl; lia | rewrite Hiu2, Hiu1; reflexivity]. }
        assert (forall n, permits_of p3 n =
                          if decide (name = n) then permits_of p name - 1
                          else permits_of p n) as Hpm3.
        { intros n. unfold p3. rewrite permits_of_update.
          case_decide; [simpl; lia | rewrite Hpm2, Hpm1; reflexivity]. }
        assert (name ∉ done) as Hnd0.
        { intros Hin. apply Hnr. destruct Hpre as [k ->].
          apply elem_of_app. left. exact Hin. }
        unfold loop_post in *.
        destruct r as [[g|] | e |].
        -- destruct Hpost as (-> & -> & Htr & Hiu & Hpm & Hav).
           split; [reflexivity |].
           split; [rewrite <- app_assoc; reflexivity |].
           split; [rewrite Htr, Htr3, <- app_assoc; reflexivity |].
           split; [| split].
           ++ intros n. rewrite Hiu, Hiu3. case_decide as Hc.
              ** subst n. destruct (held_cons_eq name rest Hnr) as [-> ->]. lia.
              ** rewrite (held_cons_ne name rest n) by congruence. reflexivity.
           ++ intros n. rewrite Hpm, Hpm3. case_decide as Hc.
              ** subst n. destruct (held_cons_eq name rest Hnr) as [-> ->]. lia.
              ** rewrite (held_cons_ne name rest n) by congruence. reflexivity.
           ++ intros n Hn. apply elem_of_cons in Hn as [-> | Hn]; [lia |].
              specialize (Hav n Hn). rewrite Hpm3 in Hav.
              case_decide as Hc; [subst n; contradiction | exact Hav].
        -- destruct Hpost as (Hdl & Hne & Htr & Hiu & Hpm).
           split; [exact Hdl |].
           split; [congruence |].
           split; [rewrite Htr, Htr3, <- !app_assoc; reflexivity |].
           split.
           ++ intros n. rewrite Hiu, Hiu3. case_decide as Hc.
              ** subst n. destruct (held_snoc_eq name acquired Hna) as [-> ->]. lia.
              ** rewrite (held_snoc_ne name acquired n) by congruence. reflexivity.
           ++ intros n. rewrite Hpm, Hpm3. case_decide as Hc.
              ** subst n. destruct (held_snoc_eq name acquired Hna) as [-> ->]. lia.
              ** rewrite (held_snoc_ne name acquired n) by congruence. reflexivity.
        -- destruct Hpost as (He & Hne & Htr & Hiu & Hpm & d & k & Hd & Hk & H0 & Hmax).
           split; [exact He |].
           split; [congruence |].
           split; [rewrite Htr, Htr3, <- app_assoc; reflexivity |].
           split; [| split].
           ++ intros n. rewrite Hiu, Hiu3. case_decide as Hc.
              ** subst n. destruct (held_cons_eq name done Hnd0) as [-> ->]. lia.
              ** rewrite (held_cons_ne name done n) by congruence. reflexivity.
           ++ intros n. rewrite Hpm, Hpm3. case_decide as Hc.
              ** subst n. destruct (held_cons_eq name done Hnd0) as [-> ->]. lia.
              ** rewrite (held_cons_ne name done n) by congruence. reflexivity.
           ++ exists d, k. split; [exact Hd |]. split; [lia |]. split; assumption.
        -- destruct Hpost as (Hdl & Hne & Htr).
           split; [exact Hdl |]. split; [congruence |].
           rewrite Htr, Htr3, <- app_assoc. reflexivity.
      * (* the bucket has no permit *)
        destruct remaining as [r|].
        -- destruct ((0 <? r) && (tmax <? r)) eqn:Hover.
           ++ (* the wait is refused *)
              apply andb_true_iff in Hover as [Hr0 Hrm].
              apply Z.ltb_lt in Hr0. apply Z.ltb_lt in Hrm.
              destruct (Hrd r eq_refl) as (d & Hd & Hr).
              exists p2, (Raise OverflowError), [].
              split; [reflexivity |]. split; [exact Hwf2 |].
              split; [apply prefix_nil |]. split; [congruence |].
              simpl. rewrite app_nil_r.
              split; [reflexivity |]. split; [discriminate |].
              split; [congruence |].
              split; [intros n; rewrite Hiu2, Hiu1, held_nil; lia |].
              split; [intros n; rewrite Hpm2, Hpm1, held_nil; lia |].
              exists d, (ticks p). split; [exact Hd |]. split; [lia |]. lia.
           ++ destruct (release_many_ok acquired p2)
                as (p' & Hrun & Hwf' & Htr & _ & Hdc & Hiu & Hpm).
              ** exact Hnda.
              ** exact Hwf2.
              ** intros n Hn. rewrite Hiu2, Hiu1. apply Hheld, Hn.
              ** exists p', (Return None), []. rewrite Hrun.
                 split; [reflexivity |]. split; [exact Hwf' |].
                 split; [apply prefix_nil |]. split; [congruence |].
                 simpl. rewrite app_nil_r.
                 split; [intros E; apply Hrem in E; discriminate |].
                 split; [discriminate |].
                 split; [rewrite Htr, Htr2, Htr1; reflexivity |].
                 split; intros n;
                   [rewrite Hiu, Hiu2, Hiu1 | rewrite Hpm, Hpm2, Hpm1]; reflexivity.
        -- exists p2, Hang, [].
           split; [reflexivity |]. split; [exact Hwf2 |].
           split; [apply prefix_nil |]. split; [congruence |].
           simpl. rewrite app_nil_r.
           split; [apply Hrem; reflexivity |].
           split; [discriminate |]. congruence.
Qed.

(** One turn of the loop on a bucket that has a permit, before the
    deadline: the bucket is entered and the loop goes on. *)
Lemma acquire_loop_step monotonic tmax p deadline name rest acquired :
  pool_wf p -> 1 <= permits_of p name ->
  (forall d, deadline = Some d -> 0 < d - monotonic (ticks p)) ->
  exists p3,
    acquire_loop monotonic tmax p deadline (name :: rest) acquired =
      acquire_loop monotonic tmax p3 deadline rest (acquired ++ [name]) /\
    pool_wf p3 /\
    trace p3 = trace p ++ [EvAcquire name] /\
    ticks p3 = match deadline with Some _ => S (ticks p) | None => ticks p end /\
    (forall n, in_use_of p3 n =
               if decide (name = n) then in_use_of p name + 1 else in_use_of p n) /\
    (forall n, permits_of p3 n =
               if decide (name = n) then permits_of p name - 1 else permits_of p n).
Proof.
  intros Hwf Hperm Hclock. cbn [acquire_loop].
  set (st := match deadline with
             | Some d => let '(p1, now) := read_clock monotonic p in
                         (p1, Some (Z.max 0 (d - now)))
             | None => (p, None)
             end).
  assert (exists p1 remaining, st = (p1, remaining) /\
            pool_wf p1 /\ trace p1 = trace p /\
            _default_capacity p1 = _default_capacity p /\
            _buckets p1 = _buckets p /\
            ticks p1 = match deadline with Some _ => S (ticks p) | None => ticks p end /\
            match remaining with Some r => r =? 0 | None => false end = false)
    as (p1 & remaining & -> & Hwf1 & Htr1 & Hdc1 & Hbk1 & Htk1 & ->).
  { subst st. destruct deadline as [d|].
    - eexists _, _. split; [reflexivity |].
      split; [exact Hwf |]. do 4 (split; [reflexivity |]).
      specialize (Hclock d eq_refl). apply Z.eqb_neq. simpl. lia.
    - exists p, None. split; [reflexivity |].
      split; [exact Hwf |]. do 4 (split; [reflexivity |]). reflexivity. }
  assert (forall n, in_use_of p1 n = in_use_of p n) as Hiu1
    by (intros n; unfold in_use_of; rewrite Hbk1; reflexivity).
  assert (forall n, permits_of p1 n = permits_of p n) as Hpm1
    by (intros n; unfold permits_of; rewrite Hbk1, Hdc1; reflexivity).
  destruct (ensure_bucket_ok p1 name Hwf1)
    as (p2 & b & Hens & Hb2 & Hwf2 & Htr2 & Hdc2 & Hiu2 & Hpm2).
  pose proof (ensure_bucket_ticks p1 name) as Htk2.
  rewrite Hens in Htk2. simpl in Htk2.
  rewrite Hens. unfold bucket_acquire.
  assert (sem b = permits_of p name) as Hsem
    by (rewrite <- Hpm1, <- Hpm2; unfold permits_of; rewrite Hb2; reflexivity).
  assert (in_use b = in_use_of p name) as Hinu
    by (rewrite <- Hiu1, <- Hiu2; unfold in_use_of; rewrite Hb2; reflexivity).
  pose proof (proj2 Hwf2 name b Hb2) as [Hib Hsb].
  rewrite (proj2 (Z.ltb_lt 0 (sem b))) by lia.
  eexists. split; [reflexivity |].
  split; [apply pool_wf_update; [exact Hwf2 | simpl; lia | simpl; lia] |].
  split; [simpl; congruence |].
  split; [simpl; congruence |].
  split; intros n.
  - rewrite in_use_of_update.
    case_decide; [simpl; lia | rewrite Hiu2, Hiu1; reflexivity].
  - rewrite permits_of_update.
    case_decide; [simpl; lia | rewrite Hpm2, Hpm1; reflexivity].
Qed.

(** Every bucket has a permit and the deadline is not reached while the
    loop runs: every bucket is entered. *)
Lemma acquire_loop_success monotonic tmax names : forall p deadline acquired,
  pool_wf p -> NoDup names ->
  (forall n, n ∈ names -> 1 <= permits_of p n) ->
  (forall d k, deadline = Some d ->
               (ticks p <= k < ticks p + length names)%nat ->
               monotonic k < d) ->
  exists p',
    acquire_loop monotonic tmax p deadline names acquired =
      (p', Return (Some {| locks := acquired ++ names; _released := false |})).
Proof.
  induction names as [|name rest IH]; intros p deadline acquired Hwf Hnd Hav Hclock.
  - exists p. simpl. rewrite app_nil_r. reflexivity.
  - apply NoDup_cons in Hnd as [Hnr Hnd].
    destruct (acquire_loop_step monotonic tmax p deadline name rest acquired)
      as (p3 & -> & Hwf3 & _ & Htk3 & _ & Hpm3).
    + exact Hwf.
    + apply Hav. left.
    + intros d Hd. specialize (Hclock d (ticks p) Hd). simpl in Hclock. lia.
    + destruct (IH p3 deadline (acquired ++ [name])) as (p' & Hrun).
      * exact Hwf3.
      * exact Hnd.
      * intros n Hn. rewrite Hpm3.
        case_decide as Hc; [subst n; contradiction |].
        apply Hav. right. exact Hn.
      * intros d k Hd Hk. apply (Hclock d k Hd).
        rewrite Hd in Htk3. simpl. lia.
      * exists p'. rewrite Hrun, <- app_assoc. reflexivity.
Qed.

(** The buckets before [b] have a permit, [b] has none, and the time left
    stays above [tmax] while the loop runs: the wait on [b] is refused and
    the buckets entered before stay entered. *)
Lemma acquire_loop_overflow monotonic tmax pre :
  forall p d acquired b post,
  pool_wf p -> NoDup (pre ++ b :: post) ->
  (forall n, n ∈ pre -> 1 <= permits_of p n) ->
  permits_of p b <= 0 ->
  (forall k, (ticks p <= k < ticks p + S (length pre))%nat ->
             0 < d - monotonic k /\ tmax < d - monotonic k) ->
  exists p',
    acquire_loop monotonic tmax p (Some d) (pre ++ b :: post) acquired =
      (p', Raise OverflowError) /\
    trace p' = trace p ++ List.map EvAcquire pre /\
    (forall n, in_use_of p' n = in_use_of p n + held pre n) /\
    (forall n, permits_of p' n = permits_of p n - held pre n).
Proof.
  induction pre as [|name rest IH]; intros p d acquired b post Hwf Hnd Hav Hbusy Hclock.
  - destruct (Hclock (ticks p)) as [H0 Hmax]; [simpl; lia |].
    cbn [app acquire_loop read_clock].
    assert (Z.max 0 (d - monotonic (ticks p)) = d - monotonic (ticks p)) as -> by lia.
    rewrite (proj2 (Z.eqb_neq _ 0)) by lia.
    set (p1 := {| _default_capacity := _default_capacity p; _buckets := _buckets p;
                  ticks := S (ticks p); trace := trace p |}).
    assert (pool_wf p1) as Hwf1 by exact Hwf.
    destruct (ensure_bucket_ok p1 b Hwf1)
      as (p2 & bk & Hens & Hb2 & Hwf2 & Htr2 & Hdc2 & Hiu2 & Hpm2).
    rewrite Hens. unfold bucket_acquire.
    assert (sem bk = permits_of p b) as Hsem.
    { change (permits_of p b) with (permits_of p1 b).
      rewrite <- (Hpm2 b). unfold permits_of. rewrite Hb2. reflexivity. }
    rewrite (proj2 (Z.ltb_ge 0 (sem bk))) by lia.
    rewrite (proj2 (Z.ltb_lt 0 _) H0), (proj2 (Z.ltb_lt tmax _) Hmax).
    exists p2. split; [reflexivity |].
    split; [simpl; rewrite app_nil_r; exact Htr2 |].
    split; intros n; rewrite held_nil; [rewrite Hiu2 | rewrite Hpm2];
      unfold in_use_of, permits_of; simpl; lia.
  - simpl in Hnd. apply NoDup_cons in Hnd as [Hnr Hnd].
    destruct (acquire_loop_step monotonic tmax p (Some d) name
                (rest ++ b :: post) acquired)
      as (p3 & Hstep & Hwf3 & Htr3 & Htk3 & Hiu3 & Hpm3).
    + exact Hwf.
    + apply Hav. left.
    + intros d0 [= <-]. apply (Hclock (ticks p)). simpl. lia.
    + assert (name <> b) as Hnb.
      { intros ->. apply Hnr. apply elem_of_app. right. left. }
      assert (name ∉ rest) as Hnrest.
      { intros Hin. apply Hnr. apply elem_of_app. left. exact Hin. }
      destruct (IH p3 d (acquired ++ [name]) b post)
        as (p' & Hrun & Htr & Hiu & Hpm).
      * exact Hwf3.
      * exact Hnd.
      * intros n Hn. rewrite Hpm3.
        case_decide as Hc; [subst n; contradiction |].
        apply Hav. right. exact Hn.
      * rewrite Hpm3. rewrite decide_False by exact Hnb. exact Hbusy.
      * intros k Hk. apply Hclock. simpl. lia.
      * exists p'. change ((name :: rest) ++ b :: post)
          with (name :: (rest ++ b :: post)).
        rewrite Hstep, Hrun. split; [reflexivity |].
        split; [rewrite Htr, Htr3, <- app_assoc; reflexivity |].
        split; intros n.
        -- rewrite Hiu, Hiu3. case_decide as Hc.
           ++ subst n. destruct (held_cons_eq name rest Hnrest) as [-> ->]. lia.
           ++ rewrite (held_cons_ne name rest n) by congruence. reflexivity.
        -- rewrite Hpm, Hpm3. case_decide as Hc.
           ++ subst n. destruct (held_cons_eq name rest Hnrest) as [-> ->]. lia.
           ++ rewrite (held_cons_ne name rest n) by congruence. reflexivity.
Qed.

Lemma lock_names_sorted locks : StronglySorted str_lt (lock_names locks).
Proof. apply sorted_set_sorted. Qed.

Lemma lock_names_elem locks n :
  n ∈ lock_names locks <-> n <> EmptyString /\ exists x, x ∈ locks /\ strip x = n.
Proof.
  unfold lock_names. rewrite sorted_set_elem, list_elem_of_In, filter_In, in_map_iff.
  split.
  - intros [(x & Hx & Hin) Hne]. split.
    + intros ->. discriminate.
    + exists x. rewrite list_elem_of_In. auto.
  - intros [Hne (x & Hin & Hx)]. split.
    + exists x. rewrite <- list_elem_of_In. auto.
    + destruct n; [contradiction | reflexivity].
Qed.

Lemma try_acquire_spec monotonic tmax p locks timeout :
  pool_wf p ->
  exists p' r done,
    try_acquire monotonic tmax p locks timeout = (p', r) /\
    pool_wf p' /\
    done `prefix_of` lock_names locks /\
    (forall n, in_use_of p' n = in_use_of p n +
       match r with Return (Some _) => held (lock_names locks) n
               | Return None => 0
               | Raise _ => held done n
               | Hang => in_use_of p' n - in_use_of p n end) /\
    (forall n, r <> Hang -> permits_of p' n + in_use_of p' n =
                            permits_of p n + in_use_of p n) /\
    match r with
    | Return (Some g) =>
        done = lock_names locks /\
        g = {| locks := lock_names locks; _released := false |} /\
        trace p' = trace p ++ List.map EvAcquire done /\
        (forall n, n ∈ lock_names locks -> 1 <= permits_of p n)
    | Return None =>
        timeout <> None /\
        trace p' = trace p ++ List.map EvAcquire done ++ List.map EvRelease (rev done)
    | Raise e =>
        e = OverflowError /\ done <> lock_names locks /\
        trace p' = trace p ++ List.map EvAcquire done /\
        exists t k, timeout = Some t /\ (ticks p < k)%nat /\
                    0 < monotonic (ticks p) + Z.max 0 t - monotonic k /\
                    tmax < monotonic (ticks p) + Z.max 0 t - monotonic k
    | Hang => timeout = None /\ trace p' = trace p ++ List.map EvAcquire done
    end.
Proof.
  intros Hwf. unfold try_acquire.
  destruct locks as [|x locks0].
  { exists p, (Return (Some {| locks := []; _released := false |})), [].
    split; [reflexivity |]. split; [exact Hwf |]. split; [reflexivity |].
    split; [intros n; rewrite held_nil; lia |].
    split; [reflexivity |].
    simpl. rewrite app_nil_r. repeat (split; [reflexivity |]).
    intros n Hn. inversion Hn. }
  set (locks := x :: locks0).
  set (st := match timeout with
             | Some t => let '(p1, now) := read_clock monotonic p in
                         (p1, Some (now + Z.max 0 t))
             | None => (p, None)
             end).
  assert (exists p1 deadline, st = (p1, deadline) /\
            pool_wf p1 /\ trace p1 = trace p /\
            _default_capacity p1 = _default_capacity p /\
            _buckets p1 = _buckets p /\
            (deadline = None <-> timeout = None) /\
            (forall d, deadline = Some d ->
               exists t, timeout = Some t /\ ticks p1 = S (ticks p) /\
                         d = monotonic (ticks p) + Z.max 0 t))
    as (p1 & deadline & -> & Hwf1 & Htr1 & Hdc1 & Hbk1 & Hdl & Hdd).
  { subst st. destruct timeout as [t|].
    - eexists _, _. split; [reflexivity |].
      split; [exact Hwf |]. do 3 (split; [reflexivity |]).
      split; [split; intros; discriminate |].
      intros d [= <-]. exists t. repeat split.
    - exists p, None. split; [reflexivity |].
      split; [exact Hwf |]. do 3 (split; [reflexivity |]).
      split; [split; reflexivity | intros d [=]]. }
  assert (forall n, in_use_of p1 n = in_use_of p n) as Hiu1
    by (intros n; unfold in_use_of; rewrite Hbk1; reflexivity).
  assert (forall n, permits_of p1 n = permits_of p n) as Hpm1
    by (intros n; unfold permits_of; rewrite Hbk1, Hdc1; reflexivity).
  destruct (acquire_loop_spec monotonic tmax (lock_names locks) p1 deadline [])
    as (p' & r & done & Hrun & Hwf' & Hpre & Hdc & Hpost).
  - exact Hwf1.
  - simpl. apply strictly_sorted_NoDup, lock_names_sorted.
  - intros n Hn. inversion Hn.
  - exists p', r, done. rewrite Hrun.
    split; [reflexivity |]. split; [exact Hwf' |]. split; [exact Hpre |].
    unfold loop_post in Hpost. destruct r as [[g|] | e |].
    + destruct Hpost as (-> & -> & Htr & Hiu & Hpm & Hav).
      split; [intros n; rewrite Hiu, Hiu1; reflexivity |].
      split; [intros n _; rewrite Hiu, Hpm, Hiu1, Hpm1; lia |].
      split; [reflexivity |]. split; [reflexivity |].
      split; [rewrite Htr, Htr1; reflexivity |].
      intros n Hn. rewrite <- Hpm1. apply Hav, Hn.
    + destruct Hpost as (Hd & Hne & Htr & Hiu & Hpm).
      split; [intros n; rewrite Hiu, Hiu1, held_nil; lia |].
      split; [intros n _; rewrite Hiu, Hpm, Hiu1, Hpm1; lia |].
      split; [intros E; apply Hdl in E; contradiction |].
      rewrite Htr, Htr1. reflexivity.
    + destruct Hpost as (He & Hne & Htr & Hiu & Hpm & d & k & Hd & Hk & H0 & Hmax).
      destruct (Hdd d Hd) as (t & Ht & Htk & ->).
      split; [intros n; rewrite Hiu, Hiu1; reflexivity |].
      split; [intros n _; rewrite Hiu, Hpm, Hiu1, Hpm1; lia |].
      split; [exact He |]. split; [exact Hne |].
      split; [rewrite Htr, Htr1; reflexivity |].
      exists t, k. split; [exact Ht |]. split; [lia |]. split; assumption.
    + destruct Hpost as (Hd & Hne & Htr).
      split; [intros n; lia |].
      split; [intros n Hc; contradiction |].
      split; [apply Hdl, Hd |].
      rewrite Htr, Htr1. reflexivity.
Qed.

(** [try_acquire] on buckets that all have a permit, before the deadline. *)
Lemma try_acquire_success monotonic tmax p locks timeout :
  pool_wf p ->
  (forall n, n ∈ lock_names locks -> 1 <= permits_of p n) ->
  (forall t k, timeout = Some t ->
               (ticks p < k <= ticks p + length (lock_names locks))%nat ->
               monotonic k < monotonic (ticks p) + t) ->
  exists p',
    try_acquire monotonic tmax p locks timeout =
      (p', Return (Some {| locks := lock_names locks; _released := false |})).
Proof.
  intros Hwf Hav Hclock. unfold try_acquire.
  destruct locks as [|x locks0]; [exists p; reflexivity |].
  set (locks := x :: locks0) in *.
  destruct timeout as [t|].
  - cbn [read_clock].
    apply (acquire_loop_success monotonic tmax (lock_names locks) _ _ []).
    + exact Hwf.
    + apply strictly_sorted_NoDup, lock_names_sorted.
    + exact Hav.
    + intros d k [= <-] Hk. simpl in Hk.
      specialize (Hclock t k eq_refl). lia.
  - apply (acquire_loop_success monotonic tmax (lock_names locks) _ _ []).
    + exact Hwf.
    + apply strictly_sorted_NoDup, lock_names_sorted.
    + exact Hav.
    + intros d k [=].
Qed.

(** C6. Acquisition with a timeout is all-or-nothing only up to
    [threading.TIMEOUT_MAX].  For a timeout that is at most [TIMEOUT_MAX],
    on a clock that does not go back, [try_acquire] either holds every
    requested bucket, or it returns [None] after releasing what it had
    taken, so that every bucket has the in-use count and the permits it had
    before the call, and [acquire] raises [ResourceTimeout]; the call fails
    whenever one of the requested buckets has no permit left.  For a
    timeout above [TIMEOUT_MAX] the property fails: when the buckets whose
    names sort before [b] have a permit and [b] has none, the wait on [b]
    raises [OverflowError] out of [try_acquire] and [acquire], no
    [ResourceTimeout] is raised, nothing is released, and every bucket
    entered before [b] stays held. *)
Theorem try_acquire_timeout_max_leak (monotonic : nat -> Z) (TIMEOUT_MAX : Z)
        (p : ResourcePool) (names : list string) (t : Z) :
  pool_wf p ->
  ((forall i j, (i <= j)%nat -> monotonic i <= monotonic j) ->
   t <= TIMEOUT_MAX ->
   exists p' r,
     try_acquire monotonic TIMEOUT_MAX p names (Some t) = (p', r) /\
     ((exists g, r = Return (Some g) /\
         locks g = lock_names names /\
         acquire monotonic TIMEOUT_MAX p names (Some t) = (p', Return g) /\
         forall n, in_use_of p' n = in_use_of p n + held (lock_names names) n)
      \/
      (r = Return None /\
       (forall n, in_use_of p' n = in_use_of p n) /\
       (forall n, permits_of p' n = permits_of p n) /\
       (exists done, done `prefix_of` lock_names names /\
          trace p' = trace p ++ List.map EvAcquire done
                             ++ List.map EvRelease (rev done)) /\
       exists msg,
         acquire monotonic TIMEOUT_MAX p names (Some t)
         = (p', Raise (ResourceTimeout msg)))) /\
     ((exists n, n ∈ lock_names names /\ permits_of p n <= 0) ->
      r = Return None)) /\
  (forall pre b post,
     lock_names names = pre ++ b :: post ->
     (forall n, n ∈ pre -> 1 <= permits_of p n) ->
     permits_of p b <= 0 ->
     0 <= TIMEOUT_MAX -> TIMEOUT_MAX < t ->
     (forall k, (ticks p < k <= ticks p + S (length pre))%nat ->
                TIMEOUT_MAX < monotonic (ticks p) + t - monotonic k) ->
     exists p',
       try_acquire monotonic TIMEOUT_MAX p names (Some t)
       = (p', Raise OverflowError) /\
       acquire monotonic TIMEOUT_MAX p names (Some t)
       = (p', Raise OverflowError) /\
       trace p' = trace p ++ List.map EvAcquire pre /\
       (forall n, in_use_of p' n = in_use_of p n + held pre n) /\
       (forall n, permits_of p' n = permits_of p n - held pre n)).
Proof.
  intros Hwf. split.
  - intros Hmono Hle.
    destruct (try_acquire_spec monotonic TIMEOUT_MAX p names (Some t) Hwf)
      as (p' & r & done & Hrun & Hwf' & Hpre & Hiu & Hsum & Hpost).
    exists p', r. split; [exact Hrun |].
    destruct r as [[g|] | e |].
    + destruct Hpost as (-> & -> & Htr & Hav). split.
      * left. eexists. split; [reflexivity |]. split; [reflexivity |].
        split; [unfold acquire; rewrite Hrun; reflexivity | exact Hiu].
      * intros (n & Hn & Hz). specialize (Hav n Hn). lia.
    + destruct Hpost as (_ & Htr). split; [| reflexivity].
      right. split; [reflexivity |].
      assert (forall n, in_use_of p' n = in_use_of p n) as Hiu'
        by (intros n; rewrite Hiu; lia).
      split; [exact Hiu' |].
      split.
      { intros n. assert (Return (A := option ResourceGuard) None <> Hang) as Hne
          by discriminate.
        specialize (Hsum n Hne). rewrite Hiu' in Hsum. lia. }
      split; [exists done; split; assumption |].
      eexists. unfold acquire. rewrite Hrun. reflexivity.
    + destruct Hpost as (_ & _ & _ & t0 & k & [= <-] & Hk & H0 & Hmax).
      pose proof (Hmono (ticks p) k) as Hm. lia.
    + destruct Hpost as (Hc & _). discriminate.
  - intros pre b post Hnames Hav Hbusy Hmax0 Hbig Hclock.
    unfold acquire, try_acquire.
    destruct names as [|x names0];
      [exfalso; change (lock_names []) with (@nil string) in Hnames;
       destruct pre; discriminate |].
    rewrite Hnames. cbn [read_clock].
    destruct (acquire_loop_overflow monotonic TIMEOUT_MAX pre
                {| _default_capacity := _default_capacity p;
                   _buckets := _buckets p;
                   ticks := S (ticks p); trace := trace p |}
                (monotonic (ticks p) + Z.max 0 t) [] b post)
      as (p' & Hrun & Htr & Hiu & Hpm).
    + exact Hwf.
    + rewrite <- Hnames. apply strictly_sorted_NoDup, lock_names_sorted.
    + exact Hav.
    + exact Hbusy.
    + intros k Hk. simpl in Hk.
      assert (TIMEOUT_MAX < monotonic (ticks p) + t - monotonic k) as Hc
        by (apply Hclock; lia).
      lia.
    + exists p'. rewrite Hrun.
      split; [reflexivity |]. split; [reflexivity |].
      split; [exact Htr |]. split; [exact Hiu | exact Hpm].
Qed.

Lemma busy_pool_wf (dc : Z) (name : string) (b : _LockBucket) :
  1 <= dc -> 0 <= in_use b -> 0 <= sem b ->
  pool_wf {| _default_capacity := dc; _buckets := {[ name := b ]};
             ticks := 0; trace := [] |}.
Proof.
  intros Hd Hi Hs. split; [exact Hd |]. simpl. intros n b0.
  rewrite lookup_singleton_Some. intros [_ <-]. auto.
Qed.

Lemma try_acquire_timeout_max_leak_witness :
  let p := {| _default_capacity := 1;
              _buckets := {[ "b"%string := {| capacity := 1; sem := 0; in_use := 1 |} ]};
              ticks := 0; trace := [] |} in
  pool_wf p /\
  (exists p',
     try_acquire Z.of_nat 9223372036 p ["a"; "b"]%string (Some 5)
     = (p', Return None) /\
     in_use_of p' "a" = 0 /\ in_use_of p' "b" = 1) /\
  (exists p',
     acquire Z.of_nat 9223372036 p ["a"; "b"]%string (Some 9223372040)
     = (p', Raise OverflowError) /\
     trace p' = [EvAcquire "a"] /\
     in_use_of p' "a" = 1 /\ permits_of p' "a" = 0).
Proof.
  intros p.
  assert (pool_wf p) as Hwf by (apply busy_pool_wf; simpl; lia).
  split; [exact Hwf |]. split.
  - destruct (try_acquire_timeout_max_leak Z.of_nat 9223372036 p
                ["a"; "b"]%string 5 Hwf) as [Hall _].
    destruct Hall as (p' & r & Hrun & Hcases & Hfail); [intros i j; lia | lia |].
    assert (r = Return None) as ->.
    { apply Hfail. exists "b"%string. split; [| vm_compute; discriminate].
      apply lock_names_elem. split; [discriminate |].
      exists "b"%string. split; [| reflexivity]. right. left. }
    exists p'. split; [exact Hrun |].
    destruct Hcases as [(g & Hg & _) | (_ & Hiu & _)]; [discriminate |].
    rewrite !Hiu. split; reflexivity.
  - destruct (try_acquire_timeout_max_leak Z.of_nat 9223372036 p
                ["a"; "b"]%string 9223372040 Hwf) as [_ Hleak].
    destruct (Hleak ["a"%string] "b"%string [])
      as (p' & _ & Hrun & Htr & Hiu & Hpm).
    + vm_compute. reflexivity.
    + intros n Hn. apply list_elem_of_singleton in Hn. subst n.
      vm_compute. discriminate.
    + vm_compute. discriminate.
    + lia.
    + lia.
    + intros k Hk. simpl in Hk. simpl. lia.
    + exists p'. split; [exact Hrun |]. split; [exact Htr |].
      rewrite Hiu, Hpm. split; vm_compute; reflexivity.
Defined.

(** C7. Every call of [try_acquire] enters its buckets in the sorted order
    of their names, a strict order that is the same for every caller; a
    rollback releases the buckets taken so far in the reverse order, and so
    does the release of the guard of a successful call. *)
Theorem try_acquire_sorted_order (monotonic : nat -> Z) (TIMEOUT_MAX : Z)
        (p : ResourcePool) (names : list string) (timeout : option Z) :
  pool_wf p ->
  StronglySorted str_lt (lock_names names) /\
  exists p' r done,
    try_acquire monotonic TIMEOUT_MAX p names timeout = (p', r) /\
    done `prefix_of` lock_names names /\
    trace p' = trace p ++ List.map EvAcquire done
                       ++ match r with
                          | Return None => List.map EvRelease (rev done)
                          | _ => []
                          end /\
    forall g, r = Return (Some g) ->
      locks g = done /\ done = lock_names names /\
      exists p'' g',
        guard_release p' g = (p'', Return g') /\ _released g' = true /\
        trace p'' = trace p' ++ List.map EvRelease (rev done).
Proof.
  intros Hwf. split; [apply lock_names_sorted |].
  destruct (try_acquire_spec monotonic TIMEOUT_MAX p names timeout Hwf)
    as (p' & r & done & Hrun & Hwf' & Hpre & Hiu & Hsum & Hpost).
  exists p', r, done. split; [exact Hrun |]. split; [exact Hpre |].
  destruct r as [[g|] | e |].
  - destruct Hpost as (-> & -> & Htr & Hav).
    split; [rewrite Htr, app_nil_r; reflexivity |].
    intros g0 [= <-]. simpl. split; [reflexivity |]. split; [reflexivity |].
    destruct (release_many_ok (lock_names names) p')
      as (p'' & Hrel & _ & Htr'' & _).
    + apply strictly_sorted_NoDup, lock_names_sorted.
    + exact Hwf'.
    + intros n Hn. rewrite Hiu. unfold held. rewrite decide_True by exact Hn.
      pose proof (Hav n Hn).
      assert (0 <= in_use_of p n); [| lia].
      unfold in_use_of. destruct (_buckets p !! n) as [b|] eqn:Hb; [| lia].
      apply (proj2 Hwf n b Hb).
    + eexists p'', _. unfold guard_release. simpl. rewrite Hrel.
      split; [reflexivity |]. split; [reflexivity | exact Htr''].
  - destruct Hpost as (_ & Htr). split; [exact Htr |]. intros g [=].
  - destruct Hpost as (_ & _ & Htr & _).
    split; [rewrite Htr, app_nil_r; reflexivity |]. intros g [=].
  - destruct Hpost as (_ & Htr).
    split; [rewrite Htr, app_nil_r; reflexivity |]. intros g [=].
Qed.

Lemma try_acquire_sorted_order_witness :
  let p := {| _default_capacity := 1;
              _buckets := {[ "b"%string := {| capacity := 2; sem := 1; in_use := 1 |} ]};
              ticks := 0; trace := [] |} in
  pool_wf p /\
  StronglySorted str_lt (lock_names ["disk:0"; "b"; "GPU"]%string) /\
  exists p' r done,
    try_acquire Z.of_nat 9223372036 p ["disk:0"; "b"; "GPU"]%string None = (p', r) /\
    done `prefix_of` lock_names ["disk:0"; "b"; "GPU"]%string /\
    trace p' = trace p ++ List.map EvAcquire done
                       ++ match r with
                          | Return None => List.map EvRelease (rev done)
                          | _ => []
                          end /\
    forall g, r = Return (Some g) ->
      locks g = done /\ done = lock_names ["disk:0"; "b"; "GPU"]%string /\
      exists p'' g',
        guard_release p' g = (p'', Return g') /\ _released g' = true /\
        trace p'' = trace p' ++ List.map EvRelease (rev done).
Proof.
  intros p.
  assert (pool_wf p) as Hwf by (apply busy_pool_wf; simpl; lia).
  split; [exact Hwf |].
  exact (try_acquire_sorted_order Z.of_nat 9223372036 p
           ["disk:0"; "b"; "GPU"]%string None Hwf).
Defined.

(** C10. [try_acquire] holds exactly the distinct, trimmed, non-blank
    names of the request, each of them once.  When each of these buckets
    has a permit and the deadline, if there is one, is not reached while
    they are entered, the call returns a guard, and the names of the guard
    are those names, without repetition, each with its in-use count raised
    by one; every guard that [try_acquire] returns is of this form.  A
    request that is empty or all blank returns a guard without locks and
    leaves every bucket alone, whatever the state of the pool and the
    timeout. *)
Theorem try_acquire_name_set (monotonic : nat -> Z) (TIMEOUT_MAX : Z)
        (p : ResourcePool) (names : list string) (timeout : option Z) :
  (pool_wf p ->
   (forall n, n ∈ lock_names names -> 1 <= permits_of p n) ->
   (forall t k, timeout = Some t ->
                (ticks p < k <= ticks p + length (lock_names names))%nat ->
                monotonic k < monotonic (ticks p) + t) ->
   exists p' g,
     try_acquire monotonic TIMEOUT_MAX p names timeout = (p', Return (Some g)) /\
     NoDup (locks g) /\
     (forall n, n ∈ locks g <->
                n <> EmptyString /\ exists x, x ∈ names /\ strip x = n) /\
     (forall n, in_use_of p' n = in_use_of p n + held (locks g) n)) /\
  (pool_wf p ->
   forall p' g,
     try_acquire monotonic TIMEOUT_MAX p names timeout = (p', Return (Some g)) ->
     NoDup (locks g) /\
     (forall n, n ∈ locks g <->
                n <> EmptyString /\ exists x, x ∈ names /\ strip x = n) /\
     (forall n, in_use_of p' n = in_use_of p n + held (locks g) n)) /\
  ((forall x, x ∈ names -> strip x = EmptyString) ->
   exists p',
     try_acquire monotonic TIMEOUT_MAX p names timeout =
       (p', Return (Some {| locks := []; _released := false |})) /\
     _buckets p' = _buckets p /\ trace p' = trace p).
Proof.
  assert (pool_wf p ->
          forall p' g,
            try_acquire monotonic TIMEOUT_MAX p names timeout
            = (p', Return (Some g)) ->
            NoDup (locks g) /\
            (forall n, n ∈ locks g <->
                       n <> EmptyString /\ exists x, x ∈ names /\ strip x = n) /\
            (forall n, in_use_of p' n = in_use_of p n + held (locks g) n))
    as Hform.
  { intros Hwf p' g Hrun.
    destruct (try_acquire_spec monotonic TIMEOUT_MAX p names timeout Hwf)
      as (p1 & r & done & Hrun' & Hwf' & Hpre & Hiu & Hsum & Hpost).
    rewrite Hrun in Hrun'. injection Hrun' as <- <-.
    destruct Hpost as (-> & -> & Htr & Hav). simpl.
    split; [apply strictly_sorted_NoDup, lock_names_sorted |].
    split; [intros n; apply lock_names_elem | exact Hiu]. }
  split; [| split; [exact Hform |]].
  - intros Hwf Hav Hclock.
    destruct (try_acquire_success monotonic TIMEOUT_MAX p names timeout
                Hwf Hav Hclock) as (p' & Hrun).
    eexists p', _. split; [exact Hrun |]. exact (Hform Hwf _ _ Hrun).
  - intros Hblank. unfold try_acquire.
    destruct names as [|x names0]; [exists p; auto |].
    assert (lock_names (x :: names0) = []) as ->.
    { destruct (lock_names (x :: names0)) as [|n l] eqn:E; [reflexivity |].
      assert (n ∈ lock_names (x :: names0)) as Hn by (rewrite E; left).
      apply lock_names_elem in Hn as (Hne & y & Hy & Hs).
      rewrite (Hblank y Hy) in Hs. congruence. }
    destruct timeout as [t|]; simpl; eexists; split; reflexivity || auto.
Qed.

Lemma try_acquire_name_set_witness :
  let p := {| _default_capacity := 1;
              _buckets := {[ "GPU"%string := {| capacity := 1; sem := 0; in_use := 1 |} ]};
              ticks := 0; trace := [] |} in
  pool_wf p /\
  (exists p' g,
     try_acquire Z.of_nat 9223372036 p
       [" disk "; "disk"; "  "; "cpu"]%string (Some 3)
     = (p', Return (Some g)) /\
     NoDup (locks g) /\
     "disk"%string ∈ locks g /\ "cpu"%string ∈ locks g /\
     (" disk "%string ∉ locks g) /\ ("GPU"%string ∉ locks g) /\
     in_use_of p' "disk" = 1 /\ in_use_of p' "cpu" = 1 /\
     in_use_of p' "GPU" = 1) /\
  exists p',
    try_acquire Z.of_nat 9223372036 p ["  "; ""]%string None =
      (p', Return (Some {| locks := []; _released := false |})).
Proof.
  intros p.
  assert (pool_wf p) as Hwf by (apply busy_pool_wf; simpl; lia).
  split; [exact Hwf |]. split.
  - destruct (try_acquire_name_set Z.of_nat 9223372036 p
                [" disk "; "disk"; "  "; "cpu"]%string (Some 3))
      as (H1 & Hform & _).
    assert (exists p' g,
              try_acquire Z.of_nat 9223372036 p
                [" disk "; "disk"; "  "; "cpu"]%string (Some 3)
              = (p', Return (Some g))) as (p' & g & Hrun);
      [destruct H1 as (p' & g & Hrun & _); [| | | eauto] |
       destruct (Hform Hwf p' g Hrun) as (Hnd & Hel & Hiu)].
    + exact Hwf.
    + intros n Hn. apply lock_names_elem in Hn as (Hne & x & Hx & Hs).
      repeat (apply elem_of_cons in Hx as [-> | Hx];
              [vm_compute in Hs; subst n;
               first [contradiction Hne; reflexivity | vm_compute; discriminate] |]).
      inversion Hx.
    + intros t k [= <-] Hk.
      change (length (lock_names [" disk "; "disk"; "  "; "cpu"]%string))
        with 2%nat in Hk.
      simpl in Hk. simpl. lia.
    + assert ("disk"%string ∈ locks g) as Hdisk.
      { apply Hel. split; [discriminate |]. exists "disk"%string.
        split; [right; left | reflexivity]. }
      assert ("cpu"%string ∈ locks g) as Hcpu.
      { apply Hel. split; [discriminate |]. exists "cpu"%string.
        split; [do 3 right; left | reflexivity]. }
      assert (forall s, (forall x, x ∈ [" disk "; "disk"; "  "; "cpu"]%string ->
                                   strip x <> s) -> s ∉ locks g) as Hout.
      { intros s Hs Hin. apply Hel in Hin as (_ & x & Hx & Hx'). exact (Hs x Hx Hx'). }
      assert (" disk "%string ∉ locks g) as Hraw.
      { apply Hout. intros x Hx.
        repeat (apply elem_of_cons in Hx as [-> | Hx]; [vm_compute; discriminate |]).
        inversion Hx. }
      assert ("GPU"%string ∉ locks g) as Hgpu.
      { apply Hout. intros x Hx.
        repeat (apply elem_of_cons in Hx as [-> | Hx]; [vm_compute; discriminate |]).
        inversion Hx. }
      exists p', g. split; [exact Hrun |]. split; [exact Hnd |].
      split; [exact Hdisk |]. split; [exact Hcpu |].
      split; [exact Hraw |]. split; [exact Hgpu |].
      rewrite !Hiu. unfold held.
      rewrite (decide_True _ _ Hdisk), (decide_True _ _ Hcpu),
        (decide_False _ _ Hgpu).
      split; [reflexivity |]. split; reflexivity.
  - destruct (try_acquire_name_set Z.of_nat 9223372036 p ["  "; ""]%string None)
      as (_ & _ & H2).
    destruct H2 as (p' & Hrun & _).
    + intros x Hx.
      repeat (apply elem_of_cons in Hx as [-> | Hx]; [reflexivity |]).
      inversion Hx.
    + exists p'. exact Hrun.
Defined.

End ResourcesFacts.

(* ===================================================================== *)
(** ** Environment key and creation lock *)
(* ===================================================================== *)

Section EnvsFacts.
Import PyStr Envs.

Example normalize_packages_sorted_dedup :
  _normalize_packages ["numpy "; "Requests"; "requests"; " "; "NumPy"; "aiohttp"]%string
  = ["aiohttp"; "numpy"; "Requests"]%string.
Proof. vm_compute. reflexivity. Qed.

Example compute_deps_hash_order_duplicates :
  compute_deps_hash ["b"; "a"; "b"]%string "py310"
  = compute_deps_hash ["a"; "b"]%string "py310".
Proof. vm_compute. reflexivity. Qed.

(** C8. The key is not insensitive to letter casing: the entries are
    deduplicated and sorted on their lower-cased form but hashed as they
    were written, so two lists that differ only in casing get different
    keys, and so do two lists that differ only in the order of two
    spellings of one name. *)
Theorem compute_deps_hash_depends_on_casing :
  compute_deps_hash ["Requests"]%string "py311" = "py311-f23d8b250c8a"%string /\
  compute_deps_hash ["requests"]%string "py311" = "py311-9827ef178aa6"%string /\
  compute_deps_hash ["requests"; "Requests"]%string "py311"
    <> compute_deps_hash ["Requests"; "requests"]%string "py311".
Proof.
  split; [vm_compute; reflexivity |].
  split; [vm_compute; reflexivity |].
  vm_compute. discriminate.
Qed.

Lemma insert_by_key_elem key x y l :
  y ∈ insert_by_key key x l <-> y = x \/ y ∈ l.
Proof.
  induction l as [|z l IH]; simpl.
  - rewrite list_elem_of_singleton, elem_of_nil. intuition.
  - destruct (String.leb (key x) (key z)).
    + rewrite !elem_of_cons. reflexivity.
    + rewrite !elem_of_cons, IH. intuition.
Qed.

Lemma insert_by_key_sorted key x l :
  StronglySorted (key_lt key) l ->
  (forall y, y ∈ l -> key y <> key x) ->
  StronglySorted (key_lt key) (insert_by_key key x l).
Proof.
  induction 1 as [|z l Hs IH Hall]; intros Hfresh; simpl.
  - constructor; constructor.
  - assert (key z <> key x) as Hzx by (apply Hfresh; left).
    unfold String.leb.
    destruct (String.compare (key x) (key z)) eqn:E.
    + apply String.compare_eq_iff in E. congruence.
    + constructor; [constructor; assumption |].
      constructor; [exact E |].
      eapply Forall_impl; [exact Hall |]. intros w Hw.
      eapply str_lt_trans; [exact E | exact Hw].
    + constructor.
      * apply IH. intros y Hy. apply Hfresh. right. exact Hy.
      * apply Forall_forall. intros w Hw. apply insert_by_key_elem in Hw.
        destruct Hw as [-> | Hw].
        -- apply str_gt_lt, E.
        -- rewrite Forall_forall in Hall. apply Hall, Hw.
Qed.

Lemma sort_by_key_elem key x l : x ∈ sort_by_key key l <-> x ∈ l.
Proof.
  induction l as [|y l IH]; simpl.
  - reflexivity.
  - rewrite insert_by_key_elem, IH, elem_of_cons. reflexivity.
Qed.

Lemma sort_by_key_sorted key l :
  List.NoDup (List.map key l) ->
  StronglySorted (key_lt key) (sort_by_key key l).
Proof.
  induction l as [|x l IH]; simpl; intros Hnd.
  - constructor.
  - inversion Hnd as [|k ks Hk Hnd']; subst.
    apply insert_by_key_sorted; [apply IH, Hnd' |].
    intros y Hy Heq. apply Hk. apply sort_by_key_elem in Hy.
    rewrite <- Heq. apply in_map, list_elem_of_In, Hy.
Qed.

(** The sort sees only which entries there are, once their keys differ. *)
Lemma sort_by_key_unique key l1 l2 :
  List.NoDup (List.map key l1) -> List.NoDup (List.map key l2) ->
  (forall x, x ∈ l1 <-> x ∈ l2) ->
  sort_by_key key l1 = sort_by_key key l2.
Proof.
  intros H1 H2 Hel.
  pose proof (sort_by_key_sorted key l1 H1) as S1.
  pose proof (sort_by_key_sorted key l2 H2) as S2.
  assert (forall l, StronglySorted (key_lt key) l -> NoDup l) as Hnd.
  { induction 1 as [|z l Hs IH Hall]; constructor; [| exact IH].
    intros Hin. rewrite Forall_forall in Hall.
    exact (str_lt_irrefl _ (Hall z Hin)). }
  apply (StronglySorted_unique_strong (key_lt key)); [| exact S1 | exact S2 |].
  - intros a b _ _ Hab Hba. exfalso.
    exact (str_lt_irrefl _ (str_lt_trans _ _ _ Hab Hba)).
  - apply NoDup_Permutation; [apply Hnd, S1 | apply Hnd, S2 |].
    intros x. rewrite !sort_by_key_elem. apply Hel.
Qed.

Lemma entries_cons p rest :
  entries (p :: rest) =
  if nonempty (strip p) then strip p :: entries rest else entries rest.
Proof. unfold entries. simpl. destruct (nonempty (strip p)); reflexivity. Qed.

(** The loop of [_normalize_packages] keeps one entry for each lower-cased
    key, the one met first. *)
Lemma normalize_loop_spec packages : forall seen items,
  (forall k, k ∈ seen <-> In k (List.map lower items)) ->
  List.NoDup (List.map lower items) ->
  List.NoDup (List.map lower (normalize_loop packages seen items)) /\
  (forall s, s ∈ normalize_loop packages seen items ->
             s ∈ items \/ s ∈ entries packages) /\
  (forall s, s ∈ items -> s ∈ normalize_loop packages seen items) /\
  (forall s, s ∈ entries packages ->
             In (lower s) (List.map lower (normalize_loop packages seen items))).
Proof.
  induction packages as [|p rest IH]; intros seen items Hseen Hnd; simpl.
  - split; [exact Hnd |]. split; [auto |]. split; [auto |].
    intros s Hs. inversion Hs.
  - rewrite entries_cons. destruct (nonempty (strip p)) eqn:Hne; simpl.
    + destruct (decide (lower (strip p) ∈ seen)) as [Hin | Hout].
      * destruct (IH seen items Hseen Hnd) as (H1 & H2 & H3 & H4).
        split; [exact H1 |]. split; [| split; [exact H3 |]].
        -- intros s Hs. destruct (H2 s Hs); [left | right; right]; assumption.
        -- intros s Hs. apply elem_of_cons in Hs as [-> | Hs]; [| apply H4, Hs].
           apply Hseen in Hin. apply in_map_iff in Hin as (s' & Hs' & Hin').
           rewrite <- Hs'. apply in_map, list_elem_of_In, H3, list_elem_of_In, Hin'.
      * destruct (IH ({[lower (strip p)]} ∪ seen) (items ++ [strip p]))
          as (H1 & H2 & H3 & H4).
        { intros k. rewrite map_app, in_app_iff, elem_of_union, elem_of_singleton.
          simpl. rewrite Hseen. intuition. }
        { rewrite map_app. simpl. apply NoDup_ListNoDup, NoDup_app.
          split; [apply NoDup_ListNoDup, Hnd |]. split.
          - intros k Hk Hk'. apply list_elem_of_singleton in Hk'. subst k.
            apply Hout, Hseen, list_elem_of_In, Hk.
          - apply NoDup_singleton. }
        split; [exact H1 |]. split; [| split].
        -- intros s Hs. destruct (H2 s Hs) as [Hi | Hi]; [| right; right; exact Hi].
           apply elem_of_app in Hi as [Hi | Hi]; [left; exact Hi |].
           apply list_elem_of_singleton in Hi. subst s. right. left.
        -- intros s Hs. apply H3, elem_of_app. left. exact Hs.
        -- intros s Hs. apply elem_of_cons in Hs as [-> | Hs]; [| apply H4, Hs].
           apply in_map, list_elem_of_In, H3, elem_of_app. right. left.
    + destruct (IH seen items Hseen Hnd) as (H1 & H2 & H3 & H4).
      split; [exact H1 |]. split; [exact H2 |]. split; [exact H3 | exact H4].
Qed.

(** Order and repetition of the entries do not change the key, as long as
    no two entries are spellings of one name. *)
Lemma compute_deps_hash_order_duplicates_invariant
      (l1 l2 : list string) (python_id : string) :
  (forall x, x ∈ entries l1 <-> x ∈ entries l2) ->
  (forall x y, x ∈ entries l1 -> y ∈ entries l1 -> lower x = lower y -> x = y) ->
  compute_deps_hash l1 python_id = compute_deps_hash l2 python_id.
Proof.
  intros Hsame Hinj.
  assert (forall l, (forall x, x ∈ entries l <-> x ∈ entries l1) ->
            List.NoDup (List.map lower (normalize_loop l ∅ [])) /\
            forall s, s ∈ normalize_loop l ∅ [] <-> s ∈ entries l1) as Hnorm.
  { intros l Hl.
    destruct (normalize_loop_spec l ∅ []) as (H1 & H2 & _ & H4).
    - intros k. simpl. rewrite elem_of_empty. reflexivity.
    - constructor.
    - split; [exact H1 |]. intros s. split.
      + intros Hs. destruct (H2 s Hs) as [Hi | Hi]; [inversion Hi |].
        apply Hl, Hi.
      + intros Hs. apply Hl in Hs. pose proof (H4 s Hs) as Hk.
        apply in_map_iff in Hk as (s' & Hk & Hs').
        apply list_elem_of_In in Hs'.
        assert (s' ∈ entries l1) as Hs1.
        { destruct (H2 s' Hs') as [Hi | Hi]; [inversion Hi | apply Hl, Hi]. }
        rewrite <- (Hinj s' s Hs1 (proj1 (Hl s) Hs) Hk). exact Hs'. }
  destruct (Hnorm l1 (fun x => iff_refl _)) as [Hnd1 Hel1].
  destruct (Hnorm l2 (fun x => iff_sym (Hsame x))) as [Hnd2 Hel2].
  unfold compute_deps_hash, _normalize_packages.
  rewrite (sort_by_key_unique lower _ _ Hnd1 Hnd2); [reflexivity |].
  intros x. rewrite Hel1, Hel2. reflexivity.
Qed.

Lemma acquire_poll_timeout (w : world) (lk : _CreationLock) (start : Z) :
  forall (m fuel : nat) (c : counters),
    (forall i, (i <= m)%nat -> mkdir_at w (attempts c + i) <> MkdirOk) ->
    (forall k, (k < m)%nat -> time_at w (readings c + k) - start <= timeout lk) ->
    timeout lk < time_at w (readings c + m) - start ->
    (m < fuel)%nat ->
    exists c', acquire_poll fuel w lk start c = Some (false, lk, c').
Proof.
  induction m as [|m IH]; intros fuel c Hmk Hearly Hlate Hfuel.
  - destruct fuel as [|fuel]; [lia |]. simpl.
    pose proof (Hmk 0%nat (Nat.le_refl 0)) as H0.
    rewrite Nat.add_0_r in H0, Hlate.
    apply Z.ltb_lt in Hlate.
    destruct (mkdir_at w (attempts c)); [contradiction | |];
      rewrite Hlate; eexists; reflexivity.
  - destruct fuel as [|fuel]; [lia |]. simpl.
    pose proof (Hmk 0%nat (Nat.le_0_l _)) as H0.
    pose proof (Hearly 0%nat (Nat.lt_0_succ _)) as H1.
    rewrite Nat.add_0_r in H0, H1.
    assert ((timeout lk <? time_at w (readings c) - start) = false) as Hno
      by (apply Z.ltb_ge; exact H1).
    set (c1 := {| attempts := S (attempts c); readings := S (readings c) |}).
    destruct (IH fuel c1) as [c' Hc'].
    + intros i Hi. simpl. replace (S (attempts c + i)) with (attempts c + S i)%nat by lia.
      apply Hmk. lia.
    + intros k Hk. simpl. replace (S (readings c + k)) with (readings c + S k)%nat by lia.
      apply Hearly. lia.
    + simpl. replace (S (readings c + m)) with (readings c + S m)%nat by lia.
      exact Hlate.
    + lia.
    + destruct (mkdir_at w (attempts c)); [contradiction | |];
        rewrite Hno; fold c1; rewrite Hc'; eexists; reflexivity.
Qed.

(** C9 (as the code has it). When the creation lock is not obtained within
    its ten minutes, [_CreationLock.__enter__] raises the built-in
    [TimeoutError] and [ensure_environment] lets it through unchanged. *)
Theorem ensure_environment_lock_timeout (fuel : nat) (w : world)
        (meta : ScriptMeta) (mode : EnvMode) (n : nat) :
  ready_fast w = false ->
  (forall i, (i <= n)%nat -> mkdir_at w i <> MkdirOk) ->
  (forall k, (k < n)%nat -> time_at w (S k) - time_at w 0 <= 600000) ->
  600000 < time_at w (S n) - time_at w 0 ->
  (n < fuel)%nat ->
  exists msg,
    ensure_environment fuel w meta mode = Some (Raise (TimeoutError msg)).
Proof.
  intros Hfast Hmk Hearly Hlate Hfuel.
  unfold ensure_environment.
  destruct (match mode with
            | CACHED => _
            | PER_SCRIPT => _
            end) as [[key env_path] kind].
  rewrite Hfast.
  set (lk := new_lock (_lock_path_for_env env_path)).
  unfold lock_enter, lock_acquire. simpl acquired. cbn iota.
  destruct (acquire_poll_timeout w lk (time_at w 0) n fuel
              {| attempts := 0; readings := 1 |}) as [c' Hc'].
  - intros i Hi. simpl. apply Hmk, Hi.
  - intros k Hk. simpl. apply Hearly, Hk.
  - simpl. exact Hlate.
  - exact Hfuel.
  - simpl readings. simpl attempts. rewrite Hc'. eexists. reflexivity.
Qed.

Lemma ensure_environment_lock_timeout_witness :
  let w := {| mkdir_at := fun _ => FileExistsError;
              time_at := fun n => 200 * Z.of_nat n;
              sys_executable := "/usr/bin/python3";
              python_version_id := fun _ => "py311"%string;
              venvs_root := "/home/u/.cache/pcontext/venvs";
              os_nt := false; ready_fast := false; ready_locked := false;
              venv_present := false; venv_rc := 0; pip_present := true;
              ensurepip_rc := 0; base_tools_rc := 0; pip_install_rc := 0 |} in
  let meta := {| stable_id := "demo"; python_interpreter := None;
                 depends_pip := ["requests"]%string |} in
  ready_fast w = false /\
  exists msg,
    ensure_environment 3002 w meta CACHED = Some (Raise (TimeoutError msg)).
Proof.
  intros w meta. split; [reflexivity |].
  apply (ensure_environment_lock_timeout 3002 w meta CACHED 3000).
  - reflexivity.
  - intros i _. simpl. discriminate.
  - intros k Hk. simpl. lia.
  - simpl. lia.
  - lia.
Defined.

(** C9 (as the spec has it) fails: with the lock directory held by another
    process for more than ten minutes, the call raises [TimeoutError], not
    [EnvironmentSetupError]. *)
Lemma lock_timeout_raises_builtin_timeout_error :
  let w := {| mkdir_at := fun _ => FileExistsError;
              time_at := fun n => 200 * Z.of_nat n;
              sys_executable := "/usr/bin/python3";
              python_version_id := fun _ => "py311"%string;
              venvs_root := "/home/u/.cache/pcontext/venvs";
              os_nt := false; ready_fast := false; ready_locked := false;
              venv_present := false; venv_rc := 0; pip_present := true;
              ensurepip_rc := 0; base_tools_rc := 0; pip_install_rc := 0 |} in
  let meta := {| stable_id := "demo"; python_interpreter := None;
                 depends_pip := ["requests"]%string |} in
  ensure_environment 3002 w meta CACHED
    = Some (Raise (TimeoutError
                     "/home/u/.cache/pcontext/venvs/.lock-py311-9827ef178aa6")) /\
  ~ (exists msg,
       ensure_environment 3002 w meta CACHED
         = Some (Raise (EnvironmentSetupError msg))).
Proof.
  intros w meta.
  assert (ensure_environment 3002 w meta CACHED
          = Some (Raise (TimeoutError
                     "/home/u/.cache/pcontext/venvs/.lock-py311-9827ef178aa6")))
    as E by (vm_compute; reflexivity).
  split; [exact E |].
  intros [msg Hmsg]. rewrite E in Hmsg. discriminate.
Qed.

End EnvsFacts.

(* ===================================================================== *)
(** ** ServiceSession: matching responses, closing the stream *)
(* ===================================================================== *)

Section IpcFacts.
Import PyStr Ipc.
Variable json_loads : string -> option json.
Variable py_str : json -> string.

Lemma pending_get_registered s k sl :
  k ∈ _pending s -> slots s !! k = Some sl ->
  pending_get s (JStr k) = inr (Some (k, sl)).
Proof.
  intros Hk Hsl. unfold pending_get. simpl.
  rewrite decide_True by exact Hk. rewrite Hsl. reflexivity.
Qed.

Lemma pending_get_unregistered s k :
  k ∉ _pending s -> pending_get s (JStr k) = inr None.
Proof.
  intros Hk. unfold pending_get. simpl.
  rewrite decide_False by exact Hk. reflexivity.
Qed.

(** A [RESP] line with a registered identifier: the reader stores the
    response in the slot of that identifier and sets its event; no other
    slot and no entry of the table changes. *)
Lemma dispatch_resp_registered s fields k sl :
  obj_get fields "req_id" = Some (JStr k) ->
  k ∈ _pending s -> slots s !! k = Some sl ->
  exists s' r,
    dispatch py_str s RESP (JObj fields) = (s', None) /\
    slots s' !! k = Some {| evt := true; resp := Some r;
                            slot_req_id := slot_req_id sl |} /\
    ok r = true /\ req_id r = JStr k /\
    result r = match obj_get fields "result" with Some v => v | None => JNull end /\
    (forall k', k' <> k -> slots s' !! k' = slots s !! k') /\
    _pending s' = _pending s.
Proof.
  intros Hid Hk Hsl. unfold dispatch, payload_get. rewrite Hid.
  rewrite (pending_get_registered s k sl Hk Hsl).
  eexists _, _. split; [reflexivity |].
  unfold deliver, with_slots; simpl.
  split; [apply lookup_insert_eq |].
  do 3 (split; [reflexivity |]).
  split; [| reflexivity].
  intros k' Hne. apply lookup_insert_ne. congruence.
Qed.

(** An [EXC] line with a registered identifier wakes that waiter alike. *)
Lemma dispatch_exc_registered s fields k sl :
  obj_get fields "req_id" = Some (JStr k) -> k <> EmptyString ->
  k ∈ _pending s -> slots s !! k = Some sl ->
  exists s' r,
    dispatch py_str s EXC (JObj fields) = (s', None) /\
    slots s' !! k = Some {| evt := true; resp := Some r;
                            slot_req_id := slot_req_id sl |} /\
    ok r = false /\ req_id r = JStr k /\
    (forall k', k' <> k -> slots s' !! k' = slots s !! k') /\
    _pending s' = _pending s.
Proof.
  intros Hid Hne Hk Hsl. unfold dispatch, payload_get. rewrite Hid.
  assert (truthy (JStr k) = true) as -> by (destruct k; [contradiction | reflexivity]).
  rewrite (pending_get_registered s k sl Hk Hsl).
  eexists _, _. split; [reflexivity |].
  unfold deliver, with_slots; simpl.
  split; [apply lookup_insert_eq |].
  do 2 (split; [reflexivity |]).
  split; [| reflexivity].
  intros k' Hne'. apply lookup_insert_ne. congruence.
Qed.

(** A [RESP] line of an object whose identifier is missing, null, or a
    string that is not registered changes nothing. *)
Lemma dispatch_resp_unknown s fields :
  match obj_get fields "req_id" with
  | None | Some JNull => True
  | Some (JStr k) => k ∉ _pending s
  | _ => False
  end ->
  dispatch py_str s RESP (JObj fields) = (s, None).
Proof.
  unfold dispatch, payload_get.
  destruct (obj_get fields "req_id") as [[| | | |k| |]|]; try contradiction;
    intros H; try reflexivity.
  rewrite (pending_get_unregistered s k H). reflexivity.
Qed.

(** The same for an [EXC] line, once the session is ready. *)
Lemma dispatch_exc_unknown s fields :
  _ready_evt s = true ->
  match obj_get fields "req_id" with
  | None | Some JNull => True
  | Some (JStr k) => k ∉ _pending s
  | _ => False
  end ->
  dispatch py_str s EXC (JObj fields) = (s, None).
Proof.
  intros Hr. unfold dispatch, payload_get.
  destruct (obj_get fields "req_id") as [[| | | |k| |]|]; try contradiction;
    intros H.
  - simpl. rewrite Hr. reflexivity.
  - destruct k as [|c k].
    + simpl. rewrite Hr. reflexivity.
    + cbn [truthy nonempty].
      rewrite (pending_get_unregistered s (String c k) H). reflexivity.
  - simpl. rewrite Hr. reflexivity.
Qed.

(** Once its slot holds a response, [request] returns it and pops its own
    entry, whatever the timeout. *)
Lemma request_end_woken s k r rid timeout :
  slots s !! k = Some {| evt := true; resp := Some r; slot_req_id := rid |} ->
  request_end s k timeout = (pop s k, Return r).
Proof. intros H. unfold request_end. rewrite H. reflexivity. Qed.

(** Two requests in flight, answered in the other order: each caller gets
    the response that carries its identifier. *)
Lemma out_of_order_responses (ra rb : json) :
  let s0 := fst (request_begin (fst (request_begin new_session "A" true)) "B" true) in
  let s1 := fst (dispatch py_str s0 RESP
                   (JObj [("req_id", JStr "B"); ("result", rb)]%string)) in
  let s2 := fst (dispatch py_str s1 RESP
                   (JObj [("req_id", JStr "A"); ("result", ra)]%string)) in
  (exists r, snd (request_end s2 "A" None) = Return r /\ result r = ra) /\
  (exists r, snd (request_end s2 "B" None) = Return r /\ result r = rb).
Proof.
  split; eexists; split; vm_compute; reflexivity.
Qed.

Lemma on_exception_slots s : slots (on_exception s) = slots s.
Proof.
  unfold on_exception, with_slots; simpl. apply map_eq. intros k.
  rewrite map_lookup_imap. destruct (slots s !! k) as [sl|]; simpl; [| reflexivity].
  unfold resp_key_absent. rewrite andb_false_r. reflexivity.
Qed.

Lemma on_finally_slot s k sl :
  slots s !! k = Some sl ->
  slots (on_finally s) !! k =
    Some (if decide (k ∈ _pending s)
          then {| evt := true; resp := resp sl; slot_req_id := slot_req_id sl |}
          else sl).
Proof.
  intros H. unfold on_finally, with_slots; simpl.
  rewrite map_lookup_imap, H. reflexivity.
Qed.

Lemma on_finally_slot_inv s k sl' :
  slots (on_finally s) !! k = Some sl' ->
  exists sl, slots s !! k = Some sl /\
    sl' = if decide (k ∈ _pending s)
          then {| evt := true; resp := resp sl; slot_req_id := slot_req_id sl |}
          else sl.
Proof.
  unfold on_finally, with_slots; simpl. rewrite map_lookup_imap.
  destruct (slots s !! k) as [sl|]; simpl; [| discriminate].
  intros [= <-]. exists sl. split; reflexivity.
Qed.

(** When the reader loop is over, however it ended, the event of every
    slot still in the table is set, and no slot got a response from the
    ending itself. *)
Lemma reader_loop_wakes_pending s lines e k sl :
  let s' := _reader_loop json_loads py_str s lines e in
  k ∈ _pending s' -> slots s' !! k = Some sl ->
  evt sl = true /\
  exists sl1, slots (fst (reader_lines json_loads py_str s lines)) !! k = Some sl1 /\
              resp sl = resp sl1.
Proof.
  intros s' Hk Hsl. subst s'. unfold _reader_loop in *.
  destruct (reader_lines json_loads py_str s lines) as [s1 [ex|]] eqn:Hrun; simpl.
  - apply on_finally_slot_inv in Hsl as (sl0 & Hsl0 & ->).
    rewrite decide_True by exact Hk. simpl. split; [reflexivity |].
    rewrite on_exception_slots in Hsl0. exists sl0. split; [exact Hsl0 | reflexivity].
  - destruct e.
    + apply on_finally_slot_inv in Hsl as (sl0 & Hsl0 & ->).
      rewrite decide_True by exact Hk. simpl. split; [reflexivity |].
      exists sl0. split; [exact Hsl0 | reflexivity].
    + apply on_finally_slot_inv in Hsl as (sl0 & Hsl0 & ->).
      rewrite decide_True by exact Hk. simpl. split; [reflexivity |].
      rewrite on_exception_slots in Hsl0. exists sl0. split; [exact Hsl0 | reflexivity].
    + apply on_finally_slot_inv in Hsl as (sl0 & Hsl0 & ->).
      rewrite decide_True by exact Hk. simpl. split; [reflexivity |].
      exists sl0. split; [exact Hsl0 | reflexivity].
Qed.

(** C3. After the reader loop has ended (stream closed, read error, stop),
    a [ping] that was waiting for its response raises [AttributeError]: the
    event of its slot is set but the slot holds no response, and [ping]
    reads [resp.ok] without looking.  A waiting [request] raises
    [IPCError] there. *)
Theorem pending_ping_after_close_raises (s : ServiceSession)
        (lines : list string) (e : stream_end) (rid : string) (sl : Slot)
        (timeout : option Z) :
  let s' := _reader_loop json_loads py_str s lines e in
  rid ∈ _pending s' -> slots s' !! rid = Some sl -> resp sl = None ->
  ping_end s' rid timeout = (s', Raise AttributeError) /\
  request_end s' rid timeout = (pop s' rid, Raise (IPCError "timeout")).
Proof.
  intros s' Hk Hsl Hresp.
  destruct (reader_loop_wakes_pending s lines e rid sl Hk Hsl) as [Hevt _].
  unfold ping_end, request_end, wait. fold s'. rewrite Hsl, Hevt, Hresp.
  split; reflexivity.
Qed.

(** A [request] or a [ping] made after the reader loop has ended: nothing
    sets its event, so with a timeout [request] raises [IPCError] and
    [ping] returns [False], and without one they never return. *)
Lemma request_after_close s lines e rid send_ok t :
  let s' := _reader_loop json_loads py_str s lines e in
  (exists ex, snd (request_begin s' rid send_ok) = Raise (IPCError ex)) \/
  (snd (request_begin s' rid send_ok) = Return tt /\
   snd (request_end (fst (request_begin s' rid send_ok)) rid (Some t))
     = Raise (IPCError "timeout") /\
   snd (ping_end (fst (ping_begin s' rid send_ok)) rid (Some t)) = Return false /\
   snd (request_end (fst (request_begin s' rid send_ok)) rid None) = Hang).
Proof.
  intros s'. destruct send_ok; [right | left; eexists; reflexivity].
  unfold request_begin, ping_begin, request_end, ping_end, register; simpl.
  rewrite lookup_insert_eq. simpl. repeat split; reflexivity.
Qed.

End IpcFacts.

Lemma pending_ping_after_close_raises_witness :
  let s := Ipc.register Ipc.new_session "p" in
  let s' := Ipc._reader_loop (fun _ => None) (fun _ => EmptyString) s [] Ipc.Eof in
  ("p"%string ∈ Ipc._pending s' /\
   Ipc.slots s' !! "p"%string
     = Some {| Ipc.evt := true; Ipc.resp := None; Ipc.slot_req_id := "p" |}) /\
  Ipc.ping_end s' "p" (Some 2000) = (s', Ipc.Raise Ipc.AttributeError) /\
  Ipc.request_end s' "p" (Some 2000)
    = (Ipc.pop s' "p", Ipc.Raise (Ipc.IPCError "timeout")).
Proof.
  intros s s'.
  assert ("p"%string ∈ Ipc._pending s') as Hk by (vm_compute; reflexivity).
  assert (Ipc.slots s' !! "p"%string
          = Some {| Ipc.evt := true; Ipc.resp := None; Ipc.slot_req_id := "p" |})
    as Hsl by (vm_compute; reflexivity).
  split; [split; assumption |].
  exact (pending_ping_after_close_raises (fun _ => None) (fun _ => EmptyString)
           s [] Ipc.Eof "p" _ (Some 2000) Hk Hsl eq_refl).
Defined.

Section IpcDefects.
Import PyStr Ipc.

(** C2. A [RESP] line whose body is not an object carries no identifier,
    yet it wakes the waiters: [payload.get] raises [AttributeError], the
    reader loop ends there without reading the lines that follow, and its
    [finally] block sets the event of every pending slot, so that a request
    still in flight raises [IPCError] even if its response was to come. *)
Theorem malformed_resp_line_wakes_waiters
        (json_loads : string -> option json) (py_str : json -> string)
        (rest : list string) (e : stream_end) :
  json_loads "[]" = Some (JArr []) ->
  let s := fst (request_begin new_session "a" true) in
  let s' := _reader_loop json_loads py_str s ("PCTX:RESP []"%string :: rest) e in
  reader_step json_loads py_str s "PCTX:RESP []" = (s, Some AttributeError) /\
  woken s' "a" /\
  snd (request_end s' "a" None) = Raise (IPCError "timeout").
Proof.
  intros Hloads s s'.
  assert (reader_step json_loads py_str s "PCTX:RESP []" = (s, Some AttributeError))
    as Hstep.
  { unfold reader_step, parse_service_line, load_payload. simpl.
    rewrite Hloads. reflexivity. }
  split; [exact Hstep |].
  assert (slots s' !! "a"%string
          = Some {| evt := true; resp := None; slot_req_id := "a" |}) as Hsl.
  { subst s'. unfold _reader_loop. cbn [reader_lines]. rewrite Hstep.
    vm_compute. reflexivity. }
  split.
  - eexists. split; [exact Hsl | reflexivity].
  - unfold request_end. rewrite Hsl. reflexivity.
Qed.

(** The entry of a [ping] stays in the table after its response arrived:
    [ping] pops it when the write fails and when the wait times out, not
    when it returns the answer. *)
Lemma answered_ping_keeps_entry (py_str : json -> string) :
  let s := fst (ping_begin new_session "p" true) in
  let s1 := fst (dispatch py_str s RESP
                   (JObj [("ok", JBool true); ("req_id", JStr "p");
                          ("result", JStr "pong")]%string)) in
  ping_end s1 "p" (Some 2000) = (s1, Return true) /\
  "p"%string ∈ _pending (fst (ping_end s1 "p" (Some 2000))).
Proof.
  intros s s1. split; vm_compute; reflexivity.
Qed.

Lemma malformed_resp_line_wakes_waiters_witness :
  let loads := fun raw : string =>
                 if String.eqb raw "[]" then Some (JArr []) else None in
  let s := fst (request_begin new_session "a" true) in
  loads "[]"%string = Some (JArr []) /\
  woken (_reader_loop loads (fun _ => EmptyString) s
           ["PCTX:RESP []"; "PCTX:RESP {}"]%string Eof) "a".
Proof.
  intros loads s. split; [reflexivity |].
  exact (proj1 (proj2 (malformed_resp_line_wakes_waiters loads (fun _ => EmptyString)
                         ["PCTX:RESP {}"%string] Eof eq_refl))).
Defined.

End IpcDefects.

(* ===================================================================== *)
(** ** ServiceManager: restart once, one handle per identity *)
(* ===================================================================== *)

Section ServicesFacts.
Import Services.

Lemma stop_handle_log m h :
  log (fst (_stop_handle m h)) = log m \/
  log (fst (_stop_handle m h)) = log m ++ [ActStop h].
Proof.
  unfold _stop_handle. destruct (handles m !! h) as [hd|]; [| left; reflexivity].
  destruct (shutting_down hd); [left | right]; reflexivity.
Qed.

Lemma stop_handle_next_id m h : next_id (fst (_stop_handle m h)) = next_id m.
Proof.
  unfold _stop_handle. destruct (handles m !! h) as [hd|]; [| reflexivity].
  destruct (shutting_down hd); reflexivity.
Qed.

Lemma start_service_log m sid m' r :
  _start_service m sid = (m', r) ->
  match r with
  | Return h' =>
      h' = next_id m /\
      log m' = log m ++ [ActSpawn h' sid; ActRegister sid h'] /\
      _services m' !! sid = Some h' /\ is_alive m' h' = true
  | Raise _ =>
      log m' = log m \/
      log m' = log m ++ [ActSpawn (next_id m) sid; ActKill (next_id m)]
  end.
Proof.
  unfold _start_service, spawn, handshake.
  destruct (b_env_ok (plan m (next_id m))); simpl.
  - destruct (b_ready (plan m (next_id m))); simpl; intros [= <- <-].
    + split; [reflexivity |]. unfold register, upd; simpl.
      split; [rewrite <- app_assoc; reflexivity |].
      split; [apply lookup_insert_eq |].
      unfold is_alive; simpl. rewrite lookup_insert_eq. reflexivity.
    + right. simpl. rewrite <- app_assoc. reflexivity.
  - intros [= <- <-]. left. simpl. apply app_nil_r.
Qed.

Lemma session_request_log m h :
  log (fst (session_request m h)) = log m ++ [ActRequest h].
Proof.
  unfold session_request. destruct (procs m !! h) as [p|]; [| reflexivity].
  destruct (p_alive p); [| reflexivity].
  destruct (b_answer (plan m h) (p_served p)); reflexivity.
Qed.

Lemma session_request_raises m h m' e :
  session_request m h = (m', Raise e) -> exists msg, e = IPCError msg.
Proof.
  unfold session_request. destruct (procs m !! h) as [p|].
  - destruct (p_alive p).
    + destruct (b_answer (plan m h) (p_served p)); intros [= <- <-]; eauto.
    + intros [= <- <-]; eauto.
  - intros [= <- <-]; eauto.
Qed.

Lemma touch_log m h : log (touch m h) = log m.
Proof.
  unfold touch. destruct (handles m !! h); [| reflexivity].
  simpl. apply app_nil_r.
Qed.

(** A worker keeps the descriptor it was spawned for. *)
Lemma proc_for_kill m pid n acts q sid :
  proc_for m q sid ->
  proc_for (upd m (_services m) (handles m) (kill pid (procs m)) n acts) q sid.
Proof.
  intros (p & Hp & Hs). unfold proc_for, upd, kill; simpl.
  destruct (procs m !! pid) as [p0|] eqn:E; [| eauto].
  destruct (decide (pid = q)) as [-> | Hne].
  - rewrite lookup_insert_eq. eexists. split; [reflexivity |].
    simpl. congruence.
  - rewrite lookup_insert_ne by exact Hne. eauto.
Qed.

Lemma kill_is_Some pid (ps : gmap nat Proc) q :
  is_Some (kill pid ps !! q) -> is_Some (ps !! q).
Proof.
  unfold kill. destruct (ps !! pid) as [p0|] eqn:E; [| auto].
  destruct (decide (pid = q)) as [-> | Hne].
  - intros _. eauto.
  - rewrite lookup_insert_ne by exact Hne. auto.
Qed.

Lemma table_ok_procs m m' :
  _services m' = _services m -> handles m' = handles m ->
  (forall q sid, proc_for m q sid -> proc_for m' q sid) ->
  table_ok m -> table_ok m'.
Proof.
  intros Hs Hh Hext Hok sid h. rewrite Hs, Hh. intros Hl.
  destruct (Hok sid h Hl) as [Hhd Hp]. split; [exact Hhd | apply Hext, Hp].
Qed.

Lemma pcs_ok_ext m m' (ts : list pc) :
  (forall q sid, proc_for m q sid -> proc_for m' q sid) ->
  Forall (pc_ok m) ts -> Forall (pc_ok m') ts.
Proof.
  intros Hext Hall. eapply Forall_impl; [exact Hall |]. intros c.
  destruct c; simpl; auto.
Qed.

Lemma inv_kill m ts pid acts :
  inv (m, ts) ->
  inv (upd m (_services m) (handles m) (kill pid (procs m)) (next_id m) acts, ts).
Proof.
  intros (Ht & Hb & Hp). unfold inv; simpl in *.
  split; [| split].
  - eapply (table_ok_procs m); [reflexivity | reflexivity | | exact Ht].
    intros q sid. apply proc_for_kill.
  - intros q Hq. apply Hb. simpl in Hq. eapply kill_is_Some, Hq.
  - eapply pcs_ok_ext; [| exact Hp]. intros q sid. apply proc_for_kill.
Qed.

Lemma inv_thread_step m ts i c :
  inv (m, ts) -> ts !! i = Some c ->
  inv (fst (thread_step m c), <[i := snd (thread_step m c)]> ts).
Proof.
  intros Hinv Hi.
  assert (pc_ok m c) as Hc.
  { destruct Hinv as (_ & _ & Hp). simpl in Hp.
    rewrite Forall_forall in Hp. apply Hp. eapply list_elem_of_lookup_2, Hi. }
  destruct c as [sid | sid | sid pid | sid pid | r]; simpl.
  - (* the locked lookup *)
    destruct Hinv as (Ht & Hb & Hp). simpl in *.
    destruct (lookup_live m sid); simpl; (split; [exact Ht | split; [exact Hb |]]);
      simpl; apply Forall_insert; simpl; auto.
  - (* provisioning and Popen *)
    destruct Hinv as (Ht & Hb & Hp). simpl in *.
    unfold spawn. destruct (b_env_ok (plan m (next_id m))); simpl.
    + assert (forall q sid', proc_for m q sid' ->
                proc_for (upd m (_services m) (handles m)
                           (<[next_id m := {| p_sid := sid; p_alive := true;
                                              p_served := 0 |}]> (procs m))
                           (S (next_id m)) [ActSpawn (next_id m) sid]) q sid')
        as Hext.
      { intros q sid' (p & Hp' & Hs). exists p. split; [| exact Hs].
        simpl. rewrite lookup_insert_ne; [exact Hp' |].
        intros <-. specialize (Hb (next_id m) (ex_intro _ p Hp')). lia. }
      split; [| split]; simpl.
      * eapply (table_ok_procs m); [reflexivity | reflexivity | exact Hext | exact Ht].
      * intros q Hq. simpl in Hq |- *.
        destruct (decide (next_id m = q)) as [<- | Hne]; [lia |].
        rewrite lookup_insert_ne in Hq by exact Hne.
        specialize (Hb q Hq). lia.
      * apply Forall_insert; [eapply pcs_ok_ext; [exact Hext | exact Hp] |].
        simpl. eexists. split; [apply lookup_insert_eq | reflexivity].
    + split; [| split]; simpl.
      * eapply (table_ok_procs m); [reflexivity | reflexivity | | exact Ht]. auto.
      * intros q Hq. simpl in Hq |- *. specialize (Hb q Hq). lia.
      * apply Forall_insert; [eapply pcs_ok_ext; [| exact Hp]; auto |].
        simpl. exact I.
  - (* the readiness handshake *)
    unfold handshake. destruct (b_ready (plan m pid)); simpl.
    + destruct Hinv as (Ht & Hb & Hp). simpl in *.
      split; [exact Ht | split; [exact Hb |]]. simpl.
      apply Forall_insert; [exact Hp | exact Hc].
    + pose proof (inv_kill m ts pid [ActKill pid] Hinv) as (Ht & Hb & Hp).
      split; [exact Ht | split; [exact Hb |]]. simpl in *.
      apply Forall_insert; [exact Hp | exact I].
  - (* the locked registration *)
    destruct Hinv as (Ht & Hb & Hp). simpl in *.
    assert (forall q sid', proc_for m q sid' -> proc_for (register m sid pid) q sid')
      as Hext by (intros q sid' Hq; exact Hq).
    split; [| split]; simpl.
    + intros sid' h. unfold register, upd; simpl.
      destruct (decide (sid = sid')) as [<- | Hne].
      * rewrite lookup_insert_eq. intros [= <-].
        rewrite lookup_insert_eq. split; [| exact Hc].
        eexists. split; [reflexivity |]. split; reflexivity.
      * rewrite lookup_insert_ne by exact Hne. intros Hl.
        destruct (Ht sid' h Hl) as [Hhd Hpf]. split; [| exact Hpf].
        destruct (decide (pid = h)) as [-> | Hne'].
        -- destruct Hc as (p1 & Hp1 & Hs1). destruct Hpf as (p2 & Hp2 & Hs2).
           congruence.
        -- rewrite lookup_insert_ne by exact Hne'. exact Hhd.
    + exact Hb.
    + apply Forall_insert; [eapply pcs_ok_ext; [exact Hext | exact Hp] | exact I].
  - destruct Hinv as (Ht & Hb & Hp). simpl in *.
    split; [exact Ht | split; [exact Hb |]]. simpl.
    apply Forall_insert; [exact Hp | exact I].
Qed.

Lemma inv_sched_step st e : inv st -> inv (sched_step st e).
Proof.
  destruct st as [m ts]. intros Hinv. destruct e as [i | pid]; simpl.
  - destruct (ts !! i) as [c|] eqn:Hi; [| exact Hinv].
    pose proof (inv_thread_step m ts i c Hinv Hi) as H.
    destruct (thread_step m c) as [m' c']. exact H.
  - apply inv_kill, Hinv.
Qed.

Lemma inv_run es : forall st, inv st -> inv (run st es).
Proof.
  unfold run. induction es as [|e es IH]; intros st Hinv; simpl.
  - exact Hinv.
  - apply IH, inv_sched_step, Hinv.
Qed.

Lemma inv_init plan sids : inv (new_manager plan, List.map AtCheck sids).
Proof.
  split; [| split]; simpl.
  - intros sid h Hl. simpl in Hl. rewrite lookup_empty in Hl. discriminate.
  - intros q [p Hq]. simpl in Hq. rewrite lookup_empty in Hq. discriminate.
  - apply Forall_forall. intros c Hc.
    apply list_elem_of_In, in_map_iff in Hc as (sid & <- & _). exact I.
Qed.

(** A thread that runs alone does what [get_or_start] does. *)
Lemma thread_alone_is_get_or_start m sid :
  run (m, [AtCheck sid]) [Run 0; Run 0; Run 0; Run 0]
  = (fst (get_or_start m sid), [Done (snd (get_or_start m sid))]).
Proof.
  unfold run, get_or_start, _start_service. simpl.
  destruct (lookup_live m sid) as [h|] eqn:Hl; simpl; [reflexivity |].
  unfold spawn. destruct (b_env_ok (plan m (next_id m))); simpl; [| reflexivity].
  unfold handshake; simpl.
  destruct (b_ready (plan m (next_id m))); reflexivity.
Qed.

(** Whatever the interleaving of callers of [get_or_start] on a new
    manager, every entry of the table is a handle of that identity on a
    worker spawned for it. *)
Lemma interleaved_table_ok (plan : nat -> behaviour) (sids : list string)
      (es : list sched) :
  table_ok (fst (run (new_manager plan, List.map AtCheck sids) es)).
Proof. exact (proj1 (inv_run es _ (inv_init plan sids))). Qed.

End ServicesFacts.

(* ===================================================================== *)
(** ** run_one_shot: the terminal status *)
(* ===================================================================== *)

Section RunnerFacts.
Import PyStr Runner.
Import Ipc (json, JNull, JBool, JInt, JFloat, JStr, JArr, JObj,
            obj_get, truthy, py_or, rstrip_crlf).
Variable json_loads : string -> option json.
Variable py_str : json -> string.

(** [str] of a value that is not falsy is not the empty string. *)
Hypothesis py_str_nonempty :
  forall v, truthy v = true -> nonempty (py_str v) = true.

Lemma field_str_nonempty fields k d :
  nonempty d = true -> nonempty (field_str py_str fields k d) = true.
Proof.
  intros Hd. unfold field_str, py_or. apply py_str_nonempty.
  destruct (truthy (match obj_get fields k with Some v => v | None => JNull end))
    eqn:E; [exact E | exact Hd].
Qed.

Lemma on_line_err st raw :
  truthy_opt (err_type (on_line json_loads py_str st (rstrip_crlf raw)))
  = truthy_opt (err_type st) || is_exc_payload json_loads raw.
Proof.
  unfold on_line, is_exc_payload.
  destruct (_parse_prefixed (rstrip_crlf raw)) as [[tag payload]|];
    [| rewrite orb_false_r; reflexivity].
  destruct (String.eqb tag "RESULT") eqn:Hres.
  - apply String.eqb_eq in Hres. subst tag. simpl.
    destruct (json_loads payload) as [[| | | | | |fields]|];
      try (rewrite orb_false_r; reflexivity).
    destruct (obj_get fields "ok") as [[|[|]| | | | |]|];
      rewrite orb_false_r; reflexivity.
  - destruct (String.eqb tag "EXC"); [| rewrite orb_false_r; reflexivity].
    simpl.
    destruct (json_loads payload) as [[| | | | | |fields]|];
      try (rewrite orb_false_r; reflexivity).
    destruct (obj_get fields "ok") as [[|[|]| | | | |]|];
      try (rewrite orb_false_r; reflexivity).
    simpl. rewrite field_str_nonempty by reflexivity.
    rewrite orb_true_r. reflexivity.
Qed.

Lemma fold_on_line_err lines : forall st,
  truthy_opt (err_type (fold_left (fun st raw =>
                                     on_line json_loads py_str st (rstrip_crlf raw))
                                  lines st))
  = truthy_opt (err_type st) || exc_captured json_loads lines.
Proof.
  induction lines as [|raw lines IH]; intros st; simpl.
  - rewrite orb_false_r. reflexivity.
  - rewrite IH, on_line_err, orb_assoc. reflexivity.
Qed.

Lemma read_lines_err lines :
  truthy_opt (err_type (read_lines json_loads py_str lines))
  = exc_captured json_loads lines.
Proof. unfold read_lines. rewrite fold_on_line_err. reflexivity. Qed.

Lemma parse_hello_line :
  _parse_prefixed (rstrip_crlf hello_line) = Some ("RESULT"%string, hello_body).
Proof. vm_compute. reflexivity. Qed.

Lemma poll_quiet timeout pre : forall rest,
  forallb (quiet timeout) pre = true ->
  poll timeout (pre ++ rest) = poll timeout rest.
Proof.
  induction pre as [|t pre IH]; intros rest Hq; [reflexivity |].
  cbn [forallb] in Hq. apply andb_true_iff in Hq as [Ht Hq].
  unfold quiet, in_budget in Ht.
  apply andb_true_iff in Ht as [Ht Hrc]. apply andb_true_iff in Ht as [Hb Hc].
  apply negb_true_iff in Hc.
  cbn [app poll]. rewrite Hc.
  destruct (t_rc t); [discriminate |].
  destruct timeout as [limit|]; [| apply IH, Hq].
  apply negb_true_iff in Hb. rewrite Hb. apply IH, Hq.
Qed.

Lemma poll_quiet_running timeout pre :
  forallb (quiet timeout) pre = true -> poll timeout pre = Running.
Proof.
  intros Hq. rewrite <- (app_nil_r pre). rewrite (poll_quiet _ _ [] Hq).
  reflexivity.
Qed.

(** The observation that ends the loop, and what the loop gives there. *)
Lemma poll_decides timeout pre t rest :
  forallb (quiet timeout) pre = true ->
  poll timeout (pre ++ t :: rest) =
  if negb (in_budget timeout t) then TimedOut
  else if t_cancel t then Cancelled
  else match t_rc t with
       | Some rc => Exited rc
       | None => poll timeout rest
       end.
Proof.
  intros Hq. rewrite (poll_quiet _ _ _ Hq). cbn [poll]. unfold in_budget.
  destruct timeout as [limit|]; [| reflexivity].
  rewrite negb_involutive. reflexivity.
Qed.

(** C5. Once the worker is spawned, the poll loop decides at the first
    observation that is not quiet.  The status is [TIMEOUT] when that
    observation is later than the budget, and otherwise [CANCELLED] when
    the cancel flag is there, whatever the worker did.  When the worker is
    seen to have exited, the reader is joined.  If the join returns, the
    status is [OK] exactly when the exit code is zero and no exception
    payload was captured, and [ERROR] in every other case; a worker whose
    output is the line [PCTX:RESULT {"ok":true,"result":"hello"}] and that
    exits with code zero gives [OK] with the result ["hello"].  If the join
    raises [TypeError], as it does on CPython up to 3.12 once the reader
    has ended, the status is [ERROR] with no result and the error type
    [TypeError], whatever the exit code and the lines: the same worker
    gives [ERROR].  While every observation is quiet the run is not
    over. *)
Theorem run_one_shot_status (opt_timeout : option Z) (one_shot : Z)
        (join_raises : bool) (pre : list tick) (t : tick) (rest : list tick)
        (lines : list string) :
  let timeout := effective_timeout opt_timeout one_shot in
  let run := run_one_shot json_loads py_str opt_timeout one_shot None
                          join_raises in
  forallb (quiet timeout) pre = true ->
  run pre lines = None /\
  (in_budget timeout t = false ->
   exists r, run (pre ++ t :: rest) lines = Some r /\ status r = TIMEOUT) /\
  (in_budget timeout t = true -> t_cancel t = true ->
   exists r, run (pre ++ t :: rest) lines = Some r /\ status r = CANCELLED) /\
  (in_budget timeout t = true -> t_cancel t = false ->
   forall rc, t_rc t = Some rc ->
   exists r,
     run (pre ++ t :: rest) lines = Some r /\
     (join_raises = false ->
      (status r = OK <-> rc = 0 /\ exc_captured json_loads lines = false) /\
      (status r <> OK -> status r = ERROR)) /\
     (join_raises = true ->
      status r = ERROR /\ result r = JNull /\
      error_type r = Some "TypeError"%string)) /\
  (json_loads hello_body
     = Some (JObj [("ok", JBool true); ("result", JStr "hello")]%string) ->
   in_budget timeout t = true -> t_cancel t = false -> t_rc t = Some 0 ->
   exists r,
     run (pre ++ t :: rest) [hello_line] = Some r /\
     (join_raises = false -> status r = OK /\ result r = JStr "hello") /\
     (join_raises = true -> status r = ERROR /\ result r = JNull)).
Proof.
  intros timeout run Hq. subst run. unfold run_one_shot. fold timeout.
  rewrite (poll_quiet_running _ _ Hq), (poll_decides _ _ t rest Hq).
  split; [reflexivity |]. split; [| split; [| split]].
  - intros ->. eexists. split; reflexivity.
  - intros -> ->. eexists. split; reflexivity.
  - intros -> -> rc ->. cbn [negb].
    destruct join_raises.
    + eexists. split; [reflexivity |]. split; [discriminate |].
      intros _. repeat split.
    + eexists. split; [reflexivity |]. split; [| discriminate].
      intros _. cbn [status]. rewrite read_lines_err.
      destruct (exc_captured json_loads lines); simpl.
      * split; [| intros _; reflexivity].
        split; [discriminate | intros [_ [=]]].
      * destruct (rc =? 0) eqn:Hrc; simpl.
        -- apply Z.eqb_eq in Hrc. split; [| intros H; contradiction H; reflexivity].
           split; [intros _; split; [exact Hrc | reflexivity] | reflexivity].
        -- apply Z.eqb_neq in Hrc. split; [| intros _; reflexivity].
           split; [discriminate | intros [H _]; contradiction].
  - intros Hloads -> -> ->. cbn [negb].
    destruct join_raises.
    + eexists. split; [reflexivity |]. split; [discriminate |].
      intros _. split; reflexivity.
    + eexists. split; [reflexivity |]. split; [| discriminate].
      intros _.
      assert (read_lines json_loads py_str [hello_line]
              = {| result_obj := JStr "hello"; err_type := None;
                   err_msg := None; err_tb := None |}) as ->.
      { unfold read_lines. cbn [fold_left]. unfold on_line.
        rewrite parse_hello_line.
        change (String.eqb "RESULT" "RESULT") with true. cbv iota.
        rewrite Hloads. reflexivity. }
      split; reflexivity.
Qed.

End RunnerFacts.

Lemma run_one_shot_status_witness :
  let loads := fun raw : string =>
    if String.eqb raw Runner.hello_body
    then Some (Ipc.JObj [("ok", Ipc.JBool true); ("result", Ipc.JStr "hello")]%string)
    else None in
  let str := fun v : Ipc.json =>
    match v with Ipc.JStr s => s | _ => "value"%string end in
  let waiting := {| Runner.t_rc := None; Runner.t_elapsed := 150;
                    Runner.t_cancel := false |} in
  let exited := {| Runner.t_rc := Some 0; Runner.t_elapsed := 300;
                   Runner.t_cancel := false |} in
  (forall v, Ipc.truthy v = true -> PyStr.nonempty (str v) = true) /\
  forallb (Runner.quiet (Runner.effective_timeout (Some 30000) 0)) [waiting]
  = true /\
  (exists r,
     Runner.run_one_shot loads str (Some 30000) 0 None false
       [waiting; exited] [Runner.hello_line] = Some r /\
     Runner.status r = Runner.OK /\ Runner.result r = Ipc.JStr "hello") /\
  (exists r,
     Runner.run_one_shot loads str (Some 30000) 0 None true
       [waiting; exited] [Runner.hello_line] = Some r /\
     Runner.status r = Runner.ERROR /\ Runner.result r = Ipc.JNull) /\
  (exists r,
     Runner.run_one_shot loads str (Some 200) 0 None false
       [waiting; exited] [Runner.hello_line] = Some r /\
     Runner.status r = Runner.TIMEOUT) /\
  (exists r,
     Runner.run_one_shot loads str None 0 None false
       [waiting; {| Runner.t_rc := Some 0; Runner.t_elapsed := 300;
                    Runner.t_cancel := true |}] [Runner.hello_line] = Some r /\
     Runner.status r = Runner.CANCELLED).
Proof.
  intros loads str waiting exited.
  assert (forall v, Ipc.truthy v = true -> PyStr.nonempty (str v) = true) as Hstr.
  { intros v Hv. destruct v; try reflexivity. exact Hv. }
  split; [exact Hstr |]. split; [reflexivity |].
  split; [| split; [| split]]; cycle 2.
  - destruct (run_one_shot_status loads str Hstr (Some 200) 0 false
                [waiting] exited [] [Runner.hello_line] eq_refl)
      as (_ & Hto & _).
    exact (Hto eq_refl).
  - destruct (run_one_shot_status loads str Hstr None 0 false
                [waiting] {| Runner.t_rc := Some 0; Runner.t_elapsed := 300;
                             Runner.t_cancel := true |} [] [Runner.hello_line]
                eq_refl) as (_ & _ & Hcancel & _).
    exact (Hcancel eq_refl eq_refl).
  - destruct (run_one_shot_status loads str Hstr (Some 30000) 0 false
                [waiting] exited [] [] eq_refl) as (_ & _ & _ & _ & Hhello).
    destruct Hhello as (r & Hrun & Hok & _);
      [vm_compute; reflexivity | reflexivity | reflexivity | reflexivity |].
    exists r. split; [exact Hrun | exact (Hok eq_refl)].
  - destruct (run_one_shot_status loads str Hstr (Some 30000) 0 true
                [waiting] exited [] [] eq_refl) as (_ & _ & _ & _ & Hhello).
    destruct Hhello as (r & Hrun & _ & Herr);
      [vm_compute; reflexivity | reflexivity | reflexivity | reflexivity |].
    exists r. split; [exact Hrun | exact (Herr eq_refl)].
Defined.

(* ===================================================================== *)
(** ** ResourcePool: what every sequence of calls keeps *)
(* ===================================================================== *)

Section ResourcesOpsFacts.
Import PyStr Resources ResourcesOps.
Variable monotonic : nat -> Z.
Variable TIMEOUT_MAX : Z.

Lemma pool_ok_insert p name b :
  pool_ok p -> bucket_ok b ->
  pool_ok (set_buckets p (<[name := b]> (_buckets p))).
Proof.
  intros [Hd Hb] Hok. split; [exact Hd |]. simpl. intros n b0.
  rewrite lookup_insert. case_decide; [intros [= <-]; exact Hok | apply Hb].
Qed.

Lemma pool_ok_same p q :
  _default_capacity q = _default_capacity p -> _buckets q = _buckets p ->
  pool_ok p -> pool_ok q.
Proof. intros Hd Hb [H1 H2]. split; rewrite ?Hd, ?Hb; assumption. Qed.

Lemma release_loop_pool_ok l : forall p,
  pool_ok p -> pool_ok (fst (release_loop p l)).
Proof.
  induction l as [|name l IH]; intros p Hok; simpl; [exact Hok |].
  destruct (_buckets p !! name) as [b|] eqn:Hb; [| apply IH, Hok].
  unfold bucket_release. destruct (in_use b <=? 0) eqn:Hle; [exact Hok |].
  apply Z.leb_gt in Hle. apply IH.
  destruct (proj2 Hok name b Hb) as (Hsum & Hi & Hs).
  eapply pool_ok_same; [| | apply (pool_ok_insert p name); [exact Hok |]];
    [reflexivity | reflexivity |].
  repeat split; simpl; lia.
Qed.

Lemma ensure_bucket_pool_ok p name :
  pool_ok p ->
  exists p2 b, _ensure_bucket p name = (p2, Return b) /\
               _buckets p2 !! name = Some b /\ pool_ok p2.
Proof.
  intros Hok. unfold _ensure_bucket.
  destruct (_buckets p !! name) as [b|] eqn:Hb.
  - exists p, b. auto.
  - unfold new_bucket. destruct Hok as [Hd Hbs].
    destruct (_default_capacity p <? 1) eqn:Hc; [apply Z.ltb_lt in Hc; lia |].
    eexists _, _. split; [reflexivity |]. simpl.
    split; [apply lookup_insert_eq |].
    apply pool_ok_insert; [split; assumption |].
    repeat split; simpl; lia.
Qed.

Lemma acquire_loop_pool_ok names : forall p deadline acquired,
  pool_ok p ->
  pool_ok (fst (acquire_loop monotonic TIMEOUT_MAX p deadline names acquired)).
Proof.
  induction names as [|name rest IH]; intros p deadline acquired Hok;
    [exact Hok |].
  cbn [acquire_loop].
  set (st := match deadline with
             | Some d => let '(p1, now) := read_clock monotonic p in
                         (p1, Some (Z.max 0 (d - now)))
             | None => (p, None)
             end).
  assert (pool_ok (fst st)) as Hok1 by (subst st; destruct deadline; exact Hok).
  destruct st as [p1 remaining]. simpl in Hok1.
  assert (forall q, pool_ok q ->
            pool_ok (fst (match _release_many q acquired with
                          | (q', Return _) => (q', Return None)
                          | (q', Raise e) => (q', Raise e)
                          | (q', Hang) => (q', Hang)
                          end : ResourcePool * outcome (option ResourceGuard))))
    as Hroll.
  { intros q Hq. pose proof (release_loop_pool_ok (rev acquired) q Hq) as H.
    unfold _release_many. destruct (release_loop q (rev acquired)) as [q' [u|e|]];
      exact H. }
  destruct (match remaining with Some r => r =? 0 | None => false end);
    [apply Hroll, Hok1 |].
  destruct (ensure_bucket_pool_ok p1 name Hok1) as (p2 & b & -> & Hb & Hok2).
  unfold bucket_acquire. destruct (0 <? sem b) eqn:Hpos.
  - apply Z.ltb_lt in Hpos. apply IH.
    destruct (proj2 Hok2 name b Hb) as (Hsum & Hi & Hs).
    eapply pool_ok_same; [| | apply (pool_ok_insert p2 name); [exact Hok2 |]];
      [reflexivity | reflexivity |].
    repeat split; simpl; lia.
  - destruct remaining as [r|]; [| exact Hok2].
    destruct ((0 <? r) && (TIMEOUT_MAX <? r)); [exact Hok2 | apply Hroll, Hok2].
Qed.

Lemma try_acquire_pool_ok p locks timeout :
  pool_ok p -> pool_ok (fst (try_acquire monotonic TIMEOUT_MAX p locks timeout)).
Proof.
  intros Hok. unfold try_acquire. destruct locks as [|x l]; [exact Hok |].
  destruct timeout as [t|]; simpl; apply acquire_loop_pool_ok; exact Hok.
Qed.

Lemma update_policy1_pool_ok p name cap :
  pool_ok p -> pool_ok (update_policy1 p name cap).
Proof.
  intros Hok. unfold update_policy1.
  destruct (_buckets p !! name) as [b|] eqn:Hb.
  - destruct (capacity b <? (if 0 <? cap then cap else 1)) eqn:Hlt; [| exact Hok].
    apply Z.ltb_lt in Hlt. destruct (proj2 Hok name b Hb) as (Hsum & Hi & Hs).
    apply pool_ok_insert; [exact Hok |]. repeat split; simpl; lia.
  - apply pool_ok_insert; [exact Hok |].
    destruct (0 <? cap) eqn:Hc; [apply Z.ltb_lt in Hc |];
      repeat split; simpl; lia.
Qed.

Lemma update_policy_pool_ok policy : forall p,
  pool_ok p -> pool_ok (update_policy p policy).
Proof.
  unfold update_policy.
  induction policy as [|[name cap] rest IH]; intros p Hok; simpl; [exact Hok |].
  apply IH, update_policy1_pool_ok, Hok.
Qed.

Lemma init_loop_pool_ok policy : forall p,
  pool_ok p -> exists p', init_loop p policy = Return p' /\ pool_ok p'.
Proof.
  induction policy as [|[name cap] rest IH]; intros p Hok; simpl; [eauto |].
  unfold ensure_bucket_cap.
  destruct (_buckets p !! name) as [b|]; [apply IH, Hok |].
  unfold new_bucket, cap_or.
  assert (1 <= (if 0 <? (if 0 <? cap then cap else 1)
                then (if 0 <? cap then cap else 1) else _default_capacity p))
    as Hcap.
  { destruct (0 <? cap) eqn:Hc; [apply Z.ltb_lt in Hc | simpl; lia].
    rewrite (proj2 (Z.ltb_lt 0 cap) Hc). lia. }
  destruct (_ <? 1) eqn:Hlt; [apply Z.ltb_lt in Hlt; lia |].
  apply IH, pool_ok_insert; [exact Hok |]. repeat split; simpl; lia.
Qed.

Lemma run_ops_pool_ok ops : forall p,
  pool_ok p -> pool_ok (run_ops monotonic TIMEOUT_MAX p ops).
Proof.
  unfold run_ops. induction ops as [|o ops IH]; intros p Hok; simpl; [exact Hok |].
  apply IH. destruct o as [locks timeout | locks | policy]; simpl.
  - apply try_acquire_pool_ok, Hok.
  - apply release_loop_pool_ok, Hok.
  - apply update_policy_pool_ok, Hok.
Qed.

(** X1. A pool built by the constructor keeps every bucket balanced under
    any sequence of acquisitions, releases (of guards or of arbitrary name
    lists, failing or not) and policy updates: permits and holders add up
    to the capacity, so no bucket ever has more holders than its capacity,
    and the [available] figure of [info] is the number of permits left. *)
Theorem pool_never_exceeds_capacity (policy : list (string * Z))
        (default_capacity : Z) (p0 : ResourcePool) (ops : list op)
        (name : string) (b : _LockBucket) :
  init_pool policy default_capacity = Return p0 ->
  _buckets (run_ops monotonic TIMEOUT_MAX p0 ops) !! name = Some b ->
  0 <= in_use b <= capacity b /\
  sem b + in_use b = capacity b /\
  available b = sem b.
Proof.
  intros Hinit Hb. unfold init_pool, new_pool in Hinit.
  destruct (default_capacity <? 1) eqn:Hd; [discriminate |].
  apply Z.ltb_ge in Hd.
  destruct (init_loop_pool_ok policy
              {| _default_capacity := default_capacity; _buckets := ∅;
                 ticks := 0; trace := [] |}) as (p' & Hrun & Hok).
  { split; [exact Hd |]. simpl. intros n b0 H. rewrite lookup_empty in H.
    discriminate. }
  rewrite Hrun in Hinit. injection Hinit as ->.
  destruct (proj2 (run_ops_pool_ok ops p0 Hok) name b Hb) as (Hsum & Hi & Hs).
  unfold available. repeat split; lia.
Qed.

End ResourcesOpsFacts.

Lemma pool_never_exceeds_capacity_witness :
  let ops := [ResourcesOps.OpTryAcquire ["GPU"; "disk"]%string None;
              ResourcesOps.OpTryAcquire ["GPU"]%string (Some 5);
              ResourcesOps.OpPolicy [("GPU"%string, 3)];
              ResourcesOps.OpRelease ["disk"; "disk"]%string] in
  exists p0 b,
    ResourcesOps.init_pool [("GPU"%string, 2)] 1 = Resources.Return p0 /\
    Resources._buckets (ResourcesOps.run_ops Z.of_nat 9223372036 p0 ops)
      !! "GPU"%string
      = Some b /\
    Resources.in_use b = 2 /\ Resources.capacity b = 3 /\
    ResourcesOps.available b = Resources.sem b.
Proof.
  intros ops. eexists _, _.
  split; [vm_compute; reflexivity |].
  assert (Resources._buckets
            (ResourcesOps.run_ops Z.of_nat 9223372036
               {| Resources._default_capacity := 1;
                  Resources._buckets :=
                    {[ "GPU"%string := {| Resources.capacity := 2;
                                          Resources.sem := 2;
                                          Resources.in_use := 0 |} ]};
                  Resources.ticks := 0; Resources.trace := [] |} ops)
          !! "GPU"%string
          = Some {| Resources.capacity := 3; Resources.sem := 1;
                    Resources.in_use := 2 |}) as Hb by (vm_compute; reflexivity).
  split; [exact Hb |]. split; [reflexivity |]. split; [reflexivity |].
  exact (proj2 (proj2 (pool_never_exceeds_capacity Z.of_nat 9223372036
                         [("GPU"%string, 2)] 1 _ ops "GPU" _ eq_refl Hb))).
Defined.

Section ResourcesRoundTrip.
Import PyStr Resources ResourcesOps.
Variable monotonic : nat -> Z.
Variable TIMEOUT_MAX : Z.

(** X2. Acquire then release is a round trip: releasing the guard of a
    successful [try_acquire] gives every bucket the in-use count and the
    permits it had before the call, and releasing the same guard again
    does nothing. *)
Theorem acquire_release_round_trip (p p' : ResourcePool)
        (names : list string) (timeout : option Z) (g : ResourceGuard) :
  pool_wf p ->
  try_acquire monotonic TIMEOUT_MAX p names timeout = (p', Return (Some g)) ->
  exists p'' g',
    guard_release p' g = (p'', Return g') /\
    (forall n, in_use_of p'' n = in_use_of p n) /\
    (forall n, permits_of p'' n = permits_of p n) /\
    guard_release p'' g' = (p'', Return g').
Proof.
  intros Hwf Hrun.
  destruct (try_acquire_spec monotonic TIMEOUT_MAX p names timeout Hwf)
    as (p1 & r & done & Hrun' & Hwf' & Hpre & Hiu & Hsum & Hpost).
  rewrite Hrun in Hrun'. injection Hrun' as <- <-.
  destruct Hpost as (-> & -> & Htr & Hav).
  assert (forall n, 0 <= in_use_of p n) as Hnn.
  { intros n. unfold in_use_of. destruct (_buckets p !! n) as [b|] eqn:Hb; [| lia].
    apply (proj2 Hwf n b Hb). }
  destruct (release_many_ok (lock_names names) p')
    as (p'' & Hrel & _ & _ & _ & _ & Hiu2 & Hpm2).
  - apply strictly_sorted_NoDup, lock_names_sorted.
  - exact Hwf'.
  - intros n Hn. rewrite Hiu. unfold held. rewrite decide_True by exact Hn.
    specialize (Hnn n). lia.
  - eexists p'', _. unfold guard_release at 1. simpl. rewrite Hrel.
    split; [reflexivity |].
    assert (forall n, in_use_of p'' n = in_use_of p n) as Hback
      by (intros n; rewrite Hiu2, Hiu; lia).
    split; [exact Hback |]. split; [| reflexivity].
    intros n. rewrite Hpm2.
    assert (Return (A := option ResourceGuard)
              (Some {| locks := lock_names names; _released := false |}) <> Hang)
      as Hne by discriminate.
    pose proof (Hsum n Hne) as Hs. rewrite Hiu in Hs. lia.
Qed.

(** X3. A timeout of zero (or below) is not a non-blocking attempt: as the
    clock does not go back, the deadline is reached before the first bucket
    is tried, and [try_acquire] returns [None] for every request with a
    non-blank name, free buckets or not, without touching or creating a
    bucket. *)
Theorem zero_timeout_always_fails (p : ResourcePool) (names : list string)
        (t : Z) :
  t <= 0 ->
  lock_names names <> [] ->
  monotonic (ticks p) <= monotonic (S (ticks p)) ->
  exists p',
    try_acquire monotonic TIMEOUT_MAX p names (Some t) = (p', Return None) /\
    _buckets p' = _buckets p /\ trace p' = trace p.
Proof.
  intros Ht Hne Hmono. unfold try_acquire.
  destruct names as [|x l]; [contradiction Hne; reflexivity |].
  destruct (lock_names (x :: l)) as [|name rest] eqn:Hn; [contradiction |].
  cbn [read_clock acquire_loop ticks].
  replace (Z.max 0 t) with 0 by lia.
  assert (Z.max 0 (monotonic (ticks p) + 0 - monotonic (S (ticks p))) = 0)
    as -> by lia.
  simpl. eexists. split; [reflexivity |]. split; reflexivity.
Qed.

Lemma single_name_names (name : string) :
  strip name = name -> name <> EmptyString -> lock_names [name] = [name].
Proof.
  intros Hs Hne. unfold lock_names. simpl. rewrite Hs.
  destruct name; [contradiction | reflexivity].
Qed.

(** X4. Calls on one bucket are serialized by its permits.  With one
    permit left, an acquisition takes it; the next acquisition of the same
    name takes nothing: with a timeout it raises [ResourceTimeout], or
    [OverflowError] when the time left is above [threading.TIMEOUT_MAX],
    which cannot be when the timeout is at most [TIMEOUT_MAX] and the clock
    does not go back; without timeout it waits without end; once the guard
    is released it succeeds. *)
Theorem last_permit_serializes (p : ResourcePool) (name : string) (t : Z) :
  pool_wf p ->
  strip name = name -> name <> EmptyString ->
  permits_of p name = 1 ->
  exists p1 g,
    acquire monotonic TIMEOUT_MAX p [name] None = (p1, Return g) /\
    locks g = [name] /\
    (exists q e,
        acquire monotonic TIMEOUT_MAX p1 [name] (Some t) = (q, Raise e) /\
        in_use_of q name = in_use_of p1 name /\
        (e = OverflowError \/ exists msg, e = ResourceTimeout msg) /\
        ((forall i j, (i <= j)%nat -> monotonic i <= monotonic j) ->
         t <= TIMEOUT_MAX -> exists msg, e = ResourceTimeout msg)) /\
    snd (acquire monotonic TIMEOUT_MAX p1 [name] None) = Hang /\
    exists p2 g' p3 g2,
      guard_release p1 g = (p2, Return g') /\
      acquire monotonic TIMEOUT_MAX p2 [name] None = (p3, Return g2) /\
      in_use_of p3 name = in_use_of p1 name.
Proof.
  intros Hwf Hs Hne Hone.
  pose proof (single_name_names name Hs Hne) as Hnames.
  assert (forall q, pool_wf q -> 1 <= permits_of q name ->
            exists q', try_acquire monotonic TIMEOUT_MAX q [name] None
                       = (q', Return (Some {| locks := [name]; _released := false |})) /\
                       pool_wf q' /\
                       permits_of q' name = permits_of q name - 1 /\
                       in_use_of q' name = in_use_of q name + 1) as Htake.
  { intros q Hq Hp. unfold try_acquire. rewrite Hnames. cbn [acquire_loop].
    destruct (ensure_bucket_ok q name Hq)
      as (q2 & b & -> & Hb2 & Hwf2 & _ & _ & Hiu2 & Hpm2).
    assert (sem b = permits_of q name) as Hsem
      by (rewrite <- Hpm2; unfold permits_of; rewrite Hb2; reflexivity).
    assert (in_use b = in_use_of q name) as Hinu
      by (rewrite <- Hiu2; unfold in_use_of; rewrite Hb2; reflexivity).
    unfold bucket_acquire. rewrite (proj2 (Z.ltb_lt 0 (sem b))) by lia.
    simpl. eexists. split; [reflexivity |].
    pose proof (proj2 Hwf2 name b Hb2) as [Hib Hsb].
    split; [apply pool_wf_update; [exact Hwf2 | simpl; lia | simpl; lia] |].
    rewrite permits_of_update, in_use_of_update.
    rewrite !decide_True by reflexivity. simpl. lia. }
  destruct (Htake p Hwf) as (p1 & Hrun1 & Hwf1 & Hpm1 & Hiu1); [lia |].
  exists p1, {| locks := [name]; _released := false |}.
  split; [unfold acquire; rewrite Hrun1; reflexivity |].
  split; [reflexivity |].
  assert (permits_of p1 name = 0) as Hzero by lia.
  split; [| split].
  - (* a second caller with a timeout *)
    destruct (try_acquire_spec monotonic TIMEOUT_MAX p1 [name] (Some t) Hwf1)
      as (q & r & done & Hrun & _ & Hpre & Hiu & _ & Hpost).
    destruct r as [[g|] | e |].
    + destruct Hpost as (_ & _ & _ & Hav).
      specialize (Hav name). rewrite Hnames in Hav.
      specialize (Hav (list_elem_of_here _ _)). lia.
    + eexists q, _. unfold acquire. rewrite Hrun.
      split; [reflexivity |]. split; [rewrite Hiu; lia |].
      split; [right |]; eauto.
    + destruct Hpost as (-> & Hdone & _ & t0 & k & [= <-] & Hk & H0 & Hmax).
      rewrite Hnames in Hpre, Hdone.
      assert (done = []) as ->.
      { destruct done as [|a l]; [reflexivity |].
        destruct Hpre as [k' Hk']. injection Hk' as <- Hl.
        destruct l; [contradiction Hdone; reflexivity | discriminate]. }
      exists q, OverflowError. unfold acquire. rewrite Hrun.
      split; [reflexivity |]. split; [rewrite Hiu, held_nil; lia |].
      split; [left; reflexivity |].
      intros Hmono Hle. pose proof (Hmono (ticks p1) k). lia.
    + destruct Hpost as [Hc _]. discriminate.
  - (* a second caller without timeout *)
    unfold acquire, try_acquire. rewrite Hnames. cbn [acquire_loop].
    destruct (ensure_bucket_ok p1 name Hwf1)
      as (q2 & b & -> & Hb2 & _ & _ & _ & _ & Hpm2).
    assert (sem b = 0) as Hsem
      by (rewrite <- Hzero, <- Hpm2; unfold permits_of; rewrite Hb2; reflexivity).
    unfold bucket_acquire. rewrite Hsem. reflexivity.
  - (* after the release *)
    destruct (release_many_ok [name] p1)
      as (p2 & Hrel & Hwf2 & _ & _ & _ & Hiu2 & Hpm2).
    + apply NoDup_singleton.
    + exact Hwf1.
    + intros n Hn. apply list_elem_of_singleton in Hn. subst n.
      assert (0 <= in_use_of p name); [| lia].
      unfold in_use_of. destruct (_buckets p !! name) as [b|] eqn:Hb; [| lia].
      apply (proj2 Hwf name b Hb).
    + assert (held [name] name = 1) as Hh
        by (unfold held; rewrite decide_True; [reflexivity | left]).
      destruct (Htake p2 Hwf2) as (p3 & Hrun3 & _ & _ & Hiu3).
      { rewrite Hpm2, Hh. lia. }
      eexists p2, _, p3, _. unfold guard_release. simpl. rewrite Hrel.
      split; [reflexivity |].
      split; [unfold acquire; rewrite Hrun3; reflexivity |].
      rewrite Hiu3, Hiu2, Hh. lia.
Qed.

(** X5. A release that was not preceded by an acquisition is reported:
    [_release_many] starts with the last name, and when the bucket of that
    name has no holder it raises [ResourceError] for it and changes
    nothing; a name that has no bucket at all is passed over in silence. *)
Theorem release_without_holder (p : ResourcePool) (names : list string)
        (name : string) :
  (forall b, _buckets p !! name = Some b -> in_use b <= 0 ->
             _release_many p (names ++ [name]) = (p, Raise (ResourceError name))) /\
  (_buckets p !! name = None ->
   _release_many p (names ++ [name]) = _release_many p names).
Proof.
  unfold _release_many. rewrite rev_app_distr. simpl. split.
  - intros b Hb Hle. rewrite Hb. unfold bucket_release.
    rewrite (proj2 (Z.leb_le (in_use b) 0) Hle). reflexivity.
  - intros Hb. rewrite Hb. reflexivity.
Qed.

Lemma update_policy1_facts p name cap n :
  in_use_of (update_policy1 p name cap) n = in_use_of p n /\
  capacity_of p n <= capacity_of (update_policy1 p name cap) n /\
  (n = name -> Z.max 1 cap <= capacity_of (update_policy1 p name cap) n) /\
  _default_capacity (update_policy1 p name cap) = _default_capacity p.
Proof.
  unfold update_policy1, in_use_of, capacity_of.
  assert ((if 0 <? cap then cap else 1) = Z.max 1 cap) as ->.
  { destruct (0 <? cap) eqn:Hc; [apply Z.ltb_lt in Hc | apply Z.ltb_ge in Hc]; lia. }
  destruct (_buckets p !! name) as [b|] eqn:Hb.
  - destruct (capacity b <? Z.max 1 cap) eqn:Hlt; simpl.
    + apply Z.ltb_lt in Hlt. rewrite lookup_insert.
      case_decide as Hc; [subst n; rewrite Hb; simpl |];
        repeat split; try lia; intros; subst; try contradiction; lia.
    + apply Z.ltb_ge in Hlt.
      repeat split; try lia; intros; subst; rewrite ?Hb; lia.
  - simpl. rewrite lookup_insert.
    case_decide as Hc; [subst n; rewrite Hb; simpl |];
      repeat split; try lia; intros; subst; try contradiction; lia.
Qed.

(** X6. [update_policy] only grows a pool: no capacity goes down, no
    in-use count changes, and every name of the policy ends with a bucket
    of at least the capacity asked for (at least one). *)
Theorem update_policy_only_grows (policy : list (string * Z)) :
  forall (p : ResourcePool) (n : string),
    in_use_of (update_policy p policy) n = in_use_of p n /\
    capacity_of p n <= capacity_of (update_policy p policy) n /\
    (forall cap, (n, cap) ∈ policy ->
                 Z.max 1 cap <= capacity_of (update_policy p policy) n).
Proof.
  unfold update_policy.
  induction policy as [|[name cap] rest IH]; intros p n; simpl.
  - split; [reflexivity |]. split; [lia |]. intros cap H. inversion H.
  - destruct (IH (update_policy1 p name cap) n) as (Hi & Hc & Hp).
    destruct (update_policy1_facts p name cap n) as (Hi1 & Hc1 & Hp1 & _).
    split; [rewrite Hi, Hi1; reflexivity |].
    split; [lia |].
    intros cap' Hin. apply elem_of_cons in Hin as [[= -> ->] | Hin].
    + specialize (Hp1 eq_refl). lia.
    + apply Hp, Hin.
Qed.

End ResourcesRoundTrip.

Lemma acquire_release_round_trip_witness :
  let p := {| Resources._default_capacity := 2;
              Resources._buckets :=
                {[ "GPU"%string := {| Resources.capacity := 1; Resources.sem := 1;
                                      Resources.in_use := 0 |} ]};
              Resources.ticks := 0; Resources.trace := [] |} in
  let r := Resources.try_acquire Z.of_nat 9223372036 p ["disk"; " GPU"]%string (Some 30) in
  Resources.pool_wf p /\
  snd r = Resources.Return (Some {| Resources.locks := ["GPU"; "disk"]%string;
                                    Resources._released := false |}) /\
  exists p'' g',
    Resources.guard_release (fst r)
      {| Resources.locks := ["GPU"; "disk"]%string; Resources._released := false |}
      = (p'', Resources.Return g') /\
    Resources.in_use_of p'' "GPU" = 0 /\ Resources.permits_of p'' "disk" = 2.
Proof.
  intros p r.
  assert (Resources.pool_wf p) as Hwf by (apply busy_pool_wf; simpl; lia).
  assert (r = (fst r, Resources.Return
                        (Some {| Resources.locks := ["GPU"; "disk"]%string;
                                 Resources._released := false |}))) as Hr
    by (vm_compute; reflexivity).
  split; [exact Hwf |]. split; [rewrite Hr; reflexivity |].
  destruct (acquire_release_round_trip Z.of_nat 9223372036 p (fst r) _ _ _ Hwf Hr)
    as (p'' & g' & Hrel & Hiu & Hpm & _).
  exists p'', g'. split; [exact Hrel |].
  rewrite Hiu, Hpm. split; reflexivity.
Defined.

Lemma zero_timeout_always_fails_witness :
  let p := {| Resources._default_capacity := 1; Resources._buckets := ∅;
              Resources.ticks := 0; Resources.trace := [] |} in
  (0 <= 0 /\ Resources.lock_names ["GPU"%string] <> [] /\
   Z.of_nat (Resources.ticks p) <= Z.of_nat (S (Resources.ticks p))) /\
  exists p',
    Resources.try_acquire Z.of_nat 9223372036 p ["GPU"%string] (Some 0)
      = (p', Resources.Return None) /\
    Resources._buckets p' = ∅.
Proof.
  intros p.
  assert (0 <= 0) as H1 by lia.
  assert (Resources.lock_names ["GPU"%string] <> []) as H2
    by (vm_compute; discriminate).
  assert (Z.of_nat (Resources.ticks p) <= Z.of_nat (S (Resources.ticks p))) as H3
    by (simpl; lia).
  split; [split; [exact H1 | split; [exact H2 | exact H3]] |].
  destruct (zero_timeout_always_fails Z.of_nat 9223372036 p ["GPU"%string] 0 H1 H2 H3)
    as (p' & Hrun & Hb & _).
  exists p'. split; [exact Hrun | exact Hb].
Defined.

Lemma last_permit_serializes_witness :
  let p := {| Resources._default_capacity := 1; Resources._buckets := ∅;
              Resources.ticks := 0; Resources.trace := [] |} in
  (Resources.pool_wf p /\ PyStr.strip "GPU" = "GPU"%string /\
   Resources.permits_of p "GPU" = 1) /\
  exists p1 g,
    Resources.acquire Z.of_nat 9223372036 p ["GPU"%string] None
    = (p1, Resources.Return g) /\
    (exists q msg,
        Resources.acquire Z.of_nat 9223372036 p1 ["GPU"%string] (Some 5)
        = (q, Resources.Raise (Resources.ResourceTimeout msg))) /\
    snd (Resources.acquire Z.of_nat 9223372036 p1 ["GPU"%string] None)
    = Resources.Hang.
Proof.
  intros p.
  assert (Resources.pool_wf p) as Hwf.
  { split; [simpl; lia |]. simpl. intros n b H. rewrite lookup_empty in H.
    discriminate. }
  split; [split; [exact Hwf | split; reflexivity] |].
  destruct (last_permit_serializes Z.of_nat 9223372036 p "GPU" 5 Hwf eq_refl)
    as (p1 & g & Hrun & _ & (q & e & Hq & _ & _ & Hto) & Hhang & _);
    [discriminate | reflexivity |].
  destruct Hto as [msg ->]; [intros i j; lia | lia |].
  exists p1, g. split; [exact Hrun |]. split; [| exact Hhang].
  exists q, msg. exact Hq.
Defined.

Lemma release_without_holder_witness :
  let p := {| Resources._default_capacity := 1;
              Resources._buckets :=
                {[ "GPU"%string := {| Resources.capacity := 1; Resources.sem := 1;
                                      Resources.in_use := 0 |} ]};
              Resources.ticks := 0; Resources.trace := [] |} in
  Resources._release_many p ["disk"; "GPU"]%string
    = (p, Resources.Raise (Resources.ResourceError "GPU")) /\
  Resources._release_many p ["GPU"; "disk"]%string
    = Resources._release_many p ["GPU"%string].
Proof.
  intros p. split.
  - apply (proj1 (release_without_holder p ["disk"%string] "GPU")
             {| Resources.capacity := 1; Resources.sem := 1; Resources.in_use := 0 |}).
    + reflexivity.
    + simpl. lia.
  - apply (proj2 (release_without_holder p ["GPU"%string] "disk")). reflexivity.
Defined.

Lemma update_policy_only_grows_witness :
  let p := {| Resources._default_capacity := 1;
              Resources._buckets :=
                {[ "GPU"%string := {| Resources.capacity := 4; Resources.sem := 1;
                                      Resources.in_use := 3 |} ]};
              Resources.ticks := 0; Resources.trace := [] |} in
  ("GPU"%string, 2) ∈ [("GPU"%string, 2); ("disk"%string, 0)] /\
  Z.max 1 2 <= ResourcesOps.capacity_of
                 (ResourcesOps.update_policy p [("GPU"%string, 2); ("disk"%string, 0)])
                 "GPU".
Proof.
  intros p.
  assert (("GPU"%string, 2) ∈ [("GPU"%string, 2); ("disk"%string, 0)]) as Hin by left.
  split; [exact Hin |].
  exact (proj2 (proj2 (update_policy_only_grows _ p "GPU"%string)) 2 Hin).
Defined.

(* ===================================================================== *)
(** ** Environment: identifiers, normal form, key, creation lock *)
(* ===================================================================== *)

Section EnvsOpsFacts.
Import PyStr Envs EnvsOps.

Lemma rstrip_idem s : rstrip (rstrip s) = rstrip s.
Proof.
  induction s as [|c s IH]; simpl; [reflexivity |].
  destruct (rstrip s) as [|d r] eqn:E.
  - destruct (is_space c) eqn:Hc; simpl; [reflexivity |]. rewrite Hc. reflexivity.
  - simpl. simpl in IH. rewrite IH. reflexivity.
Qed.

Lemma rstrip_head c s :
  is_space c = false -> exists r, rstrip (String c s) = String c r.
Proof.
  intros Hc. simpl. destruct (rstrip s); [rewrite Hc |]; eauto.
Qed.

Lemma lstrip_head s :
  lstrip s = EmptyString \/
  exists c t, lstrip s = String c t /\ is_space c = false.
Proof.
  induction s as [|c s IH]; simpl; [left; reflexivity |].
  destruct (is_space c) eqn:Hc; [exact IH | right; eauto].
Qed.

Lemma strip_idem s : strip (strip s) = strip s.
Proof.
  unfold strip. destruct (lstrip_head s) as [-> | (c & t & -> & Hc)];
    [reflexivity |].
  destruct (rstrip_head c t Hc) as [r Hr]. rewrite Hr.
  simpl lstrip. rewrite Hc. rewrite <- Hr. apply rstrip_idem.
Qed.

Lemma strip_no_space s :
  forallb (fun c => negb (is_space c)) (chars s) = true -> strip s = s.
Proof.
  intros H. unfold strip.
  assert (lstrip s = s) as ->.
  { destruct s as [|c s]; [reflexivity |]. cbn [chars forallb] in H.
    apply andb_true_iff in H as [Hc _]. apply negb_true_iff in Hc.
    cbn [lstrip]. rewrite Hc. reflexivity. }
  induction s as [|c s IH]; [reflexivity |]. cbn [chars forallb] in H.
  apply andb_true_iff in H as [Hc Hs]. apply negb_true_iff in Hc.
  cbn [rstrip]. rewrite (IH Hs). destruct s; [rewrite Hc |]; reflexivity.
Qed.

Lemma id_char_not_space c : id_char c = true -> is_space c = false.
Proof.
  unfold id_char, is_alnum, is_space.
  destruct c as [[] [] [] [] [] [] [] []]; vm_compute; congruence.
Qed.

Lemma sanitize_chars_cons c s :
  sanitize_chars (String c s)
  = String (if id_char c then c else "_"%char) (sanitize_chars s).
Proof. reflexivity. Qed.

Lemma id_char_underscore : id_char "_" = true.
Proof. vm_compute. reflexivity. Qed.

Lemma sanitize_chars_safe s : forallb id_char (chars (sanitize_chars s)) = true.
Proof.
  induction s as [|c s IH]; [reflexivity |].
  rewrite sanitize_chars_cons. cbn [chars forallb]. rewrite IH, andb_true_r.
  destruct (id_char c) eqn:Hc; [exact Hc | exact id_char_underscore].
Qed.

Lemma sanitize_chars_fixed s :
  forallb id_char (chars s) = true -> sanitize_chars s = s.
Proof.
  induction s as [|c s IH]; [reflexivity |].
  cbn [chars forallb]. intros H. apply andb_true_iff in H as [Hc Hs].
  rewrite sanitize_chars_cons, Hc, (IH Hs). reflexivity.
Qed.

Lemma id_chars_no_space s :
  forallb id_char (chars s) = true ->
  forallb (fun c => negb (is_space c)) (chars s) = true.
Proof.
  induction s as [|c s IH]; [reflexivity |].
  cbn [chars forallb]. intros H. apply andb_true_iff in H as [Hc Hs].
  rewrite (id_char_not_space c Hc), (IH Hs). reflexivity.
Qed.

Lemma id_char_plain c :
  id_char c = true ->
  negb (is_space c) && negb (Ascii.eqb c "/")
  && negb (Ascii.eqb c (ascii_of_N 92)) = true.
Proof.
  unfold id_char, is_alnum, is_space.
  destruct c as [[] [] [] [] [] [] [] []]; vm_compute; congruence.
Qed.

(** X7. What [_sanitize_id] returns is never empty; each of its
    characters is one that [str.isalnum] accepts, a letter or a digit of
    ASCII or not (among the code points below 256 of the model: accented
    letters, superscript digits, fractions), or one of the signs
    [- _ . +]; so it has no slash, no backslash and no blank; and
    sanitizing it again changes nothing.  A name made of dots is let
    through: [..] stays [..]. *)
Theorem sanitize_id_safe (s : string) :
  _sanitize_id s <> EmptyString /\
  forallb id_char (chars (_sanitize_id s)) = true /\
  forallb (fun c => negb (is_space c) && negb (Ascii.eqb c "/")
                    && negb (Ascii.eqb c (ascii_of_N 92)))
          (chars (_sanitize_id s)) = true /\
  _sanitize_id (_sanitize_id s) = _sanitize_id s /\
  _sanitize_id ".." = ".."%string /\
  _sanitize_id (String (ascii_of_N 233) EmptyString)
  = String (ascii_of_N 233) EmptyString.
Proof.
  assert (_sanitize_id s <> EmptyString /\
          forallb id_char (chars (_sanitize_id s)) = true /\
          _sanitize_id (_sanitize_id s) = _sanitize_id s) as (H1 & H2 & H3);
    [| split; [exact H1 |]; split; [exact H2 |]; split;
       [| split; [exact H3 |]; split; vm_compute; reflexivity];
       revert H2; generalize (_sanitize_id s); intros t;
       induction t as [|c t IH]; [reflexivity |];
       cbn [chars forallb]; intros H; apply andb_true_iff in H as [Hc Ht];
       rewrite (id_char_plain c Hc), (IH Ht); reflexivity].
  assert (forall t, forallb id_char (chars t) = true -> t <> EmptyString ->
                    _sanitize_id t = t) as Hfix.
  { intros t Ht Hne. unfold _sanitize_id.
    rewrite (strip_no_space t (id_chars_no_space t Ht)).
    rewrite (sanitize_chars_fixed t Ht).
    destruct t; [contradiction | reflexivity]. }
  assert (_sanitize_id s
          = if nonempty (sanitize_chars (strip s))
            then sanitize_chars (strip s) else "script"%string) as E
    by reflexivity.
  destruct (nonempty (sanitize_chars (strip s))) eqn:Hne; rewrite E.
  - assert (sanitize_chars (strip s) <> EmptyString) as Hne'
      by (intros E'; rewrite E' in Hne; discriminate).
    split; [exact Hne' |]. split; [apply sanitize_chars_safe |].
    apply Hfix; [apply sanitize_chars_safe | exact Hne'].
  - split; [discriminate |]. split; vm_compute; reflexivity.
Qed.

Lemma entries_trimmed l s :
  s ∈ entries l -> strip s = s /\ nonempty s = true.
Proof.
  unfold entries. rewrite list_elem_of_In, filter_In, in_map_iff.
  intros [(p & <- & _) Hne]. split; [apply strip_idem | exact Hne].
Qed.

Lemma key_lt_ne key a b : key_lt key a b -> key a <> key b.
Proof.
  unfold key_lt. intros H E. rewrite E in H. exact (str_lt_irrefl _ H).
Qed.

Lemma normalize_packages_normal_form_aux (packages : list string) :
  StronglySorted (key_lt lower) (_normalize_packages packages) /\
  (forall s, s ∈ _normalize_packages packages ->
             strip s = s /\ nonempty s = true).
Proof.
  destruct (normalize_loop_spec packages ∅ []) as (Hnd & Hsub & _ & _).
  { intros k. simpl. rewrite elem_of_empty. reflexivity. }
  { constructor. }
  unfold _normalize_packages.
  split; [apply sort_by_key_sorted, Hnd |].
  intros s Hs. apply sort_by_key_elem in Hs.
  destruct (Hsub s Hs) as [Hi | Hi]; [inversion Hi |].
  apply (entries_trimmed packages s Hi).
Qed.

(** X8. The normal form of a dependency list: its entries are entries of
    the list, trimmed and not blank; their lower-cased forms increase
    strictly, so that no name occurs twice whatever its casing; and every
    entry of the list has its lower-cased form in the normal form. *)
Theorem normalize_packages_normal_form (packages : list string) :
  StronglySorted (key_lt lower) (_normalize_packages packages) /\
  (forall s, s ∈ _normalize_packages packages ->
             s ∈ entries packages /\ strip s = s /\ s <> EmptyString) /\
  (forall s, s ∈ entries packages ->
             exists s', s' ∈ _normalize_packages packages /\ lower s' = lower s).
Proof.
  destruct (normalize_loop_spec packages ∅ []) as (Hnd & Hsub & _ & Hcov).
  { intros k. simpl. rewrite elem_of_empty. reflexivity. }
  { constructor. }
  unfold _normalize_packages.
  split; [apply sort_by_key_sorted, Hnd |]. split.
  - intros s Hs. apply sort_by_key_elem in Hs.
    destruct (Hsub s Hs) as [Hi | Hi]; [inversion Hi |].
    destruct (entries_trimmed packages s Hi) as [Ht Hne].
    split; [exact Hi |]. split; [exact Ht |].
    intros ->. discriminate.
  - intros s Hs. specialize (Hcov s Hs).
    apply in_map_iff in Hcov as (s' & Hk & Hin).
    exists s'. split; [apply sort_by_key_elem, list_elem_of_In, Hin | exact Hk].
Qed.

Lemma sort_by_key_sorted_fixed key l :
  StronglySorted (key_lt key) l -> sort_by_key key l = l.
Proof.
  induction 1 as [|x l Hs IH Hall]; [reflexivity |].
  simpl. rewrite IH. destruct l as [|y l']; [reflexivity |]. simpl.
  inversion Hall as [|? ? Hxy _]; subst.
  unfold String.leb. unfold key_lt, str_lt in Hxy. rewrite Hxy. reflexivity.
Qed.

Lemma normalize_loop_fixed l : forall seen items,
  StronglySorted (key_lt lower) l ->
  (forall s, s ∈ l -> strip s = s /\ nonempty s = true) ->
  (forall s, s ∈ l -> lower s ∉ seen) ->
  normalize_loop l seen items = items ++ l.
Proof.
  induction l as [|x l IH]; intros seen items Hs Ht Hfresh; simpl.
  - rewrite app_nil_r. reflexivity.
  - destruct (Ht x (list_elem_of_here _ _)) as [Hx Hne].
    rewrite Hx, Hne. simpl.
    rewrite decide_False by (apply Hfresh; left).
    inversion Hs as [|? ? Hs' Hall]; subst.
    rewrite IH.
    + rewrite <- app_assoc. reflexivity.
    + exact Hs'.
    + intros s Hin. apply Ht. right. exact Hin.
    + intros s Hin. rewrite elem_of_union, elem_of_singleton.
      intros [E | E].
      * rewrite Forall_forall in Hall. apply (key_lt_ne lower x s (Hall s Hin)).
        symmetry. exact E.
      * apply (Hfresh s); [right; exact Hin | exact E].
Qed.

(** X9. Normalizing is idempotent, and the key of a list is the key of its
    normal form: [ensure_environment], which hashes the normalized list,
    names the environment by [compute_deps_hash] of the declared list. *)
Theorem normalize_packages_idempotent (packages : list string)
        (python_id : string) :
  _normalize_packages (_normalize_packages packages)
    = _normalize_packages packages /\
  compute_deps_hash (_normalize_packages packages) python_id
    = compute_deps_hash packages python_id.
Proof.
  destruct (normalize_packages_normal_form_aux packages) as (Hs & Ht).
  assert (_normalize_packages (_normalize_packages packages)
          = _normalize_packages packages) as Hidem.
  { unfold _normalize_packages at 1.
    rewrite (normalize_loop_fixed _ ∅ [] Hs Ht).
    - simpl. apply sort_by_key_sorted_fixed, Hs.
    - intros s _. apply not_elem_of_empty. }
  split; [exact Hidem |].
  unfold compute_deps_hash. rewrite Hidem. reflexivity.
Qed.

Lemma length_append (a b : string) :
  String.length (a +:+ b) = (String.length a + String.length b)%nat.
Proof. induction a as [|c a IH]; simpl; [reflexivity | rewrite IH; reflexivity]. Qed.

Lemma chars_append (a b : string) : chars (a +:+ b) = chars a ++ chars b.
Proof. induction a as [|c a IH]; simpl; [reflexivity | rewrite IH; reflexivity]. Qed.

Lemma hex_digit_is_hex x : 0 <= x < 16 -> is_hex (Sha1.hex_digit x) = true.
Proof.
  intros H.
  assert (x = 0 \/ x = 1 \/ x = 2 \/ x = 3 \/ x = 4 \/ x = 5 \/ x = 6 \/ x = 7 \/
          x = 8 \/ x = 9 \/ x = 10 \/ x = 11 \/ x = 12 \/ x = 13 \/ x = 14 \/
          x = 15) as Hx by lia.
  repeat (destruct Hx as [-> | Hx]; [vm_compute; reflexivity |]).
  subst x. vm_compute. reflexivity.
Qed.

Lemma hex_shape n : forall x,
  String.length (Sha1.hex n x) = n /\
  forallb is_hex (chars (Sha1.hex n x)) = true.
Proof.
  induction n as [|n IH]; intros x; [split; reflexivity |].
  cbn [Sha1.hex]. destruct (IH (x / 16)) as [Hl Hh].
  rewrite length_append, chars_append, forallb_app, Hl, Hh.
  cbn [String.length chars forallb].
  rewrite hex_digit_is_hex by (apply Z.mod_pos_bound; lia).
  split; [lia | reflexivity].
Qed.

Lemma hexdigest_shape data :
  String.length (Sha1.hexdigest data) = 40%nat /\
  forallb is_hex (chars (Sha1.hexdigest data)) = true.
Proof.
  unfold Sha1.hexdigest.
  destruct (Sha1.blocks _ _ _) as [[[[h0 h1] h2] h3] h4].
  rewrite !length_append, !chars_append, !forallb_app.
  destruct (hex_shape 8 h0) as [-> ->], (hex_shape 8 h1) as [-> ->],
           (hex_shape 8 h2) as [-> ->], (hex_shape 8 h3) as [-> ->],
           (hex_shape 8 h4) as [-> ->].
  split; reflexivity.
Qed.

Lemma take_shape n : forall s,
  (n <= String.length s)%nat -> forallb is_hex (chars s) = true ->
  String.length (take n s) = n /\ forallb is_hex (chars (take n s)) = true.
Proof.
  induction n as [|n IH]; intros s Hl Hh; [split; reflexivity |].
  destruct s as [|c s]; [simpl in Hl; lia |].
  cbn [take String.length chars forallb] in *.
  apply andb_true_iff in Hh as [Hc Hs].
  destruct (IH s) as [Hl' Hh']; [lia | exact Hs |].
  rewrite Hl', Hh', Hc. split; reflexivity.
Qed.

(** X10. An environment key is the interpreter identifier, a hyphen, and
    twelve lower-case hexadecimal digits, whatever the dependency list. *)
Theorem compute_deps_hash_format (packages : list string) (python_id : string) :
  exists h,
    compute_deps_hash packages python_id = python_id +:+ "-" +:+ h /\
    String.length h = 12%nat /\
    forallb is_hex (chars h) = true.
Proof.
  unfold compute_deps_hash. eexists. split; [reflexivity |].
  destruct (hexdigest_shape
              (Sha1.utf8 (python_id +:+ nl +:+ join nl (_normalize_packages packages))))
    as [Hl Hh].
  apply take_shape; [rewrite Hl; lia | exact Hh].
Qed.

Lemma acquire_poll_success (w : world) (lk : _CreationLock) (start : Z) :
  forall (m fuel : nat) (c : counters),
    (forall i, (i < m)%nat -> mkdir_at w (attempts c + i) <> MkdirOk) ->
    (forall k, (k < m)%nat -> time_at w (readings c + k) - start <= timeout lk) ->
    mkdir_at w (attempts c + m) = MkdirOk ->
    (m < fuel)%nat ->
    acquire_poll fuel w lk start c
    = Some (true,
            {| lock_dir := lock_dir lk; timeout := timeout lk; poll := poll lk;
               acquired := true |},
            {| attempts := S (attempts c + m); readings := (readings c + m)%nat |}).
Proof.
  induction m as [|m IH]; intros fuel c Hmk Hearly Hok Hfuel.
  - destruct fuel as [|fuel]; [lia |]. simpl.
    rewrite Nat.add_0_r in Hok. rewrite Hok, !Nat.add_0_r. reflexivity.
  - destruct fuel as [|fuel]; [lia |]. simpl.
    pose proof (Hmk 0%nat (Nat.lt_0_succ _)) as H0.
    pose proof (Hearly 0%nat (Nat.lt_0_succ _)) as H1.
    rewrite Nat.add_0_r in H0, H1.
    assert ((timeout lk <? time_at w (readings c) - start) = false) as Hno
      by (apply Z.ltb_ge; exact H1).
    set (c1 := {| attempts := S (attempts c); readings := S (readings c) |}).
    assert (acquire_poll fuel w lk start c1
            = Some (true,
                    {| lock_dir := lock_dir lk; timeout := timeout lk;
                       poll := poll lk; acquired := true |},
                    {| attempts := S (attempts c1 + m);
                       readings := (readings c1 + m)%nat |})) as Hrec.
    { apply IH.
      - intros i Hi. simpl.
        replace (S (attempts c + i)) with (attempts c + S i)%nat by lia.
        apply Hmk. lia.
      - intros k Hk. simpl.
        replace (S (readings c + k)) with (readings c + S k)%nat by lia.
        apply Hearly. lia.
      - simpl. replace (S (attempts c + m)) with (attempts c + S m)%nat by lia.
        exact Hok.
      - lia. }
    simpl in Hrec.
    replace (S (attempts c + S m)) with (S (S (attempts c + m))) by lia.
    replace (readings c + S m)%nat with (S (readings c + m)) by lia.
    destruct (mkdir_at w (attempts c)); [contradiction | |];
      rewrite Hno; fold c1; exact Hrec.
Qed.

(** X11. The creation lock is taken by the first [mkdir] that succeeds,
    provided the failed attempts before it were each followed by a clock
    reading within the timeout: [acquire] returns [True] after exactly that
    many attempts, and a second [acquire] on the same object returns [True]
    at once, without another [mkdir] or clock reading. *)
Theorem creation_lock_acquire_succeeds (fuel : nat) (w : world) (dir : string)
        (m : nat) :
  (forall i, (i < m)%nat -> mkdir_at w i <> MkdirOk) ->
  (forall k, (k < m)%nat -> time_at w (S k) - time_at w 0 <= 600000) ->
  mkdir_at w m = MkdirOk ->
  (m < fuel)%nat ->
  exists lk c,
    lock_acquire fuel w (new_lock dir) {| attempts := 0; readings := 0 |}
      = Some (true, lk, c) /\
    acquired lk = true /\ lock_dir lk = dir /\ attempts c = S m /\
    forall fuel', lock_acquire fuel' w lk c = Some (true, lk, c).
Proof.
  intros Hmk Hearly Hok Hfuel.
  pose proof (acquire_poll_success w (new_lock dir) (time_at w 0) m fuel
                {| attempts := 0; readings := 1 |} Hmk Hearly Hok Hfuel) as Hrun.
  unfold lock_acquire. cbn [acquired new_lock readings attempts] in *.
  rewrite Hrun.
  eexists _, _. split; [reflexivity |]. cbn [acquired lock_dir attempts].
  repeat split; reflexivity.
Qed.

(** X12. Where an environment lives does not depend on how the call went:
    two calls of [ensure_environment] for one descriptor and mode, on
    machines that agree on the interpreter, its version and the root
    directory, return handles with the same path, interpreter, kind and key;
    the handle says [created] exactly when the environment was found ready
    neither before nor after the lock was taken. *)
Theorem ensure_environment_same_place (f1 f2 : nat) (w1 w2 : world)
        (meta : ScriptMeta) (mode : EnvMode) (h1 h2 : EnvHandle) :
  sys_executable w1 = sys_executable w2 ->
  python_version_id w1 = python_version_id w2 ->
  venvs_root w1 = venvs_root w2 ->
  os_nt w1 = os_nt w2 ->
  ensure_environment f1 w1 meta mode = Some (Return h1) ->
  ensure_environment f2 w2 meta mode = Some (Return h2) ->
  path h1 = path h2 /\ python h1 = python h2 /\ kind h1 = kind h2 /\
  key h1 = key h2 /\
  created h1 = negb (ready_fast w1 || ready_locked w1).
Proof.
  intros Hexe Hver Hroot Hnt.
  assert (forall f w h, ensure_environment f w meta mode = Some (Return h) ->
            exists k p kd,
              (k, p, kd) =
              match mode with
              | CACHED =>
                  let k := compute_deps_hash (_normalize_packages (depends_pip meta))
                             (python_version_id w
                                match python_interpreter meta with
                                | Some p => if nonempty p then p else sys_executable w
                                | None => sys_executable w
                                end) in
                  (k, path_join (venvs_root w) k, "cached"%string)
              | PER_SCRIPT =>
                  (stable_id meta,
                   path_join (path_join (venvs_root w) "scripts")
                             (_sanitize_id (stable_id meta)),
                   "per-script"%string)
              end /\
              path h = p /\ python h = _venv_python_path w p /\ kind h = kd /\
              key h = k /\ created h = negb (ready_fast w || ready_locked w))
    as Hshape.
  { intros f w h. unfold ensure_environment.
    destruct (match mode with CACHED => _ | PER_SCRIPT => _ end)
      as [[k p] kd] eqn:E.
    intros Hrun. exists k, p, kd. split; [reflexivity |].
    destruct (ready_fast w); [injection Hrun as <-; repeat split |].
    destruct (lock_enter f w _ _) as [[lk | e] |]; [| discriminate | discriminate].
    destruct (ready_locked w); [injection Hrun as <-; repeat split |].
    unfold bind in Hrun.
    destruct (_ensure_venv w p); [| discriminate].
    destruct (_ensure_pip_present w); [| discriminate].
    destruct (ensure_base_tools w); [| discriminate].
    destruct (match _normalize_packages (depends_pip meta) with
              | [] => Return tt
              | _ => pip_install w _
              end); [| discriminate].
    injection Hrun as <-. repeat split. }
  intros H1 H2.
  destruct (Hshape f1 w1 h1 H1) as (k1 & p1 & kd1 & E1 & Hp1 & Hy1 & Hk1 & Hkey1 & Hc1).
  destruct (Hshape f2 w2 h2 H2) as (k2 & p2 & kd2 & E2 & Hp2 & Hy2 & Hk2 & Hkey2 & _).
  rewrite Hexe, Hver, Hroot in E1. rewrite <- E2 in E1.
  injection E1 as -> -> ->.
  unfold _venv_python_path in Hy1, Hy2. rewrite Hnt in Hy1.
  repeat split; congruence.
Qed.

Lemma lock_step_inv st e : lock_inv st -> lock_inv (lock_step st e).
Proof.
  intros Hinv. pose proof Hinv as [Huniq Hdir].
  destruct e as [i fails | i fails | i]; simpl.
  - destruct (owners st !! i) as [[| |]|] eqn:Hi; try exact Hinv.
    destruct (dir_exists st) eqn:Hd; simpl; [exact Hinv |].
    destruct fails; simpl; [exact Hinv |].
    assert (forall j, owners st !! j <> Some Held) as Hnone.
    { intros j Hj. specialize (Hdir j Hj). congruence. }
    split; simpl.
    + intros a b Ha Hb.
      destruct (decide (i = a)) as [<- | Hia], (decide (i = b)) as [<- | Hib];
        try reflexivity; exfalso.
      * rewrite list_lookup_insert_ne in Hb by exact Hib. exact (Hnone b Hb).
      * rewrite list_lookup_insert_ne in Ha by exact Hia. exact (Hnone a Ha).
      * rewrite list_lookup_insert_ne in Ha by exact Hia. exact (Hnone a Ha).
    + reflexivity.
  - destruct (owners st !! i) as [[| |]|] eqn:Hi; try exact Hinv.
    assert (forall j, <[i := Releasing]> (owners st) !! j = Some Held -> False)
      as Hnone.
    { intros j Hj. destruct (decide (i = j)) as [<- | Hne].
      - rewrite list_lookup_insert_eq in Hj; [discriminate |].
        apply lookup_lt_Some in Hi. exact Hi.
      - rewrite list_lookup_insert_ne in Hj by exact Hne.
        apply Hne. apply Huniq; assumption. }
    split; simpl.
    + intros a b Ha _. destruct (Hnone a Ha).
    + intros a Ha. destruct (Hnone a Ha).
  - destruct (owners st !! i) as [[| |]|] eqn:Hi; try exact Hinv.
    assert (forall j, <[i := Idle]> (owners st) !! j = Some Held ->
                      owners st !! j = Some Held) as Hsame.
    { intros j Hj. destruct (decide (i = j)) as [<- | Hne].
      - rewrite list_lookup_insert_eq in Hj; [discriminate |].
        apply lookup_lt_Some in Hi. exact Hi.
      - rewrite list_lookup_insert_ne in Hj by exact Hne. exact Hj. }
    split; simpl.
    + intros a b Ha Hb. apply Huniq; apply Hsame; assumption.
    + intros a Ha. apply (Hdir a), Hsame, Ha.
Qed.

Lemma lock_run_inv es : forall st, lock_inv st -> lock_inv (lock_run st es).
Proof.
  unfold lock_run. induction es as [|e es IH]; intros st H0; simpl; [exact H0 |].
  apply IH, lock_step_inv, H0.
Qed.

(** X13. The creation lock excludes the bodies of the [with] blocks:
    however the attempts and the releases of any number of processes
    interleave, a release being taken in its two steps (the [rmdir], then
    the clearing of [acquired]), and whether or not a [mkdir] or a [rmdir]
    fails, at most one process is between the [mkdir] of its [acquire] and
    the [rmdir] of its [release], and while one is there the lock directory
    exists.  The [acquired] flags alone do not exclude: two objects that
    both have the flag set are possible, but then one of them is past the
    [rmdir] of its [release]; this happens when a process acquires between
    the [rmdir] and the clearing of the flag of another. *)
Theorem creation_lock_excludes (n : nat) (es : list lock_event) (i j : nat) :
  let st := lock_run {| dir_exists := false; owners := repeat Idle n |} es in
  (owners st !! i = Some Held -> owners st !! j = Some Held ->
   i = j /\ dir_exists st = true) /\
  (forall pi pj,
     owners st !! i = Some pi -> owners st !! j = Some pj -> i <> j ->
     acquired_flag pi = true -> acquired_flag pj = true ->
     pi = Releasing \/ pj = Releasing) /\
  owners (lock_run {| dir_exists := false; owners := repeat Idle 2 |}
                   [Attempt 0 false; Rmdir 0 false; Attempt 1 false])
  = [Releasing; Held].
Proof.
  intros st.
  assert (lock_inv st) as [Huniq Hdir].
  { apply lock_run_inv. split; simpl; intros a; intros; exfalso;
      match goal with
      | H : repeat Idle n !! _ = Some Held |- _ =>
          apply list_elem_of_lookup_2, list_elem_of_In, repeat_spec in H;
          discriminate
      end. }
  split; [| split; [| reflexivity]].
  - intros Hi Hj. split; [apply Huniq; assumption | apply (Hdir i Hi)].
  - intros pi pj Hi Hj Hne Hfi Hfj.
    destruct pi; [discriminate | | left; reflexivity].
    destruct pj; [discriminate | | right; reflexivity].
    contradiction Hne. apply Huniq; assumption.
Qed.

Lemma append_assoc (a b c : string) : (a +:+ b) +:+ c = a +:+ b +:+ c.
Proof.
  induction a as [|x a IH]; [reflexivity |].
  change (String x ((a +:+ b) +:+ c) = String x (a +:+ b +:+ c)).
  rewrite IH. reflexivity.
Qed.

Lemma append_empty_r (a : string) : a +:+ EmptyString = a.
Proof.
  induction a as [|x a IH]; [reflexivity |].
  change (String x (a +:+ EmptyString) = String x a). rewrite IH. reflexivity.
Qed.

Lemma split_last_no_slash key : forall dir cur,
  no_slash key = true -> split_last key dir cur = (dir, cur +:+ key).
Proof.
  induction key as [|c key IH]; intros dir cur H.
  - cbn [split_last]. rewrite append_empty_r. reflexivity.
  - cbn [no_slash] in H. apply andb_true_iff in H as [Hc Hk].
    apply negb_true_iff in Hc. cbn [split_last]. rewrite Hc, (IH _ _ Hk).
    rewrite append_assoc. reflexivity.
Qed.

Lemma split_last_append s key : forall dir cur,
  no_slash key = true ->
  split_last (s +:+ "/" +:+ key) dir cur = (dir +:+ cur +:+ s +:+ "/", key).
Proof.
  induction s as [|c s IH]; intros dir cur H.
  - change (EmptyString +:+ "/" +:+ key) with (String "/" key).
    cbn [split_last]. rewrite Ascii.eqb_refl.
    rewrite (split_last_no_slash key _ _ H). reflexivity.
  - change (String c s +:+ "/" +:+ key) with (String c (s +:+ "/" +:+ key)).
    cbn [split_last]. destruct (Ascii.eqb c "/") eqn:E.
    + apply Ascii.eqb_eq in E. subst c. rewrite (IH _ _ H).
      f_equal. rewrite !append_assoc. reflexivity.
    + rewrite (IH _ _ H). f_equal. rewrite !append_assoc. reflexivity.
Qed.

Lemma path_join_component root k :
  component k = true -> path_join root k = root +:+ "/" +:+ k.
Proof.
  unfold component, path_join. intros H.
  apply andb_true_iff in H as [H Hdot]. apply andb_true_iff in H as [Hs Hne].
  apply negb_true_iff in Hdot. rewrite Hne, Hdot.
  destruct k as [|c k]; [discriminate |].
  cbn [no_slash] in Hs. apply andb_true_iff in Hs as [Hc _].
  apply negb_true_iff in Hc.
  assert (startswith "/" (String c k) = false) as ->; [| reflexivity].
  cbn [startswith]. rewrite (Ascii.eqb_sym "/" c), Hc. reflexivity.
Qed.

(** X26. The creation lock of an environment is the directory
    [.lock-<name>] beside it: for an environment directory [root/<name>]
    whose name is a single path component, the lock directory is
    [root/.lock-<name>], so that environments of different names under one
    root never wait for each other's lock, and callers of one environment
    always meet on the same lock. *)
Theorem lock_path_is_sibling (root name name' : string) :
  component name = true -> component name' = true ->
  _lock_path_for_env (path_join root name)
    = path_join root (".lock-" +:+ name) /\
  (_lock_path_for_env (path_join root name')
     = _lock_path_for_env (path_join root name) <-> name' = name).
Proof.
  intros Hn Hn'.
  assert (forall k, component k = true -> no_slash k = true) as Hcomp.
  { intros k Hk. unfold component in Hk.
    apply andb_true_iff in Hk as [Hk _]. apply andb_true_iff in Hk as [Hk _].
    exact Hk. }
  assert (forall k, path_join root (".lock-" +:+ k)
                    = root +:+ "/" +:+ ".lock-" +:+ k) as Hlock
    by reflexivity.
  assert (forall k, component k = true ->
            _lock_path_for_env (path_join root k)
            = path_join root (".lock-" +:+ k)) as Hpath.
  { intros k Hk. rewrite Hlock, (path_join_component root k Hk).
    unfold _lock_path_for_env.
    rewrite (split_last_append root k EmptyString EmptyString (Hcomp k Hk)).
    change (EmptyString +:+ EmptyString +:+ root +:+ "/") with (root +:+ "/").
    rewrite !append_assoc. reflexivity. }
  split; [apply Hpath, Hn |].
  rewrite (Hpath name Hn), (Hpath name' Hn'), !Hlock. split.
  - intros H. apply String.app_inj in H. apply (String.app_inj "/") in H.
    apply (String.app_inj ".lock-") in H. exact H.
  - intros ->. reflexivity.
Qed.

End EnvsOpsFacts.

Lemma lock_path_is_sibling_witness :
  EnvsOps.component "py311-0a1b2c3d4e5f" = true /\
  Envs._lock_path_for_env (Envs.path_join "/home/u/venvs" "py311-0a1b2c3d4e5f")
    = "/home/u/venvs/.lock-py311-0a1b2c3d4e5f"%string.
Proof.
  split; [reflexivity |].
  exact (proj1 (lock_path_is_sibling "/home/u/venvs" "py311-0a1b2c3d4e5f"
                  "py311-0a1b2c3d4e5f" eq_refl eq_refl)).
Defined.

Lemma creation_lock_acquire_succeeds_witness :
  let w := {| Envs.mkdir_at := fun n => if Nat.ltb n 2 then Envs.FileExistsError
                                        else Envs.MkdirOk;
              Envs.time_at := fun n => 200 * Z.of_nat n;
              Envs.sys_executable := "/usr/bin/python3";
              Envs.python_version_id := fun _ => "py311"%string;
              Envs.venvs_root := "/home/u/.cache/pcontext/venvs";
              Envs.os_nt := false; Envs.ready_fast := false;
              Envs.ready_locked := false; Envs.venv_present := false;
              Envs.venv_rc := 0; Envs.pip_present := true;
              Envs.ensurepip_rc := 0; Envs.base_tools_rc := 0;
              Envs.pip_install_rc := 0 |} in
  Envs.mkdir_at w 2 = Envs.MkdirOk /\
  exists lk c,
    Envs.lock_acquire 10 w (Envs.new_lock "/v/.lock-k") {| Envs.attempts := 0;
                                                          Envs.readings := 0 |}
      = Some (true, lk, c) /\ Envs.attempts c = 3%nat.
Proof.
  intros w. split; [reflexivity |].
  destruct (creation_lock_acquire_succeeds 10 w "/v/.lock-k" 2)
    as (lk & c & Hrun & _ & _ & Hatt & _).
  - intros i Hi. destruct i as [|[|i]]; simpl; [discriminate | discriminate | lia].
  - intros k Hk. simpl. lia.
  - reflexivity.
  - lia.
  - exists lk, c. split; [exact Hrun | exact Hatt].
Defined.

Lemma ensure_environment_same_place_witness :
  let mk := fun (fast : bool) =>
    {| Envs.mkdir_at := fun _ => Envs.MkdirOk;
       Envs.time_at := fun n => 200 * Z.of_nat n;
       Envs.sys_executable := "/usr/bin/python3";
       Envs.python_version_id := fun _ => "py311"%string;
       Envs.venvs_root := "/home/u/.cache/pcontext/venvs";
       Envs.os_nt := false; Envs.ready_fast := fast;
       Envs.ready_locked := false; Envs.venv_present := false;
       Envs.venv_rc := 0; Envs.pip_present := true;
       Envs.ensurepip_rc := 0; Envs.base_tools_rc := 0;
       Envs.pip_install_rc := 0 |} in
  let meta := {| Envs.stable_id := "demo"; Envs.python_interpreter := None;
                 Envs.depends_pip := ["requests"]%string |} in
  exists h1 h2,
    Envs.ensure_environment 5 (mk false) meta Envs.CACHED = Some (Envs.Return h1) /\
    Envs.ensure_environment 0 (mk true) meta Envs.CACHED = Some (Envs.Return h2) /\
    Envs.path h1 = Envs.path h2 /\ Envs.created h1 = true /\
    Envs.created h2 = false.
Proof.
  intros mk meta.
  destruct (Envs.ensure_environment 5 (mk false) meta Envs.CACHED)
    as [[h1 | e] |] eqn:H1; [| vm_compute in H1; discriminate
                             | vm_compute in H1; discriminate].
  destruct (Envs.ensure_environment 0 (mk true) meta Envs.CACHED)
    as [[h2 | e] |] eqn:H2; [| vm_compute in H2; discriminate
                             | vm_compute in H2; discriminate].
  exists h1, h2. split; [reflexivity |]. split; [reflexivity |].
  destruct (ensure_environment_same_place 5 0 (mk false) (mk true) meta Envs.CACHED
              h1 h2 eq_refl eq_refl eq_refl eq_refl H1 H2)
    as (Hp & _ & _ & _ & Hc1).
  destruct (ensure_environment_same_place 0 5 (mk true) (mk false) meta Envs.CACHED
              h2 h1 eq_refl eq_refl eq_refl eq_refl H2 H1)
    as (_ & _ & _ & _ & Hc2).
  split; [exact Hp |]. split; [exact Hc1 | exact Hc2].
Defined.

Lemma creation_lock_excludes_witness :
  let es := [EnvsOps.Attempt 0 false; EnvsOps.Attempt 1 false;
             EnvsOps.Rmdir 0 false; EnvsOps.Attempt 1 false] in
  let st := EnvsOps.lock_run {| EnvsOps.dir_exists := false;
                                EnvsOps.owners := repeat EnvsOps.Idle 2 |} es in
  EnvsOps.owners st !! 0%nat = Some EnvsOps.Releasing /\
  EnvsOps.owners st !! 1%nat = Some EnvsOps.Held /\
  EnvsOps.dir_exists st = true /\
  (EnvsOps.Releasing = EnvsOps.Releasing \/ EnvsOps.Held = EnvsOps.Releasing).
Proof.
  intros es st.
  assert (EnvsOps.owners st !! 0%nat = Some EnvsOps.Releasing) as H0
    by reflexivity.
  assert (EnvsOps.owners st !! 1%nat = Some EnvsOps.Held) as H1 by reflexivity.
  split; [exact H0 |]. split; [exact H1 |].
  split; [exact (proj2 (proj1 (creation_lock_excludes 2 es 1 1) H1 H1)) |].
  apply (proj1 (proj2 (creation_lock_excludes 2 es 0 1)) _ _ H0 H1);
    [lia | reflexivity | reflexivity].
Defined.

(* ===================================================================== *)
(** ** ServiceSession: lines, slots and waits *)
(* ===================================================================== *)

Section IpcOpsFacts.
Import PyStr Ipc IpcOps.
Variable json_loads : string -> option json.
Variable py_str : json -> string.

Lemma startswith_append p : forall body, startswith p (p +:+ body) = true.
Proof.
  induction p as [|c p IH]; intros body; simpl; [reflexivity |].
  rewrite Ascii.eqb_refl. apply IH.
Qed.

Lemma startswith_split p : forall line,
  startswith p line = true -> line = p +:+ drop (String.length p) line.
Proof.
  induction p as [|c p IH]; intros line H; simpl in *; [reflexivity |].
  destruct line as [|d line]; [discriminate |].
  destruct (Ascii.eqb c d) eqn:E; [| discriminate].
  apply Ascii.eqb_eq in E. subst d.
  change (String c line = String c (p +:+ drop (String.length p) line)).
  f_equal. apply IH, H.
Qed.

Lemma drop_append p : forall body, drop (String.length p) (p +:+ body) = body.
Proof. induction p as [|c p IH]; intros body; simpl; [reflexivity | apply IH]. Qed.

(** X14. A line is a protocol line exactly when it begins with one of the
    four prefixes, each ending in a space; its payload is then what
    [json.loads] makes of the rest of the line, and the empty object when
    the rest is empty or is not JSON. *)
Theorem parse_service_line_prefix (line : string) (t : tag) (p : json) :
  (parse_service_line json_loads line = Some (t, p) <->
   exists body, line = prefix_of t +:+ body /\
                p = load_payload json_loads body) /\
  load_payload json_loads EmptyString = JObj [] /\
  (forall body, json_loads body = None -> load_payload json_loads body = JObj []).
Proof.
  split; [split |].
  - unfold parse_service_line. intros H.
    destruct (startswith "PCTX:" line); cbn [negb] in H; [| discriminate].
    destruct (startswith READY_PREFIX line) eqn:E1.
    { injection H as <- <-. eexists. split; [| reflexivity].
      apply (startswith_split READY_PREFIX), E1. }
    destruct (startswith RESP_PREFIX line) eqn:E2.
    { injection H as <- <-. eexists. split; [| reflexivity].
      apply (startswith_split RESP_PREFIX), E2. }
    destruct (startswith EXC_PREFIX line) eqn:E3.
    { injection H as <- <-. eexists. split; [| reflexivity].
      apply (startswith_split EXC_PREFIX), E3. }
    destruct (startswith BYE_PREFIX line) eqn:E4; [| discriminate].
    injection H as <- <-. eexists. split; [| reflexivity].
    apply (startswith_split BYE_PREFIX), E4.
  - intros (body & -> & ->). destruct t; reflexivity.
  - split; [reflexivity |]. intros body H. unfold load_payload.
    rewrite H. destruct (nonempty body); reflexivity.
Qed.

Lemma pending_get_Some s rid k sl :
  pending_get s rid = inr (Some (k, sl)) ->
  rid = JStr k /\ k ∈ _pending s /\ slots s !! k = Some sl.
Proof.
  unfold pending_get.
  destruct rid as [| | | |k'| |]; simpl; try discriminate.
  destruct (decide (k' ∈ _pending s)) as [Hin|]; [| discriminate].
  destruct (slots s !! k') as [sl'|] eqn:E; [| discriminate].
  intros [= <- <-]. auto.
Qed.

Lemma payload_get_req_id payload k :
  payload_get payload "req_id" JNull = inr (JStr k) ->
  exists fields, payload = JObj fields /\ obj_get fields "req_id" = Some (JStr k).
Proof.
  unfold payload_get. destruct payload as [| | | | | |fields]; try discriminate.
  destruct (obj_get fields "req_id") as [v|] eqn:E; [| discriminate].
  intros [= ->]. exists fields. split; [reflexivity | exact E].
Qed.

(** What the handling of one line may change: the table never; the slots
    at most by storing, in the slot of a registered identifier the line
    carries, a response with that identifier; an event is never cleared;
    the readiness information only by a [READY] or an [EXC] line. *)
Lemma dispatch_cases s t p :
  let s' := fst (dispatch py_str s t p) in
  _pending s' = _pending s /\
  (slots s' = slots s \/
   exists k sl r fields,
     (t = RESP \/ t = EXC) /\ p = JObj fields /\
     obj_get fields "req_id" = Some (JStr k) /\ k ∈ _pending s /\
     slots s !! k = Some sl /\ req_id r = JStr k /\
     slots s' = <[k := {| evt := true; resp := Some r;
                          slot_req_id := slot_req_id sl |}]> (slots s)) /\
  (_ready_evt s = true -> _ready_evt s' = true) /\
  (_bye_evt s = true -> _bye_evt s' = true) /\
  (t = RESP \/ t = BYE ->
   _ready_info s' = _ready_info s /\ _ready_evt s' = _ready_evt s).
Proof.
  assert (forall (o : option exn), let s' := fst (s, o) in
            _pending s' = _pending s /\
            (slots s' = slots s \/
             exists k sl r fields,
               (t = RESP \/ t = EXC) /\ p = JObj fields /\
               obj_get fields "req_id" = Some (JStr k) /\ k ∈ _pending s /\
               slots s !! k = Some sl /\ req_id r = JStr k /\
               slots s' = <[k := {| evt := true; resp := Some r;
                                    slot_req_id := slot_req_id sl |}]> (slots s)) /\
            (_ready_evt s = true -> _ready_evt s' = true) /\
            (_bye_evt s = true -> _bye_evt s' = true) /\
            (t = RESP \/ t = BYE ->
             _ready_info s' = _ready_info s /\ _ready_evt s' = _ready_evt s))
    as Hsame.
  { intros o. simpl. split_and!; auto. }
  destruct t; cbn [dispatch].
  - destruct (payload_get p "ok" (JBool true)); [apply Hsame |].
    destruct (payload_get p "entry" JNull); [apply Hsame |].
    simpl. split_and!; auto. intros [H | H]; discriminate.
  - destruct (payload_get p "req_id" JNull) as [e | rid] eqn:Hrid; [apply Hsame |].
    destruct (pending_get s rid) as [e | [[k sl]|]] eqn:Hget;
      [apply Hsame | | apply Hsame].
    destruct (payload_get p "result" JNull) as [e | res]; [apply Hsame |].
    apply pending_get_Some in Hget as (-> & Hin & Hsl).
    apply payload_get_req_id in Hrid as (fields & -> & Hf).
    simpl. split_and!; auto.
    right. eexists k, sl, _, fields. split_and!; eauto; reflexivity.
  - destruct (payload_get p "req_id" JNull) as [e | rid] eqn:Hrid; [apply Hsame |].
    cbv zeta. destruct (truthy rid).
    + destruct (pending_get s rid) as [e | [[k sl]|]] eqn:Hget;
        [apply Hsame | | apply Hsame].
      apply pending_get_Some in Hget as (-> & Hin & Hsl).
      apply payload_get_req_id in Hrid as (fields & -> & Hf).
      simpl. split_and!; auto.
      right. eexists k, sl, _, fields. split_and!; eauto; reflexivity.
    + destruct (_ready_evt s) eqn:Hr; simpl;
        [rewrite Hr; split_and!; auto | split_and!; auto];
        intros [H | H]; discriminate.
  - destruct (payload_get p "ok" (JBool true)); [apply Hsame |].
    destruct (payload_get p "reason" JNull); [apply Hsame |].
    simpl. split_and!; auto.
Qed.

(** The same for one iteration of the reader on a raw line. *)
Lemma reader_step_cases s raw :
  let s1 := fst (reader_step json_loads py_str s raw) in
  _pending s1 = _pending s /\
  (forall k, carries json_loads k raw = false -> slots s1 !! k = slots s !! k) /\
  (forall k sl, slots s !! k = Some sl ->
     exists sl', slots s1 !! k = Some sl' /\
                 slot_req_id sl' = slot_req_id sl /\
                 (evt sl = true -> evt sl' = true) /\
                 (forall r, resp sl' = Some r ->
                            resp sl = Some r \/ req_id r = JStr k)) /\
  (_ready_evt s = true -> _ready_evt s1 = true) /\
  (_bye_evt s = true -> _bye_evt s1 = true) /\
  (announces json_loads raw = false ->
   _ready_info s1 = _ready_info s /\ _ready_evt s1 = _ready_evt s).
Proof.
  unfold reader_step, carries, announces.
  destruct (parse_service_line json_loads (rstrip_crlf raw)) as [[t p]|].
  - destruct (dispatch_cases s t p) as (Hp & Hs & Hr & Hb & Hi).
    cbv zeta. split_and!; auto.
    + intros k Hc.
      destruct Hs as [-> | (k0 & sl & r & fields & Ht & -> & Hf & _ & _ & _ & ->)];
        [reflexivity |].
      destruct (decide (k0 = k)) as [-> | Hne].
      * exfalso. rewrite Hf, String.eqb_refl in Hc.
        destruct Ht as [-> | ->]; discriminate.
      * apply lookup_insert_ne, Hne.
    + intros k sl0 Hk.
      destruct Hs as [-> | (k0 & sl & r & fields & _ & _ & _ & _ & Hsl & Hreq & ->)].
      * exists sl0. split_and!; auto.
      * destruct (decide (k0 = k)) as [-> | Hne].
        -- rewrite lookup_insert_eq. eexists. split; [reflexivity |].
           simpl. rewrite Hk in Hsl. injection Hsl as ->.
           split_and!; auto. intros r0 [= <-]. right. exact Hreq.
        -- rewrite lookup_insert_ne by exact Hne. exists sl0. split_and!; auto.
    + intros Ha. apply Hi. destruct t; auto; discriminate.
  - simpl. split_and!; auto. intros k sl H. exists sl. split_and!; auto.
Qed.

(** The same for a run of the reader over any lines. *)
Lemma reader_lines_cases lines : forall s,
  let s' := fst (reader_lines json_loads py_str s lines) in
  _pending s' = _pending s /\
  (forall k, existsb (carries json_loads k) lines = false ->
             slots s' !! k = slots s !! k) /\
  (forall k sl, slots s !! k = Some sl ->
     exists sl', slots s' !! k = Some sl' /\
                 slot_req_id sl' = slot_req_id sl /\
                 (evt sl = true -> evt sl' = true) /\
                 (forall r, resp sl' = Some r ->
                            resp sl = Some r \/ req_id r = JStr k)) /\
  (_ready_evt s = true -> _ready_evt s' = true) /\
  (_bye_evt s = true -> _bye_evt s' = true) /\
  (existsb (announces json_loads) lines = false ->
   _ready_info s' = _ready_info s /\ _ready_evt s' = _ready_evt s).
Proof.
  induction lines as [|raw lines IH]; intros s; cbn [reader_lines].
  - simpl. split_and!; auto. intros k sl H. exists sl. split_and!; auto.
  - pose proof (reader_step_cases s raw) as Hstep.
    cbv zeta in Hstep. destruct Hstep as (Hp & Hs & Hk & Hr & Hb & Hi).
    destruct (reader_step json_loads py_str s raw) as [s1 [e|]] eqn:Hrs;
      cbn [fst] in *.
    + split_and!; auto.
      * intros k Hc. cbn [existsb] in Hc. apply orb_false_iff in Hc as [Hc _].
        apply Hs, Hc.
      * intros Ha. cbn [existsb] in Ha. apply orb_false_iff in Ha as [Ha _].
        apply Hi, Ha.
    + destruct (IH s1) as (Hp' & Hs' & Hk' & Hr' & Hb' & Hi'). cbv zeta in *.
      split_and!.
      * congruence.
      * intros k Hc. cbn [existsb] in Hc. apply orb_false_iff in Hc as [Hc1 Hc2].
        rewrite (Hs' k Hc2). apply Hs, Hc1.
      * intros k sl Hsl. destruct (Hk k sl Hsl) as (sl1 & H1 & Hid1 & He1 & Hr1).
        destruct (Hk' k sl1 H1) as (sl2 & H2 & Hid2 & He2 & Hr2).
        exists sl2. split_and!; auto; [congruence |].
        intros r Hres. destruct (Hr2 r Hres) as [H | H]; auto.
      * auto.
      * auto.
      * intros Ha. cbn [existsb] in Ha. apply orb_false_iff in Ha as [Ha1 Ha2].
        destruct (Hi Ha1), (Hi' Ha2). split; congruence.
Qed.

Lemma on_finally_pending s : _pending (on_finally s) = _pending s.
Proof. reflexivity. Qed.

Lemma on_exception_pending s : _pending (on_exception s) = _pending s.
Proof. reflexivity. Qed.

(** The state the loop leaves, from the state after the last line. *)
Lemma reader_loop_end s lines e :
  let s1 := fst (reader_lines json_loads py_str s lines) in
  let s' := _reader_loop json_loads py_str s lines e in
  _pending s' = _pending s1 /\ _ready_evt s' = true /\ _bye_evt s' = true /\
  _ready_info s' = _ready_info s1 /\
  forall k, slots s' !! k =
            match slots s1 !! k with
            | Some sl =>
                Some (if decide (k ∈ _pending s1)
                      then {| evt := true; resp := resp sl;
                              slot_req_id := slot_req_id sl |}
                      else sl)
            | None => None
            end.
Proof.
  intros s1 s'. subst s1 s'. unfold _reader_loop.
  assert (forall s0 k, slots (on_finally s0) !! k =
            match slots s0 !! k with
            | Some sl =>
                Some (if decide (k ∈ _pending s0)
                      then {| evt := true; resp := resp sl;
                              slot_req_id := slot_req_id sl |}
                      else sl)
            | None => None
            end) as Hfin.
  { intros s0 k. unfold on_finally, with_slots; simpl.
    rewrite map_lookup_imap. destruct (slots s0 !! k); reflexivity. }
  destruct (reader_lines json_loads py_str s lines) as [s1 [ex|]]; cbn [fst].
  - split_and!; try reflexivity. intros k.
    rewrite Hfin, on_exception_slots. reflexivity.
  - destruct e; split_and!; try reflexivity; intros k;
      rewrite Hfin, ?on_exception_slots; reflexivity.
Qed.

(** X15. No cross-talk: a response is stored in the slot of an identifier
    only by a response or exception line whose body carries that very
    identifier.  When the lines read carry other identifiers or none
    (malformed lines and lines that make the reader fail among them), the
    slot is as it was for as long as the reader loop runs, and no line
    adds or removes an entry of the table.  When the loop ends, by a line
    that made it fail, the end of the stream, a read error or a stop, the
    slot still has the response it had, but the [finally] block sets its
    event if the identifier is in the table: the waiter is woken without a
    response. *)
Theorem reader_no_cross_talk (s : ServiceSession) (lines : list string)
        (k : string) (e : stream_end) :
  existsb (carries json_loads k) lines = false ->
  let s1 := fst (reader_lines json_loads py_str s lines) in
  let s' := _reader_loop json_loads py_str s lines e in
  (slots s1 !! k = slots s !! k /\ _pending s1 = _pending s) /\
  _pending s' = _pending s /\
  (slots s !! k = None -> slots s' !! k = None) /\
  (forall sl, slots s !! k = Some sl ->
     exists sl',
       slots s' !! k = Some sl' /\
       resp sl' = resp sl /\ slot_req_id sl' = slot_req_id sl /\
       evt sl' = if decide (k ∈ _pending s) then true else evt sl).
Proof.
  intros Hc s1 s'.
  destruct (reader_lines_cases lines s) as (Hp & Hs & _).
  specialize (Hs k Hc). cbv zeta in Hp, Hs. fold s1 in Hp, Hs.
  destruct (reader_loop_end s lines e) as (Hp' & _ & _ & _ & Hsl).
  cbv zeta in Hp', Hsl. fold s1 in Hp', Hsl. fold s' in Hp', Hsl.
  split; [split; [exact Hs | exact Hp] |].
  split; [congruence |].
  split.
  - intros Hnone. rewrite Hsl, Hs, Hnone. reflexivity.
  - intros sl Hk. rewrite Hsl, Hs, Hk, Hp. eexists. split; [reflexivity |].
    destruct (decide (k ∈ _pending s)); split_and!; reflexivity.
Qed.

(** X16. Once the reader loop is over, however it ended and whatever it
    read, [wait_ready] returns at once, even without a timeout, with the
    readiness information the session holds, and [shutdown] answers
    whether its write succeeded, whether or not the worker said goodbye.
    If no readiness or exception line was among the lines read, that
    information is what the session held before, so [wait_ready] returns
    [None] for a worker that died before announcing itself. *)
Theorem wait_ready_after_reader_end (s : ServiceSession) (lines : list string)
        (e : stream_end) (timeout : option Z) (send_ok : bool) :
  let s' := _reader_loop json_loads py_str s lines e in
  wait_ready s' timeout = Return (_ready_info s') /\
  shutdown s' send_ok timeout = Return send_ok /\
  (existsb (announces json_loads) lines = false ->
   _ready_info s' = _ready_info s /\
   wait_ready s' timeout = Return (_ready_info s)).
Proof.
  intros s'.
  destruct (reader_loop_end s lines e) as (_ & Hr & Hb & Hi & _).
  destruct (reader_lines_cases lines s) as (_ & _ & _ & _ & _ & Hinfo).
  fold s' in Hr, Hb, Hi.
  unfold wait_ready, shutdown, event_wait. rewrite Hr, Hb.
  split; [reflexivity |]. split; [destruct send_ok; reflexivity |].
  intros Ha. destruct (Hinfo Ha) as [Hinfo' _].
  rewrite Hi, Hinfo'. split; reflexivity.
Qed.

Lemma pop_register_fresh (P : gset string) (rid : string) :
  rid ∉ P -> ({[ rid ]} ∪ P) ∖ {[ rid ]} = P.
Proof.
  intros H. apply set_eq. intros x.
  rewrite elem_of_difference, elem_of_union, elem_of_singleton. split.
  - intros [[-> | Hx] Hn]; [destruct Hn; reflexivity | exact Hx].
  - intros Hx. split; [right; exact Hx | intros ->; contradiction].
Qed.

(** X17. A request gets its own response or none.  After the request is
    registered and written, let the reader handle any lines and, possibly,
    end: with a timeout the request then returns a response or raises
    [IPCError], never anything else; a response it returns carries the
    identifier of this request; and in both cases its entry is gone from
    the table, the other entries being as before.  A request whose write
    fails raises [IPCError] and leaves the table as it found it. *)
Theorem request_own_response (s : ServiceSession) (rid : string)
        (lines : list string) (e : option stream_end) (t : Z) :
  rid ∉ _pending s ->
  let s1 := fst (request_begin s rid true) in
  let s2 := match e with
            | None => fst (reader_lines json_loads py_str s1 lines)
            | Some e' => _reader_loop json_loads py_str s1 lines e'
            end in
  let '(s3, out) := request_end s2 rid (Some t) in
  _pending s3 = _pending s /\
  ((exists r, out = Return r /\ req_id r = JStr rid) \/
   out = Raise (IPCError "timeout")) /\
  exists msg, request_begin s rid false
              = (with_pending (register s rid) (_pending s), Raise (IPCError msg)).
Proof.
  intros Hfresh s1 s2.
  assert (_pending s1 = {[ rid ]} ∪ _pending s) as Hp1 by reflexivity.
  assert (slots s1 !! rid
          = Some {| evt := false; resp := None; slot_req_id := rid |}) as Hs1.
  { unfold s1, request_begin, register. simpl. apply lookup_insert_eq. }
  destruct (reader_lines_cases lines s1) as (Hp & _ & Hk & _).
  destruct (Hk rid _ Hs1) as (sl & Hsl & _ & _ & Hresp).
  cbv zeta in Hp.
  assert (_pending s2 = {[ rid ]} ∪ _pending s /\
          exists sl2, slots s2 !! rid = Some sl2 /\
                      forall r, resp sl2 = Some r -> req_id r = JStr rid)
    as (Hp2 & sl2 & Hsl2 & Hresp2).
  { subst s2. destruct e as [e'|].
    - destruct (reader_loop_end s1 lines e') as (Hpe & _ & _ & _ & Hse).
      split; [congruence |]. rewrite (Hse rid), Hsl.
      eexists. split; [reflexivity |].
      intros r Hr. destruct (decide _); simpl in Hr;
        destruct (Hresp r Hr) as [H | H]; (discriminate || exact H).
    - split; [congruence |]. exists sl. split; [exact Hsl |].
      intros r Hr. destruct (Hresp r Hr) as [H | H]; [discriminate | exact H]. }
  assert (_pending s2 ∖ {[ rid ]} = _pending s) as Hpop
    by (rewrite Hp2; apply pop_register_fresh, Hfresh).
  unfold request_end. rewrite Hsl2. unfold wait.
  assert (exists msg, request_begin s rid false
            = (with_pending (register s rid) (_pending s), Raise (IPCError msg)))
    as Hfail.
  { eexists. unfold request_begin, pop. do 2 f_equal.
    change (_pending (register s rid)) with ({[ rid ]} ∪ _pending s).
    apply pop_register_fresh, Hfresh. }
  destruct (evt sl2); [destruct (resp sl2) as [r|] eqn:Hr |]; simpl;
    (split; [exact Hpop |]); (split; [| exact Hfail]).
  - left. exists r. split; [reflexivity | apply Hresp2; reflexivity].
  - right. reflexivity.
  - right. reflexivity.
Qed.

End IpcOpsFacts.

Lemma reader_no_cross_talk_witness :
  let loads := fun raw : string =>
    if String.eqb raw "b" then Some (Ipc.JObj [("req_id", Ipc.JStr "b")]%string)
    else None in
  let s := Ipc.register (Ipc.register Ipc.new_session "a") "b" in
  let lines := ["PCTX:RESP b"; "noise"; "PCTX:RESP"]%string in
  existsb (IpcOps.carries loads "a") lines = false /\
  Ipc.slots (fst (Ipc.reader_lines loads (fun _ => EmptyString) s lines)) !! "a"%string
    = Some {| Ipc.evt := false; Ipc.resp := None; Ipc.slot_req_id := "a" |} /\
  exists sl',
    Ipc.slots (Ipc._reader_loop loads (fun _ => EmptyString) s lines Ipc.Eof)
      !! "a"%string = Some sl' /\
    Ipc.resp sl' = None /\ Ipc.evt sl' = true.
Proof.
  intros loads s lines. split; [reflexivity |].
  destruct (reader_no_cross_talk loads (fun _ => EmptyString) s lines "a" Ipc.Eof
              eq_refl) as ([Hrun _] & _ & _ & Hend).
  split; [rewrite Hrun; reflexivity |].
  destruct (Hend {| Ipc.evt := false; Ipc.resp := None; Ipc.slot_req_id := "a" |})
    as (sl' & Hsl & Hresp & _ & Hevt); [reflexivity |].
  exists sl'. split; [exact Hsl |]. split; [exact Hresp |].
  rewrite Hevt. apply decide_True. vm_compute. reflexivity.
Defined.

Lemma wait_ready_after_reader_end_witness :
  let lines := ["Traceback (most recent call last):"; "PCTX:BYE "]%string in
  existsb (IpcOps.announces (fun _ => None)) lines = false /\
  IpcOps.wait_ready
    (Ipc._reader_loop (fun _ => None) (fun _ => EmptyString) Ipc.new_session
                      lines Ipc.Eof) None
  = Ipc.Return None.
Proof.
  intros lines. split; [reflexivity |].
  exact (proj2 (proj2 (proj2 (wait_ready_after_reader_end
                                (fun _ => None) (fun _ => EmptyString)
                                Ipc.new_session lines Ipc.Eof None true))
                  eq_refl)).
Defined.

Lemma request_own_response_witness :
  let loads := fun raw : string =>
    if String.eqb raw "a"
    then Some (Ipc.JObj [("req_id", Ipc.JStr "a"); ("result", Ipc.JInt 7)]%string)
    else None in
  ("a"%string ∉ Ipc._pending Ipc.new_session) /\
  let s1 := fst (Ipc.request_begin Ipc.new_session "a" true) in
  let s2 := fst (Ipc.reader_lines loads (fun _ => EmptyString) s1
                   ["PCTX:RESP a"%string]) in
  Ipc._pending (fst (Ipc.request_end s2 "a" (Some 5000))) = ∅.
Proof.
  intros loads.
  assert ("a"%string ∉ Ipc._pending Ipc.new_session) as Hfresh
    by (unfold Ipc.new_session; simpl; apply not_elem_of_empty).
  split; [exact Hfresh |]. intros s1 s2.
  pose proof (request_own_response loads (fun _ => EmptyString) Ipc.new_session "a"
                ["PCTX:RESP a"%string] None 5000 Hfresh) as H.
  cbv zeta in H. fold s1 in H. fold s2 in H.
  destruct (Ipc.request_end s2 "a" (Some 5000)) as [s3 out].
  exact (proj1 H).
Defined.

(* ===================================================================== *)
(** ** ServiceManager: what every sequence of calls keeps *)
(* ===================================================================== *)

Section ServicesOpsFacts.
Import Services ServicesOps.

Lemma kill_lookup pid (ps : gmap nat Proc) q :
  kill pid ps !! q =
  match ps !! q with
  | Some p => Some (if decide (q = pid)
                    then {| p_sid := p_sid p; p_alive := false;
                            p_served := p_served p |}
                    else p)
  | None => None
  end.
Proof.
  unfold kill. destruct (decide (q = pid)) as [-> | Hne].
  - destruct (ps !! pid) as [p|] eqn:E; [| rewrite E; reflexivity].
    rewrite lookup_insert_eq. reflexivity.
  - destruct (ps !! pid) as [p|] eqn:E.
    + rewrite lookup_insert_ne by congruence. destruct (ps !! q); reflexivity.
    + destruct (ps !! q); reflexivity.
Qed.

Lemma tidy_new pl : tidy (new_manager pl).
Proof.
  split_and!; simpl.
  - intros sid h H. rewrite lookup_empty in H. discriminate.
  - intros pid [p H]. rewrite lookup_empty in H. discriminate.
  - intros pid p H. rewrite lookup_empty in H. discriminate.
Qed.

Lemma tidy_same m m' :
  _services m' = _services m -> handles m' = handles m -> procs m' = procs m ->
  next_id m' = next_id m -> tidy m -> tidy m'.
Proof.
  intros Hs Hh Hp Hn (H1 & H2 & H3). unfold tidy.
  rewrite Hs, Hh, Hp, Hn. auto.
Qed.

Lemma tidy_crash m pid : tidy m -> tidy (crash m pid).
Proof.
  intros (H1 & H2 & H3). unfold crash. split_and!; simpl.
  - intros sid h Hl. destruct (H1 sid h Hl) as (hd & p & Hhd & Hid & Hpr & Hsd & Hp & Hps).
    rewrite kill_lookup, Hp. eexists hd, _. split_and!; eauto.
    destruct (decide (h = pid)); [simpl |]; exact Hps.
  - intros q Hq. apply H2. eapply kill_is_Some, Hq.
  - intros q p. rewrite kill_lookup.
    destruct (procs m !! q) as [p0|] eqn:E; [| discriminate].
    destruct (decide (q = pid)); intros [= <-]; simpl; [discriminate |].
    apply H3, E.
Qed.

(** Stopping the handle the table names for [sid]. *)
Lemma stop_registered m sid h :
  tidy m -> _services m !! sid = Some h ->
  let m' := fst (_stop_handle m h) in
  snd (_stop_handle m h) = true /\
  tidy m' /\
  _services m' = delete sid (_services m) /\
  (forall q, procs m' !! q = kill h (procs m) !! q) /\
  (forall q, q <> h -> handles m' !! q = handles m !! q) /\
  next_id m' = next_id m /\ now m' = now m.
Proof.
  intros (H1 & H2 & H3) Hl.
  destruct (H1 sid h Hl) as (hd & p & Hhd & Hid & Hpr & Hsd & Hp & Hps).
  unfold _stop_handle. rewrite Hhd, Hsd. cbn [fst snd]. rewrite Hid, Hpr.
  split; [reflexivity |]. split; [| simpl; split_and!; auto].
  - split_and!; simpl.
    + intros sid' h' Hl'. apply lookup_delete_Some in Hl' as [Hne Hl'].
      destruct (H1 sid' h' Hl') as (hd' & p' & Hhd' & Hid' & Hpr' & Hsd' & Hp' & Hps').
      assert (h' <> h) as Hh by (intros ->; congruence).
      rewrite lookup_insert_ne by congruence.
      rewrite kill_lookup, Hp'. rewrite decide_False by exact Hh.
      exists hd', p'. split_and!; auto.
    + intros q Hq. apply H2. eapply kill_is_Some, Hq.
    + intros q p0. rewrite kill_lookup.
      destruct (procs m !! q) as [p1|] eqn:E; [| discriminate].
      destruct (decide (q = h)); intros [= <-]; simpl; [discriminate |].
      intros Ha. pose proof (H3 q p1 E Ha) as Hreg.
      rewrite lookup_delete_ne; [exact Hreg |].
      intros Heq. rewrite <- Heq in Hreg. congruence.
  - intros q Hq. apply lookup_insert_ne. congruence.
Qed.

(** Starting a service that has no running registered worker. *)
Lemma start_service_tidy m sid :
  tidy m -> lookup_live m sid = None ->
  let m' := fst (_start_service m sid) in
  tidy m' /\
  (forall h, snd (_start_service m sid) = Return h ->
             _services m' !! sid = Some h /\ is_alive m' h = true) /\
  (forall sid', sid' <> sid -> _services m' !! sid' = _services m !! sid') /\
  (forall q, (q < next_id m)%nat -> procs m' !! q = procs m !! q) /\
  now m' = now m.
Proof.
  intros (H1 & H2 & H3) Hdead.
  assert (procs m !! next_id m = None) as Hfresh.
  { destruct (procs m !! next_id m) eqn:E; [| reflexivity].
    assert (next_id m < next_id m)%nat by (apply H2; eauto). lia. }
  assert (forall sid' h, _services m !! sid' = Some h -> h <> next_id m) as Hlt.
  { intros sid' h Hl. destruct (H1 sid' h Hl) as (_ & p & _ & _ & _ & _ & Hp & _).
    assert (h < next_id m)%nat by (apply H2; eauto). lia. }
  assert (forall q p, procs m !! q = Some p -> p_alive p = true -> p_sid p <> sid)
    as Hnone.
  { intros q p Hq Ha Hs. pose proof (H3 q p Hq Ha) as Hreg. rewrite Hs in Hreg.
    unfold lookup_live, is_alive in Hdead. rewrite Hreg, Hq, Ha in Hdead.
    discriminate. }
  unfold _start_service, spawn.
  destruct (b_env_ok (plan m (next_id m))).
  - unfold handshake. cbn [plan upd].
    destruct (b_ready (plan m (next_id m))); cbn [fst snd].
    + split_and!.
      * split_and!; simpl.
        -- intros sid' h Hl. destruct (decide (sid' = sid)) as [-> | Hne].
           ++ rewrite lookup_insert_eq in Hl. injection Hl as <-.
              rewrite !lookup_insert_eq. eexists _, _. split_and!; reflexivity.
           ++ rewrite lookup_insert_ne in Hl by congruence.
              destruct (H1 sid' h Hl) as (hd & p & Hhd & Hid & Hpr & Hsd & Hp & Hps).
              pose proof (Hlt sid' h Hl) as Hh.
              rewrite !lookup_insert_ne by congruence.
              exists hd, p. split_and!; auto.
        -- intros q Hq. destruct (decide (q = next_id m)) as [-> | Hne]; [lia |].
           rewrite lookup_insert_ne in Hq by congruence.
           apply H2 in Hq. lia.
        -- intros q p Hq Ha. destruct (decide (q = next_id m)) as [-> | Hne].
           ++ rewrite lookup_insert_eq in Hq. injection Hq as <-. simpl.
              apply lookup_insert_eq.
           ++ rewrite lookup_insert_ne in Hq by congruence.
              rewrite lookup_insert_ne by (apply not_eq_sym, (Hnone q p Hq Ha)).
              apply H3; assumption.
      * intros h [= <-]. simpl. split; [apply lookup_insert_eq |].
        unfold is_alive. simpl. rewrite lookup_insert_eq. reflexivity.
      * intros sid' Hne. simpl. apply lookup_insert_ne. congruence.
      * intros q Hq. simpl. apply lookup_insert_ne. lia.
      * reflexivity.
    + split_and!.
      * split_and!; simpl.
        -- intros sid' h Hl.
           destruct (H1 sid' h Hl) as (hd & p & Hhd & Hid & Hpr & Hsd & Hp & Hps).
           pose proof (Hlt sid' h Hl) as Hh.
           rewrite kill_lookup, lookup_insert_ne by congruence. rewrite Hp.
           rewrite decide_False by exact Hh. exists hd, p. split_and!; auto.
        -- intros q Hq. apply kill_is_Some in Hq.
           destruct (decide (q = next_id m)) as [-> | Hne]; [lia |].
           rewrite lookup_insert_ne in Hq by congruence.
           apply H2 in Hq. lia.
        -- intros q p. rewrite kill_lookup.
           destruct (decide (q = next_id m)) as [-> | Hne].
           ++ rewrite lookup_insert_eq. intros [= <-]. simpl. discriminate.
           ++ rewrite lookup_insert_ne by congruence.
              destruct (procs m !! q) as [p1|] eqn:E; [| discriminate].
              intros [= <-]. apply H3, E.
      * intros h. discriminate.
      * intros sid' Hne. reflexivity.
      * intros q Hq. simpl. rewrite kill_lookup, lookup_insert_ne by lia.
        destruct (procs m !! q); [| reflexivity].
        rewrite decide_False by lia. reflexivity.
      * reflexivity.
  - cbn [fst snd]. split_and!.
    + split_and!; simpl; auto. intros q Hq. apply H2 in Hq. lia.
    + intros h. discriminate.
    + reflexivity.
    + reflexivity.
    + reflexivity.
Qed.

Lemma lookup_live_Some m sid h :
  lookup_live m sid = Some h <->
  _services m !! sid = Some h /\ is_alive m h = true.
Proof.
  unfold lookup_live. destruct (_services m !! sid) as [h'|]; [| split; [discriminate | intros [H _]; discriminate]].
  destruct (is_alive m h') eqn:E; split.
  - intros [= <-]. auto.
  - intros [[= <-] _]. reflexivity.
  - discriminate.
  - intros [[= <-] Ha]. congruence.
Qed.

Lemma get_or_start_tidy m sid :
  tidy m ->
  let m' := fst (get_or_start m sid) in
  tidy m' /\
  (forall h, snd (get_or_start m sid) = Return h -> lookup_live m' sid = Some h) /\
  (forall d h, lookup_live m d = Some h -> lookup_live m' d = Some h) /\
  now m' = now m.
Proof.
  intros Ht. unfold get_or_start.
  destruct (lookup_live m sid) as [h|] eqn:Hl; cbn [fst snd].
  - split_and!; auto. intros h' [= <-]. exact Hl.
  - destruct (start_service_tidy m sid Ht Hl) as (Ht' & Hret & Hother & Hprocs & Hnow).
    cbv zeta in *. split_and!; auto.
    + intros h Hr. apply lookup_live_Some, Hret, Hr.
    + intros d h Hd. apply lookup_live_Some in Hd as [Hd Ha].
      assert (d <> sid) as Hne.
      { intros ->. assert (lookup_live m sid = Some h) as Hc
          by (apply lookup_live_Some; auto). congruence. }
      apply lookup_live_Some. split; [rewrite Hother by exact Hne; exact Hd |].
      destruct Ht as (H1 & H2 & _).
      destruct (H1 d h Hd) as (_ & p & _ & _ & _ & _ & Hp & _).
      unfold is_alive in *. rewrite Hprocs; [exact Ha |]. apply H2. eauto.
Qed.

Lemma session_request_tidy m h :
  tidy m ->
  let m' := fst (session_request m h) in
  tidy m' /\ _services m' = _services m /\ handles m' = handles m /\
  next_id m' = next_id m /\ now m' = now m /\
  (forall q, is_alive m' q = is_alive m q).
Proof.
  intros (H1 & H2 & H3). unfold session_request.
  destruct (procs m !! h) as [p|] eqn:Hp.
  - assert (forall (o : outcome answer),
              let m' := fst (upd m (_services m) (handles m)
                               (<[h := {| p_sid := p_sid p; p_alive := p_alive p;
                                          p_served := S (p_served p) |}]> (procs m))
                               (next_id m) [ActRequest h], o) in
              tidy m' /\ _services m' = _services m /\ handles m' = handles m /\
              next_id m' = next_id m /\ now m' = now m /\
              (forall q, is_alive m' q = is_alive m q)) as Hgoal.
    { intros o. cbn [fst]. split_and!; try reflexivity.
      - split_and!; simpl.
        + intros sid h' Hl.
          destruct (H1 sid h' Hl) as (hd & p' & Hhd & Hid & Hpr & Hsd & Hp' & Hps).
          destruct (decide (h' = h)) as [-> | Hne].
          * rewrite lookup_insert_eq. eexists hd, _. split_and!; eauto.
            simpl. congruence.
          * rewrite lookup_insert_ne by congruence. exists hd, p'. split_and!; auto.
        + intros q Hq. apply H2. destruct (decide (q = h)) as [-> | Hne]; [eauto |].
          rewrite lookup_insert_ne in Hq by congruence. exact Hq.
        + intros q p0 Hq Ha. destruct (decide (q = h)) as [-> | Hne].
          * rewrite lookup_insert_eq in Hq. injection Hq as <-. simpl in *.
            apply H3; assumption.
          * rewrite lookup_insert_ne in Hq by congruence. apply H3; assumption.
      - intros q. unfold is_alive. simpl.
        destruct (decide (q = h)) as [-> | Hne].
        + rewrite lookup_insert_eq, Hp. reflexivity.
        + rewrite lookup_insert_ne by congruence. reflexivity. }
    destruct (p_alive p); [| apply Hgoal].
    destruct (b_answer (plan m h) (p_served p)); apply Hgoal.
  - cbn [fst]. split_and!; try reflexivity.
    split_and!; simpl; auto.
Qed.

Lemma touch_tidy m h :
  tidy m ->
  tidy (touch m h) /\ _services (touch m h) = _services m /\
  procs (touch m h) = procs m /\ now (touch m h) = now m.
Proof.
  intros (H1 & H2 & H3). unfold touch.
  destruct (handles m !! h) as [hd|] eqn:Hh; [| split_and!; auto; split_and!; auto].
  split_and!; try reflexivity. split_and!; simpl; auto.
  intros sid h' Hl.
  destruct (H1 sid h' Hl) as (hd' & p' & Hhd & Hid & Hpr & Hsd & Hp' & Hps).
  destruct (decide (h' = h)) as [-> | Hne].
  - rewrite lookup_insert_eq. rewrite Hh in Hhd. injection Hhd as ->.
    eexists _, p'. split_and!; eauto.
  - rewrite lookup_insert_ne by congruence. exists hd', p'. split_and!; auto.
Qed.

Lemma ensure_dependencies_tidy deps : forall m,
  tidy m ->
  let m' := fst (ensure_dependencies m deps) in
  tidy m' /\ now m' = now m /\
  (forall d h, lookup_live m d = Some h -> lookup_live m' d = Some h) /\
  (snd (ensure_dependencies m deps) = Return tt ->
   forall d, d ∈ deps -> is_Some (lookup_live m' d)).
Proof.
  induction deps as [|sid deps IH]; intros m Ht; cbn [ensure_dependencies].
  - cbn [fst snd]. split_and!; auto. intros _ d Hd. inversion Hd.
  - destruct (get_or_start_tidy m sid Ht) as (Ht1 & Hret & Hkeep & Hnow).
    cbv zeta in *.
    destruct (get_or_start m sid) as [m1 [h|e]] eqn:Hg; cbn [fst snd] in *.
    + destruct (IH m1 Ht1) as (Ht2 & Hnow2 & Hkeep2 & Hall). cbv zeta in *.
      split_and!; auto; [congruence |].
      intros Hr d Hd. apply elem_of_cons in Hd as [-> | Hd].
      * exists h. apply Hkeep2, Hret. reflexivity.
      * apply Hall; assumption.
    + split_and!; auto. discriminate.
Qed.

Lemma request_tidy m sid deps : tidy m -> tidy (fst (request m sid deps)).
Proof.
  intros Ht. unfold request.
  destruct (ensure_dependencies_tidy deps m Ht) as (Ht0 & _). cbv zeta in Ht0.
  destruct (ensure_dependencies m deps) as [m0 [[]|e]]; cbn [fst] in *;
    [| exact Ht0].
  destruct (get_or_start_tidy m0 sid Ht0) as (Ht1 & Hret & _). cbv zeta in *.
  destruct (get_or_start m0 sid) as [m1 [h|e]]; cbn [fst snd] in *; [| exact Ht1].
  specialize (Hret h eq_refl). apply lookup_live_Some in Hret as [Hreg _].
  destruct (session_request_tidy m1 h Ht1) as (Ht2 & Hs2 & _). cbv zeta in *.
  destruct (session_request m1 h) as [m2 [a|e]]; cbn [fst] in *.
  - apply touch_tidy, Ht2.
  - destruct e as [msg| |]; [| exact Ht2 | exact Ht2].
    rewrite <- Hs2 in Hreg.
    destruct (stop_registered m2 sid h Ht2 Hreg) as (_ & Ht3 & Hs3 & _).
    cbv zeta in *.
    assert (lookup_live (fst (_stop_handle m2 h)) sid = None) as Hdead.
    { unfold lookup_live. rewrite Hs3, lookup_delete_eq. reflexivity. }
    destruct (start_service_tidy _ sid Ht3 Hdead) as (Ht4 & _). cbv zeta in *.
    destruct (_start_service (fst (_stop_handle m2 h)) sid) as [m4 [h'|e']];
      cbn [fst] in *; [| exact Ht4].
    destruct (session_request_tidy m4 h' Ht4) as (Ht5 & _). cbv zeta in *.
    destruct (session_request m4 h') as [m5 [a|e']]; cbn [fst] in *;
      [apply touch_tidy, Ht5 | exact Ht5].
Qed.

Lemma values_of_elem m hs h :
  values_of m hs -> (h ∈ hs <-> exists sid, _services m !! sid = Some h).
Proof.
  intros Hv. unfold values_of in Hv. rewrite Hv, list_elem_of_fmap. split.
  - intros ([sid h'] & -> & Hin). apply elem_of_map_to_list in Hin. eauto.
  - intros (sid & Hl). exists (sid, h). split; [reflexivity |].
    apply elem_of_map_to_list, Hl.
Qed.

Lemma values_of_NoDup m hs : tidy m -> values_of m hs -> NoDup hs.
Proof.
  intros (H1 & _) Hv. unfold values_of in Hv. rewrite Hv.
  apply NoDup_fmap_2_strong; [| apply NoDup_map_to_list].
  intros [sid h] [sid' h'] Hin Hin' Heq. simpl in Heq. subst h'.
  apply elem_of_map_to_list in Hin, Hin'.
  destruct (H1 sid h Hin) as (hd & _ & Hhd & Hid & _).
  destruct (H1 sid' h Hin') as (hd' & _ & Hhd' & Hid' & _).
  congruence.
Qed.

Lemma tidy_table_inj m sid sid' h :
  tidy m -> _services m !! sid = Some h -> _services m !! sid' = Some h ->
  sid = sid'.
Proof.
  intros (H1 & _) Hl Hl'.
  destruct (H1 sid h Hl) as (hd & _ & Hhd & Hid & _).
  destruct (H1 sid' h Hl') as (hd' & _ & Hhd' & Hid' & _).
  congruence.
Qed.

(** The loop of [shutdown_all] over distinct registered handles. *)
Lemma shutdown_all_spec hs : forall m,
  tidy m -> NoDup hs ->
  (forall h, h ∈ hs -> exists sid, _services m !! sid = Some h) ->
  let m' := shutdown_all m hs in
  tidy m' /\ now m' = now m /\
  forall sid, _services m' !! sid =
              match _services m !! sid with
              | Some h => if decide (h ∈ hs) then None else Some h
              | None => None
              end.
Proof.
  induction hs as [|h hs IH]; intros m Ht Hnd Hreg; cbn [shutdown_all fold_left].
  - split_and!; auto. intros sid. destruct (_services m !! sid); [| reflexivity].
    rewrite decide_False by apply not_elem_of_nil. reflexivity.
  - apply NoDup_cons in Hnd as [Hnotin Hnd].
    destruct (Hreg h) as (sid0 & Hl0); [apply list_elem_of_here |].
    destruct (stop_registered m sid0 h Ht Hl0) as (_ & Ht1 & Hs1 & _ & _ & _ & Hnow1).
    cbv zeta in *. set (m1 := fst (_stop_handle m h)) in *.
    destruct (IH m1 Ht1 Hnd) as (Ht2 & Hnow2 & Hs2).
    { intros h' Hin. destruct (Hreg h') as (sid' & Hl'); [apply elem_of_cons; auto |].
      exists sid'. rewrite Hs1. apply lookup_delete_Some. split; [| exact Hl'].
      intros <-. assert (h' = h) by congruence. subst h'. contradiction. }
    fold (shutdown_all m1 hs). split_and!; [exact Ht2 | congruence |].
    intros sid. rewrite Hs2, Hs1.
    destruct (decide (sid = sid0)) as [-> | Hne].
    + rewrite lookup_delete_eq, Hl0.
      rewrite decide_True by apply list_elem_of_here. reflexivity.
    + rewrite lookup_delete_ne by congruence.
      destruct (_services m !! sid) as [h'|] eqn:Hl'; [| reflexivity].
      assert (h' <> h) as Hh.
      { intros Heq. subst h'. apply Hne.
        apply (tidy_table_inj m sid sid0 h Ht); assumption. }
      destruct (decide (h' ∈ hs)) as [Hin | Hout].
      * rewrite decide_True by (apply elem_of_cons; auto). reflexivity.
      * rewrite decide_False; [reflexivity |].
        intros Hc. apply elem_of_cons in Hc as [Hc | Hc]; contradiction.
Qed.

(** The loop of [prune_idle] over distinct registered handles. *)
Lemma prune_loop_spec ttl t hs : forall m,
  tidy m -> NoDup hs ->
  (forall h, h ∈ hs -> exists sid, _services m !! sid = Some h) ->
  let m' := fst (prune_loop ttl t m hs) in
  let stopped := snd (prune_loop ttl t m hs) in
  tidy m' /\ now m' = now m /\
  (forall sid, sid ∈ stopped <->
     exists h hd limit,
       h ∈ hs /\ _services m !! sid = Some h /\ handles m !! h = Some hd /\
       ttl h = Some limit /\ 0 < limit /\ limit < t - last_used_ts hd) /\
  (forall sid, _services m' !! sid =
               if decide (sid ∈ stopped) then None else _services m !! sid) /\
  (forall q, q ∉ hs -> handles m' !! q = handles m !! q).
Proof.
  induction hs as [|h hs IH]; intros m Ht Hnd Hreg; cbn [prune_loop].
  - cbn [fst snd]. split_and!; auto.
    intros sid. split; [intros H; inversion H |].
    intros (h & _ & _ & Hin & _). inversion Hin.
  - apply NoDup_cons in Hnd as [Hnotin Hnd].
    destruct (Hreg h) as (sid0 & Hl0); [apply list_elem_of_here |].
    pose proof Ht as (H1 & _).
    destruct (H1 sid0 h Hl0) as (hd & p & Hhd & Hid & _).
    assert (forall h', h' ∈ hs -> exists sid, _services m !! sid = Some h') as Hreg'.
    { intros h' Hin. apply Hreg, elem_of_cons. auto. }
    (* the handle is left alone *)
    assert ((ttl h = None \/ exists limit, ttl h = Some limit /\
                               (limit <= 0 \/ t - last_used_ts hd <= limit)) ->
            let m' := fst (prune_loop ttl t m hs) in
            let stopped := snd (prune_loop ttl t m hs) in
            tidy m' /\ now m' = now m /\
            (forall sid, sid ∈ stopped <->
               exists h0 hd0 limit,
                 h0 ∈ h :: hs /\ _services m !! sid = Some h0 /\
                 handles m !! h0 = Some hd0 /\
                 ttl h0 = Some limit /\ 0 < limit /\ limit < t - last_used_ts hd0) /\
            (forall sid, _services m' !! sid =
                         if decide (sid ∈ stopped) then None else _services m !! sid) /\
            (forall q, q ∉ h :: hs -> handles m' !! q = handles m !! q)) as Hskip.
    { intros Hno. destruct (IH m Ht Hnd Hreg') as (Ht' & Hnow' & Hst & Hsv & Hh).
      cbv zeta in *. split_and!; auto.
      - intros sid. rewrite Hst. split.
        + intros (h0 & hd0 & limit & Hin & Hrest). exists h0, hd0, limit.
          split; [apply elem_of_cons; auto | exact Hrest].
        + intros (h0 & hd0 & limit & Hin & Hl & Hhd0 & Httl & Hpos & Hidle).
          apply elem_of_cons in Hin as [-> | Hin].
          * exfalso. rewrite Hhd in Hhd0. injection Hhd0 as <-.
            destruct Hno as [Hno | (l' & Hl' & Hno)]; [congruence |].
            rewrite Httl in Hl'. injection Hl' as <-. lia.
          * exists h0, hd0, limit. split_and!; auto.
      - intros q Hq. apply Hh. intros Hc. apply Hq, elem_of_cons. auto. }
    rewrite Hhd. destruct (ttl h) as [limit|] eqn:Httl; [| apply Hskip; auto].
    destruct (limit <=? 0) eqn:Hle.
    { apply Z.leb_le in Hle. apply Hskip. right. exists limit. auto. }
    apply Z.leb_gt in Hle.
    destruct (limit <? t - last_used_ts hd) eqn:Hidle.
    2:{ apply Z.ltb_ge in Hidle. apply Hskip. right. exists limit. auto. }
    apply Z.ltb_lt in Hidle. clear Hskip.
    destruct (stop_registered m sid0 h Ht Hl0)
      as (_ & Ht1 & Hs1 & _ & Hh1 & _ & Hnow1).
    cbv zeta in *. set (m1 := fst (_stop_handle m h)) in *.
    destruct (IH m1 Ht1 Hnd) as (Ht2 & Hnow2 & Hst2 & Hsv2 & Hh2).
    { intros h' Hin. destruct (Hreg' h' Hin) as (sid' & Hl').
      exists sid'. rewrite Hs1. apply lookup_delete_Some. split; [| exact Hl'].
      intros <-. assert (h' = h) by congruence. subst h'. contradiction. }
    cbv zeta in *.
    destruct (prune_loop ttl t m1 hs) as [m2 stopped] eqn:Hrun. cbn [fst snd] in *.
    assert (forall sid, sid ∈ stopped ->
              exists h0, h0 ∈ hs /\ _services m !! sid = Some h0 /\ sid <> sid0)
      as Hstopped.
    { intros sid Hin. apply Hst2 in Hin as (h0 & _ & _ & Hin0 & Hl & _).
      rewrite Hs1 in Hl. apply lookup_delete_Some in Hl as [Hne Hl]. eauto. }
    split_and!; [exact Ht2 | congruence | | |].
    + intros sid. rewrite Hid. split.
      * intros Hin. apply elem_of_cons in Hin as [-> | Hin].
        -- exists h, hd, limit. split_and!; auto. apply list_elem_of_here.
        -- apply Hst2 in Hin as (h0 & hd0 & l0 & Hin0 & Hl & Hhd0 & Ht0 & Hp0 & Hi0).
           rewrite Hs1 in Hl. apply lookup_delete_Some in Hl as [Hne Hl].
           rewrite Hh1 in Hhd0 by (intros ->; contradiction).
           exists h0, hd0, l0. split_and!; auto. apply elem_of_cons. auto.
      * intros (h0 & hd0 & l0 & Hin & Hl & Hhd0 & Ht0 & Hp0 & Hi0).
        apply elem_of_cons. apply elem_of_cons in Hin as [-> | Hin].
        -- left. apply (tidy_table_inj m sid sid0 h Ht); assumption.
        -- right. apply Hst2. exists h0, hd0, l0.
           assert (h0 <> h) as Hne0 by (intros ->; contradiction).
           split_and!; auto.
           ++ rewrite Hs1. apply lookup_delete_Some. split; [| exact Hl].
              intros <-. congruence.
           ++ rewrite Hh1 by exact Hne0. exact Hhd0.
    + intros sid. rewrite Hsv2, Hs1, Hid.
      destruct (decide (sid = sid0)) as [-> | Hne].
      * rewrite lookup_delete_eq.
        rewrite (decide_True (P := sid0 ∈ sid0 :: stopped))
          by apply list_elem_of_here.
        destruct (decide (sid0 ∈ stopped)); reflexivity.
      * rewrite lookup_delete_ne by congruence.
        destruct (decide (sid ∈ stopped)) as [Hin | Hout].
        -- rewrite decide_True by (apply elem_of_cons; auto). reflexivity.
        -- rewrite decide_False; [reflexivity |].
           intros Hc. apply elem_of_cons in Hc as [Hc | Hc]; contradiction.
    + intros q Hq. rewrite Hh2, Hh1; [reflexivity | |];
        intros Hc; apply Hq, elem_of_cons; auto.
Qed.

Lemma reach_tidy m : reach m -> tidy m.
Proof.
  induction 1 as [pl | m sid _ IH | m sid deps _ IH | m sid _ IH
                  | m hs _ IH Hv | m ttl hs _ IH Hv | m pid _ IH | m dt _ IH].
  - apply tidy_new.
  - apply get_or_start_tidy, IH.
  - apply request_tidy, IH.
  - unfold shutdown. destruct (_services m !! sid) as [h|] eqn:Hl; [| exact IH].
    apply (stop_registered m sid h IH Hl).
  - apply shutdown_all_spec; [exact IH | eapply values_of_NoDup; eassumption |].
    intros h Hin. eapply values_of_elem; eassumption.
  - apply prune_loop_spec; [exact IH | eapply values_of_NoDup; eassumption |].
    intros h Hin. eapply values_of_elem; eassumption.
  - apply tidy_crash, IH.
  - eapply tidy_same; [reflexivity | reflexivity | reflexivity | reflexivity | exact IH].
Qed.

Lemma live_workers_elem m sid q :
  q ∈ live_workers m sid <->
  (q < next_id m)%nat /\
  exists p, procs m !! q = Some p /\ p_alive p = true /\ p_sid p = sid.
Proof.
  unfold live_workers. rewrite list_elem_of_In, filter_In, in_seq. split.
  - intros [Hlt Hf]. split; [lia |].
    destruct (procs m !! q) as [p|]; [| discriminate].
    apply andb_true_iff in Hf as [Ha Hs]. apply String.eqb_eq in Hs. eauto.
  - intros [Hlt (p & Hp & Ha & Hs)]. split; [lia |].
    rewrite Hp, Ha. simpl. apply String.eqb_eq, Hs.
Qed.

Lemma tidy_no_worker m sid :
  tidy m -> _services m !! sid = None ->
  forall q p, procs m !! q = Some p -> p_sid p = sid -> p_alive p = false.
Proof.
  intros (_ & _ & H3) Hnone q p Hp Hs.
  destruct (p_alive p) eqn:Ha; [| reflexivity].
  pose proof (H3 q p Hp Ha) as Hreg. congruence.
Qed.

Lemma prune_loop_no_limit ttl t hs : forall m,
  (forall h limit, ttl h = Some limit -> limit <= 0) ->
  prune_loop ttl t m hs = (m, []).
Proof.
  induction hs as [|h hs IH]; intros m Hno; [reflexivity |].
  cbn [prune_loop]. destruct (handles m !! h) as [hd|]; [| apply IH, Hno].
  destruct (ttl h) as [limit|] eqn:Httl; [| apply IH, Hno].
  rewrite (proj2 (Z.leb_le limit 0) (Hno h limit Httl)). apply IH, Hno.
Qed.

(** X18. No worker is left behind, as long as the operations of the
    manager do not overlap.  In every state reached when [get_or_start],
    [request], [shutdown], [shutdown_all] and the sweeps of the idle thread
    ([prune_idle]) run one after the other, none of them starting while
    another is between two of its steps, and whichever workers fail to
    start, break or die in between, every running worker is the one the
    table names for its descriptor, so a descriptor never has two running
    workers.  A sweep over handles without a positive idle limit stops
    nothing and changes nothing, in whatever state and on whatever
    snapshot it runs.  A sweep with idle limits that overlaps a call, and
    calls that overlap, are outside this result. *)
Theorem sequential_calls_no_orphan (m : ServiceManager) (sid : string) :
  (reach m ->
   (forall q p, procs m !! q = Some p -> p_alive p = true ->
                lookup_live m (p_sid p) = Some q) /\
   (length (live_workers m sid) <= 1)%nat) /\
  (forall ttl hs,
     (forall h limit, ttl h = Some limit -> limit <= 0) ->
     prune_idle ttl m hs = (m, [])).
Proof.
  split; [| intros ttl hs Hno; apply prune_loop_no_limit, Hno].
  intros Hr. pose proof (reach_tidy m Hr) as Ht.
  pose proof Ht as (H1 & H2 & H3). split.
  - intros q p Hp Ha. apply lookup_live_Some. split; [apply H3; assumption |].
    unfold is_alive. rewrite Hp. exact Ha.
  - assert (List.NoDup (live_workers m sid)) as Hnd
      by (apply List.NoDup_filter, List.seq_NoDup).
    destruct (live_workers m sid) as [|a [|b l]] eqn:E; simpl; [lia | lia |].
    exfalso.
    assert (a ∈ live_workers m sid) as Ha by (rewrite E; apply list_elem_of_here).
    assert (b ∈ live_workers m sid) as Hb
      by (rewrite E; apply elem_of_cons; right; apply list_elem_of_here).
    apply live_workers_elem in Ha as (_ & pa & Hpa & Haa & Hsa).
    apply live_workers_elem in Hb as (_ & pb & Hpb & Hab & Hsb).
    pose proof (H3 a pa Hpa Haa) as Hra. pose proof (H3 b pb Hpb Hab) as Hrb.
    rewrite Hsa in Hra. rewrite Hsb in Hrb.
    assert (a = b) by congruence. subst b.
    inversion Hnd as [|? ? Hnotin _]. apply Hnotin. left. reflexivity.
Qed.

(** X19. [shutdown_all] stops everything: after it the table is empty and
    no worker is running. *)
Theorem shutdown_all_stops_everything (m : ServiceManager) (hs : list nat) :
  reach m -> values_of m hs ->
  _services (shutdown_all m hs) = ∅ /\
  forall q, is_alive (shutdown_all m hs) q = false.
Proof.
  intros Hr Hv. pose proof (reach_tidy m Hr) as Ht.
  destruct (shutdown_all_spec hs m Ht (values_of_NoDup m hs Ht Hv))
    as (Ht' & _ & Hs).
  { intros h Hin. eapply values_of_elem; eassumption. }
  assert (_services (shutdown_all m hs) = ∅) as Hempty.
  { apply map_empty. intros sid. rewrite Hs.
    destruct (_services m !! sid) as [h|] eqn:Hl; [| reflexivity].
    rewrite decide_True; [reflexivity |].
    eapply values_of_elem; [exact Hv | eauto]. }
  split; [exact Hempty |]. intros q. unfold is_alive.
  destruct (procs (shutdown_all m hs) !! q) as [p|] eqn:Hp; [| reflexivity].
  eapply (tidy_no_worker _ (p_sid p) Ht'); [| exact Hp | reflexivity].
  rewrite Hempty. apply lookup_empty.
Qed.

(** X20. [prune_idle] stops exactly the idle services: a descriptor is in
    the list it returns if and only if the table named a handle for it
    whose idle limit is positive and smaller than the time since the handle
    was last used.  The entries of these descriptors are removed, their
    workers no longer run, and every other entry is as before; a service
    without a limit, or with a limit of zero or less, is never pruned. *)
Theorem prune_idle_exact (m : ServiceManager) (hs : list nat)
        (ttl : nat -> option Z) (sid : string) :
  reach m -> values_of m hs ->
  let m' := fst (prune_idle ttl m hs) in
  let stopped := snd (prune_idle ttl m hs) in
  (sid ∈ stopped <->
   exists h hd limit,
     _services m !! sid = Some h /\ handles m !! h = Some hd /\
     ttl h = Some limit /\ 0 < limit /\ limit < now m - last_used_ts hd) /\
  _services m' !! sid = (if decide (sid ∈ stopped) then None
                         else _services m !! sid) /\
  (sid ∈ stopped ->
   forall q p, procs m' !! q = Some p -> p_sid p = sid -> p_alive p = false).
Proof.
  intros Hr Hv. pose proof (reach_tidy m Hr) as Ht.
  destruct (prune_loop_spec ttl (now m) hs m Ht (values_of_NoDup m hs Ht Hv))
    as (Ht' & _ & Hst & Hs & _).
  { intros h Hin. eapply values_of_elem; eassumption. }
  cbv zeta in *. unfold prune_idle. split_and!.
  - rewrite Hst. split.
    + intros (h & hd & limit & _ & Hrest). eauto.
    + intros (h & hd & limit & Hl & Hrest). exists h, hd, limit.
      split; [| split; assumption].
      eapply values_of_elem; [exact Hv | eauto].
  - apply Hs.
  - intros Hin. apply (tidy_no_worker _ sid Ht').
    rewrite Hs, decide_True by exact Hin. reflexivity.
Qed.

(** X21. After [ensure_dependencies] has returned, every dependency has a
    running registered worker; and, whether it returns or raises, a service
    that was running before is still running on the same handle. *)
Theorem ensure_dependencies_all_live (m : ServiceManager) (deps : list string)
        (d : string) :
  reach m ->
  let m' := fst (ensure_dependencies m deps) in
  (snd (ensure_dependencies m deps) = Return tt -> d ∈ deps ->
   is_Some (lookup_live m' d)) /\
  (forall h, lookup_live m d = Some h -> lookup_live m' d = Some h).
Proof.
  intros Hr. pose proof (reach_tidy m Hr) as Ht.
  destruct (ensure_dependencies_tidy deps m Ht) as (_ & _ & Hkeep & Hall).
  cbv zeta in *. split; [intros Hret Hd; apply Hall; assumption |].
  intros h. apply Hkeep.
Qed.

(** X22. [shutdown] of a descriptor returns [True]; afterwards the table
    has no entry for it and none of its workers runs, the other services
    are as they were, and a second [shutdown] changes nothing. *)
Theorem shutdown_stops_service (m : ServiceManager) (sid : string) :
  reach m ->
  let m' := fst (shutdown m sid) in
  snd (shutdown m sid) = true /\
  _services m' !! sid = None /\
  (forall q p, procs m' !! q = Some p -> p_sid p = sid -> p_alive p = false) /\
  (forall sid', sid' <> sid -> lookup_live m' sid' = lookup_live m sid') /\
  shutdown m' sid = (m', true).
Proof.
  intros Hr. pose proof (reach_tidy m Hr) as Ht. cbv zeta.
  assert (shutdown m sid = match _services m !! sid with
                           | Some h => _stop_handle m h
                           | None => (m, true)
                           end) as -> by reflexivity.
  destruct (_services m !! sid) as [h|] eqn:Hl; cbn [fst snd].
  - destruct (stop_registered m sid h Ht Hl) as (Hok & Ht' & Hs & Hp & _).
    cbv zeta in *. set (m' := fst (_stop_handle m h)) in *.
    assert (_services m' !! sid = None) as Hnone
      by (rewrite Hs; apply lookup_delete_eq).
    split_and!; auto.
    + apply (tidy_no_worker m' sid Ht' Hnone).
    + intros sid' Hne. unfold lookup_live. rewrite Hs, lookup_delete_ne by congruence.
      destruct (_services m !! sid') as [h'|] eqn:Hl'; [| reflexivity].
      assert (h' <> h) as Hh.
      { intros Heq. subst h'. apply Hne.
        apply (tidy_table_inj m sid' sid h Ht); assumption. }
      unfold is_alive. rewrite Hp, kill_lookup.
      destruct (procs m !! h'); [| reflexivity].
      rewrite decide_False by exact Hh. reflexivity.
    + unfold shutdown. rewrite Hnone. reflexivity.
  - split_and!; auto.
    + apply (tidy_no_worker m sid Ht Hl).
    + unfold shutdown. rewrite Hl. reflexivity.
Qed.

Lemma stop_registered_log m sid h :
  tidy m -> _services m !! sid = Some h ->
  log (fst (_stop_handle m h)) = log m ++ [ActStop h].
Proof.
  intros (H1 & _) Hl.
  destruct (H1 sid h Hl) as (hd & p & Hhd & _ & _ & Hsd & _).
  unfold _stop_handle. rewrite Hhd, Hsd. reflexivity.
Qed.

(** A start that fails leaves the table and the handles as they were. *)
Lemma start_service_raise m sid m' e :
  _start_service m sid = (m', Raise e) ->
  _services m' = _services m /\ handles m' = handles m.
Proof.
  unfold _start_service, spawn, handshake.
  destruct (b_env_ok (plan m (next_id m))); simpl.
  - destruct (b_ready (plan m (next_id m))); simpl; intros H;
      inversion H; subst; split; reflexivity.
  - intros H. inversion H; subst. split; reflexivity.
Qed.

(** C4. When the round trip on the handle of a supervisor request raises
    [IPCError], the supervisor stops that handle, starts the service anew
    and repeats the request, once.  The stop is the next action after the
    failed round trip: the broken worker does not run any more when
    [request] returns and the table does not name it.  Then comes one start
    and, if it succeeds, one request on the new worker, which the table
    names; nothing is stopped or started after that.  The outcome of the
    call is the outcome of the repeated request: an [IPCError] of it
    reaches the caller.  A start that fails ends the call with its
    exception, without a second request. *)
Theorem request_restarts_once (m : ServiceManager) (sid : string)
        (deps : list string) (m0 m1 m2 : ServiceManager) (h : nat)
        (msg : string) :
  tidy m ->
  ensure_dependencies m deps = (m0, Return tt) ->
  get_or_start m0 sid = (m1, Return h) ->
  session_request m1 h = (m2, Raise (IPCError msg)) ->
  exists m' r after,
    request m sid deps = (m', r) /\
    log m' = log m2 ++ ActStop h :: after /\
    is_alive m' h = false /\
    _services m' !! sid <> Some h /\
    count is_stop after = 0%nat /\
    (count is_spawn after <= 1)%nat /\
    (count is_request after <= 1)%nat /\
    match _start_service (fst (_stop_handle m2 h)) sid with
    | (m4, Raise e) =>
        r = Raise e /\ count is_request after = 0%nat /\
        _services m' !! sid = None
    | (m4, Return h') =>
        h' = next_id m2 /\ h' <> h /\
        after = [ActSpawn h' sid; ActRegister sid h'; ActRequest h'] /\
        _services m' !! sid = Some h' /\
        r = snd (session_request m4 h') /\
        (forall msg', snd (session_request m4 h') = Raise (IPCError msg') ->
                      r = Raise (IPCError msg') /\
                      m' = fst (session_request m4 h'))
    end.
Proof.
  intros Ht Hdeps Hget Hreq. unfold request. rewrite Hdeps, Hget, Hreq.
  destruct (ensure_dependencies_tidy deps m Ht) as (Ht0 & _).
  cbv zeta in Ht0. rewrite Hdeps in Ht0. cbn [fst] in Ht0.
  destruct (get_or_start_tidy m0 sid Ht0) as (Ht1 & Hret & _).
  cbv zeta in Ht1, Hret. rewrite Hget in Ht1, Hret. cbn [fst snd] in Ht1, Hret.
  specialize (Hret h eq_refl). apply lookup_live_Some in Hret as [Hreg _].
  destruct (session_request_tidy m1 h Ht1) as (Ht2 & Hs2 & _).
  cbv zeta in Ht2, Hs2. rewrite Hreq in Ht2, Hs2. cbn [fst] in Ht2, Hs2.
  rewrite <- Hs2 in Hreg.
  destruct (stop_registered m2 sid h Ht2 Hreg) as (_ & Ht3 & Hs3 & Hp3 & _ & Hn3 & _).
  pose proof (stop_registered_log m2 sid h Ht2 Hreg) as Hl3.
  cbv zeta in Ht3, Hs3, Hp3, Hn3.
  assert (h < next_id m2)%nat as Hlt.
  { destruct Ht2 as (H1 & H2 & _).
    destruct (H1 sid h Hreg) as (_ & p & _ & _ & _ & _ & Hp & _).
    apply H2. eauto. }
  set (m3 := fst (_stop_handle m2 h)) in *.
  assert (lookup_live m3 sid = None) as Hdead.
  { unfold lookup_live. rewrite Hs3, lookup_delete_eq. reflexivity. }
  assert (is_alive m3 h = false) as Hk.
  { unfold is_alive. rewrite Hp3, kill_lookup.
    destruct (procs m2 !! h); [| reflexivity].
    rewrite decide_True by reflexivity. reflexivity. }
  destruct (start_service_tidy m3 sid Ht3 Hdead) as (Ht4 & Hret4 & _ & Hprocs4 & _).
  cbv zeta in Ht4, Hret4, Hprocs4.
  destruct (_start_service m3 sid) as [m4 [h' | e]] eqn:Hstart;
    cbn [fst snd] in Ht4, Hret4, Hprocs4.
  - pose proof (start_service_log m3 sid _ _ Hstart) as (-> & Hlog4 & _ & _).
    destruct (Hret4 _ eq_refl) as [Hreg4 _].
    assert (is_alive m4 h = false) as Hk4.
    { unfold is_alive in *. rewrite Hprocs4 by lia. exact Hk. }
    destruct (session_request_tidy m4 (next_id m3) Ht4)
      as (Ht5 & Hs5 & _ & _ & _ & Ha5).
    pose proof (session_request_log m4 (next_id m3)) as Hlog5.
    cbv zeta in Ht5, Hs5, Ha5.
    destruct (session_request m4 (next_id m3)) as [m5 [a | e]] eqn:Hreq2;
      cbn [fst snd] in Ht5, Hs5, Ha5, Hlog5.
    + destruct (touch_tidy m5 (next_id m3) Ht5) as (_ & Hst & Hpt & _).
      eexists _, _, [ActSpawn (next_id m3) sid; ActRegister sid (next_id m3);
                     ActRequest (next_id m3)].
      split; [reflexivity |].
      split; [rewrite touch_log, Hlog5, Hlog4, Hl3, <- !app_assoc; reflexivity |].
      split; [unfold is_alive; rewrite Hpt; fold (is_alive m5 h);
              rewrite Ha5; exact Hk4 |].
      split; [rewrite Hst, Hs5, Hreg4; intros [= E]; lia |].
      split; [reflexivity |]. split; [unfold count; simpl; lia |].
      split; [unfold count; simpl; lia |].
      split; [exact Hn3 |]. split; [lia |]. split; [reflexivity |].
      split; [rewrite Hst, Hs5; exact Hreg4 |]. split; [reflexivity |].
      intros msg' [=].
    + eexists _, _, [ActSpawn (next_id m3) sid; ActRegister sid (next_id m3);
                     ActRequest (next_id m3)].
      split; [reflexivity |].
      split; [rewrite Hlog5, Hlog4, Hl3, <- !app_assoc; reflexivity |].
      split; [rewrite Ha5; exact Hk4 |].
      split; [rewrite Hs5, Hreg4; intros [= E]; lia |].
      split; [reflexivity |]. split; [unfold count; simpl; lia |].
      split; [unfold count; simpl; lia |].
      split; [exact Hn3 |]. split; [lia |]. split; [reflexivity |].
      split; [rewrite Hs5; exact Hreg4 |]. split; [reflexivity |].
      intros msg' [= ->]. split; reflexivity.
  - pose proof (start_service_raise m3 sid _ _ Hstart) as [Hs4 _].
    assert (is_alive m4 h = false) as Hk4.
    { unfold is_alive in *. rewrite Hprocs4 by lia. exact Hk. }
    assert (_services m4 !! sid = None) as Hnone
      by (rewrite Hs4, Hs3; apply lookup_delete_eq).
    pose proof (start_service_log m3 sid _ _ Hstart) as Hlog. simpl in Hlog.
    destruct Hlog as [Hlog | Hlog].
    + eexists _, _, []. split; [reflexivity |].
      split; [rewrite Hlog, Hl3; reflexivity |].
      split; [exact Hk4 |]. split; [rewrite Hnone; discriminate |].
      split; [reflexivity |]. split; [unfold count; simpl; lia |].
      split; [unfold count; simpl; lia |].
      split; [reflexivity |]. split; [reflexivity | exact Hnone].
    + eexists _, _, [ActSpawn (next_id m3) sid; ActKill (next_id m3)].
      split; [reflexivity |].
      split; [rewrite Hlog, Hl3, <- !app_assoc; reflexivity |].
      split; [exact Hk4 |]. split; [rewrite Hnone; discriminate |].
      split; [reflexivity |]. split; [unfold count; simpl; lia |].
      split; [unfold count; simpl; lia |].
      split; [reflexivity |]. split; [reflexivity | exact Hnone].
Qed.

(** Stopping a handle on another worker leaves the worker [a] as it is,
    and no handle changes its worker. *)
Lemma stop_handle_other m h a :
  (forall hd, handles m !! h = Some hd -> process hd <> a) ->
  is_alive (fst (_stop_handle m h)) a = is_alive m a /\
  (forall q hd', handles (fst (_stop_handle m h)) !! q = Some hd' ->
     exists hd, handles m !! q = Some hd /\ process hd = process hd').
Proof.
  intros Hne. unfold _stop_handle.
  destruct (handles m !! h) as [hd|] eqn:Hh; [| cbn [fst]; eauto].
  destruct (shutting_down hd); [cbn [fst]; eauto |].
  cbn [fst]. split.
  - unfold is_alive. simpl. rewrite kill_lookup.
    destruct (procs m !! a); [| reflexivity].
    rewrite decide_False; [reflexivity |].
    intros E. apply (Hne hd eq_refl). congruence.
  - intros q hd'. simpl. destruct (decide (q = h)) as [-> | Hq].
    + rewrite lookup_insert_eq. intros [= <-]. exists hd. auto.
    + rewrite lookup_insert_ne by congruence. eauto.
Qed.

Lemma stop_handle_sid m h a sid :
  (forall p, procs m !! a = Some p -> p_sid p = sid) ->
  forall p, procs (fst (_stop_handle m h)) !! a = Some p -> p_sid p = sid.
Proof.
  intros Hm p. unfold _stop_handle.
  destruct (handles m !! h) as [hd|]; [| apply Hm].
  destruct (shutting_down hd); [apply Hm |].
  cbn [fst]. simpl. rewrite kill_lookup.
  destruct (procs m !! a) as [p0|] eqn:E; [| discriminate].
  intros [= <-]. pose proof (Hm p0 eq_refl) as Hs.
  destruct (decide (a = process hd)); exact Hs.
Qed.

Lemma shutdown_all_next_id hs : forall m,
  next_id (shutdown_all m hs) = next_id m.
Proof.
  induction hs as [|q hs IH]; intros m; [reflexivity |].
  cbn [shutdown_all fold_left]. fold (shutdown_all (fst (_stop_handle m q)) hs).
  rewrite IH. apply stop_handle_next_id.
Qed.

Lemma shutdown_all_sid a sid hs : forall m,
  (forall p, procs m !! a = Some p -> p_sid p = sid) ->
  forall p, procs (shutdown_all m hs) !! a = Some p -> p_sid p = sid.
Proof.
  induction hs as [|q hs IH]; intros m Hm; [exact Hm |].
  cbn [shutdown_all fold_left]. fold (shutdown_all (fst (_stop_handle m q)) hs).
  apply IH. apply stop_handle_sid, Hm.
Qed.

Lemma shutdown_all_keeps a hs : forall m,
  (forall h hd, h ∈ hs -> handles m !! h = Some hd -> process hd <> a) ->
  is_alive (shutdown_all m hs) a = is_alive m a.
Proof.
  induction hs as [|h hs IH]; intros m Hne; [reflexivity |].
  cbn [shutdown_all fold_left]. fold (shutdown_all (fst (_stop_handle m h)) hs).
  destruct (stop_handle_other m h a) as [Ha Hh].
  { intros hd. apply Hne. left. }
  rewrite IH; [exact Ha |].
  intros q hd' Hq Hl. destruct (Hh q hd' Hl) as (hd & Hhd & <-).
  apply (Hne q hd); [right; exact Hq | exact Hhd].
Qed.

Lemma prune_loop_keeps a ttl t hs : forall m,
  (forall h hd, h ∈ hs -> handles m !! h = Some hd -> process hd <> a) ->
  is_alive (fst (prune_loop ttl t m hs)) a = is_alive m a.
Proof.
  induction hs as [|h hs IH]; intros m Hne; [reflexivity |].
  assert (is_alive (fst (prune_loop ttl t m hs)) a = is_alive m a) as Hskip.
  { apply IH. intros q hd Hq. apply Hne. right. exact Hq. }
  cbn [prune_loop]. destruct (handles m !! h) as [hd|] eqn:Hh; [| exact Hskip].
  destruct (ttl h) as [limit|]; [| exact Hskip].
  destruct (limit <=? 0); [exact Hskip |].
  destruct (limit <? t - last_used_ts hd); [| exact Hskip].
  destruct (stop_handle_other m h a) as [Ha Hhs].
  { intros hd0 Hhd0. apply (Hne h hd0); [left | exact Hhd0]. }
  specialize (IH (fst (_stop_handle m h))).
  destruct (prune_loop ttl t (fst (_stop_handle m h)) hs) as [m' stopped].
  cbn [fst] in *. rewrite IH; [exact Ha |].
  intros q hd' Hq Hl. destruct (Hhs q hd' Hl) as (hd0 & Hhd0 & <-).
  apply (Hne q hd0); [right; exact Hq | exact Hhd0].
Qed.

(** C1. Calls of [get_or_start] that do not overlap keep one worker per
    identity: a call that returns a handle leaves it registered and
    running, and the next call returns the same handle and spawns nothing.
    Calls that overlap do not.  When the table has no running worker for
    [sid] and two callers both pass the locked lookup before either
    registers, each spawns a worker and gets a handle of its own; both
    workers run, and the table names the second only.  The first worker is
    then out of the reach of the manager: [get_or_start] returns the second,
    and neither [shutdown] of the identity, nor [shutdown_all], nor a sweep
    of [prune_idle] stops the first, which keeps running. *)
Theorem concurrent_get_or_start_orphan (m : ServiceManager) (sid : string) :
  (forall m1 h,
      get_or_start m sid = (m1, Return h) ->
      _services m1 !! sid = Some h /\ is_alive m1 h = true /\
      get_or_start m1 sid = (m1, Return h)) /\
  (tidy m -> lookup_live m sid = None ->
   b_env_ok (plan m (next_id m)) = true ->
   b_ready (plan m (next_id m)) = true ->
   b_env_ok (plan m (S (next_id m))) = true ->
   b_ready (plan m (S (next_id m))) = true ->
   let a := next_id m in
   let b := S (next_id m) in
   let st := run (m, [AtCheck sid; AtCheck sid])
                 [Run 0; Run 1; Run 0; Run 1; Run 0; Run 1; Run 0; Run 1] in
   snd st = [Done (Return a); Done (Return b)] /\
   a ∈ live_workers (fst st) sid /\ b ∈ live_workers (fst st) sid /\
   _services (fst st) !! sid = Some b /\
   (forall sid', _services (fst st) !! sid' <> Some a) /\
   get_or_start (fst st) sid = (fst st, Return b) /\
   a ∈ live_workers (fst (shutdown (fst st) sid)) sid /\
   (forall hs, values_of (fst st) hs ->
               a ∈ live_workers (shutdown_all (fst st) hs) sid) /\
   (forall ttl hs, values_of (fst st) hs ->
                   is_alive (fst (prune_idle ttl (fst st) hs)) a = true)).
Proof.
  split.
  - intros m1 h Hget.
    assert (lookup_live m1 sid = Some h) as Hlive.
    { unfold get_or_start in Hget.
      destruct (lookup_live m sid) as [h0|] eqn:Hl.
      - injection Hget as <- <-. exact Hl.
      - pose proof (start_service_log m sid _ _ Hget) as (_ & _ & Hs & Ha).
        unfold lookup_live. rewrite Hs, Ha. reflexivity. }
    unfold get_or_start. rewrite Hlive.
    apply lookup_live_Some in Hlive as [Hs Ha]. auto.
  - intros Ht Hdead Hea Hra Heb Hrb a b st.
    pose proof Ht as (H1 & H2 & H3).
    set (pa := {| p_sid := sid; p_alive := true; p_served := 0 |}).
    set (ha := {| id := sid; process := a; shutting_down := false;
                  last_used_ts := now m |}).
    set (hb := {| id := sid; process := b; shutting_down := false;
                  last_used_ts := now m |}).
    assert (exists l,
              st = ({| _services := <[sid := b]> (<[sid := a]> (_services m));
                       handles := <[b := hb]> (<[a := ha]> (handles m));
                       procs := <[b := pa]> (<[a := pa]> (procs m));
                       next_id := S (S (next_id m)); plan := plan m;
                       now := now m; log := l |},
                    [Done (Return a); Done (Return b)])) as (l & Hst).
    { subst st. unfold run. simpl. rewrite Hdead. simpl. rewrite Hdead. simpl.
      unfold spawn at 1. rewrite Hea. simpl.
      unfold spawn at 1. simpl. rewrite Heb. simpl.
      unfold handshake at 1. simpl. rewrite Hra. simpl.
      unfold handshake at 1. simpl. rewrite Hrb. simpl.
      eexists. reflexivity. }
    set (mr := fst st) in *.
    assert (_services mr = <[sid := b]> (<[sid := a]> (_services m))) as Hsv
      by (unfold mr; rewrite Hst; reflexivity).
    assert (handles mr = <[b := hb]> (<[a := ha]> (handles m))) as Hhs
      by (unfold mr; rewrite Hst; reflexivity).
    assert (procs mr = <[b := pa]> (<[a := pa]> (procs m))) as Hps
      by (unfold mr; rewrite Hst; reflexivity).
    assert (next_id mr = S (S (next_id m))) as Hnx
      by (unfold mr; rewrite Hst; reflexivity).
    assert (a <> b) as Hab by (unfold a, b; lia).
    assert (procs mr !! a = Some pa) as Hpa
      by (rewrite Hps, lookup_insert_ne, lookup_insert_eq by congruence; reflexivity).
    assert (procs mr !! b = Some pa) as Hpb
      by (rewrite Hps, lookup_insert_eq; reflexivity).
    assert (forall sid' q, _services m !! sid' = Some q -> (q < a)%nat) as Hold.
    { intros sid' q Hl. destruct (H1 sid' q Hl) as (_ & p & _ & _ & _ & _ & Hp & _).
      apply H2. eauto. }
    assert (forall sid' q, _services mr !! sid' = Some q ->
              q <> a /\ forall hd, handles mr !! q = Some hd -> process hd = q)
      as Htab.
    { intros sid' q. rewrite Hsv, Hhs.
      destruct (decide (sid' = sid)) as [-> | Hne].
      - rewrite lookup_insert_eq. intros [= <-]. split; [congruence |].
        intros hd. rewrite lookup_insert_eq. intros [= <-]. reflexivity.
      - rewrite !lookup_insert_ne by congruence. intros Hl.
        pose proof (Hold sid' q Hl) as Hq.
        split; [lia |]. intros hd.
        rewrite !lookup_insert_ne by (unfold a, b in *; lia).
        intros Hhd. destruct (H1 sid' q Hl) as (hd0 & _ & Hhd0 & _ & Hpr & _).
        congruence. }
    assert (forall m', next_id m' = next_id mr ->
              is_alive m' a = true ->
              (forall p, procs m' !! a = Some p -> p_sid p = sid) ->
              a ∈ live_workers m' sid) as Hlive.
    { intros m' Hn Ha Hsid. apply live_workers_elem.
      split; [rewrite Hn, Hnx; unfold a; lia |].
      unfold is_alive in Ha. destruct (procs m' !! a) as [p|] eqn:Hp;
        [| discriminate].
      exists p. split; [reflexivity |]. split; [exact Ha | apply Hsid; reflexivity]. }
    split; [rewrite Hst; reflexivity |].
    split.
    { apply Hlive; [reflexivity | unfold is_alive; rewrite Hpa; reflexivity |].
      intros p. rewrite Hpa. intros [= <-]. reflexivity. }
    split.
    { apply live_workers_elem. split; [rewrite Hnx; unfold b; lia |].
      exists pa. split; [exact Hpb |]. split; reflexivity. }
    assert (_services mr !! sid = Some b) as Hreg
      by (rewrite Hsv; apply lookup_insert_eq).
    split; [exact Hreg |].
    split; [intros sid' Hl; apply (proj1 (Htab sid' a Hl)); reflexivity |].
    split.
    { unfold get_or_start, lookup_live, is_alive. rewrite Hreg, Hpb. reflexivity. }
    split.
    { unfold shutdown. rewrite Hreg.
      destruct (stop_handle_other mr b a) as [Ha _].
      { intros hd Hhd. rewrite (proj2 (Htab sid b Hreg) hd Hhd). congruence. }
      apply Hlive.
      - apply stop_handle_next_id.
      - rewrite Ha. unfold is_alive. rewrite Hpa. reflexivity.
      - apply stop_handle_sid. intros p. rewrite Hpa. intros [= <-]. reflexivity. }
    assert (forall hs, values_of mr hs ->
              forall q hd, q ∈ hs -> handles mr !! q = Some hd -> process hd <> a)
      as Hsnap.
    { intros hs Hv q hd Hq Hhd.
      apply (values_of_elem mr hs q Hv) in Hq as (sid' & Hl).
      destruct (Htab sid' q Hl) as [Hqa Hpr]. rewrite (Hpr hd Hhd). exact Hqa. }
    split.
    + intros hs Hv.
      assert (is_alive (shutdown_all mr hs) a = true) as Ha.
      { rewrite shutdown_all_keeps; [unfold is_alive; rewrite Hpa; reflexivity |].
        apply Hsnap, Hv. }
      apply Hlive; [apply shutdown_all_next_id | exact Ha |].
      apply shutdown_all_sid. intros p. rewrite Hpa. intros [= <-]. reflexivity.
    + intros ttl hs Hv. unfold prune_idle.
      rewrite prune_loop_keeps; [unfold is_alive; rewrite Hpa; reflexivity |].
      apply Hsnap, Hv.
Qed.

End ServicesOpsFacts.

Lemma request_restarts_once_witness :
  let plan := fun n : nat =>
    {| Services.b_env_ok := true; Services.b_ready := true;
       Services.b_answer :=
         fun _ => Services.Broken (if Nat.eqb n 0 then "first" else "second") |} in
  let m := Services.new_manager plan in
  let m1 := fst (Services.get_or_start m "svc") in
  let m2 := fst (Services.session_request m1 0) in
  (ServicesOps.tidy m /\
   Services.ensure_dependencies m [] = (m, Services.Return tt) /\
   Services.get_or_start m "svc" = (m1, Services.Return 0%nat) /\
   Services.session_request m1 0
   = (m2, Services.Raise (Services.IPCError "first"))) /\
  Services.is_alive m2 0 = true /\
  exists m',
    Services.request m "svc" [] = (m', Services.Raise (Services.IPCError "second")) /\
    Services.is_alive m' 0 = false /\
    Services._services m' !! "svc"%string = Some 1%nat /\
    Services.log m' =
      [Services.ActSpawn 0 "svc"; Services.ActRegister "svc" 0;
       Services.ActRequest 0; Services.ActStop 0;
       Services.ActSpawn 1 "svc"; Services.ActRegister "svc" 1;
       Services.ActRequest 1].
Proof.
  intros plan m m1 m2.
  assert (ServicesOps.tidy m) as Ht by apply tidy_new.
  assert (Services.ensure_dependencies m [] = (m, Services.Return tt)) as H0
    by reflexivity.
  assert (Services.get_or_start m "svc" = (m1, Services.Return 0%nat)) as H1
    by reflexivity.
  assert (Services.session_request m1 0
          = (m2, Services.Raise (Services.IPCError "first"))) as H2
    by reflexivity.
  split; [split; [exact Ht | split; [exact H0 | split; [exact H1 | exact H2]]] |].
  split; [vm_compute; reflexivity |].
  destruct (request_restarts_once m "svc" [] m m1 m2 0%nat "first" Ht H0 H1 H2)
    as (m' & r & after & Hrun & Hlog & Hdead & _ & _ & _ & _ & Hcase).
  vm_compute in Hcase. destruct Hcase as (_ & _ & -> & Hreg & -> & _).
  exists m'. split; [exact Hrun |]. split; [exact Hdead |].
  split; [exact Hreg |]. rewrite Hlog. vm_compute. reflexivity.
Defined.

Lemma concurrent_get_or_start_orphan_witness :
  let plan := fun _ : nat =>
    {| Services.b_env_ok := true; Services.b_ready := true;
       Services.b_answer := fun _ => Services.Answered true "pong" |} in
  let m := Services.new_manager plan in
  let st := Services.run
              (m, [Services.AtCheck "svc"; Services.AtCheck "svc"])
              [Services.Run 0; Services.Run 1; Services.Run 0; Services.Run 1;
               Services.Run 0; Services.Run 1; Services.Run 0; Services.Run 1] in
  (ServicesOps.tidy m /\ Services.lookup_live m "svc" = None) /\
  (Services.get_or_start m "svc"
   = (fst (Services.get_or_start m "svc"), Services.Return 0%nat) /\
   Services.get_or_start (fst (Services.get_or_start m "svc")) "svc"
   = (fst (Services.get_or_start m "svc"), Services.Return 0%nat) /\
   Services.live_workers (fst (Services.get_or_start m "svc")) "svc"
   = [0%nat]) /\
  snd st = [Services.Done (Services.Return 0%nat);
            Services.Done (Services.Return 1%nat)] /\
  Services.live_workers (fst st) "svc" = [0%nat; 1%nat] /\
  ServicesOps.values_of (fst st) [1%nat] /\
  0%nat ∈ Services.live_workers (ServicesOps.shutdown_all (fst st) [1%nat]) "svc" /\
  Services.live_workers (ServicesOps.shutdown_all (fst st) [1%nat]) "svc"
  = [0%nat].
Proof.
  intros plan m st.
  assert (ServicesOps.tidy m) as Ht by apply tidy_new.
  assert (Services.lookup_live m "svc" = None) as Hdead by reflexivity.
  split; [split; [exact Ht | exact Hdead] |].
  destruct (concurrent_get_or_start_orphan m "svc") as [Hseq Hrace].
  assert (Services.get_or_start m "svc"
          = (fst (Services.get_or_start m "svc"), Services.Return 0%nat)) as H1
    by reflexivity.
  split.
  { split; [exact H1 |].
    split; [exact (proj2 (proj2 (Hseq _ _ H1))) | vm_compute; reflexivity]. }
  destruct (Hrace Ht Hdead eq_refl eq_refl eq_refl eq_refl)
    as (Hres & _ & _ & _ & _ & _ & _ & Hall & _).
  assert (ServicesOps.values_of (fst st) [1%nat]) as Hv.
  { unfold ServicesOps.values_of.
    assert (Services._services (fst st) = {[ "svc"%string := 1%nat ]}) as ->
      by (vm_compute; reflexivity).
    rewrite map_to_list_singleton. reflexivity. }
  split; [exact Hres |]. split; [vm_compute; reflexivity |].
  split; [exact Hv |]. split; [exact (Hall [1%nat] Hv) |].
  vm_compute. reflexivity.
Defined.

Lemma sequential_calls_no_orphan_witness :
  let pl := fun n : nat =>
    {| Services.b_env_ok := true; Services.b_ready := true;
       Services.b_answer := fun _ => Services.Broken "pipe" |} in
  let m := fst (Services.request (Services.new_manager pl) "svc" ["dep"]%string) in
  ServicesOps.reach m /\
  Services.live_workers m "svc" = [2%nat] /\
  (length (Services.live_workers m "svc") <= 1)%nat /\
  ServicesOps.prune_idle (fun _ => Some 0) m [2%nat; 0%nat] = (m, []).
Proof.
  intros pl m.
  assert (ServicesOps.reach m) as Hr
    by apply ServicesOps.reach_request, ServicesOps.reach_new.
  split; [exact Hr |]. split; [vm_compute; reflexivity |].
  destruct (sequential_calls_no_orphan m "svc") as [Hseq Hsweep].
  split; [exact (proj2 (Hseq Hr)) |].
  apply Hsweep. intros h limit [= <-]. lia.
Defined.

Lemma shutdown_all_stops_everything_witness :
  let pl := fun n : nat =>
    {| Services.b_env_ok := true; Services.b_ready := true;
       Services.b_answer := fun _ => Services.Answered true "pong" |} in
  let m := fst (Services.get_or_start (Services.new_manager pl) "svc") in
  ServicesOps.reach m /\ ServicesOps.values_of m [0%nat] /\
  Services.is_alive m 0 = true /\
  Services.is_alive (ServicesOps.shutdown_all m [0%nat]) 0 = false.
Proof.
  intros pl m.
  assert (ServicesOps.reach m) as Hr
    by apply ServicesOps.reach_get_or_start, ServicesOps.reach_new.
  assert (ServicesOps.values_of m [0%nat]) as Hv.
  { unfold ServicesOps.values_of.
    assert (Services._services m = {[ "svc"%string := 0%nat ]}) as ->
      by (vm_compute; reflexivity).
    rewrite map_to_list_singleton. reflexivity. }
  split; [exact Hr |]. split; [exact Hv |]. split; [vm_compute; reflexivity |].
  exact (proj2 (shutdown_all_stops_everything m [0%nat] Hr Hv) 0%nat).
Defined.

Lemma prune_idle_exact_witness :
  let pl := fun n : nat =>
    {| Services.b_env_ok := true; Services.b_ready := true;
       Services.b_answer := fun _ => Services.Answered true "pong" |} in
  let m := ServicesOps.advance
             (fst (Services.get_or_start (Services.new_manager pl) "svc")) 601 in
  ServicesOps.reach m /\ ServicesOps.values_of m [0%nat] /\
  snd (ServicesOps.prune_idle (fun _ => Some 600) m [0%nat]) = ["svc"%string] /\
  Services._services (fst (ServicesOps.prune_idle (fun _ => Some 600) m [0%nat]))
    !! "svc"%string = None.
Proof.
  intros pl m.
  assert (ServicesOps.reach m) as Hr
    by apply ServicesOps.reach_advance, ServicesOps.reach_get_or_start,
             ServicesOps.reach_new.
  assert (ServicesOps.values_of m [0%nat]) as Hv.
  { unfold ServicesOps.values_of.
    assert (Services._services m = {[ "svc"%string := 0%nat ]}) as ->
      by (vm_compute; reflexivity).
    rewrite map_to_list_singleton. reflexivity. }
  split; [exact Hr |]. split; [exact Hv |]. split; [vm_compute; reflexivity |].
  destruct (prune_idle_exact m [0%nat] (fun _ => Some 600) "svc" Hr Hv)
    as (_ & Hs & _).
  rewrite Hs. apply decide_True. vm_compute. apply list_elem_of_here.
Defined.

Lemma ensure_dependencies_all_live_witness :
  let pl := fun n : nat =>
    {| Services.b_env_ok := true; Services.b_ready := true;
       Services.b_answer := fun _ => Services.Answered true "pong" |} in
  let m := Services.new_manager pl in
  ServicesOps.reach m /\
  snd (Services.ensure_dependencies m ["a"; "b"]%string) = Services.Return tt /\
  is_Some (Services.lookup_live
             (fst (Services.ensure_dependencies m ["a"; "b"]%string)) "a").
Proof.
  intros pl m.
  assert (ServicesOps.reach m) as Hr by apply ServicesOps.reach_new.
  split; [exact Hr |]. split; [reflexivity |].
  apply (proj1 (ensure_dependencies_all_live m ["a"; "b"]%string "a" Hr));
    [reflexivity | apply list_elem_of_here].
Defined.

Lemma shutdown_stops_service_witness :
  let pl := fun n : nat =>
    {| Services.b_env_ok := true; Services.b_ready := true;
       Services.b_answer := fun _ => Services.Answered true "pong" |} in
  let m := fst (Services.get_or_start (Services.new_manager pl) "svc") in
  ServicesOps.reach m /\
  Services.lookup_live m "svc" = Some 0%nat /\
  snd (ServicesOps.shutdown m "svc") = true /\
  Services._services (fst (ServicesOps.shutdown m "svc")) !! "svc"%string = None.
Proof.
  intros pl m.
  assert (ServicesOps.reach m) as Hr
    by apply ServicesOps.reach_get_or_start, ServicesOps.reach_new.
  split; [exact Hr |]. split; [vm_compute; reflexivity |].
  destruct (shutdown_stops_service m "svc" Hr) as (Hok & Hnone & _).
  split; [exact Hok | exact Hnone].
Defined.

(* ===================================================================== *)
(** ** run_one_shot: lines, results and the time budget *)
(* ===================================================================== *)

Section RunnerOpsFacts.
Import PyStr Runner RunnerOps.
Import Ipc (json, JNull, JBool, JInt, JFloat, JStr, JArr, JObj,
            obj_get, truthy, py_or, rstrip_crlf).
Variable json_loads : string -> option json.
Variable py_str : json -> string.

Lemma split_space_no_space a : forall b,
  no_space a = true -> split_space (a +:+ String " " b) = (a, Some b).
Proof.
  induction a as [|c a IH]; intros b H.
  - reflexivity.
  - cbn [no_space] in H. apply andb_true_iff in H as [Hc Ha].
    change (String c a +:+ String " " b) with (String c (a +:+ String " " b)).
    cbn [split_space]. apply negb_true_iff in Hc. rewrite Hc, (IH b Ha).
    reflexivity.
Qed.

Lemma split_space_none a :
  no_space a = true -> split_space a = (a, None).
Proof.
  induction a as [|c a IH]; intros H; [reflexivity |].
  cbn [no_space] in H. apply andb_true_iff in H as [Hc Ha].
  cbn [split_space]. apply negb_true_iff in Hc. rewrite Hc, (IH Ha).
  reflexivity.
Qed.

(** X23. A prefixed line is read back as it was written: for a tag
    without a space and without blanks at its ends, the line
    [PCTX:<tag> <payload>] parses to that tag and to the payload as it
    stands, spaces included, and the line [PCTX:<tag>] to the tag and the
    empty payload. *)
Theorem parse_prefixed_round_trip (tag payload : string) :
  no_space tag = true -> strip tag = tag ->
  _parse_prefixed ("PCTX:" +:+ tag +:+ String " " payload) = Some (tag, payload) /\
  _parse_prefixed ("PCTX:" +:+ tag) = Some (tag, EmptyString).
Proof.
  intros Hns Hstrip. unfold _parse_prefixed.
  assert (no_space ("PCTX:" +:+ tag) = true) as Hns' by exact Hns.
  split.
  - change ("PCTX:" +:+ tag +:+ String " " payload)
      with (("PCTX:" +:+ tag) +:+ String " " payload) at 2.
    rewrite (split_space_no_space _ payload Hns').
    change (startswith "PCTX:" ("PCTX:" +:+ tag +:+ String " " payload)) with true.
    cbn [negb]. change (drop 5 ("PCTX:" +:+ tag)) with tag.
    rewrite Hstrip. reflexivity.
  - rewrite (split_space_none _ Hns').
    change (startswith "PCTX:" ("PCTX:" +:+ tag)) with true.
    cbn [negb]. change (drop 5 ("PCTX:" +:+ tag)) with tag.
    rewrite Hstrip. reflexivity.
Qed.

Lemma on_line_result st raw :
  result_obj (on_line json_loads py_str st (rstrip_crlf raw))
  = match result_payload json_loads raw with
    | Some v => v
    | None => result_obj st
    end.
Proof.
  unfold on_line, result_payload.
  destruct (_parse_prefixed (rstrip_crlf raw)) as [[tag payload]|]; [| reflexivity].
  destruct (String.eqb tag "RESULT").
  - destruct (json_loads payload) as [[| | | | | |fields]|]; try reflexivity.
    destruct (obj_get fields "ok") as [[|[|]| | | | |]|]; reflexivity.
  - destruct (String.eqb tag "EXC"); [| reflexivity].
    destruct (json_loads payload) as [[| | | | | |fields]|]; try reflexivity.
    destruct (obj_get fields "ok") as [[|[|]| | | | |]|]; reflexivity.
Qed.

Lemma on_line_no_exc st raw :
  is_exc_payload json_loads raw = false ->
  let st' := on_line json_loads py_str st (rstrip_crlf raw) in
  err_type st' = err_type st /\ err_msg st' = err_msg st /\ err_tb st' = err_tb st.
Proof.
  unfold on_line, is_exc_payload.
  destruct (_parse_prefixed (rstrip_crlf raw)) as [[tag payload]|]; [| auto].
  destruct (String.eqb tag "RESULT") eqn:Hres.
  - intros _. cbv zeta.
    destruct (json_loads payload) as [[| | | | | |fields]|]; auto.
    destruct (obj_get fields "ok") as [[|[|]| | | | |]|]; auto.
  - destruct (String.eqb tag "EXC"); [| auto]. cbn [andb].
    destruct (json_loads payload) as [[| | | | | |fields]|]; auto.
    destruct (obj_get fields "ok") as [[|[|]| | | | |]|]; auto. discriminate.
Qed.

Lemma fold_on_line_result lines : forall st,
  Forall (fun raw => result_payload json_loads raw = None) lines ->
  result_obj (fold_left (fun st raw => on_line json_loads py_str st (rstrip_crlf raw))
                        lines st)
  = result_obj st.
Proof.
  induction lines as [|raw lines IH]; intros st Hall; [reflexivity |].
  apply Forall_cons in Hall as [Hraw Hall]. cbn [fold_left].
  rewrite (IH _ Hall), on_line_result, Hraw. reflexivity.
Qed.

Lemma fold_on_line_no_exc lines : forall st,
  existsb (is_exc_payload json_loads) lines = false ->
  let st' := fold_left (fun st raw => on_line json_loads py_str st (rstrip_crlf raw))
                       lines st in
  err_type st' = err_type st /\ err_msg st' = err_msg st /\ err_tb st' = err_tb st.
Proof.
  induction lines as [|raw lines IH]; intros st Hno; [cbn; auto |].
  cbn [existsb] in Hno. apply orb_false_iff in Hno as [Hraw Hno].
  cbn [fold_left]. destruct (IH (on_line json_loads py_str st (rstrip_crlf raw)) Hno)
    as (H1 & H2 & H3).
  destruct (on_line_no_exc st raw Hraw) as (H1' & H2' & H3').
  cbv zeta in *. split_and!; congruence.
Qed.

(** X24. A run whose worker is seen to have exited, within the budget
    and without cancel flag, after observations that were all quiet.  When
    the join of the reader returns, the result of the run is the value of
    the last result payload among the lines read: later lines that are no
    result payload (other tags, text, a [RESULT] line that is not JSON or
    whose ["ok"] is not [True]) do not change it, earlier results are
    overwritten, and it is reported whatever the exit code; if moreover the
    exit code is zero and no exception payload was read, the run is [OK]
    with no error fields.  When the join of the reader raises [TypeError]
    (CPython up to 3.12, the reader having ended), no result is reported:
    the run is [ERROR] with the error type [TypeError], whatever was
    read. *)
Theorem result_is_last_result_payload (opt_timeout : option Z) (one_shot : Z)
        (join_raises : bool) (before : list tick) (t : tick)
        (later : list tick) (pre post : list string) (raw : string)
        (v : json) (rc : Z) :
  forallb (quiet (effective_timeout opt_timeout one_shot)) before = true ->
  in_budget (effective_timeout opt_timeout one_shot) t = true ->
  t_cancel t = false -> t_rc t = Some rc ->
  result_payload json_loads raw = Some v ->
  Forall (fun x => result_payload json_loads x = None) post ->
  exists r,
    run_one_shot json_loads py_str opt_timeout one_shot None join_raises
                 (before ++ t :: later) (pre ++ raw :: post) = Some r /\
    (join_raises = false ->
     result r = v /\
     (rc = 0 -> exc_captured json_loads (pre ++ raw :: post) = false ->
      r = {| status := OK; result := v; error_type := None;
             error_message := None; traceback := None |})) /\
    (join_raises = true ->
     r = {| status := ERROR; result := JNull;
            error_type := Some "TypeError"%string;
            error_message := Some not_callable; traceback := None |}).
Proof.
  intros Hq Hb Hc Hrc Hraw Hpost. unfold run_one_shot.
  rewrite (poll_decides _ _ t later Hq), Hb, Hc, Hrc. cbn [negb].
  destruct join_raises;
    [eexists; split; [reflexivity |]; split; [discriminate | reflexivity] |].
  eexists. split; [reflexivity |]. split; [| discriminate]. intros _.
  assert (result_obj (read_lines json_loads py_str (pre ++ raw :: post)) = v) as Hres.
  { unfold read_lines. rewrite fold_left_app. cbn [fold_left].
    rewrite (fold_on_line_result post _ Hpost), on_line_result, Hraw. reflexivity. }
  cbn [result]. split; [exact Hres |].
  intros -> Hno. unfold exc_captured in Hno.
  destruct (fold_on_line_no_exc (pre ++ raw :: post) no_capture Hno)
    as (H1 & H2 & H3).
  cbv zeta in *. fold (read_lines json_loads py_str (pre ++ raw :: post)) in *.
  rewrite Hres, H1, H2, H3. reflexivity.
Qed.

Lemma poll_timed_out timeout ticks :
  poll timeout ticks = TimedOut ->
  exists limit t, timeout = Some limit /\ t ∈ ticks /\ limit < t_elapsed t.
Proof.
  induction ticks as [|t ticks IH]; cbn [poll]; [discriminate |].
  destruct timeout as [limit|].
  - destruct (limit <? t_elapsed t) eqn:E.
    + intros _. apply Z.ltb_lt in E. exists limit, t.
      split_and!; auto. apply list_elem_of_here.
    + destruct (t_cancel t); [discriminate |].
      destruct (t_rc t); [discriminate |].
      intros H. destruct (IH H) as (l' & t' & Hl & Hin & Hlt).
      exists l', t'. split_and!; auto. apply elem_of_cons. auto.
  - destruct (t_cancel t); [discriminate |].
    destruct (t_rc t); [discriminate |].
    intros H. destruct (IH H) as (l' & t' & Hl & _). discriminate.
Qed.

(** X25. The time budget: a run ends as [TIMEOUT] only if there is a
    budget, from the option or else a nonzero one from the descriptor,
    and an observation of the poll loop was made later than it; without
    a budget no run times out.  A run that times out or is cancelled
    reports no result, whatever the worker printed.  The budget is checked
    before the exit code: a worker seen to have exited with code zero at an
    observation later than the budget gives [TIMEOUT]. *)
Theorem timeout_needs_budget (opt_timeout : option Z) (one_shot : Z)
        (popen_error : option string) (join_raises : bool)
        (ticks : list tick)
        (lines : list string) (r : OneShotRunResult) :
  run_one_shot json_loads py_str opt_timeout one_shot popen_error join_raises
               ticks lines
    = Some r ->
  (status r = TIMEOUT ->
   exists limit t,
     effective_timeout opt_timeout one_shot = Some limit /\
     t ∈ ticks /\ limit < t_elapsed t) /\
  (status r = TIMEOUT \/ status r = CANCELLED -> result r = JNull) /\
  (forall limit t rest,
     effective_timeout opt_timeout one_shot = Some limit ->
     popen_error = None -> ticks = t :: rest -> limit < t_elapsed t ->
     status r = TIMEOUT).
Proof.
  unfold run_one_shot. destruct popen_error as [name|].
  - intros [= <-]. cbn [status result]. split_and!.
    + discriminate.
    + intros [H | H]; discriminate.
    + intros ? ? ? _ H. discriminate.
  - destruct (poll (effective_timeout opt_timeout one_shot) ticks) eqn:Hpoll;
      [destruct join_raises | | |]; intros [= <-]; cbn [status result].
    + split_and!.
      * discriminate.
      * intros [H | H]; discriminate.
      * intros limit t rest Hl _ -> Hlt. exfalso. rewrite Hl in Hpoll.
        cbn [poll] in Hpoll. apply Z.ltb_lt in Hlt. rewrite Hlt in Hpoll.
        discriminate.
    + split_and!.
      * destruct (truthy_opt _); [discriminate |].
        destruct (negb (rc =? 0)); discriminate.
      * destruct (truthy_opt _); [intros [H | H]; discriminate |].
        destruct (negb (rc =? 0)); intros [H | H]; discriminate.
      * intros limit t rest Hl _ -> Hlt. exfalso. rewrite Hl in Hpoll.
        cbn [poll] in Hpoll. apply Z.ltb_lt in Hlt. rewrite Hlt in Hpoll.
        discriminate.
    + split_and!; auto. intros _. apply poll_timed_out, Hpoll.
    + split_and!; auto; [discriminate |].
      intros limit t rest Hl _ -> Hlt. exfalso. rewrite Hl in Hpoll.
      cbn [poll] in Hpoll. apply Z.ltb_lt in Hlt. rewrite Hlt in Hpoll.
      discriminate.
Qed.

End RunnerOpsFacts.

Lemma parse_prefixed_round_trip_witness :
  RunnerOps.no_space "RESULT" = true /\ PyStr.strip "RESULT" = "RESULT"%string /\
  Runner._parse_prefixed "PCTX:RESULT {} and more" = Some ("RESULT", "{} and more")%string.
Proof.
  split; [reflexivity |]. split; [reflexivity |].
  exact (proj1 (parse_prefixed_round_trip "RESULT" "{} and more" eq_refl eq_refl)).
Defined.

Lemma result_is_last_result_payload_witness :
  let loads := fun raw : string =>
    if String.eqb raw "1" then Some (Ipc.JObj [("ok", Ipc.JBool true);
                                                ("result", Ipc.JInt 1)]%string)
    else if String.eqb raw "2" then Some (Ipc.JObj [("ok", Ipc.JBool true);
                                                     ("result", Ipc.JInt 2)]%string)
    else None in
  let waiting := {| Runner.t_rc := None; Runner.t_elapsed := 150;
                    Runner.t_cancel := false |} in
  let exited := {| Runner.t_rc := Some 0; Runner.t_elapsed := 300;
                   Runner.t_cancel := false |} in
  (exists r,
     Runner.run_one_shot loads (fun _ => EmptyString) None 0 None false
       [waiting; exited]
       ["PCTX:RESULT 1"; "PCTX:RESULT 2"; "PCTX:RESULT oops"; "done"]%string
     = Some r /\ Runner.result r = Ipc.JInt 2) /\
  (exists r,
     Runner.run_one_shot loads (fun _ => EmptyString) None 0 None true
       [waiting; exited]
       ["PCTX:RESULT 1"; "PCTX:RESULT 2"; "PCTX:RESULT oops"; "done"]%string
     = Some r /\
     Runner.status r = Runner.ERROR /\ Runner.result r = Ipc.JNull).
Proof.
  intros loads waiting exited. split.
  - destruct (result_is_last_result_payload loads (fun _ => EmptyString) None 0
                false [waiting] exited []
                ["PCTX:RESULT 1"%string] ["PCTX:RESULT oops"; "done"]%string
                "PCTX:RESULT 2" (Ipc.JInt 2) 0)
      as (r & Hrun & Hres & _);
      [reflexivity | reflexivity | reflexivity | reflexivity | reflexivity
      | repeat constructor |].
    exists r. split; [exact Hrun | exact (proj1 (Hres eq_refl))].
  - destruct (result_is_last_result_payload loads (fun _ => EmptyString) None 0
                true [waiting] exited []
                ["PCTX:RESULT 1"%string] ["PCTX:RESULT oops"; "done"]%string
                "PCTX:RESULT 2" (Ipc.JInt 2) 0)
      as (r & Hrun & _ & Herr);
      [reflexivity | reflexivity | reflexivity | reflexivity | reflexivity
      | repeat constructor |].
    exists r. split; [exact Hrun |]. rewrite (Herr eq_refl). split; reflexivity.
Defined.

Lemma timeout_needs_budget_witness :
  let ticks := [ {| Runner.t_rc := Some 0; Runner.t_elapsed := 150;
                    Runner.t_cancel := false |} ] in
  let r := {| Runner.status := Runner.TIMEOUT; Runner.result := Ipc.JNull;
              Runner.error_type := Some "TimeoutExceeded"%string;
              Runner.error_message := Some "timeout"%string;
              Runner.traceback := None |} in
  Runner.run_one_shot (fun _ => None) (fun _ => EmptyString) (Some 100) 0 None
                      false ticks ["PCTX:RESULT 1"%string] = Some r /\
  Runner.result r = Ipc.JNull.
Proof.
  intros ticks r.
  assert (Runner.run_one_shot (fun _ => None) (fun _ => EmptyString) (Some 100) 0
            None false ticks ["PCTX:RESULT 1"%string] = Some r) as Hrun
    by reflexivity.
  split; [exact Hrun |].
  apply (proj1 (proj2 (timeout_needs_budget _ _ _ _ _ _ _ _ _ Hrun))).
  left. reflexivity.
Defined.

(* ===================================================================== *)
(** ** ServiceSession.ping *)
(* ===================================================================== *)

Section IpcPingFacts.
Import PyStr Ipc IpcOps.
Variable json_loads : string -> option json.
Variable py_str : json -> string.

(** X27. [ping] tells whether the worker answered, while the reader
    runs.  With the ping registered and written, and the reader having
    handled, without failing, lines that do not carry its identifier: a
    response line carrying the identifier makes the ping return [True], an
    exception line carrying it [False]; and if no such line comes while
    the reader still runs, the ping returns [False] once its timeout is
    over and removes its entry.  If the reader loop has ended instead, by
    a line that made it fail, the end of the stream, a read error or a
    stop, the ping does not return [False]: it raises [AttributeError].  A
    ping whose write fails returns [False] at once. *)
Theorem ping_tells_whether_answered (s : ServiceSession) (rid : string)
        (fields : list (string * json)) (lines : list string) (t : Z)
        (e : stream_end) :
  rid <> EmptyString ->
  obj_get fields "req_id" = Some (JStr rid) ->
  existsb (carries json_loads rid) lines = false ->
  let s1 := fst (ping_begin s rid true) in
  let s2 := fst (reader_lines json_loads py_str s1 lines) in
  (snd (reader_lines json_loads py_str s1 lines) = None ->
   snd (ping_end (fst (dispatch py_str s2 RESP (JObj fields))) rid (Some t))
     = Return true /\
   snd (ping_end (fst (dispatch py_str s2 EXC (JObj fields))) rid (Some t))
     = Return false /\
   ping_end s2 rid (Some t) = (pop s2 rid, Return false)) /\
  snd (ping_end (_reader_loop json_loads py_str s1 lines e) rid (Some t))
    = Raise AttributeError /\
  snd (ping_begin s rid false) = Return (Some false).
Proof.
  intros Hne Hid Hno s1 s2.
  assert (snd (ping_end (_reader_loop json_loads py_str s1 lines e) rid (Some t))
          = Raise AttributeError /\
          (snd (ping_end (fst (dispatch py_str s2 RESP (JObj fields))) rid (Some t))
           = Return true /\
           snd (ping_end (fst (dispatch py_str s2 EXC (JObj fields))) rid (Some t))
           = Return false /\
           ping_end s2 rid (Some t) = (pop s2 rid, Return false) /\
           snd (ping_begin s rid false) = Return (Some false)));
    [| tauto].
  split.
  { destruct (reader_lines_cases json_loads py_str lines s1) as (Hp & Hs & _).
    destruct (reader_loop_end json_loads py_str s1 lines e) as (_ & _ & _ & _ & Hsl).
    cbv zeta in Hp, Hs, Hsl. rewrite Hp in Hsl.
    specialize (Hsl rid). rewrite (Hs rid Hno) in Hsl.
    assert (slots s1 !! rid
            = Some {| evt := false; resp := None; slot_req_id := rid |}) as Hs1.
    { unfold s1, ping_begin, register. simpl. apply lookup_insert_eq. }
    rewrite Hs1 in Hsl. rewrite decide_True in Hsl.
    2:{ unfold s1, ping_begin, register. simpl. apply elem_of_union. left.
        apply elem_of_singleton. reflexivity. }
    unfold ping_end, wait. rewrite Hsl. reflexivity. }
  assert (slots s1 !! rid
          = Some {| evt := false; resp := None; slot_req_id := rid |}) as Hs1.
  { unfold s1, ping_begin, register. simpl. apply lookup_insert_eq. }
  assert (rid ∈ _pending s1) as Hp1.
  { unfold s1, ping_begin, register. simpl. apply elem_of_union. left.
    apply elem_of_singleton. reflexivity. }
  destruct (reader_lines_cases json_loads py_str lines s1) as (Hp & Hs & _).
  cbv zeta in Hp, Hs. fold s2 in Hp, Hs.
  assert (slots s2 !! rid
          = Some {| evt := false; resp := None; slot_req_id := rid |}) as Hs2
    by (rewrite (Hs rid Hno); exact Hs1).
  assert (rid ∈ _pending s2) as Hp2 by (rewrite Hp; exact Hp1).
  split_and!.
  - destruct (dispatch_resp_registered py_str s2 fields rid _ Hid Hp2 Hs2)
      as (s' & r & Hd & Hsl & Hok & _).
    rewrite Hd. cbn [fst]. unfold ping_end, wait. rewrite Hsl. cbn.
    rewrite Hok. reflexivity.
  - destruct (dispatch_exc_registered py_str s2 fields rid _ Hid Hne Hp2 Hs2)
      as (s' & r & Hd & Hsl & Hok & _).
    rewrite Hd. cbn [fst]. unfold ping_end, wait. rewrite Hsl. cbn.
    rewrite Hok. reflexivity.
  - unfold ping_end, wait. rewrite Hs2. reflexivity.
  - reflexivity.
Qed.

End IpcPingFacts.

Lemma ping_tells_whether_answered_witness :
  let fields := [("ok", Ipc.JBool true); ("req_id", Ipc.JStr "p");
                 ("result", Ipc.JStr "pong")]%string in
  let s1 := fst (Ipc.ping_begin Ipc.new_session "p" true) in
  ("p"%string <> EmptyString /\
   snd (Ipc.reader_lines (fun _ => None) (fun _ => EmptyString) s1 []) = None) /\
  snd (Ipc.ping_end (fst (Ipc.dispatch (fun _ => EmptyString) s1 Ipc.RESP
                            (Ipc.JObj fields))) "p" (Some 2000))
    = Ipc.Return true /\
  snd (Ipc.ping_end (Ipc._reader_loop (fun _ => None) (fun _ => EmptyString)
                                      s1 [] Ipc.Eof) "p" (Some 2000))
    = Ipc.Raise Ipc.AttributeError.
Proof.
  intros fields s1.
  assert ("p"%string <> EmptyString) as Hne by discriminate.
  split; [split; [exact Hne | reflexivity] |].
  destruct (ping_tells_whether_answered (fun _ => None) (fun _ => EmptyString)
              Ipc.new_session "p" fields [] 2000 Ipc.Eof Hne eq_refl eq_refl)
    as (Hrun & Hend & _).
  split; [exact (proj1 (Hrun eq_refl)) | exact Hend].
Defined.

(* ===================================================================== *)
(** ** ensure_environment: how a call can end *)
(* ===================================================================== *)

Section EnvsOutcomeFacts.
Import PyStr Envs EnvsOps.

Lemma pip_install_normalized w packages x l :
  _normalize_packages packages = x :: l ->
  pip_install w (x :: l)
  = if negb (pip_install_rc w =? 0) then Raise (DependencyError "pip install")
    else Return tt.
Proof.
  intros E. unfold pip_install.
  destruct (normalize_packages_normal_form_aux packages) as [_ Hall].
  rewrite E in Hall. cbn [List.filter].
  destruct (Hall x) as [Hs Hn]; [apply list_elem_of_here |].
  rewrite Hs, Hn. reflexivity.
Qed.

Lemma lock_enter_raise fuel w lk c e :
  lock_enter fuel w lk c = Some (Raise e) -> exists msg, e = TimeoutError msg.
Proof.
  unfold lock_enter.
  destruct (lock_acquire fuel w lk c) as [[[[|] lk'] c']|]; intros H;
    inversion H; subst; eauto.
Qed.

(** X28. How a call of [ensure_environment] ends, as far as it returns a
    handle or raises one of the two setup errors.  An environment found
    ready before the lock is returned at once, with [created] false:
    nothing else is looked at.  Whenever a handle is returned, it says
    [created] exactly when the environment was found ready neither before
    nor under the lock, and then every step succeeded: the virtual
    environment exists or was created, pip is there or [ensurepip]
    succeeded, the base tools were installed, and the packages were
    installed; the packages step is skipped when the dependency list has
    no entry that is not blank.  Whenever [EnvironmentSetupError] or
    [DependencyError] is raised, the environment was not ready and one of
    these steps failed.  The other ways a call can end are not described
    here: the [TimeoutError] of the lock, and the exceptions the model
    leaves out. *)
Theorem ensure_environment_outcomes (fuel : nat) (w : world) (meta : ScriptMeta)
        (mode : EnvMode) :
  let steps_ok :=
    (venv_present w || (venv_rc w =? 0)) &&
    (pip_present w || (ensurepip_rc w =? 0)) &&
    (base_tools_rc w =? 0) &&
    match entries (depends_pip meta) with
    | [] => true
    | _ => pip_install_rc w =? 0
    end in
  (ready_fast w = true ->
   exists h, ensure_environment fuel w meta mode = Some (Return h) /\
             created h = false) /\
  (forall h, ensure_environment fuel w meta mode = Some (Return h) ->
     created h = negb (ready_fast w || ready_locked w) /\
     (created h = true -> steps_ok = true)) /\
  (forall e, ensure_environment fuel w meta mode = Some (Raise e) ->
     ready_fast w = false /\
     ((exists msg, e = EnvironmentSetupError msg \/ e = DependencyError msg) ->
      ready_locked w = false /\ steps_ok = false)).
Proof.
  intros steps_ok.
  assert (entries (depends_pip meta) = [] <->
          _normalize_packages (depends_pip meta) = []) as Hempty.
  { destruct (normalize_loop_spec (depends_pip meta) ∅ []) as (_ & Hsub & _ & Hcov).
    { intros k. simpl. rewrite elem_of_empty. reflexivity. }
    { constructor. }
    unfold _normalize_packages. split.
    - intros He.
      destruct (sort_by_key lower (normalize_loop (depends_pip meta) ∅ []))
        as [|x l] eqn:E; [reflexivity |].
      exfalso. assert (x ∈ x :: l) as Hx by apply list_elem_of_here.
      rewrite <- E in Hx. apply sort_by_key_elem in Hx.
      destruct (Hsub x Hx) as [Hi | Hi]; [inversion Hi |].
      rewrite He in Hi. inversion Hi.
    - intros Hn.
      destruct (entries (depends_pip meta)) as [|x l] eqn:E; [reflexivity |].
      exfalso. pose proof (Hcov x (list_elem_of_here _ _)) as Hin.
      apply in_map_iff in Hin as (y & _ & Hy). apply list_elem_of_In in Hy.
      apply (sort_by_key_elem lower) in Hy. rewrite Hn in Hy. inversion Hy. }
  unfold ensure_environment.
  destruct (match mode with CACHED => _ | PER_SCRIPT => _ end) as [[k p] kd].
  destruct (ready_fast w) eqn:Hfast.
  { split; [intros _; eexists; split; reflexivity |].
    split; [intros h [= <-]; cbn [created orb negb]; split;
            [reflexivity | discriminate] |].
    intros e [=]. }
  split; [discriminate |].
  destruct (lock_enter fuel w (new_lock (_lock_path_for_env p))
                       {| attempts := 0; readings := 0 |})
    as [[lk | e0]|] eqn:Hlock.
  2:{ split; [intros h [=] |]. intros e [= <-]. split; [reflexivity |].
      destruct (lock_enter_raise _ _ _ _ _ Hlock) as [msg0 ->].
      intros (msg & [H | H]); discriminate. }
  2:{ split; [intros h [=] | intros e [=]]. }
  destruct (ready_locked w) eqn:Hlocked.
  { split; [intros h [= <-]; cbn [created orb negb]; split;
            [reflexivity | discriminate] |].
    intros e [=]. }
  cbn [orb negb]. unfold bind, _ensure_venv, _ensure_pip_present, ensure_base_tools.
  subst steps_ok.
  assert (match _normalize_packages (depends_pip meta) with
          | [] => Return tt
          | _ :: _ => pip_install w (_normalize_packages (depends_pip meta))
          end
          = if match entries (depends_pip meta) with
               | [] => true
               | _ => pip_install_rc w =? 0
               end
            then Return tt else Raise (DependencyError "pip install")) as ->.
  { destruct (_normalize_packages (depends_pip meta)) as [|x l] eqn:E.
    - rewrite (proj2 Hempty eq_refl). reflexivity.
    - rewrite (pip_install_normalized w _ x l E).
      destruct (entries (depends_pip meta)) as [|y l'] eqn:E'.
      + pose proof (proj1 Hempty eq_refl) as Hc. discriminate Hc.
      + destruct (pip_install_rc w =? 0); reflexivity. }
  destruct (match entries (depends_pip meta) with
            | [] => true
            | _ => pip_install_rc w =? 0
            end);
    destruct (venv_present w), (pip_present w), (venv_rc w =? 0),
             (ensurepip_rc w =? 0), (base_tools_rc w =? 0);
    cbn [orb negb andb created];
    (split; [intros h H; inversion H; subst; cbn [created]; auto
            | intros e H; inversion H; subst; auto]).
Qed.

End EnvsOutcomeFacts.

Lemma ensure_environment_outcomes_witness :
  let mk := fun ready : bool =>
    {| Envs.mkdir_at := fun _ => Envs.MkdirOk;
       Envs.time_at := fun n => 200 * Z.of_nat n;
       Envs.sys_executable := "/usr/bin/python3";
       Envs.python_version_id := fun _ => "py311"%string;
       Envs.venvs_root := "/home/u/.cache/pcontext/venvs";
       Envs.os_nt := false; Envs.ready_fast := ready;
       Envs.ready_locked := false; Envs.venv_present := false;
       Envs.venv_rc := 0; Envs.pip_present := true;
       Envs.ensurepip_rc := 0; Envs.base_tools_rc := 0;
       Envs.pip_install_rc := 1 |} in
  let meta := {| Envs.stable_id := "demo"; Envs.python_interpreter := None;
                 Envs.depends_pip := ["requests"]%string |} in
  (exists h, Envs.ensure_environment 5 (mk true) meta Envs.PER_SCRIPT
             = Some (Envs.Return h) /\ Envs.created h = false) /\
  Envs.ensure_environment 5 (mk false) meta Envs.PER_SCRIPT
  = Some (Envs.Raise (Envs.DependencyError "pip install")) /\
  Envs.ready_locked (mk false) = false /\
  (Envs.pip_install_rc (mk false) =? 0) = false.
Proof.
  intros mk meta.
  destruct (ensure_environment_outcomes 5 (mk true) meta Envs.PER_SCRIPT)
    as (Hfast & _ & _).
  split; [exact (Hfast eq_refl) |].
  assert (Envs.ensure_environment 5 (mk false) meta Envs.PER_SCRIPT
          = Some (Envs.Raise (Envs.DependencyError "pip install"))) as Hrun
    by (vm_compute; reflexivity).
  split; [exact Hrun |].
  destruct (ensure_environment_outcomes 5 (mk false) meta Envs.PER_SCRIPT)
    as (_ & _ & Hraise).
  destruct (Hraise _ Hrun) as [_ Hstep].
  destruct Hstep as [Hl _]; [eexists; right; reflexivity |].
  split; [exact Hl | reflexivity].
Defined.

(* ===================================================================== *)
(** ** The service worker and its session *)
(* ===================================================================== *)

Section ServiceWorkerFacts.
Import PyStr Ipc ServiceWorker.
Variable json_loads : string -> option json.
Variable decode_error : string -> raised.
Variable py_str : json -> string.
Variable describe : string -> string -> string * string.
Variable md : UserModule.
Variable default_entry : string.
Variable shutdown_callable : bool.
Variable ctx : json.

Lemma pending_get_hashable s rid :
  hashable rid = true -> exists r, pending_get s rid = inr r.
Proof.
  intros H. unfold pending_get. rewrite H. cbn [negb].
  destruct rid; try (eexists; reflexivity).
  destruct (decide (s0 ∈ _pending s)); eexists; reflexivity.
Qed.

Lemma resp_harmless rid v : hashable rid = true -> harmless py_str (RESP, resp_payload rid v).
Proof.
  intros H s. cbn [fst snd]. unfold dispatch, resp_payload, payload_get.
  change (obj_get _ "req_id") with (Some rid).
  destruct (pending_get_hashable s rid H) as [[[k sl]|] ->]; reflexivity.
Qed.

Lemma exc_harmless rid e : hashable rid = true -> harmless py_str (EXC, exc_payload rid e).
Proof.
  intros H s. destruct e as [et em tb]. cbn [fst snd].
  unfold dispatch, exc_payload, payload_get.
  change (obj_get _ "req_id") with (Some rid).
  destruct (truthy rid).
  - destruct (pending_get_hashable s rid H) as [[[k sl]|] ->]; reflexivity.
  - destruct (_ready_evt s); reflexivity.
Qed.

Lemma bye_harmless reason : harmless py_str (BYE, bye_payload reason).
Proof. intros s. reflexivity. Qed.

Lemma run_shutdown_ok n rid :
  hashable rid = true ->
  Forall is_answer (run_shutdown md shutdown_callable n rid) /\
  Forall (harmless py_str) (run_shutdown md shutdown_callable n rid).
Proof.
  intros H. unfold run_shutdown. destruct shutdown_callable; [| split; constructor].
  destruct (call_shutdown md n) as [e|]; [| split; constructor].
  split; (constructor; [| constructor]); [right; reflexivity |].
  apply exc_harmless, H.
Qed.

(** What one round prints. *)
Lemma handle_line_ok n raw :
  plain_id json_loads raw = true ->
  match handle_line json_loads decode_error py_str describe md default_entry
                    shutdown_callable ctx n raw with
  | Next outs _ => Forall is_answer outs /\ Forall (harmless py_str) outs
  | Exit outs code =>
      code = 0 /\
      exists pre, outs = pre ++ [(BYE, bye_payload "shutdown")] /\
                  Forall is_answer pre /\ Forall (harmless py_str) pre
  end.
Proof.
  unfold plain_id, handle_line.
  destruct (nonempty (strip (rstrip_crlf raw))); cbn [negb];
    [| intros _; split; constructor].
  assert (forall e, Forall is_answer [(EXC, exc_payload JNull e)] /\
                    Forall (harmless py_str) [(EXC, exc_payload JNull e)]) as Hnull.
  { intros e. split; (constructor; [| constructor]); [right; reflexivity |].
    apply exc_harmless. reflexivity. }
  destruct (json_loads (strip (rstrip_crlf raw))) as [[| | | | | |fields]|];
    try (intros _; apply Hnull).
  intros Hid. unfold handle_command.
  set (rid := get fields "req_id") in *.
  assert (forall e, Forall is_answer [(EXC, exc_payload rid e)] /\
                    Forall (harmless py_str) [(EXC, exc_payload rid e)]) as Hexc.
  { intros e. split; (constructor; [| constructor]); [right; reflexivity |].
    apply exc_harmless, Hid. }
  assert (forall v, Forall is_answer [(RESP, resp_payload rid v)] /\
                    Forall (harmless py_str) [(RESP, resp_payload rid v)]) as Hresp.
  { intros v. split; (constructor; [| constructor]); [left; reflexivity |].
    apply resp_harmless, Hid. }
  destruct (String.eqb _ "request").
  { cbv zeta.
    assert (forall entry i p c,
              match match call md n entry i p c with
                    | Returned v => Next [(RESP, resp_payload rid v)] (S n)
                    | Failed e => Next [(EXC, exc_payload rid e)] (S n)
                    end with
              | Next outs _ => Forall is_answer outs /\ Forall (harmless py_str) outs
              | Exit outs code =>
                  code = 0 /\
                  exists pre, outs = pre ++ [(BYE, bye_payload "shutdown")] /\
                              Forall is_answer pre /\ Forall (harmless py_str) pre
              end) as Hrun.
    { intros entry i p c. destruct (call md n entry i p c); [apply Hresp | apply Hexc]. }
    destruct (get fields "entry") as [| | | |e| |]; try apply Hrun.
    destruct (nonempty e); [| apply Hrun].
    destruct (is_callable md e); [apply Hrun | apply Hexc]. }
  destruct (String.eqb _ "ping"); [apply Hresp |].
  destruct (String.eqb _ "shutdown"); [| apply Hexc].
  split; [reflexivity |]. eexists. split; [reflexivity |].
  apply run_shutdown_ok, Hid.
Qed.

(** X29. What the worker prints in its command loop never breaks the
    reader of its session.  For any lines on its standard input whose
    commands carry an identifier that is a string, a number, a boolean or
    null (the session writes strings), the worker exits with code 0 after
    printing response and exception lines and then exactly one goodbye
    line, and the dictionary of every line it prints is handled by the
    reader of the session without an exception, as far as the session
    decodes what the worker encoded. *)
Theorem worker_output_is_harmless (n : nat) (lines : list string) :
  forallb (plain_id json_loads) lines = true ->
  let out := main_loop json_loads decode_error py_str describe md default_entry
                       shutdown_callable ctx n lines in
  snd out = 0 /\
  (exists pre reason, fst out = pre ++ [(BYE, bye_payload reason)] /\
                      Forall is_answer pre) /\
  Forall (harmless py_str) (fst out).
Proof.
  revert n. induction lines as [|raw lines IH]; intros n Hall; cbn [main_loop].
  - destruct (run_shutdown_ok n JNull eq_refl) as [Ha Hh].
    cbn [fst snd]. split_and!; [reflexivity | eauto |].
    apply Forall_app. split; [exact Hh |].
    constructor; [apply bye_harmless | constructor].
  - cbn [forallb] in Hall. apply andb_true_iff in Hall as [Hraw Hall].
    pose proof (handle_line_ok n raw Hraw) as Hstep.
    destruct (handle_line json_loads decode_error py_str describe md default_entry
                          shutdown_callable ctx n raw) as [outs n' | outs code].
    + destruct Hstep as [Ha Hh].
      destruct (IH n' Hall) as (Hcode & (pre & reason & Hpre & Hapre) & Hharm).
      cbv zeta in *.
      destruct (main_loop json_loads decode_error py_str describe md default_entry
                          shutdown_callable ctx n' lines) as [more code'].
      cbn [fst snd] in *. split_and!; [exact Hcode | |].
      * exists (outs ++ pre), reason. rewrite Hpre, app_assoc.
        split; [reflexivity | apply Forall_app; auto].
      * apply Forall_app. auto.
    + destruct Hstep as (-> & pre & -> & Ha & Hh). cbn [fst snd].
      split_and!; [reflexivity | eauto |].
      apply Forall_app. split; [exact Hh |].
      constructor; [apply bye_harmless | constructor].
Qed.

(** X30. A request goes round: the session registers a request and writes
    its command; the worker, reading that command, calls the default
    request function once and prints one line; the reader stores it; and
    [request] returns a response with the identifier of the request which
    is [ok] with the value of the function when it returned, and not [ok]
    with the class, message and traceback of the exception when it
    raised.  It is assumed that the worker decodes the command the session
    encoded, that the session decodes what the worker encoded, and that
    [str] of a string is that string. *)
Theorem request_round_trip (s : ServiceSession) (rid : string) (n : nat)
        (inputs params cctx : json) (raw : string) (timeout : option Z) :
  (forall x, py_str (JStr x) = x) ->
  rid <> EmptyString ->
  nonempty (strip (rstrip_crlf raw)) = true ->
  json_loads (strip (rstrip_crlf raw))
    = Some (JObj (request_command rid inputs params cctx None)) ->
  let s1 := fst (request_begin s rid true) in
  exists o s2 r,
    handle_line json_loads decode_error py_str describe md default_entry
                shutdown_callable ctx n raw = Next [o] (S n) /\
    dispatch py_str s1 (fst o) (snd o) = (s2, None) /\
    request_end s2 rid timeout = (pop s2 rid, Return r) /\
    req_id r = JStr rid /\
    match call md n default_entry (py_or inputs (JArr [])) (py_or params (JObj []))
               (or_ctx cctx ctx) with
    | Returned v => ok r = true /\ result r = v
    | Failed (Raised et em tb) =>
        ok r = false /\
        error_type r = Some (if nonempty et then et else "Error"%string) /\
        error_message r = Some em /\ traceback r = Some tb
    end.
Proof.
  intros Hstr Hne Hline Hloads s1.
  assert (slots s1 !! rid
          = Some {| evt := false; resp := None; slot_req_id := rid |}) as Hs1.
  { unfold s1, request_begin, register. simpl. apply lookup_insert_eq. }
  assert (rid ∈ _pending s1) as Hp1.
  { unfold s1, request_begin, register. simpl. apply elem_of_union. left.
    apply elem_of_singleton. reflexivity. }
  assert (pending_get s1 (JStr rid)
          = inr (Some (rid, {| evt := false; resp := None; slot_req_id := rid |})))
    as Hget by (apply pending_get_registered; assumption).
  assert (truthy (JStr rid) = true) as Htr
    by (destruct rid; [contradiction | reflexivity]).
  unfold handle_line. rewrite Hline, Hloads. cbn [negb].
  unfold handle_command, request_command. rewrite app_nil_r.
  change (get _ "op") with (JStr "request").
  change (get _ "req_id") with (JStr rid).
  change (get _ "entry") with JNull.
  change (get _ "ctx") with cctx.
  change (obj_get _ "inputs") with (Some inputs).
  change (obj_get _ "params") with (Some params).
  change (py_or (JStr "request") (JStr "")) with (JStr "request").
  rewrite Hstr. change (String.eqb "request" "request") with true. cbv zeta iota.
  destruct (call md n default_entry (py_or inputs (JArr [])) (py_or params (JObj []))
                 (or_ctx cctx ctx)) as [v | [et em tb]].
  - eexists _, _, _. split; [reflexivity |]. cbn [fst snd].
    unfold dispatch, resp_payload, payload_get.
    change (obj_get _ "req_id") with (Some (JStr rid)).
    change (obj_get _ "result") with (Some v).
    cbv beta iota. rewrite Hget. split; [reflexivity |].
    unfold request_end, deliver, wait. cbn [slots with_slots].
    rewrite lookup_insert_eq. cbn. split; [reflexivity |]. auto.
  - eexists _, _, _. split; [reflexivity |]. cbn [fst snd].
    unfold dispatch, exc_payload, payload_get.
    change (obj_get _ "req_id") with (Some (JStr rid)).
    cbv beta iota zeta. rewrite Htr, Hget. split; [reflexivity |].
    unfold request_end, deliver, wait. cbn [slots with_slots].
    rewrite lookup_insert_eq. cbn. split; [reflexivity |].
    split; [reflexivity |]. split; [reflexivity |].
    unfold py_or. cbn [truthy].
    destruct (nonempty et) eqn:Het; destruct (nonempty em) eqn:Hem;
      destruct (nonempty tb) eqn:Htb; rewrite !Hstr;
      repeat match goal with
             | H : nonempty ?x = false |- _ =>
                 destruct x; [clear H | discriminate H]
             end;
      auto.
Qed.

End ServiceWorkerFacts.

Lemma worker_output_is_harmless_witness :
  let loads := fun raw : string =>
    if String.eqb raw "ping" then Some (Ipc.JObj (ServiceWorker.ping_command "p"))
    else if String.eqb raw "list" then Some (Ipc.JArr [])
    else None in
  let str := fun v : Ipc.json =>
    match v with Ipc.JStr x => x | _ => EmptyString end in
  let md := {| ServiceWorker.is_callable := fun _ => true;
               ServiceWorker.call := fun _ _ _ _ _ =>
                 ServiceWorker.Returned Ipc.JNull;
               ServiceWorker.call_shutdown := fun _ => None |} in
  let lines := ["ping"; ""; "list"; "{oops"]%string in
  forallb (ServiceWorker.plain_id loads) lines = true /\
  snd (ServiceWorker.main_loop loads
         (fun _ => ServiceWorker.Raised "JSONDecodeError" "" "") str
         (fun _ _ => (EmptyString, EmptyString)) md "pcontext_request" true
         Ipc.JNull 0 lines) = 0.
Proof.
  intros loads str md lines. split; [reflexivity |].
  exact (proj1 (worker_output_is_harmless loads
                  (fun _ => ServiceWorker.Raised "JSONDecodeError" "" "") str
                  (fun _ _ => (EmptyString, EmptyString)) md "pcontext_request"
                  true Ipc.JNull 0 lines eq_refl)).
Defined.

Lemma request_round_trip_witness :
  let loads := fun raw : string =>
    if String.eqb raw "req"
    then Some (Ipc.JObj (ServiceWorker.request_command
                           "a" (Ipc.JArr []) (Ipc.JObj []) Ipc.JNull None))
    else None in
  let str := fun v : Ipc.json =>
    match v with Ipc.JStr x => x | _ => EmptyString end in
  let md := {| ServiceWorker.is_callable := fun _ => true;
               ServiceWorker.call := fun _ _ _ _ _ =>
                 ServiceWorker.Returned (Ipc.JStr "done");
               ServiceWorker.call_shutdown := fun _ => None |} in
  (forall x, str (Ipc.JStr x) = x) /\
  loads (PyStr.strip (Ipc.rstrip_crlf "req"))
    = Some (Ipc.JObj (ServiceWorker.request_command
                        "a" (Ipc.JArr []) (Ipc.JObj []) Ipc.JNull None)) /\
  exists o s2 r,
    Ipc.dispatch str (fst (Ipc.request_begin Ipc.new_session "a" true))
                 (fst o) (snd o) = (s2, None) /\
    Ipc.request_end s2 "a" (Some 5000) = (Ipc.pop s2 "a", Ipc.Return r) /\
    Ipc.result r = Ipc.JStr "done".
Proof.
  intros loads str md.
  assert (forall x, str (Ipc.JStr x) = x) as Hstr by reflexivity.
  split; [exact Hstr |]. split; [reflexivity |].
  destruct (request_round_trip loads
              (fun _ => ServiceWorker.Raised "JSONDecodeError" "" "") str
              (fun _ _ => (EmptyString, EmptyString)) md "pcontext_request" true
              Ipc.JNull Ipc.new_session "a" 0 (Ipc.JArr []) (Ipc.JObj []) Ipc.JNull
              "req" (Some 5000) Hstr)
    as (o & s2 & r & _ & Hd & Hend & _ & Hcall).
  - discriminate.
  - reflexivity.
  - reflexivity.
  - exists o, s2, r. split; [exact Hd |]. split; [exact Hend |].
    exact (proj2 Hcall).
Defined.
